(* ===== verification/_CoqProject ===== *)
-Q . S2P
Prelude.v
RustStr.v
Interfaces.v
Concrete.v
Isupport.v
Wire.v
WireFacts.v
Device.v
Manage.v
ListMigration.v
DeviceFacts.v
Trust.v
Peer.v
TrustFacts.v
PeerFacts.v
ManageFacts.v
Sas.v
Files.v
History.v
HistoryFacts.v
State.v
StateFacts.v
Versions.v
DeviceRoutes.v
Pacing.v
PacingFacts.v
SendFacts.v
Pairing.v
PairingFacts.v
Protocol.v
PairingFlow.v
PairingFlowFacts.v
PairingGrant.v
PairingGrantFacts.v
Backoff.v
Refusal.v
IdentityRoutes.v
Account.v
SendDoor.v
SelfCopy.v
Effects.v
Client.v
Provision.v
Revoke.v
PairingDrive.v
EffectsFacts.v
RevokeFacts.v
ProvisionFacts.v
PairingDriveFacts.v
EffectsExamples.v
EngineTypes.v
Engine.v
EngineReceive.v
EngineSend.v
EngineCopies.v
EngineFacts.v
EngineSendFacts.v
EngineReceiveFacts.v
EngineTrustFacts.v
EngineBoundsFacts.v
EngineCopyFacts.v
EngineExamples.v
Slash.v
E2eView.v
Runtime.v
Session.v
SessionViews.v
SessionEngines.v
SessionInbox.v
SessionPairing.v
SessionManage.v
SessionConsent.v
SessionFrames.v
Compose.v
RuntimeFacts.v
SessionFacts.v
SessionSendFacts.v
SessionStateFacts.v
SessionEngineFacts.v
SessionExamples.v
