(* ===== verification/Prelude.v ===== *)
(** * Cordiale: a verification library of the end-to-end encryption core

    Cordiale is a desktop client for the Grappa IRC bouncer. Its crate
    [crates/cordiale-core] holds the rules of the client, and the modules
    [e2e_*.rs] of this crate hold the rules of end-to-end encrypted private
    messages: who may be trusted, what may be sent and when, what the server
    may say, and what survives a crash. The crate [crates/cordiale-ui] runs
    them: its worker holds the engines of a session ([e2e_runtime.rs]), gives
    them the frames of the server, the timer and the commands of the user, and
    shows what becomes of it. This library translates these modules to Rocq
    definitions, one file or a few for each source module, and proves what they
    promise.

    ** How the parts interact

    A peer has a master key that signs the list of its devices. A message for
    a peer starts with a KEYS answer of the server: [verify_peer_device]
    observes the master ([PeerTrust.observe_master]), applies the signed list
    ([PeerTrust.accept_list], which calls [verify_signed_list] and
    [ListState.apply]), checks the id block of the device, and records its
    curve key. A first message of a device unknown to the list comes with a
    certificate ([verify_certified_device]). Replay of old messages is refused
    by [ReplayState]. Trust, replay and the own keys are parts of one
    [StateData], which [Store] seals and writes with [write_atomic] before an
    operation takes effect. Texts that are signed or sent are built and read
    in [Wire]; the answers of the server are read in [DeviceRoutes]; a KEYREQ,
    a one-time key or a message leaves only when [Pacing] lets it. Nicknames
    are compared with the case mapping of the network ([Isupport]).

    The own identity has a life of its own. [provision_device] makes the
    account and the master, signs the list and publishes the bundle; a new
    device joins by a pairing ([PairingSession] and the drivers of
    [PairingDrive]), in which the holder of the master signs a grant and the
    joiner checks it and runs [provision_device]; [revoke_device] takes a
    device out of the list, and [reset_identity] ends the identity. These
    functions call the server through [GrappaClient], whose refusals are read
    by [E2eRefusal], and write the store between the calls. They are of the
    type [eff] of [Effects]: what is outside (each answer, each failure of the
    disk, each random value) is given by a function of the events so far, and
    each theorem holds for every such function, so for every server and for a
    crash of the disk at any step.

    The engine of one device on one network ([E2eEngine]) composes all of
    this. A row of the inbox goes through [handle_row]: a KEYS text to
    [accept_keys], a NACK to [on_nack], a message to [receive_message] and a
    copy of an own device to [receive_copy]; what it decrypts goes to the
    history first, then to the store, and only then is the row acknowledged
    ([ack], [drain]). A text goes through [send_text]: the ready devices of the
    nick ([pick_devices]), one Olm message for each ([seal]), the plan of the
    requests ([plan_requests]), and for each request the save of its sessions
    before it leaves ([emit_group]). A text without a ready device waits in the
    queue ([queue_text], [flush_queue]) while the keys of the peer are asked
    for ([request_keys]); a sent text goes to the own devices too
    ([queue_copies], [send_copies]). The engine is the memory of the world of
    [eff], with its store and its history beside it.

    A session ([WorkerState] with its [E2eRuntime]) holds one engine for each
    network. Its worker takes one event after the other ([run_worker]): a frame
    of the socket ([handle_frame], which reads its kind with
    [ClientEventKind]), a connect, a tick, a command of the user. A handler is
    of the type [act]: it reads and changes the session, shows something
    ([UiEvent]), and runs the steps of an engine, of a pairing or of the client
    in the world of [eff], whose events go on in the log of the session
    ([done]). Most handlers take an engine out of the map ([take_held]), wait
    for its steps, and put it back ([put_held], [settle_engine]). A line that
    the user types goes through [route_message] of [Compose]: in a locked window
    to [handle_send_locked], else to a command ([Slash.parse], after
    [expand_aliases]) or to the plain path.

    ** Files

    - [Prelude]: results and their notation, panics, integers, lists, runs of
      a state machine and their simulation, automation.
    - [RustStr]: the [str] functions of the Rust standard library.
    - [Interfaces]: the parameters (JSON text, base64, hash, signatures) as
      classes, and their laws as classes of their own.
    - [Concrete]: executable instances of [Interfaces] for the witnesses.
    - [Isupport]: isupport.rs. [CaseMapping] and the snapshot of a network.
    - [Wire], [WireFacts]: e2e_wire.rs.
    - [Device], [Manage], [ListMigration], [DeviceFacts], [ManageFacts]:
      e2e_device.rs, e2e_manage.rs and e2e_list_migration.rs.
    - [Trust], [TrustFacts]: e2e_trust.rs, a Record for each peer and one
      Definition for each method of PeerTrust.
    - [Peer], [PeerFacts]: e2e_peer.rs.
    - [Files]: the atomic write of persistence.rs.
    - [State], [StateFacts]: e2e_state.rs and the error type of e2e_store.rs;
      the second has the runs too.
    - [Versions]: protocol.rs and the gates of e2e_protocol.rs.
    - [DeviceRoutes]: e2e_device_routes.rs, with its theorems.
    - [Pacing], [PacingFacts], [SendFacts]: e2e_pacing.rs.
    - [History], [HistoryFacts]: e2e_store.rs.
    - [Sas]: e2e_sas.rs. [Pairing], [PairingFacts]: e2e_pairing.rs.
    - [Protocol]: the operations and paths of e2e_protocol.rs.
    - [PairingFlow], [PairingGrant], [PairingFlowFacts], [PairingGrantFacts]:
      the session, the messages, the grant and the record of
      e2e_pairing_flow.rs, with runs of them; [PairingDrive],
      [PairingDriveFacts]: its drivers.
    - [Backoff]: backoff.rs. [Refusal]: e2e_refusal.rs and the errors of
      client.rs. [IdentityRoutes]: e2e_identity_routes.rs. [Account]:
      e2e_account.rs.
    - [Effects]: the type of a step with effects and its program logic ([wp]);
      [EffectsFacts]: kept invariants ([keeps], [gives]), the change that
      each operation of the store makes ([commits], [moves]), and the calls.
    - [Client]: the E2E and pairing calls of client.rs.
    - [Provision], [ProvisionFacts]: e2e_provision.rs. [Revoke],
      [RevokeFacts]: e2e_revoke.rs. [EffectsExamples]: runs of both and of a
      pairing.
    - [SendDoor]: the E2E requests of rest.rs and the target checks of
      slash.rs. [SelfCopy]: e2e_selfcopy.rs with its theorems.
    - [EngineTypes]: the payloads, records and outcomes of e2e_engine.rs and
      the plan of its requests; [Engine]: its state and what changes only that;
      [EngineReceive], [EngineSend], [EngineCopies]: its three paths.
    - [EngineFacts]: the rules for its steps ([logs], [in_mem]) and the plan of
      its requests; [EngineSendFacts], [EngineReceiveFacts],
      [EngineTrustFacts], [EngineBoundsFacts], [EngineCopyFacts]: its
      theorems; [EngineExamples]: its runs.
    - [Slash]: the commands and the aliases of slash.rs. [Compose]: the way of
      a typed line (handle_send_message and what it calls in main.rs, slash.rs
      and e2e_runtime.rs of cordiale-ui), with its theorems.
    - [E2eView]: e2e_view.rs, the states and the rows that the user sees.
    - [Runtime], [RuntimeFacts]: [E2eRuntime] of e2e_runtime.rs with its
      methods, and the rows of a locked window.
    - [Session]: the part of [WorkerState] that encryption uses and the type of
      a handler. The handlers of e2e_runtime.rs: [SessionViews] (windows and
      their states), [SessionEngines] (opening and provisioning),
      [SessionInbox] (rows, sends, ticks, checks of a peer), [SessionPairing],
      [SessionManage] (devices, revoke, reset, forget), [SessionConsent]
      (requests and the start of a session). [SessionFrames]: wire_event.rs,
      the branches of handle_frame in frames.rs and the worker of main.rs.
    - [SessionFacts]: rules for handlers; [SessionSendFacts],
      [SessionStateFacts], [SessionEngineFacts]: the theorems of a session;
      [SessionExamples]: its runs.

    A Module has the name of the Rust type that it models, [t] is its state,
    and a definition has the name of the method. A method that changes its
    receiver takes the old state and returns the new one with its result.

    ** What the theorems show

    - Trust: the chain of checks of an accepted device, the pinned master, and
      that no sequence of operations undoes a revocation except the one user
      action that replaces the master. A refusal changes nothing but what is
      stated.
    - Durability: under any failure of the disk the file of the state holds
      what the memory holds, and a failed operation changes neither; so does
      the history, but for an append whose torn end the disk will not cut,
      which leaves the rows before it and a file that does not open. Opening
      gives the state of the file or an error and never writes over it, unless
      the test for the file fails ([path_exists] is false then, as in Rust):
      then it gives the initial state, and writes nothing.
    - Refinement: each limiter, the KEYREQ pacer, and the replay windows answer
      as a specification that keeps the whole past.
    - Wire: round trips of frames and certificates, exactness of reassembly,
      the least number of frames, and that no text signed for one purpose is a
      text of another purpose.
    - Conservation: the outgoing queue neither loses nor doubles a message.
    - Pairing: the drivers move the session by its own steps; a grant is
      signed, listed and told only for the device that both sides confirmed,
      in this order; every pairing ends, with no key left, and an empty slot
      unless the last write of it failed.
    - Engine: nothing but Olm messages whose sessions are saved leaves, and
      only for devices that the trust allows; only a text that a session of a
      trusted sender decrypted enters the history, once; no row is
      acknowledged before its writes; a NACK sends a text again once at most,
      with just its own session gone; copies go to the verified own devices
      only; what the engine holds is bounded, and its counts of sends and of
      copies are those of what went out ([engine_holds], [copies_paid]); a
      drain ends.
    - Session: whatever events come in any order, no text of a chat leaves but
      in Olm messages whose sessions are saved, each other body is of a fixed
      kind without one ([no_text]), and no engine is lost; a line of a locked
      window never becomes plain text by itself; texts, rows and ticks leave
      the engine and the files of a reset network alone (a re-key by hand does
      not), and a reset needs its question, which changes nothing else; the
      state [Active] and the ciphertext view show what they promise; a pairing
      offer is shown and taken once while its id is remembered.
    - Own identity: it is never replaced; a revoke brings no revoked key into a
      list again ([keeps_out]: what the stored list had before is another
      matter, since a sync and a grant may put such a key there); a revoke that
      gives a result is done on the server, and one that starts can be resumed
      and finishes when it is served; a reset removes nothing before the server
      dropped the identity.

    ** Representation

    Unsigned integers are [N] and signed ones [Z]; where an operation can
    reach the width, its check, its saturation or its panic is written out,
    and a panic is [None] of [panics]. A [Duration] is its number of
    nanoseconds in [N]; an addition past [DURATION_MAX] panics as in Rust. A
    [str] is the string of its UTF-8 bytes. A HashMap or a BTreeMap is a
    [gmap]; a Vec is a list. Loops go over lists, over a number of frames, or
    over a number of tries that the source states. Two loops have fuel, the
    length of the text that they read: the reader of a history (28 bytes a
    turn, [read_loop_terminates]) and [str::replace] (a byte a turn).

    What the operating system decides (a lock that is taken, a test for a file
    that fails, a write cut short, a rename that is refused) is an argument of the operation, and the
    theorems hold for every such argument. JSON parsing, base64, SHA-256,
    Ed25519, the session library and the cipher are parameters; the laws used
    of them (a decoded text encodes back, the hash has 32 bytes, the cipher
    opens what it sealed) are classes that each theorem names. So are
    [reqwest::Url] ([UrlLib]), the ECIES channel of a pairing ([EciesChannel]),
    the keys of an account ([OlmKeys]), the sessions ([OlmSessions]) and the
    derived text forms ([EngineText]). [Chrono] is the crate chrono (the local
    zone and RFC 3339). In a session, [opening] gives what the disk does when
    the files of a network are opened, and [turns] bounds the pages of one
    drain: [drain_ends] says how many are enough, and no theorem of a session
    depends on the number.

    ** Not modelled

    The erasure of secrets in memory, [Drop], and the text forms that serde
    derives; network input and output; the floating-point jitter of a
    reconnection; the order in which a [HashMap] gives its entries (the model
    takes the order of the keys); the routes of the server that have nothing to
    do with end-to-end encryption. Of the desktop interface, the windows and
    the widgets: what a handler shows is a value of [UiEvent], and a frame or a
    part of a handler that has nothing to do with encryption is such a value
    too ([OtherFrame], [PlainRead], [Groups]). [run_slash_command] is modelled
    only as the plain messages that a command posts ([slash_posts]); the other
    requests of the commands, the channels, the history of the plain windows,
    media, radio and settings are not modelled. *)

From stdpp Require Export prelude gmap strings sorting.
From stdpp Require Import options.

(** ** Outcomes of fallible code *)

(** [Result<T, E>] of Rust. *)
Inductive result (A E : Type) : Type :=
| Ok (a : A)
| Err (e : E).
Arguments Ok {A E} a.
Arguments Err {A E} e.

#[global] Instance result_eq_dec `{EqDecision A, EqDecision E} :
  EqDecision (result A E).
Proof. solve_decision. Defined.

Declare Scope rust_scope.
Delimit Scope rust_scope with rust.
Open Scope rust_scope.

(** The [?] operator: the first error ends the computation. *)
Definition rbind {A B E} (r : result A E) (f : A -> result B E) : result B E :=
  match r with
  | Ok a => f a
  | Err e => Err e
  end.

Notation "'let?' p := r 'in' k" := (rbind r (fun p => k))
  (at level 10, p pattern, r at level 100, k at level 200) : rust_scope.

(** [map], [map_err], [ok_or], [ok] and [is_ok] of the standard library. *)
Definition rmap {A B E} (f : A -> B) (r : result A E) : result B E :=
  match r with Ok a => Ok (f a) | Err e => Err e end.

Definition map_err {A E F} (f : E -> F) (r : result A E) : result A F :=
  match r with Ok a => Ok a | Err e => Err (f e) end.

Definition ok_or {A E} (o : option A) (e : E) : result A E :=
  match o with Some a => Ok a | None => Err e end.

Definition result_ok {A E} (r : result A E) : option A :=
  match r with Ok a => Some a | Err _ => None end.

Definition is_ok {A E} (r : result A E) : bool :=
  match r with Ok _ => true | Err _ => false end.

(** A computation that Rust may leave by a panic: [None] is the panic. *)
Definition panics (A : Type) : Type := option A.

Lemma rbind_ok {A B E} (r : result A E) (f : A -> result B E) b :
  rbind r f = Ok b <-> exists a, r = Ok a /\ f a = Ok b.
Proof. destruct r; naive_solver. Qed.

Lemma rbind_err {A B E} (r : result A E) (f : A -> result B E) e :
  rbind r f = Err e <-> r = Err e \/ exists a, r = Ok a /\ f a = Err e.
Proof. destruct r; naive_solver. Qed.

Lemma map_err_ok {A E F} (f : E -> F) (r : result A E) a :
  map_err f r = Ok a <-> r = Ok a.
Proof. destruct r; naive_solver. Qed.

Lemma ok_or_ok {A E} (o : option A) (e : E) a : ok_or o e = Ok a <-> o = Some a.
Proof. destruct o; naive_solver. Qed.

Lemma rmap_ok {A B E} (f : A -> B) (r : result A E) b :
  rmap f r = Ok b <-> exists a, r = Ok a /\ f a = b.
Proof. destruct r; naive_solver. Qed.

Lemma is_ok_spec {A E} (r : result A E) : is_ok r = true <-> exists a, r = Ok a.
Proof. destruct r; naive_solver. Qed.

(** ** Automation *)

(** An equation between values, decided by evaluation without normalising the
    types of its sides. *)
Ltac by_vm := match goal with |- _ = ?y => vm_cast_no_check (eq_refl y) end.

(** Splits a fallible computation that returned [Ok] into its steps. *)
Ltac inv_result :=
  repeat match goal with
  | H : rbind _ _ = Ok _ |- _ =>
      apply rbind_ok in H; let a := fresh "a" in let E := fresh "Hstep" in
      destruct H as (a & E & H)
  | H : map_err _ _ = Ok _ |- _ => apply map_err_ok in H
  | H : ok_or _ _ = Ok _ |- _ => apply ok_or_ok in H
  | H : Ok _ = Ok _ |- _ => injection H as H
  | H : Err _ = Ok _ |- _ => discriminate H
  | H : Ok _ = Err _ |- _ => discriminate H
  end; simplify_eq.

(** Splits an accepted input into its steps and its passed checks. *)
Ltac inv_checks :=
  repeat first
    [ progress inv_result
    | match goal with
      | H : (if ?b then Err _ else _) = Ok _ |- _ =>
          let E := fresh "Hcheck" in destruct b eqn:E; [discriminate H|]
      | H : (if ?b then _ else Err _) = Ok _ |- _ =>
          let E := fresh "Hcheck" in destruct b eqn:E; [|discriminate H]
      end ].

(** Case analysis on the tests of a definition, in the goal or a hypothesis. *)
Ltac case_all :=
  repeat (first [case_match | case_decide | case_bool_decide]; simplify_eq/=).

Create HintDb rust.
Create Rewrite HintDb rust.
#[export] Hint Rewrite @rbind_ok @map_err_ok @ok_or_ok @rmap_ok : rust.
#[export] Hint Resolve N.le_refl N.le_trans N.lt_le_incl : rust.

(** ** Unsigned machine integers

    Unsigned integers are of type [N]; the width of each is a bound stated
    where an operation can reach it. *)
Definition U32_MAX : N := 4294967295.
Definition U64_MAX : N := 18446744073709551615.
(** [usize] on the 64-bit targets of the releases. *)
Definition USIZE_MAX : N := U64_MAX.

(** [checked_add] at a width given by its maximum. *)
Definition checked_add (max a b : N) : option N :=
  if (a + b <=? max)%N then Some (a + b)%N else None.

(** [saturating_add] and [saturating_mul] at a width. *)
Definition saturating_add (max a b : N) : N := N.min max (a + b).
Definition saturating_mul (max a b : N) : N := N.min max (a * b).

Lemma checked_add_Some max a b s :
  checked_add max a b = Some s <-> (a + b <= max)%N /\ s = (a + b)%N.
Proof. unfold checked_add. destruct (N.leb_spec (a + b) max); naive_solver lia. Qed.

Definition lenN {A} (l : list A) : N := N.of_nat (length l).

(** [Vec::contains], [Iterator::any] and friends are boolean. *)
Definition contains `{EqDecision A} (l : list A) (x : A) : bool :=
  bool_decide (x ∈ l).

Lemma contains_spec `{EqDecision A} (l : list A) x :
  contains l x = true <-> x ∈ l.
Proof. apply bool_decide_eq_true. Qed.

Lemma contains_false `{EqDecision A} (l : list A) x :
  contains l x = false <-> x ∉ l.
Proof. apply bool_decide_eq_false. Qed.

(** [Vec<T>] collected from an iterator of [Option<T>] or [Result<T, E>]. *)
Fixpoint collect_result {A B E} (f : A -> result B E) (l : list A)
    : result (list B) E :=
  match l with
  | [] => Ok []
  | x :: l => let? y := f x in let? ys := collect_result f l in Ok (y :: ys)
  end.

Lemma collect_result_ok {A B E} (f : A -> result B E) l ys :
  collect_result f l = Ok ys <-> Forall2 (fun x y => f x = Ok y) l ys.
Proof.
  revert ys. induction l as [|x l IH]; intros ys; simpl.
  - split; [intros [= <-]; constructor|by inversion 1].
  - rewrite rbind_ok. setoid_rewrite rbind_ok. setoid_rewrite IH. split.
    + intros (y & Hy & ys' & Hys & [= <-]). by constructor.
    + inversion 1; subst. eauto 8.
Qed.

(** The error is the one of the first element that fails. *)
Lemma collect_result_err {A B E} (f : A -> result B E) l e :
  collect_result f l = Err e <->
  exists pre ys x post, l = pre ++ x :: post /\ collect_result f pre = Ok ys /\ f x = Err e.
Proof.
  revert e. induction l as [|x l IH]; intros e; simpl.
  - split; [discriminate|]. intros (pre & ys & x & post & H & _). by destruct pre.
  - split.
    + destruct (f x) as [y|e'] eqn:Hx; simpl.
      * destruct (collect_result f l) as [ys|e'] eqn:Hl; simpl; [discriminate|].
        intros [= ->]. destruct (proj1 (IH e) eq_refl) as (pre & ys & z & post & -> & Hp & Hz).
        exists (x :: pre), (y :: ys), z, post. simpl. by rewrite Hx, Hp.
      * intros [= ->]. by exists [], [], x, l.
    + intros (pre & ys & z & post & Heq & Hp & Hz). destruct pre as [|x' pre]; simplify_eq/=.
      * by rewrite Hz.
      * inv_result. rewrite Hstep. simpl.
        by rewrite (proj2 (IH e)) by eauto 8.
Qed.

(** ** Lists *)

Lemma omap_cons {A B} (f : A -> option B) x (l : list A) :
  omap f (x :: l) = option_list (f x) ++ omap f l.
Proof. simpl. by destruct (f x). Qed.

Lemma list_omap_fmap {A B C} (f : B -> option C) (g : A -> B) (l : list A) :
  omap f (g <$> l) = omap (f ∘ g) l.
Proof.
  induction l as [|x l IH]; [done|]. rewrite fmap_cons, !omap_cons, IH. done.
Qed.

Lemma filter_all {A} (P : A -> Prop) `{!forall x, Decision (P x)} (l : list A) :
  Forall P l -> filter P l = l.
Proof.
  induction 1 as [|x l Hx _ IH]; [done|]. by rewrite filter_cons_True, IH.
Qed.

Lemma filter_none {A} (P : A -> Prop) `{!forall x, Decision (P x)} (l : list A) :
  Forall (fun x => ~ P x) l -> filter P l = [].
Proof.
  induction 1 as [|x l Hx _ IH]; [done|]. by rewrite filter_cons_False, IH.
Qed.

Lemma lenN_app {A} (l l' : list A) : lenN (l ++ l') = (lenN l + lenN l')%N.
Proof. unfold lenN. rewrite length_app. lia. Qed.

(** ** Stable sorting by a key

    [slice::partition_point] on rows that are partitioned by the test,
    [Vec::insert] after the rows of the same or a lower key, and the stable
    sort [slice::sort_by_key]. *)

Section SortByKey.
Context {A : Type} (key : A -> Z).

Fixpoint partition_point (p : A -> bool) (l : list A) : nat :=
  match l with
  | [] => 0
  | x :: l => if p x then S (partition_point p l) else 0
  end.

Definition insert_by_key (l : list A) (x : A) : list A :=
  let at_ := partition_point (fun y => (key y <=? key x)%Z) l in
  take at_ l ++ x :: drop at_ l.

Definition sort_by_key (l : list A) : list A := foldl insert_by_key [] l.

Definition by_key : relation A := fun x y => (key x <= key y)%Z.

Lemma insert_by_key_perm l x : insert_by_key l x ≡ₚ x :: l.
Proof. unfold insert_by_key. rewrite <-Permutation_middle. by rewrite take_drop. Qed.

Lemma insert_by_key_sorted l x :
  StronglySorted by_key l -> StronglySorted by_key (insert_by_key l x).
Proof.
  unfold insert_by_key. induction 1 as [|y l Hs IH Hall]; simpl.
  - repeat constructor.
  - destruct (Z.leb_spec (key y) (key x)) as [Hle|Hlt]; simpl.
    + constructor; [done|]. rewrite <-Permutation_middle, take_drop. by constructor.
    + constructor; [by constructor|]. constructor; [unfold by_key; lia|].
      eapply Forall_impl; [done|]. unfold by_key. intros; lia.
Qed.

Lemma insert_by_key_last l x : Forall (fun y => by_key y x) l -> insert_by_key l x = l ++ [x].
Proof.
  unfold insert_by_key. induction 1 as [|y l Hle _ IH]; simpl; [done|].
  destruct (Z.leb_spec (key y) (key x)) as [|];
    [|unfold by_key in Hle; lia]. simpl. by rewrite IH.
Qed.

Lemma sort_snoc l x : sort_by_key (l ++ [x]) = insert_by_key (sort_by_key l) x.
Proof. unfold sort_by_key. by rewrite foldl_app. Qed.

Lemma sort_sorted l : StronglySorted by_key (sort_by_key l).
Proof.
  induction l as [|x l IH] using rev_ind; [constructor|].
  rewrite sort_snoc. by apply insert_by_key_sorted.
Qed.

Lemma sort_perm l : sort_by_key l ≡ₚ l.
Proof.
  induction l as [|x l IH] using rev_ind; [done|].
  rewrite sort_snoc, insert_by_key_perm, IH. by rewrite Permutation_app_comm.
Qed.

Lemma sorted_snoc_inv l x :
  StronglySorted by_key (l ++ [x]) ->
  StronglySorted by_key l /\ Forall (fun y => by_key y x) l.
Proof.
  induction l as [|y l IH]; intros Hs; [by split; constructor|].
  apply StronglySorted_inv in Hs as [Hs Hr]. destruct (IH Hs) as [? ?].
  apply Forall_app in Hr as [? [Hr _]%Forall_cons]. split; by constructor.
Qed.

(** Sorted rows stay in their order. *)
Lemma sort_id l : StronglySorted by_key l -> sort_by_key l = l.
Proof.
  induction l as [|x l IH] using rev_ind; intros Hs; [done|].
  apply sorted_snoc_inv in Hs as [Hs Hf].
  rewrite sort_snoc, IH by done. by apply insert_by_key_last.
Qed.

Lemma sorted_sublist l l' :
  sublist l' l -> StronglySorted by_key l -> StronglySorted by_key l'.
Proof.
  induction 1 as [|x l' l Hsub IH|x l' l Hsub IH]; intros Hs; [done|..];
    apply StronglySorted_inv in Hs as [Hs Hr]; [|by apply IH].
  constructor; [by apply IH|]. apply Forall_forall. intros y Hy.
  rewrite Forall_forall in Hr. apply Hr. by eapply elem_of_sublist.
Qed.

(** Rows with distinct keys have one sorted order. *)
Lemma sorted_unique l l' :
  l ≡ₚ l' -> NoDup (key <$> l) -> StronglySorted by_key l -> StronglySorted by_key l' -> l = l'.
Proof.
  revert l'. induction l as [|x l IH]; intros l' Hp Hnd Hs Hs'.
  - by apply Permutation_nil in Hp as ->.
  - destruct l' as [|y l']; [by apply Permutation_nil_r in Hp|].
    apply StronglySorted_inv in Hs as [Hs Hx]. apply StronglySorted_inv in Hs' as [Hs' Hy].
    rewrite fmap_cons, NoDup_cons in Hnd. destruct Hnd as [Hnin Hnd].
    assert (x = y) as ->.
    { assert (x ∈ y :: l') as Hxin by (rewrite <-Hp; left).
      assert (y ∈ x :: l) as Hyin by (rewrite Hp; left).
      apply elem_of_cons in Hxin as [->|Hxin]; [done|].
      apply elem_of_cons in Hyin as [->|Hyin]; [done|].
      rewrite Forall_forall in Hx, Hy. specialize (Hx y Hyin). specialize (Hy x Hxin).
      exfalso. apply Hnin. replace (key x) with (key y) by (unfold by_key in *; lia).
      by apply list_elem_of_fmap_2. }
    f_equal. apply IH; [by apply (inj (cons y)) in Hp || by apply Permutation_cons_inv in Hp|done..].
Qed.

Lemma insert_by_key_first l x :
  Forall (fun y => key x < key y)%Z l -> insert_by_key l x = x :: l.
Proof.
  unfold insert_by_key. destruct 1 as [|y l Hlt _]; simpl; [done|].
  by rewrite (proj2 (Z.leb_gt _ _)).
Qed.

(** Sorting does not mind a filter. *)
Lemma filter_insert_by_key (P : A -> Prop) `{!forall x, Decision (P x)} l x :
  StronglySorted by_key l ->
  filter P (insert_by_key l x) =
  if decide (P x) then insert_by_key (filter P l) x else filter P l.
Proof.
  induction 1 as [|y l Hs IH Hall].
  - unfold insert_by_key. simpl. rewrite filter_cons. by case_decide.
  - destruct (Z.leb_spec (key y) (key x)) as [Hle|Hlt].
    + assert (forall l', insert_by_key (y :: l') x = y :: insert_by_key l' x) as Hy.
      { intros l'. unfold insert_by_key. simpl. by rewrite (proj2 (Z.leb_le _ _)). }
      rewrite Hy, !filter_cons. destruct (decide (P y)), (decide (P x)); rewrite ?Hy, IH; done.
    + assert (Forall (fun z => key x < key z)%Z (y :: l)) as Hlater.
      { constructor; [done|]. eapply Forall_impl; [done|]. unfold by_key. intros; lia. }
      rewrite insert_by_key_first, filter_cons by done. destruct (decide (P x)); [|done].
      rewrite insert_by_key_first; [done|].
      apply Forall_forall. intros z [_ Hz]%list_elem_of_filter. rewrite Forall_forall in Hlater.
      by apply Hlater.
Qed.

Lemma filter_sort (P : A -> Prop) `{!forall x, Decision (P x)} l :
  filter P (sort_by_key l) = sort_by_key (filter P l).
Proof.
  induction l as [|x l IH] using rev_ind; [done|].
  rewrite sort_snoc, filter_insert_by_key, IH, filter_app, filter_cons by apply sort_sorted.
  simpl. destruct (decide (P x)).
  - by rewrite sort_snoc.
  - by rewrite app_nil_r.
Qed.
End SortByKey.

(** ** Runs of a state machine *)

Section Runs.
Context {S E O : Type} (step : S -> E -> S * O).

(** The states and outputs of a list of events. *)
Fixpoint run (s : S) (es : list E) : S * list O :=
  match es with
  | [] => (s, [])
  | e :: es => let '(s1, o) := step s e in
               let '(s2, os) := run s1 es in (s2, o :: os)
  end.

Lemma run_invariant (P : S -> Prop) s es :
  P s -> (forall s e, P s -> P (step s e).1) -> P (run s es).1.
Proof.
  intros Hs Hstep. revert s Hs. induction es as [|e es IH]; intros s Hs; [done|].
  simpl. destruct (step s e) as [s1 o] eqn:E1.
  destruct (run s1 es) as [s2 os] eqn:E2. simpl.
  replace s2 with (run s1 es).1 by (by rewrite E2). apply IH.
  replace s1 with (step s e).1 by (by rewrite E1). auto.
Qed.

Lemma run_app s es1 es2 :
  (run s (es1 ++ es2)).1 = (run (run s es1).1 es2).1.
Proof.
  revert s. induction es1 as [|e es1 IH]; intros s; [done|]. simpl.
  destruct (step s e) as [s1 o].
  specialize (IH s1). destruct (run s1 (es1 ++ es2)), (run s1 es1). exact IH.
Qed.
End Runs.

(** A test that is false at the start and true at the end of a run became true
    at one step. *)
Lemma run_flip {S E O} (step : S -> E -> S * O) (P : S -> bool) s es :
  P s = false -> P (run step s es).1 = true ->
  exists pre e post, es = pre ++ e :: post /\
    P (run step s pre).1 = false /\ P (step (run step s pre).1 e).1 = true.
Proof.
  revert s. induction es as [|e es IH]; intros s Hs He; simpl in He; [congruence|].
  destruct (step s e) as [s1 o] eqn:E1. destruct (P s1) eqn:E2.
  - exists [], e, es. simpl. rewrite E1. done.
  - destruct (IH s1 E2) as (pre & e' & post & -> & H1 & H2).
    { by destruct (run step s1 es). }
    exists (e :: pre), e', post. simpl. rewrite E1.
    destruct (run step s1 pre) as [s2 os] eqn:E3. done.
Qed.

(** A machine and a specification machine that agree step by step give the
    same outputs: forward simulation with equal outputs. *)
Lemma run_simulation {S T E O} (step : S -> E -> S * O) (spec : T -> E -> T * O)
    (R : S -> T -> Prop) (ok : S -> T -> list E -> Prop) :
  (forall s t e es, R s t -> ok s t (e :: es) ->
     (step s e).2 = (spec t e).2 /\ R (step s e).1 (spec t e).1 /\
     ok (step s e).1 (spec t e).1 es) ->
  forall es s t, R s t -> ok s t es -> (run step s es).2 = (run spec t es).2.
Proof.
  intros Hsim. induction es as [|e es IH]; intros s t HR Hok; [done|].
  destruct (Hsim _ _ _ _ HR Hok) as (Ho & HR' & Hok'). simpl.
  destruct (step s e) as [s1 o] eqn:E1, (spec t e) as [t1 o'] eqn:E2. simpl in *.
  specialize (IH _ _ HR' Hok'). destruct (run step s1 es), (run spec t1 es).
  simpl in *. congruence.
Qed.
