(* ===== verification/RustStr.v ===== *)
(** * The string functions of the Rust standard library that the code uses

    A [str] is the list of its UTF-8 bytes: a Rocq [string], one [ascii] for
    each byte. Comparison of two [str] is the comparison of their bytes, so
    the order is [String.le]. A function of the code that looks at characters
    tests ASCII characters only; an ASCII byte never is a part of a longer
    UTF-8 sequence, so it is the same test on bytes. Where a character itself
    becomes a value, [utf8_chars] cuts the text at its characters. *)

From Stdlib Require Ascii.
From Stdlib Require Import DecimalString DecimalN DecimalFacts.
From S2P Require Import Prelude.
From stdpp Require Import options.
Export Stdlib.Strings.Ascii (ascii(..), N_of_ascii, ascii_of_N).
Export (notations) Stdlib.Strings.Ascii.

Definition byte_of (n : N) : ascii := ascii_of_N n.
Definition code (c : ascii) : N := N_of_ascii c.

Definition str_len (s : string) : N := N.of_nat (String.length s).

Definition is_empty (s : string) : bool :=
  match s with "" => true | _ => false end.

Fixpoint all_chars (p : ascii -> bool) (s : string) : bool :=
  match s with
  | "" => true
  | String c s => p c && all_chars p s
  end.

Fixpoint any_char (p : ascii -> bool) (s : string) : bool :=
  match s with
  | "" => false
  | String c s => p c || any_char p s
  end.

Definition ascii_eqb (a b : ascii) : bool := bool_decide (a = b).

(** [str::contains] with a character. *)
Definition contains_char (c : ascii) (s : string) : bool := any_char (ascii_eqb c) s.

(** ** Character classes *)

Definition in_range (lo hi : ascii) (c : ascii) : bool :=
  (code lo <=? code c)%N && (code c <=? code hi)%N.
Definition is_ascii_digit (c : ascii) : bool := in_range "0" "9" c.
Definition is_ascii_lower (c : ascii) : bool := in_range "a" "z" c.
Definition is_ascii_upper (c : ascii) : bool := in_range "A" "Z" c.
Definition is_ascii_alphanumeric (c : ascii) : bool :=
  is_ascii_digit c || is_ascii_lower c || is_ascii_upper c.
Definition is_ascii_byte (c : ascii) : bool := (code c <? 128)%N.
Definition is_ascii_control (c : ascii) : bool :=
  (code c <? 32)%N || (code c =? 127)%N.
Definition to_ascii_lowercase (c : ascii) : ascii :=
  if is_ascii_upper c then byte_of (code c + 32) else c.

(** ** Cutting *)

Fixpoint strip_prefix (p s : string) : option string :=
  match p, s with
  | "", _ => Some s
  | String a p, String b s => if ascii_eqb a b then strip_prefix p s else None
  | String _ _, "" => None
  end.

Definition starts_with (p s : string) : bool :=
  match strip_prefix p s with Some _ => true | None => false end.

(** [strip_suffix] with a one-byte character. *)
Fixpoint strip_suffix_char (c : ascii) (s : string) : option string :=
  match s with
  | "" => None
  | String a "" => if ascii_eqb a c then Some "" else None
  | String a s => String a <$> strip_suffix_char c s
  end.

Fixpoint split_once (c : ascii) (s : string) : option (string * string) :=
  match s with
  | "" => None
  | String a s =>
      if ascii_eqb a c then Some ("", s)
      else match split_once c s with
           | Some (l, r) => Some (String a l, r)
           | None => None
           end
  end.

(** [splitn(n, c)]: at most [n] parts, the last one holds the rest. *)
Fixpoint splitn (n : nat) (c : ascii) (s : string) : list string :=
  match n with
  | 0 => []
  | 1 => [s]
  | S n => match split_once c s with
           | Some (l, r) => l :: splitn n c r
           | None => [s]
           end
  end.

(** [split(c)]: every part. *)
Fixpoint split_char (c : ascii) (s : string) : list string :=
  match s with
  | "" => [""]
  | String a s =>
      if ascii_eqb a c then "" :: split_char c s
      else match split_char c s with
           | p :: ps => String a p :: ps
           | [] => [String a ""]
           end
  end.

Fixpoint trim_start_matches (c : ascii) (s : string) : string :=
  match s with
  | "" => ""
  | String a s' => if ascii_eqb a c then trim_start_matches c s' else s
  end.

(** [&s[..n]] and [&s[n..]] for a byte index at or before the end. *)
Fixpoint str_take (n : nat) (s : string) : string :=
  match n, s with
  | S n, String a s => String a (str_take n s)
  | _, _ => ""
  end.
Fixpoint str_drop (n : nat) (s : string) : string :=
  match n, s with
  | S n, String _ s => str_drop n s
  | _, _ => s
  end.

Fixpoint str_repeat (c : ascii) (n : nat) : string :=
  match n with 0 => "" | S n => String c (str_repeat c n) end.

(** [join] of a list with a separator, and [concat]. *)
Definition join (sep : string) (l : list string) : string := String.concat sep l.
Definition str_concat (l : list string) : string := String.concat "" l.

(** [str::replace]: every occurrence, left to right, not overlapping. [fuel]
    is the length of the text: every turn takes at least one byte of it. *)
Fixpoint replace_fuel (fuel : nat) (pat by_ s : string) : string :=
  match fuel with
  | 0 => s
  | S fuel =>
      match strip_prefix pat s with
      | Some rest => by_ +:+ replace_fuel fuel pat by_ rest
      | None => match s with
                | "" => ""
                | String a s => String a (replace_fuel fuel pat by_ s)
                end
      end
  end.
Definition str_replace (pat by_ s : string) : string :=
  replace_fuel (String.length s) pat by_ s.

(** [str::contains] with a text. *)
Fixpoint contains_str (pat s : string) : bool :=
  starts_with pat s ||
  match s with "" => false | String _ s => contains_str pat s end.

(** ** UTF-8 characters *)

Definition is_continuation (c : ascii) : bool := in_range "128" "191" c.

(** The characters of a text, each as the [String] that holds it: every byte
    that is not a continuation byte starts a character. *)
Fixpoint utf8_chars (s : string) : list string :=
  match s with
  | "" => []
  | String a s =>
      match utf8_chars s with
      | String b t :: cs =>
          if is_continuation b then String a (String b t) :: cs
          else String a "" :: String b t :: cs
      | cs => String a "" :: cs
      end
  end.

(** [std::str::from_utf8] accepts the bytes: no truncated, overlong, surrogate
    or too large sequence. *)
Fixpoint utf8_valid (s : string) : bool :=
  match s with
  | "" => true
  | String a t =>
      if is_ascii_byte a then utf8_valid t
      else match t with
      | String b t2 =>
          if in_range "194" "223" a && is_continuation b then utf8_valid t2
          else match t2 with
          | String c t3 =>
              if is_continuation c &&
                 ((ascii_eqb a "224" && in_range "160" "191" b)
                  || (in_range "225" "236" a && is_continuation b)
                  || (ascii_eqb a "237" && in_range "128" "159" b)
                  || (in_range "238" "239" a && is_continuation b))
              then utf8_valid t3
              else match t3 with
              | String d t4 =>
                  is_continuation c && is_continuation d &&
                  ((ascii_eqb a "240" && in_range "144" "191" b)
                   || (in_range "241" "243" a && is_continuation b)
                   || (ascii_eqb a "244" && in_range "128" "143" b))
                  && utf8_valid t4
              | "" => false
              end
          | "" => false
          end
      | "" => false
      end
  end.

(** ** Decimal text *)

(** [Display] of an unsigned integer. *)
Definition N_display (n : N) : string := NilZero.string_of_uint (N.to_uint n).

(** [str::parse] of an unsigned integer with the given maximum: an optional
    plus sign, then at least one digit, then no overflow. *)
Definition parse_unsigned (max : N) (s : string) : option N :=
  let digits := match strip_prefix "+" s with Some rest => rest | None => s end in
  match digits with
  | "" => None
  | _ => if all_chars is_ascii_digit digits
         then match NilEmpty.uint_of_string digits with
              | Some u => let n := N.of_uint u in
                          if (n <=? max)%N then Some n else None
              | None => None
              end
         else None
  end.

(** [str::parse] of an [i64]: an optional sign and at least one digit. *)
Definition I64_MAX : Z := 9223372036854775807.
Definition I64_MIN : Z := -9223372036854775808.

Definition in_i64 (z : Z) : bool := (I64_MIN <=? z)%Z && (z <=? I64_MAX)%Z.

(** The value of a result that left [i64] in a release build. *)
Definition wrap_i64 (z : Z) : Z := ((z - I64_MIN) mod 2 ^ 64 + I64_MIN)%Z.

Lemma wrap_i64_in z : in_i64 z = true -> wrap_i64 z = z.
Proof.
  unfold in_i64, wrap_i64, I64_MIN, I64_MAX. rewrite andb_true_iff, !Z.leb_le. intros Hz.
  rewrite Z.mod_small; lia.
Qed.

Definition parse_i64 (s : string) : option Z :=
  let '(neg, digits) :=
    match s with
    | String "-" rest => (true, rest)
    | String "+" rest => (false, rest)
    | _ => (false, s)
    end in
  if is_empty digits || negb (all_chars is_ascii_digit digits) then None
  else match NilEmpty.uint_of_string digits with
       | Some u => let z := if neg : bool then Z.opp (Z.of_N (N.of_uint u))
                            else Z.of_N (N.of_uint u) in
                   if in_i64 z then Some z else None
       | None => None
       end.

(** [char::is_whitespace] and [char::is_control], on a character of
    [utf8_chars]: the Unicode property [White_Space] and the general category
    [Cc]. *)
Definition utf8_of (bytes : list N) : string :=
  fold_right (fun b s => String (byte_of b) s) "" bytes.

Definition unicode_white_space : list string :=
  utf8_of <$> [[9]; [10]; [11]; [12]; [13]; [32]; [194; 133]; [194; 160];
    [225; 154; 128];
    [226; 128; 128]; [226; 128; 129]; [226; 128; 130]; [226; 128; 131];
    [226; 128; 132]; [226; 128; 133]; [226; 128; 134]; [226; 128; 135];
    [226; 128; 136]; [226; 128; 137]; [226; 128; 138];
    [226; 128; 168]; [226; 128; 169]; [226; 128; 175]; [226; 129; 159];
    [227; 128; 128]]%N.

Definition is_whitespace (ch : string) : bool := contains unicode_white_space ch.

Definition is_control (ch : string) : bool :=
  match ch with
  | String c "" => is_ascii_control c
  | String a (String b "") => (code a =? 194)%N && in_range "128" "159" b
  | _ => false
  end.

(** [str::trim]: the white space at both ends. *)
Fixpoint skip_white_space (chars : list string) : list string :=
  match chars with
  | [] => []
  | ch :: rest => if is_whitespace ch then skip_white_space rest else chars
  end.

Definition trim (s : string) : string :=
  str_concat (rev (skip_white_space (rev (skip_white_space (utf8_chars s))))).

(** [str::strip_suffix] and a slice of bytes. *)
Definition strip_suffix (suffix s : string) : option string :=
  let n := String.length s - String.length suffix in
  if (String.length suffix <=? String.length s) && bool_decide (str_drop n s = suffix)
  then Some (str_take n s) else None.

Definition str_slice (from to : nat) (s : string) : string :=
  str_take (to - from) (str_drop from s).

(** [bytes[i]] of an index in range, and [{:0width$}]. *)
Definition byte_at (i : nat) (s : string) : option ascii := String.get i s.

Definition pad_zeros (width : nat) (s : string) : string :=
  str_repeat "0" (width - String.length s) +:+ s.

(** ** Lemmas *)

Lemma ascii_eqb_true a b : ascii_eqb a b = true <-> a = b.
Proof. apply bool_decide_eq_true. Qed.
Lemma ascii_eqb_false a b : ascii_eqb a b = false <-> a <> b.
Proof. apply bool_decide_eq_false. Qed.
Lemma ascii_eqb_refl a : ascii_eqb a a = true.
Proof. by apply ascii_eqb_true. Qed.

Lemma str_app_nil_r s : s +:+ "" = s.
Proof. induction s as [|a s IH]; [done|]. change (String a (s +:+ "") = String a s). by rewrite IH. Qed.

Lemma str_app_cons a s t : String a s +:+ t = String a (s +:+ t).
Proof. done. Qed.

Lemma str_app_nil_l s : "" +:+ s = s.
Proof. done. Qed.

Lemma str_app_assoc s t u : (s +:+ t) +:+ u = s +:+ (t +:+ u).
Proof. induction s as [|a s IH]; [done|]. rewrite !str_app_cons. by rewrite IH. Qed.

#[export] Hint Rewrite str_app_nil_r str_app_nil_l str_app_cons str_app_assoc : rust.

Lemma str_length_app s t : String.length (s +:+ t) = String.length s + String.length t.
Proof. induction s as [|a s IH]; [done|]. rewrite str_app_cons. simpl. by rewrite IH. Qed.

Lemma str_app_inj_r s t u : s +:+ u = t +:+ u -> s = t.
Proof.
  revert t. induction s as [|a s IH]; intros [|b t] H; rewrite ?str_app_cons, ?str_app_nil_l in H.
  - done.
  - exfalso. apply (f_equal String.length) in H. cbn in H.
    rewrite ?str_length_app in H. lia.
  - exfalso. apply (f_equal String.length) in H. cbn in H.
    rewrite ?str_length_app in H. lia.
  - injection H as -> H. f_equal. by apply IH.
Qed.

Lemma str_len_app s t : str_len (s +:+ t) = (str_len s + str_len t)%N.
Proof. unfold str_len. rewrite str_length_app. lia. Qed.

Lemma is_empty_true s : is_empty s = true <-> s = "".
Proof. by destruct s. Qed.
Lemma is_empty_false s : is_empty s = false <-> s <> "".
Proof. by destruct s. Qed.

Lemma all_chars_app p s t : all_chars p (s +:+ t) = all_chars p s && all_chars p t.
Proof.
  induction s as [|a s IH]; [done|]. rewrite str_app_cons. simpl. rewrite IH.
  by rewrite andb_assoc.
Qed.

Lemma any_char_app p s t : any_char p (s +:+ t) = any_char p s || any_char p t.
Proof.
  induction s as [|a s IH]; [done|]. rewrite str_app_cons. simpl. rewrite IH.
  by rewrite orb_assoc.
Qed.

Lemma all_chars_impl p q s :
  (forall c, p c = true -> q c = true) -> all_chars p s = true -> all_chars q s = true.
Proof.
  intros Himp. induction s as [|a s IH]; [done|]. simpl.
  rewrite !andb_true_iff. intros [Ha Hs]. auto.
Qed.

(** A text whose characters all satisfy [p] holds no character outside [p]. *)
Lemma all_chars_excludes p c s :
  p c = false -> all_chars p s = true -> contains_char c s = false.
Proof.
  intros Hc. induction s as [|a s IH]; [done|]. simpl. unfold contains_char in *. simpl.
  rewrite andb_true_iff. intros [Ha Hs]. rewrite (IH Hs), orb_false_r.
  apply ascii_eqb_false. congruence.
Qed.

Lemma contains_char_app c s t :
  contains_char c (s +:+ t) = contains_char c s || contains_char c t.
Proof. apply any_char_app. Qed.

Lemma contains_char_cons c a s :
  contains_char c (String a s) = ascii_eqb c a || contains_char c s.
Proof. done. Qed.

Lemma strip_prefix_Some p s r : strip_prefix p s = Some r <-> s = p +:+ r.
Proof.
  revert s. induction p as [|a p IH]; intros s.
  { change ("" +:+ r) with r. simpl. naive_solver. }
  rewrite str_app_cons. destruct s as [|b s]; simpl; [naive_solver|].
  destruct (ascii_eqb a b) eqn:Hab.
  - apply ascii_eqb_true in Hab as ->. rewrite IH. naive_solver.
  - apply ascii_eqb_false in Hab. naive_solver.
Qed.

Lemma strip_suffix_char_Some c s r :
  strip_suffix_char c s = Some r <-> s = r +:+ String c "".
Proof.
  revert r. induction s as [|a s IH]; intros r.
  { simpl. split; [done|]. intros H. apply (f_equal String.length) in H.
    rewrite str_length_app in H. cbn in H. lia. }
  destruct s as [|b s].
  - simpl. destruct (ascii_eqb a c) eqn:Hac.
    + apply ascii_eqb_true in Hac as ->. split; [intros [= <-]; done|].
      destruct r as [|d r]; [done|]. rewrite str_app_cons. intros [= _ H].
      destruct r; done.
    + apply ascii_eqb_false in Hac. split; [done|]. destruct r as [|d r].
      * intros [= ->]. done.
      * rewrite str_app_cons. intros [= _ H]. destruct r; done.
  - change (strip_suffix_char c (String a (String b s)))
      with (String a <$> strip_suffix_char c (String b s)).
    rewrite fmap_Some. split.
    + intros (t & Ht & ->). apply IH in Ht. rewrite str_app_cons. by rewrite <-Ht.
    + destruct r as [|d r]; [done|]. rewrite str_app_cons. intros [= <- H].
      exists r. split; [by apply IH|done].
Qed.

Lemma split_once_app c l r :
  contains_char c l = false -> split_once c (l +:+ String c r) = Some (l, r).
Proof.
  induction l as [|a l IH]; intros Hl.
  - rewrite str_app_nil_l. simpl. by rewrite ascii_eqb_refl.
  - rewrite contains_char_cons in Hl. apply orb_false_iff in Hl as [Ha Hl].
    rewrite str_app_cons. simpl. apply ascii_eqb_false in Ha.
    rewrite (proj2 (ascii_eqb_false a c)) by congruence. by rewrite IH.
Qed.

Lemma split_once_sep c l r :
  contains_char c l = false -> split_once c (l +:+ String c "" +:+ r) = Some (l, r).
Proof. apply split_once_app. Qed.

Lemma split_once_Some c s l r :
  split_once c s = Some (l, r) <-> s = l +:+ String c r /\ contains_char c l = false.
Proof.
  split; [|intros [-> Hl]; by apply split_once_app].
  revert l. induction s as [|a s IH]; intros l; [done|]. simpl.
  destruct (ascii_eqb a c) eqn:Hac.
  - apply ascii_eqb_true in Hac as ->. by intros [= <- <-].
  - destruct (split_once c s) as [[l' r']|]; [|done]. intros [= <- <-].
    destruct (IH l' eq_refl) as [-> Hl]. split; [done|].
    rewrite contains_char_cons, Hl, orb_false_r.
    apply ascii_eqb_false. apply ascii_eqb_false in Hac. congruence.
Qed.

Lemma split_once_None c s : split_once c s = None <-> contains_char c s = false.
Proof.
  induction s as [|a s IH]; [done|]. simpl. rewrite contains_char_cons.
  destruct (ascii_eqb a c) eqn:Hac.
  - apply ascii_eqb_true in Hac as ->. rewrite ascii_eqb_refl. done.
  - apply ascii_eqb_false in Hac.
    rewrite (proj2 (ascii_eqb_false c a)) by congruence. simpl. rewrite <-IH.
    destruct (split_once c s) as [[]|]; naive_solver.
Qed.

(** Cutting a joined list gives the list back. *)
Lemma split_char_app c l r :
  contains_char c l = false -> split_char c (l +:+ String c r) = l :: split_char c r.
Proof.
  induction l as [|a l IH]; intros Hl.
  - rewrite str_app_nil_l. simpl. by rewrite ascii_eqb_refl.
  - rewrite contains_char_cons in Hl. apply orb_false_iff in Hl as [Ha Hl].
    rewrite str_app_cons. simpl. apply ascii_eqb_false in Ha.
    rewrite (proj2 (ascii_eqb_false a c)) by congruence. by rewrite IH.
Qed.

Lemma split_char_none c s : contains_char c s = false -> split_char c s = [s].
Proof.
  induction s as [|a s IH]; intros Hs; [done|].
  rewrite contains_char_cons in Hs. apply orb_false_iff in Hs as [Ha Hs]. simpl.
  apply ascii_eqb_false in Ha. rewrite (proj2 (ascii_eqb_false a c)) by congruence.
  by rewrite IH.
Qed.

Lemma split_char_join c l :
  l <> [] -> Forall (fun s => contains_char c s = false) l ->
  split_char c (join (String c "") l) = l.
Proof.
  intros Hne Hl. induction Hl as [|x l Hx Hl IH]; [done|].
  destruct l as [|y l].
  - unfold join. simpl. by apply split_char_none.
  - change (join (String c "") (x :: y :: l))
      with (x +:+ (String c "" +:+ join (String c "") (y :: l))).
    rewrite str_app_cons, str_app_nil_l.
    rewrite split_char_app by done. by rewrite IH.
Qed.

Lemma join_inj c l1 l2 :
  l1 <> [] -> l2 <> [] ->
  Forall (fun s => contains_char c s = false) l1 ->
  Forall (fun s => contains_char c s = false) l2 ->
  join (String c "") l1 = join (String c "") l2 -> l1 = l2.
Proof.
  intros Hn1 Hn2 H1 H2 H.
  rewrite <-(split_char_join c l1), <-(split_char_join c l2) by done. by rewrite H.
Qed.

Lemma utf8_valid_ascii s : all_chars is_ascii_byte s = true -> utf8_valid s = true.
Proof.
  induction s as [|a s IH]; [done|]. simpl. rewrite andb_true_iff. intros [-> Hs]. auto.
Qed.

(** ** Decimal text and its value *)

Lemma digits_uint s :
  all_chars is_ascii_digit s = true <-> exists u, NilEmpty.uint_of_string s = Some u.
Proof.
  induction s as [|a s IH]; [naive_solver|]. simpl. rewrite andb_true_iff, IH.
  split.
  - intros [Ha [u Hu]]. rewrite Hu.
    destruct a as [[] [] [] [] [] [] [] []]; vm_compute in Ha; try done; eexists; done.
  - intros [u Hu]. destruct (NilEmpty.uint_of_string s) as [v|]; [|done].
    split; [|eauto]. apply uint_of_char_spec in Hu. naive_solver.
Qed.

Lemma display_digits n : all_chars is_ascii_digit (N_display n) = true.
Proof.
  apply digits_uint. unfold N_display, NilZero.string_of_uint.
  destruct (N.to_uint n) eqn:E; [by exists (Decimal.D0 Decimal.Nil)|..];
    rewrite <-E, NilEmpty.usu; eauto.
Qed.

Lemma display_uint n : NilEmpty.uint_of_string (N_display n) = Some (N.to_uint n).
Proof.
  unfold N_display, NilZero.string_of_uint.
  destruct (N.to_uint n) eqn:E; try (rewrite <-E, NilEmpty.usu; done).
  pose proof (unorm_nonnil (N.to_uint n)) as H.
  rewrite <-DecimalN.Unsigned.to_of, DecimalN.Unsigned.of_to, E in H. done.
Qed.

Lemma display_nonempty n : N_display n <> "".
Proof.
  unfold N_display, NilZero.string_of_uint. by destruct (N.to_uint n).
Qed.

Lemma display_no_sign n : strip_prefix "+" (N_display n) = None.
Proof.
  destruct (strip_prefix "+" (N_display n)) as [r|] eqn:E; [|done].
  apply strip_prefix_Some in E. pose proof (display_digits n) as H.
  rewrite E in H. done.
Qed.

Lemma digits_no_sign s : all_chars is_ascii_digit s = true -> strip_prefix "+" s = None.
Proof.
  intros H. destruct (strip_prefix "+" s) as [r|] eqn:E; [|done].
  apply strip_prefix_Some in E. rewrite E in H. done.
Qed.

Lemma parse_display max n : (n <= max)%N -> parse_unsigned max (N_display n) = Some n.
Proof.
  intros Hn. unfold parse_unsigned. rewrite display_no_sign, display_digits, display_uint.
  rewrite DecimalN.Unsigned.of_to. apply N.leb_le in Hn. rewrite Hn.
  pose proof (display_nonempty n). by destruct (N_display n).
Qed.

Lemma display_inj n m : N_display n = N_display m -> n = m.
Proof.
  intros H. apply DecimalN.Unsigned.to_uint_inj.
  pose proof (display_uint n) as Hn. rewrite H, display_uint in Hn. by injection Hn.
Qed.

Lemma display_no_leading_zero n : n <> 0%N -> starts_with "0" (N_display n) = false.
Proof.
  intros Hn. unfold starts_with.
  destruct (strip_prefix "0" (N_display n)) as [r|] eqn:E; [|done].
  apply strip_prefix_Some in E. pose proof (display_uint n) as Hu.
  rewrite E in Hu. change ("0" +:+ r) with (String "0" r) in Hu. simpl in Hu.
  destruct (NilEmpty.uint_of_string r) as [u|]; [|done]. injection Hu as Hu.
  pose proof (DecimalN.Unsigned.to_of (N.to_uint n)) as Hnorm.
  rewrite DecimalN.Unsigned.of_to in Hnorm. rewrite <-Hu in Hnorm at 2.
  unfold Decimal.unorm in Hnorm. simpl in Hnorm.
  destruct (Decimal.nzhead u) eqn:Hz.
  - exfalso. apply Hn. rewrite <-(DecimalN.Unsigned.of_to n), Hnorm. done.
  - rewrite Hnorm in Hu. exfalso. eapply nzhead_nonzero. rewrite Hz. by symmetry.
  - rewrite Hnorm in Hu. done.
  - rewrite Hnorm in Hu. done.
  - rewrite Hnorm in Hu. done.
  - rewrite Hnorm in Hu. done.
  - rewrite Hnorm in Hu. done.
  - rewrite Hnorm in Hu. done.
  - rewrite Hnorm in Hu. done.
  - rewrite Hnorm in Hu. done.
  - rewrite Hnorm in Hu. done.
Qed.

(** Digits without a leading zero are the [Display] of their value. *)
Lemma display_canonical s u :
  s <> "" -> starts_with "0" s = false -> NilEmpty.uint_of_string s = Some u ->
  N_display (N.of_uint u) = s.
Proof.
  intros Hs Hz Hu. unfold N_display. rewrite DecimalN.Unsigned.to_of.
  pose proof (NilEmpty.sus _ _ Hu) as Hback.
  assert (Decimal.nzhead u = u) as Hnz.
  { destruct u; try done. exfalso. rewrite <-Hback in Hz. done. }
  assert (u <> Decimal.Nil) as Hnn.
  { intros ->. simpl in Hback. congruence. }
  rewrite unorm_nzhead by congruence. rewrite Hnz.
  unfold NilZero.string_of_uint. by destruct u.
Qed.

Lemma parse_unsigned_Some max s n :
  parse_unsigned max s = Some n ->
  (n <= max)%N /\
  exists digits u, (s = digits \/ s = "+" +:+ digits) /\ digits <> "" /\
    all_chars is_ascii_digit digits = true /\
    NilEmpty.uint_of_string digits = Some u /\ n = N.of_uint u.
Proof.
  unfold parse_unsigned.
  set (d := match strip_prefix "+" s with Some rest => rest | None => s end).
  assert (s = d \/ s = "+" +:+ d) as Hd.
  { unfold d. destruct (strip_prefix "+" s) eqn:E; [right|by left].
    by apply strip_prefix_Some in E. }
  clearbody d. destruct d as [|a d]; [done|].
  destruct (all_chars is_ascii_digit (String a d)) eqn:Hall; [|done].
  destruct (NilEmpty.uint_of_string (String a d)) as [u|] eqn:Hu; [|done].
  cbv zeta. destruct (N.leb_spec (N.of_uint u) max); [|done].
  intros [= <-]. split; [done|]. exists (String a d), u. done.
Qed.

(** ** Number of digits *)

Lemma of_uint_acc_bound u p :
  (p * 10 ^ N.of_nat (Decimal.nb_digits u) <= Npos (Pos.of_uint_acc u (N.succ_pos (N.pred p))))%N
  \/ p = 0%N.
Proof.
  destruct (decide (p = 0%N)) as [->|Hp]; [by right|left].
  destruct p as [|p]; [done|]. clear Hp. rewrite N.pred_sub.
  replace (N.succ_pos (N.pos p - 1)) with p.
  2: { apply N.pos_inj. rewrite N.succ_pos_spec. lia. }
  revert p. induction u as [|u IH|u IH|u IH|u IH|u IH|u IH|u IH|u IH|u IH|u IH]; intros p;
    [simpl; lia|..]; cbn [Decimal.nb_digits Pos.of_uint_acc];
    rewrite Nat2N.inj_succ, N.pow_succ_r';
    match goal with |- (_ <= N.pos (Pos.of_uint_acc _ ?q))%N => specialize (IH q) end;
    nia.
Qed.

Lemma of_uint_acc_upper u p :
  (Npos (Pos.of_uint_acc u p) < (Npos p + 1) * 10 ^ N.of_nat (Decimal.nb_digits u))%N.
Proof.
  revert p. induction u as [|u IH|u IH|u IH|u IH|u IH|u IH|u IH|u IH|u IH|u IH]; intros p;
    [simpl; lia|..]; cbn [Decimal.nb_digits Pos.of_uint_acc];
    rewrite Nat2N.inj_succ, N.pow_succ_r';
    match goal with |- (N.pos (Pos.of_uint_acc _ ?q) < _)%N => specialize (IH q) end;
    nia.
Qed.

Lemma of_uint_upper u : (N.of_uint u < 10 ^ N.of_nat (Decimal.nb_digits u))%N.
Proof.
  induction u as [|u IH|u IH|u IH|u IH|u IH|u IH|u IH|u IH|u IH|u IH];
    cbn [Decimal.nb_digits]; rewrite ?Nat2N.inj_succ, ?N.pow_succ_r'; [done| |..].
  { change (N.of_uint (Decimal.D0 u)) with (N.of_uint u). lia. }
  all: match goal with |- (?x < _)%N => let y := eval cbn [N.of_uint Pos.of_uint] in x in
         change x with y end;
       match goal with |- (N.pos (Pos.of_uint_acc ?v ?q) < _)%N =>
         pose proof (of_uint_acc_upper v q) end; nia.
Qed.

Lemma uint_of_string_length s u :
  NilEmpty.uint_of_string s = Some u -> Decimal.nb_digits u = String.length s.
Proof.
  intros <-%NilEmpty.sus. induction u; simpl; congruence.
Qed.

Lemma display_length n k :
  (n < 10 ^ N.of_nat k)%N -> (0 < k) -> String.length (N_display n) <= k.
Proof.
  intros Hn Hk.
  assert (String.length (N_display n) = Decimal.nb_digits (N.to_uint n)) as Hlen.
  { pose proof (NilEmpty.sus _ _ (display_uint n)) as <-.
    induction (N.to_uint n); simpl; congruence. }
  rewrite Hlen.
  pose proof (DecimalN.Unsigned.to_of (N.to_uint n)) as Hnorm.
  rewrite DecimalN.Unsigned.of_to in Hnorm.
  assert (Hval := DecimalN.Unsigned.of_to n).
  destruct (decide (n = 0%N)) as [->|Hn0]; [simpl; lia|].
  destruct (Nat.le_gt_cases (Decimal.nb_digits (N.to_uint n)) k) as [|Hgt]; [done|].
  exfalso.
  assert (forall u d, N.to_uint n = d -> Decimal.nb_digits d = S (Decimal.nb_digits u) ->
    forall p, (0 < p)%N -> N.of_uint d = Npos (Pos.of_uint_acc u (N.succ_pos (N.pred p))) -> False)
    as Hcase.
  { intros u d Hd Hnb p Hp Hv. rewrite <-Hd, Hval in Hv.
    destruct (of_uint_acc_bound u p) as [Hb|]; [|lia]. rewrite <-Hv in Hb.
    rewrite Hd, Hnb in Hgt.
    assert (10 ^ N.of_nat k <= 10 ^ N.of_nat (Decimal.nb_digits u))%N.
    { apply N.pow_le_mono_r; lia. } nia. }
  destruct (N.to_uint n) as [|u|u|u|u|u|u|u|u|u|u] eqn:E; simpl in Hgt; [lia|..].
  - pose proof (display_no_leading_zero n Hn0) as Hz.
    unfold N_display in Hz. rewrite E in Hz. done.
  - eapply (Hcase u _ eq_refl eq_refl 1%N); done.
  - eapply (Hcase u _ eq_refl eq_refl 2%N); done.
  - eapply (Hcase u _ eq_refl eq_refl 3%N); done.
  - eapply (Hcase u _ eq_refl eq_refl 4%N); done.
  - eapply (Hcase u _ eq_refl eq_refl 5%N); done.
  - eapply (Hcase u _ eq_refl eq_refl 6%N); done.
  - eapply (Hcase u _ eq_refl eq_refl 7%N); done.
  - eapply (Hcase u _ eq_refl eq_refl 8%N); done.
  - eapply (Hcase u _ eq_refl eq_refl 9%N); done.
Qed.

(** ** Cutting a text *)

Lemma str_take_app s t : str_take (String.length s) (s +:+ t) = s.
Proof. induction s as [|c s IH]; [by destruct t|]. simpl. by rewrite IH. Qed.

Lemma str_drop_app s t : str_drop (String.length s) (s +:+ t) = t.
Proof. induction s as [|c s IH]; [done|]. exact IH. Qed.

Lemma str_repeat_length c n : String.length (str_repeat c n) = n.
Proof. induction n; simpl; congruence. Qed.

Lemma str_take_length n s : n <= String.length s -> String.length (str_take n s) = n.
Proof.
  revert s. induction n as [|n IH]; intros [|a s] H; simpl in *; [done|done|lia|].
  rewrite IH; lia.
Qed.

Lemma str_take_drop n s : str_take n s +:+ str_drop n s = s.
Proof.
  revert s. induction n as [|n IH]; intros s; [by destruct s|].
  destruct s as [|c s]; [done|]. cbn [str_take str_drop]. by rewrite str_app_cons, IH.
Qed.

Lemma str_cut n s : n <= String.length s ->
  exists l r, s = l +:+ r /\ String.length l = n /\ str_take n s = l /\ str_drop n s = r.
Proof.
  intros Hn. exists (str_take n s), (str_drop n s).
  split_and!; [by rewrite str_take_drop|by apply str_take_length|done..].
Qed.

Lemma starts_with_app p s : starts_with p (p +:+ s) = true.
Proof.
  unfold starts_with. by rewrite (proj2 (strip_prefix_Some p (p +:+ s) s) eq_refl).
Qed.

Lemma starts_with_split p s : starts_with p s = true -> exists r, s = p +:+ r.
Proof.
  unfold starts_with. destruct (strip_prefix p s) as [r|] eqn:E; [|done].
  exists r. by apply strip_prefix_Some.
Qed.

(** ** Bytes of an integer

    [to_le_bytes] and [from_le_bytes], for an integer of [w] bytes. *)
Fixpoint to_le_bytes (w : nat) (n : N) : string :=
  match w with
  | 0 => ""
  | S w => String (byte_of (n mod 256)) (to_le_bytes w (n / 256))
  end.

Fixpoint from_le_bytes (s : string) : N :=
  match s with
  | "" => 0
  | String c s => code c + 256 * from_le_bytes s
  end.

Lemma to_le_bytes_length w n : String.length (to_le_bytes w n) = w.
Proof. revert n. induction w as [|w IH]; intros n; [done|]. simpl. by rewrite IH. Qed.

Lemma from_to_le_bytes w n :
  (n < 256 ^ N.of_nat w)%N -> from_le_bytes (to_le_bytes w n) = n.
Proof.
  revert n. induction w as [|w IH]; intros n Hn.
  - change (256 ^ N.of_nat 0)%N with 1%N in Hn. simpl. lia.
  - rewrite Nat2N.inj_succ, N.pow_succ_r' in Hn. cbn [to_le_bytes from_le_bytes].
    rewrite IH by (apply N.Div0.div_lt_upper_bound; lia).
    unfold code, byte_of. rewrite Ascii.N_ascii_embedding by (pose proof (N.mod_lt n 256); lia).
    pose proof (N.div_mod n 256). lia.
Qed.

Lemma to_from_le_bytes s : to_le_bytes (String.length s) (from_le_bytes s) = s.
Proof.
  induction s as [|c s IH]; [done|]. cbn [String.length to_le_bytes from_le_bytes].
  assert (code c < 256)%N as Hc by apply Ascii.N_ascii_bounded.
  replace ((code c + 256 * from_le_bytes s) mod 256)%N with (code c)
    by (rewrite N.mul_comm, N.Div0.mod_add, N.mod_small; lia).
  replace ((code c + 256 * from_le_bytes s) / 256)%N with (from_le_bytes s)
    by (rewrite N.mul_comm, N.div_add, N.div_small; lia).
  rewrite IH. unfold code, byte_of. by rewrite Ascii.ascii_N_embedding.
Qed.
