(* ===== verification/Interfaces.v ===== *)
(** * What the code relies on and does not define

    The parameters of the library, one class for each outside component, and
    the laws of each as a class of its own, so that a theorem names the laws
    it needs. The operations are documented behaviour of the crates
    [serde_json], [base64], [sha2] and [vodozemac]. *)

From S2P Require Import Prelude.
From S2P Require Import RustStr.
From stdpp Require Import options.

(** ** [serde_json::Value]

    The accessors of a parsed document. An object is a finite map: no
    operation of the code depends on the order of its members. *)
Class Json := {
  value : Type;
  as_str : value -> option string;
  as_u64 : value -> option N;
  as_i64 : value -> option Z;
  (** The value m * 2^e of the nearest [f64]: a number of a document is
      finite, and only a number has one. *)
  as_f64 : value -> option (Z * Z);
  as_bool : value -> option bool;
  as_array : value -> option (list value);
  as_object_map : value -> option (gmap string value);
  is_null : value -> bool;
  (** [serde_json::from_str]. *)
  from_str : string -> option value;
}.

(** [Value::get] with a text key. *)
Definition json_get `{Json} (v : value) (key : string) : option value :=
  as_object_map v ≫= fun m => m !! key.

(** ** Base64, SHA-256 and Ed25519 *)
Class Crypto := {
  (** [STANDARD_NO_PAD] *)
  b64_encode : string -> string;
  b64_decode : string -> option string;
  (** [URL_SAFE_NO_PAD] *)
  b64url_encode : string -> string;
  b64url_decode : string -> option string;
  sha256 : string -> string;
  (** [Ed25519PublicKey::from_slice] and [Ed25519Signature::from_slice]
      accept these bytes. *)
  ed25519_key_ok : string -> bool;
  ed25519_signature_ok : string -> bool;
  (** [Ed25519PublicKey::verify]: key, message, signature. *)
  ed25519_verify : string -> string -> string -> bool;
}.

Definition is_std_alphabet (c : ascii) : bool :=
  is_ascii_alphanumeric c || ascii_eqb c "+" || ascii_eqb c "/".
Definition is_url_alphabet (c : ascii) : bool :=
  is_ascii_alphanumeric c || ascii_eqb c "-" || ascii_eqb c "_".

(** RFC 4648 without padding: [n] bytes give the least number of 6-bit
    characters, of the alphabet, and decoding undoes encoding. *)
Class Base64Laws `{Crypto} : Prop := {
  b64_decode_encode s : b64_decode (b64_encode s) = Some s;
  b64_encode_alphabet s : all_chars is_std_alphabet (b64_encode s) = true;
  b64_encode_length s :
    String.length (b64_encode s) = (String.length s * 4 + 2) `div` 3;
  b64url_decode_encode s : b64url_decode (b64url_encode s) = Some s;
  b64url_encode_alphabet s : all_chars is_url_alphabet (b64url_encode s) = true;
  b64url_encode_length s :
    String.length (b64url_encode s) = (String.length s * 4 + 2) `div` 3;
}.

(** The length of a SHA-256 value. *)
Class Sha256Laws `{Crypto} : Prop := {
  sha256_length s : String.length (sha256 s) = 32;
}.
