(* ===== verification/Concrete.v ===== *)
(** * Concrete instances of the outside components

    An executable document type and an executable crypto, for evaluation of
    the model and for the witnesses. The base64 codec is RFC 4648 without
    padding; the hash and the signatures are stand-ins with the shape of the
    real ones (32 and 64 bytes) and no security. *)

From S2P Require Import Prelude.
From S2P Require Import RustStr.
From S2P Require Import Interfaces.
From stdpp Require Import options.

(** ** Documents *)

Inductive json :=
| JNull
| JBool (b : bool)
| JNum (z : Z)
| JStr (s : string)
| JArr (l : list json)
| JObj (l : list (string * json)).

Definition json_as_u64 (v : json) : option N :=
  match v with
  | JNum z => if (0 <=? z)%Z && (z <=? Z.of_N U64_MAX)%Z then Some (Z.to_N z) else None
  | _ => None
  end.

Definition json_as_i64 (v : json) : option Z :=
  match v with JNum z => if in_i64 z then Some z else None | _ => None end.

(** The parser of the stand-in knows the empty object only. *)
Definition json_from_str (text : string) : option json :=
  if decide (text = "{}") then Some (JObj []) else None.

#[export] Instance concrete_json : Json := {|
  value := json;
  as_str v := match v with JStr s => Some s | _ => None end;
  as_u64 := json_as_u64;
  as_i64 := json_as_i64;
  as_f64 v := match v with JNum z => Some (z, 0%Z) | _ => None end;
  as_bool v := match v with JBool b => Some b | _ => None end;
  as_array v := match v with JArr l => Some l | _ => None end;
  as_object_map v := match v with JObj l => Some (list_to_map l) | _ => None end;
  is_null v := match v with JNull => true | _ => false end;
  from_str := json_from_str;
|}.

(** ** Base64 *)

(** Six bits, the highest first. *)
Definition sextet : Type := bool * bool * bool * bool * bool * bool.

Definition sextet_N (x : sextet) : N :=
  let '(a, b, c, d, e, f) := x in
  let bit (v : bool) (w : N) : N := if v then w else 0%N in
  (bit a 32 + bit b 16 + bit c 8 + bit d 4 + bit e 2 + bit f 1)%N.

Definition sextet_of_N (n : N) : sextet :=
  (N.testbit n 5, N.testbit n 4, N.testbit n 3, N.testbit n 2, N.testbit n 1,
   N.testbit n 0).

Definition b64_char (c62 c63 : ascii) (x : sextet) : ascii :=
  let n := sextet_N x in
  if (n <? 26)%N then byte_of (65 + n)
  else if (n <? 52)%N then byte_of (71 + n)
  else if (n <? 62)%N then byte_of (n - 4)
  else if (n =? 62)%N then c62 else c63.

Definition b64_val (c62 c63 : ascii) (c : ascii) : option sextet :=
  if is_ascii_upper c then Some (sextet_of_N (code c - 65))
  else if is_ascii_lower c then Some (sextet_of_N (code c - 71))
  else if is_ascii_digit c then Some (sextet_of_N (code c + 4))
  else if ascii_eqb c c62 then Some (sextet_of_N 62)
  else if ascii_eqb c c63 then Some (sextet_of_N 63)
  else None.

Section Codec.
Context (c62 c63 : ascii).

(** [Ascii] lists its bits from the lowest to the highest. *)
Fixpoint codec_encode (s : string) : string :=
  let ch := b64_char c62 c63 in
  match s with
  | "" => ""
  | String (Ascii a0 a1 a2 a3 a4 a5 a6 a7) "" =>
      String (ch (a7, a6, a5, a4, a3, a2))
        (String (ch (a1, a0, false, false, false, false)) "")
  | String (Ascii a0 a1 a2 a3 a4 a5 a6 a7) (String (Ascii b0 b1 b2 b3 b4 b5 b6 b7) "") =>
      String (ch (a7, a6, a5, a4, a3, a2))
        (String (ch (a1, a0, b7, b6, b5, b4))
          (String (ch (b3, b2, b1, b0, false, false)) ""))
  | String (Ascii a0 a1 a2 a3 a4 a5 a6 a7)
      (String (Ascii b0 b1 b2 b3 b4 b5 b6 b7)
        (String (Ascii d0 d1 d2 d3 d4 d5 d6 d7) s)) =>
      String (ch (a7, a6, a5, a4, a3, a2))
        (String (ch (a1, a0, b7, b6, b5, b4))
          (String (ch (b3, b2, b1, b0, d7, d6))
            (String (ch (d5, d4, d3, d2, d1, d0)) (codec_encode s))))
  end.

Fixpoint codec_decode (s : string) : option string :=
  let val := b64_val c62 c63 in
  match s with
  | "" => Some ""
  | String p (String q t) =>
      match val p, val q with
      | Some (a7, a6, a5, a4, a3, a2), Some (a1, a0, b7, b6, b5, b4) =>
          let a := Ascii a0 a1 a2 a3 a4 a5 a6 a7 in
          match t with
          | "" => if b7 || b6 || b5 || b4 then None else Some (String a "")
          | String r t =>
              match val r with
              | Some (b3, b2, b1, b0, d7, d6) =>
                  let b := Ascii b0 b1 b2 b3 b4 b5 b6 b7 in
                  match t with
                  | "" => if d7 || d6 then None else Some (String a (String b ""))
                  | String u t =>
                      match val u, codec_decode t with
                      | Some (d5, d4, d3, d2, d1, d0), Some rest =>
                          Some (String a (String b
                            (String (Ascii d0 d1 d2 d3 d4 d5 d6 d7) rest)))
                      | _, _ => None
                      end
                  end
              | None => None
              end
          end
      | _, _ => None
      end
  | String _ "" => None
  end.

Context (Hval : forall x, b64_val c62 c63 (b64_char c62 c63 x) = Some x).

Lemma codec_decode_encode s : codec_decode (codec_encode s) = Some s.
Proof using Hval.
  assert (forall n s, String.length s < n -> codec_decode (codec_encode s) = Some s) as H;
    [|by apply (H (S (String.length s))); lia].
  clear s. induction n as [|n IH]; intros s Hs; [lia|].
  destruct s as [|[a0 a1 a2 a3 a4 a5 a6 a7] s]; [done|].
  destruct s as [|[b0 b1 b2 b3 b4 b5 b6 b7] s].
  { cbn [codec_encode codec_decode]. rewrite !Hval. done. }
  destruct s as [|[d0 d1 d2 d3 d4 d5 d6 d7] s].
  { cbn [codec_encode codec_decode]. rewrite !Hval. done. }
  cbn [codec_encode codec_decode]. rewrite !Hval. rewrite IH; [done|].
  simpl in Hs. lia.
Qed.

Context (alphabet : ascii -> bool)
  (Halpha : forall x, alphabet (b64_char c62 c63 x) = true).

Lemma codec_encode_alphabet s : all_chars alphabet (codec_encode s) = true.
Proof using Halpha.
  assert (forall n s, String.length s < n -> all_chars alphabet (codec_encode s) = true) as H;
    [|by apply (H (S (String.length s))); lia].
  clear s. induction n as [|n IH]; intros s Hs; [lia|].
  destruct s as [|[a0 a1 a2 a3 a4 a5 a6 a7] s]; [done|].
  destruct s as [|[b0 b1 b2 b3 b4 b5 b6 b7] s].
  { cbn [codec_encode all_chars]. by rewrite !Halpha. }
  destruct s as [|[d0 d1 d2 d3 d4 d5 d6 d7] s].
  { cbn [codec_encode all_chars]. by rewrite !Halpha. }
  cbn [codec_encode all_chars]. rewrite !Halpha, IH; [done|]. simpl in Hs. lia.
Qed.

Lemma codec_encode_length s :
  String.length (codec_encode s) = (String.length s * 4 + 2) `div` 3.
Proof.
  assert (forall n s, String.length s < n ->
    String.length (codec_encode s) = (String.length s * 4 + 2) `div` 3) as H;
    [|by apply (H (S (String.length s))); lia].
  clear s. induction n as [|n IH]; intros s Hs; [lia|].
  destruct s as [|[a0 a1 a2 a3 a4 a5 a6 a7] s]; [done|].
  destruct s as [|[b0 b1 b2 b3 b4 b5 b6 b7] s]; [done|].
  destruct s as [|[d0 d1 d2 d3 d4 d5 d6 d7] s]; [done|].
  cbn [codec_encode String.length]. rewrite IH by (simpl in Hs; lia).
  replace (S (S (S (String.length s))) * 4 + 2) with (4 * 3 + (String.length s * 4 + 2)) by lia.
  rewrite Nat.div_add_l by lia. lia.
Qed.
End Codec.

(** ** Hash and signatures *)

Definition pad (n : nat) (s : string) : string :=
  str_take n (s +:+ str_repeat "000" n).

(** The last bytes first, so that the value depends on the end of the text. *)
Definition toy_sha256 (s : string) : string := pad 32 (String.rev s).

Definition toy_sign (key message : string) : string := key +:+ toy_sha256 message.

#[export] Instance concrete_crypto : Crypto := {|
  b64_encode := codec_encode "+" "/";
  b64_decode := codec_decode "+" "/";
  b64url_encode := codec_encode "-" "_";
  b64url_decode := codec_decode "-" "_";
  sha256 := toy_sha256;
  ed25519_key_ok raw := (str_len raw =? 32)%N;
  ed25519_signature_ok raw := (str_len raw =? 64)%N;
  ed25519_verify key message signature := bool_decide (signature = toy_sign key message);
|}.

Lemma std_val x : b64_val "+" "/" (b64_char "+" "/" x) = Some x.
Proof. by destruct x as [[[[[[] []] []] []] []] []]; vm_compute. Qed.
Lemma url_val x : b64_val "-" "_" (b64_char "-" "_" x) = Some x.
Proof. by destruct x as [[[[[[] []] []] []] []] []]; vm_compute. Qed.
Lemma std_alpha x : is_std_alphabet (b64_char "+" "/" x) = true.
Proof. by destruct x as [[[[[[] []] []] []] []] []]; vm_compute. Qed.
Lemma url_alpha x : is_url_alphabet (b64_char "-" "_" x) = true.
Proof. by destruct x as [[[[[[] []] []] []] []] []]; vm_compute. Qed.

#[export] Instance concrete_base64_laws : Base64Laws.
Proof.
  split; intros s.
  - apply codec_decode_encode, std_val.
  - apply codec_encode_alphabet, std_alpha.
  - apply codec_encode_length.
  - apply codec_decode_encode, url_val.
  - apply codec_encode_alphabet, url_alpha.
  - apply codec_encode_length.
Qed.

#[export] Instance concrete_sha256_laws : Sha256Laws.
Proof.
  split. intros s. apply str_take_length.
  rewrite str_length_app, str_repeat_length. lia.
Qed.

(** ** Sample values for the witnesses *)

(** The text of the key whose 32 bytes are the byte [n]. *)
Definition sample_key (n : N) : string := b64_encode (str_repeat (byte_of n) 32).

(** The signature text of a sample key over a message. *)
Definition sample_sign (n : N) (message : string) : string :=
  b64_encode (toy_sign (str_repeat (byte_of n) 32) message).

(** ** Text forms of a finite table

    A stand-in for a derived text form: the text of a value is its place in a
    table. *)

Section Table.
Context {X : Type} `{EqDecision X}.

Fixpoint index_of (x : X) (l : list X) : option nat :=
  match l with
  | [] => None
  | y :: l => if decide (y = x) then Some 0 else S <$> index_of x l
  end.

Definition entry_name (i : nat) : string := str_repeat "s" (S i).

Definition table_encode (l : list X) (x : X) : option string := entry_name <$> index_of x l.

Definition table_decode (l : list X) (text : string) : option X :=
  match String.length text with
  | S i => if decide (text = entry_name i) then l !! i else None
  | O => None
  end.

Lemma index_of_Some x l i : index_of x l = Some i -> l !! i = Some x.
Proof.
  revert i. induction l as [|y l IH]; intros i; simpl; [done|].
  case_decide; [intros [= <-]; by subst|].
  destruct (index_of x l) as [j|]; [|done]. intros [= <-]. by apply IH.
Qed.

Lemma table_round l x text : table_encode l x = Some text -> table_decode l text = Some x.
Proof.
  unfold table_encode, table_decode. destruct (index_of x l) as [i|] eqn:E; [|done].
  intros [= <-]. unfold entry_name. rewrite str_repeat_length.
  rewrite decide_True by done. by apply index_of_Some.
Qed.
End Table.
