(* ===== verification/Isupport.v ===== *)
(** * Case mapping and ISUPPORT (crates/cordiale-core/src/isupport.rs) *)

From S2P Require Import Prelude.
From S2P Require Import RustStr.
From S2P Require Import Interfaces.
From stdpp Require Import options.

(** ** Case folding *)

Module CaseMapping.
Inductive t := Ascii | Rfc1459 | Rfc1459Strict.

#[global] Instance eq_dec : EqDecision t.
Proof. solve_decision. Defined.

Fixpoint str_map (f : ascii -> ascii) (s : string) : string :=
  match s with "" => "" | String c s => String (f c) (str_map f s) end.

(** The fold of one character: the arms of the [match] in their order. *)
Definition fold_char (m : t) (c : ascii) : ascii :=
  if is_ascii_upper c then to_ascii_lowercase c
  else match m, c with
       | (Rfc1459 | Rfc1459Strict), "["%char => "{"%char
       | (Rfc1459 | Rfc1459Strict), "]"%char => "}"%char
       | (Rfc1459 | Rfc1459Strict), "\"%char => "|"%char
       | Rfc1459, "~"%char => "^"%char
       | _, _ => c
       end.

Definition fold (m : t) (name : string) : string := str_map (fold_char m) name.

Definition nick_eq (m : t) (left right : string) : bool :=
  bool_decide (fold m left = fold m right).

End CaseMapping.

(** ** The snapshot of a network *)

Record IsupportState := {
  chanmodes_a : list string;
  chanmodes_b : list string;
  chanmodes_c : list string;
  chanmodes_d : list string;
  list_modes_queryable : list string;
  prefix : gmap string string;
  prefix_order : list string;
  chantypes : list string;
  casemapping : CaseMapping.t;
  maxlist : gmap string N;
  nicklen : option N;
  channellen : option N;
  topiclen : option N;
  frame_budget_base : N;
  network : option string;
}.

Definition DEFAULT_PREFIXES : list (string * string) :=
  [("q", "~"); ("a", "&"); ("o", "@"); ("h", "%"); ("v", "+")].

Definition prefix_symbol_for_mode (isupport : option IsupportState) (letter : string)
    : option string :=
  match isupport with
  | Some state => prefix state !! letter
  | None => snd <$> List.find (fun p => bool_decide (p.1 = letter)) DEFAULT_PREFIXES
  end.

Definition mode_takes_param (isupport : option IsupportState) (letter : string)
    (adding : bool) : bool :=
  match isupport with
  | Some state =>
      let listed modes := contains modes letter in
      listed (chanmodes_a state)
      || listed (chanmodes_b state)
      || (adding && listed (chanmodes_c state))
  | None =>
      contains ["b"; "e"; "I"; "k"] letter || (adding && bool_decide (letter = "l"))
  end.

(** The loop over the characters of a MODE: the iterator over the arguments
    and the sign are its state. *)
Fixpoint mode_changes_loop (isupport : option IsupportState) (chars : list string)
    (args : list string) (adding : bool) : list (bool * string * string) :=
  match chars with
  | [] => []
  | ch :: chars =>
      if decide (ch = "+") then mode_changes_loop isupport chars args true
      else if decide (ch = "-") then mode_changes_loop isupport chars args false
      else
        match prefix_symbol_for_mode isupport ch with
        | Some symbol =>
            match args with
            | nick :: args => (adding, symbol, nick) :: mode_changes_loop isupport chars args adding
            | [] => mode_changes_loop isupport chars [] adding
            end
        | None =>
            if mode_takes_param isupport ch adding
            then mode_changes_loop isupport chars (tail args) adding
            else mode_changes_loop isupport chars args adding
        end
  end.

Definition prefix_mode_changes (modes : string) (args : list string)
    (isupport : option IsupportState) : list (bool * string * string) :=
  mode_changes_loop isupport (utf8_chars modes) args true.

Definition prefix_symbol_order (isupport : option IsupportState) : list string :=
  match isupport with
  | Some state =>
      match prefix_order state with
      | [] => ["~"; "&"; "@"; "%"; "+"]
      | order => omap (fun mode => prefix state !! mode) order
      end
  | None => ["~"; "&"; "@"; "%"; "+"]
  end.

(** ** Reading a snapshot *)

Record IsupportChanged := {
  network_id : Z;
  state : IsupportState;
}.

Section Parse.
Context {J : Json}.

Definition positive_integer (v : value) : option N :=
  n ← as_u64 v; if (0 <? n)%N then Some n else None.

Definition nullable_positive_integer (v : value) : option (option N) :=
  if is_null v then Some None else Some <$> positive_integer v.

Definition string_array (v : value) : option (list string) :=
  items ← as_array v; mapM as_str items.

(** [collect] of an object into a map of the same keys: one bad member makes
    the whole map [None]. *)
Definition collect_map {A} (f : value -> option A) (m : gmap string value)
    : option (gmap string A) :=
  if decide (map_Forall (fun _ v => is_Some (f v)) m) then Some (omap f m) else None.

Definition string_map (v : value) : option (gmap string string) :=
  m ← as_object_map v; collect_map as_str m.

Definition positive_integer_map (v : value) : option (gmap string N) :=
  m ← as_object_map v; collect_map positive_integer m.

Definition casemapping_of (text : string) : option CaseMapping.t :=
  if decide (text = "ascii") then Some CaseMapping.Ascii
  else if decide (text = "rfc1459") then Some CaseMapping.Rfc1459
  else if decide (text = "rfc1459_strict") then Some CaseMapping.Rfc1459Strict
  else None.

Definition network_token (field : option value) : option (option string) :=
  match field with
  | None => Some None
  | Some v => if is_null v then Some None else Some <$> as_str v
  end.

Definition parse_isupport_changed (payload : value) : option IsupportChanged :=
  kind ← json_get payload "kind" ≫= as_str;
  if negb (bool_decide (kind = "isupport_changed")) then None else
  network_id ← json_get payload "network_id" ≫= as_i64;
  if (network_id <=? 0)%Z then None else
  casemapping ← (json_get payload "casemapping" ≫= as_str) ≫= casemapping_of;
  frame_budget_base ← json_get payload "frame_budget_base" ≫= positive_integer;
  network ← network_token (json_get payload "network");
  chanmodes_a ← json_get payload "chanmodes_a" ≫= string_array;
  chanmodes_b ← json_get payload "chanmodes_b" ≫= string_array;
  chanmodes_c ← json_get payload "chanmodes_c" ≫= string_array;
  chanmodes_d ← json_get payload "chanmodes_d" ≫= string_array;
  list_modes_queryable ← json_get payload "list_modes_queryable" ≫= string_array;
  prefix ← json_get payload "prefix" ≫= string_map;
  prefix_order ← json_get payload "prefix_order" ≫= string_array;
  chantypes ← json_get payload "chantypes" ≫= string_array;
  maxlist ← json_get payload "maxlist" ≫= positive_integer_map;
  nicklen ← json_get payload "nicklen" ≫= nullable_positive_integer;
  channellen ← json_get payload "channellen" ≫= nullable_positive_integer;
  topiclen ← json_get payload "topiclen" ≫= nullable_positive_integer;
  Some {|
    network_id := network_id;
    state := {|
      chanmodes_a := chanmodes_a; chanmodes_b := chanmodes_b;
      chanmodes_c := chanmodes_c; chanmodes_d := chanmodes_d;
      list_modes_queryable := list_modes_queryable;
      prefix := prefix; prefix_order := prefix_order; chantypes := chantypes;
      casemapping := casemapping; maxlist := maxlist; nicklen := nicklen;
      channellen := channellen; topiclen := topiclen;
      frame_budget_base := frame_budget_base; network := network;
    |};
  |}.
End Parse.

(** ** Case folding: lemmas *)

Lemma fold_char_idem m c :
  CaseMapping.fold_char m (CaseMapping.fold_char m c) = CaseMapping.fold_char m c.
Proof. by destruct m, c as [[] [] [] [] [] [] [] []]; vm_compute. Qed.

Lemma fold_idem m s : CaseMapping.fold m (CaseMapping.fold m s) = CaseMapping.fold m s.
Proof.
  unfold CaseMapping.fold. induction s as [|c s IH]; [done|]. simpl.
  by rewrite fold_char_idem, IH.
Qed.

(** A fold leaves every byte of a longer character alone, so the text stays
    valid UTF-8. *)
Lemma fold_char_non_ascii m c :
  is_ascii_byte c = false -> CaseMapping.fold_char m c = c.
Proof. destruct m, c as [[] [] [] [] [] [] [] []]; vm_compute; congruence. Qed.

Lemma fold_length m s : String.length (CaseMapping.fold m s) = String.length s.
Proof. unfold CaseMapping.fold. induction s as [|c s IH]; simpl; congruence. Qed.

(** A mapping with more upper-case letters folds after one with fewer. *)
Definition coarser (m m' : CaseMapping.t) : bool :=
  match m, m' with
  | CaseMapping.Ascii, _ => true
  | CaseMapping.Rfc1459Strict, (CaseMapping.Rfc1459Strict | CaseMapping.Rfc1459) => true
  | CaseMapping.Rfc1459, CaseMapping.Rfc1459 => true
  | _, _ => false
  end.

Lemma fold_coarser m m' s :
  coarser m m' = true -> CaseMapping.fold m' (CaseMapping.fold m s) = CaseMapping.fold m' s.
Proof.
  intros Hm. unfold CaseMapping.fold. induction s as [|c s IH]; [done|]. simpl.
  rewrite IH. f_equal. clear IH.
  by destruct m, m'; try discriminate Hm; destruct c as [[] [] [] [] [] [] [] []]; vm_compute.
Qed.

Lemma nick_eq_spec m a b :
  CaseMapping.nick_eq m a b = true <-> CaseMapping.fold m a = CaseMapping.fold m b.
Proof. apply bool_decide_eq_true. Qed.

(** ** MODE parameters: a reference definition *)

(** The letters of a MODE with their signs. *)
Fixpoint signed_letters (chars : list string) (adding : bool) : list (bool * string) :=
  match chars with
  | [] => []
  | ch :: chars =>
      if decide (ch = "+") then signed_letters chars true
      else if decide (ch = "-") then signed_letters chars false
      else (adding, ch) :: signed_letters chars adding
  end.

Section Modes.
Context (isupport : option IsupportState).

(** Whether a signed letter takes a parameter at all. *)
Definition takes (sl : bool * string) : bool :=
  match prefix_symbol_for_mode isupport sl.2 with
  | Some _ => true
  | None => mode_takes_param isupport sl.2 sl.1
  end.

(** The parameter of the letter number [i] is the one at the number of earlier
    letters that take one. *)
Definition change_at (letters : list (bool * string)) (args : list string) (i : nat)
    : option (bool * string * string) :=
  '(adding, letter) ← letters !! i;
  symbol ← prefix_symbol_for_mode isupport letter;
  nick ← args !! length (filter (fun sl => takes sl = true) (take i letters));
  Some (adding, symbol, nick).

Definition changes_by_index (letters : list (bool * string)) (args : list string)
    : list (bool * string * string) :=
  omap (change_at letters args) (seq 0 (length letters)).

Lemma changes_by_index_cons sl letters args :
  changes_by_index (sl :: letters) args =
    (match prefix_symbol_for_mode isupport sl.2, args with
     | Some symbol, nick :: _ => [(sl.1, symbol, nick)]
     | _, _ => []
     end) ++ changes_by_index letters (if takes sl then tail args else args).
Proof.
  unfold changes_by_index. cbn [length seq]. rewrite omap_cons, <-fmap_S_seq.
  assert (omap (change_at (sl :: letters) args) (S <$> seq 0 (length letters)) =
          omap (change_at letters (if takes sl then tail args else args))
            (seq 0 (length letters))) as ->.
  { rewrite list_omap_fmap. apply list_omap_ext. apply Forall_Forall2_diag, Forall_true.
    intros i. unfold change_at, compose. simpl.
    destruct (letters !! i) as [[ad l]|]; [|done]. simpl.
    destruct (prefix_symbol_for_mode isupport l); [|done]. simpl.
    destruct (takes sl) eqn:Ht.
    - rewrite filter_cons_True by done. simpl. by destruct args.
    - rewrite filter_cons_False by congruence. done. }
  f_equal. unfold change_at. destruct sl as [ad l]. simpl.
  destruct (prefix_symbol_for_mode isupport l); [|done]. simpl. by destruct args.
Qed.

Lemma mode_changes_loop_by_index chars args adding :
  mode_changes_loop isupport chars args adding =
  changes_by_index (signed_letters chars adding) args.
Proof.
  revert args adding. induction chars as [|ch chars IH]; intros args adding; [done|].
  simpl. case_decide; [apply IH|]. case_decide; [apply IH|].
  rewrite changes_by_index_cons. unfold takes. cbn [fst snd].
  destruct (prefix_symbol_for_mode isupport ch) as [symbol|].
  - destruct args; simpl; by rewrite IH.
  - by destruct (mode_takes_param isupport ch adding); simpl; rewrite IH.
Qed.
End Modes.
