(* ===== verification/Wire.v ===== *)
(** * Wire text of the per-device protocol (crates/cordiale-core/src/e2e_wire.rs)

    Frames and fragments, strict key and signature text, device ids, version
    numbers, signed texts and the version rule of a device list. *)

From Stdlib Require Import DecimalString.
From S2P Require Import Prelude.
From S2P Require Import RustStr.
From S2P Require Import Interfaces.
From stdpp Require Import options.

(** ** Limits *)

Definition MAX_LIST_DEVICES : N := 4.
Definition MAX_ENROLLED_DEVICES : N := 3.
Definition MAX_VERSION : N := 2147483647.
Definition KEY_TEXT_LEN : N := 43.
Definition SIGNATURE_TEXT_LEN : N := 86.
Definition DID_LEN : N := 11.
Definition PAIRING_LIFETIME_SECS : N := 300.
Definition PAIRING_MESSAGE_MAX_BYTES : N := 16 * 1024.
Definition PAIRING_TOTAL_MAX_BYTES : N := 64 * 1024.
Definition PAIRING_MAX_MESSAGES : N := 64.
Definition INBOX_MAX_BYTES : N := 4 * 1024 * 1024.
Definition INBOX_SENDER_MAX_BYTES : N := 1024 * 1024.
Definition INBOX_EXPIRY_SECS : N := 7 * 24 * 60 * 60.
Definition INBOX_PAGE_MAX : N := 100.
Definition SEND_PAYLOAD_MAX_BYTES : N := 32 * 1024.
Definition SEND_PAYLOAD_MAX_LINES : N := 64.
Definition ONE_TIME_KEYS_MAX : N := 50.
Definition INBOX_ENTRY_COST_BYTES : N := 256.

Definition pairing_message_fits (count total_bytes next_len : N) : bool :=
  (next_len <=? PAIRING_MESSAGE_MAX_BYTES)%N
  && (count <? PAIRING_MAX_MESSAGES)%N
  && match checked_add USIZE_MAX total_bytes next_len with
     | Some sum => (sum <=? PAIRING_TOTAL_MAX_BYTES)%N
     | None => false
     end.

(** ** Errors, verbs and frames *)

Definition WILDCARD : string := "*".
Definition SOH : ascii := "001".
Definition FRAME_PREFIX : string := String SOH "E2E ".
Definition FRAME_SUFFIX : ascii := SOH.

Inductive WireError :=
| BadFrame | BadVerb | BadMsgid | BadFragment | BadDid | BadKey | BadSignature
| BadVersion | BadAddress | BadJson | FragmentMismatch | DuplicateDevice
| BadDeviceCount | BadIdCount | BadId | BadTarget | BadPayload | PayloadTooLarge
| TooManyLines | TooManyKeys | BadPriority | BadExpiry | MissingField
| BadFieldType | UnknownField.

#[global] Instance WireError_eq_dec : EqDecision WireError.
Proof. solve_decision. Defined.

Module Verb.
Inductive t := KeyReq | Keys | PkMsg | Msg | Nack.

#[global] Instance eq_dec : EqDecision t.
Proof. solve_decision. Defined.

Definition as_str (v : t) : string :=
  match v with
  | KeyReq => "KEYREQ"
  | Keys => "KEYS"
  | PkMsg => "PKMSG"
  | Msg => "MSG"
  | Nack => "NACK"
  end.

Definition parse (text : string) : result t WireError :=
  if decide (text = "KEYREQ") then Ok KeyReq
  else if decide (text = "KEYS") then Ok Keys
  else if decide (text = "PKMSG") then Ok PkMsg
  else if decide (text = "MSG") then Ok Msg
  else if decide (text = "NACK") then Ok Nack
  else Err BadVerb.
End Verb.

Module Frame.
Record t := mk {
  verb : Verb.t;
  msgid : string;
  index : N;
  total : N;
  from : string;
  to : string;
  chunk : string;
}.

#[global] Instance eq_dec : EqDecision t.
Proof. solve_decision. Defined.
End Frame.

Definition is_std_b64_char (c : ascii) : bool :=
  is_ascii_alphanumeric c || ascii_eqb c "+" || ascii_eqb c "/".
Definition is_url_b64_char (c : ascii) : bool :=
  is_ascii_alphanumeric c || ascii_eqb c "-" || ascii_eqb c "_".

(** ** Keys, signatures and device ids *)

Section Keys.
Context {C : Crypto}.

Definition decode_canonical (text : string) (expected_len : N) : option string :=
  if negb (str_len text =? expected_len)%N || negb (all_chars is_std_b64_char text)
  then None
  else raw ← b64_decode text;
       if decide (b64_encode raw = text) then Some raw else None.

(** [<[u8; n]>::try_from] of a vector of bytes. *)
Definition exact_bytes (n : N) (raw : string) : option string :=
  if (str_len raw =? n)%N then Some raw else None.

Definition decode_key (text : string) : result string WireError :=
  ok_or (decode_canonical text KEY_TEXT_LEN ≫= exact_bytes 32) BadKey.

Definition decode_signature (text : string) : result string WireError :=
  ok_or (decode_canonical text SIGNATURE_TEXT_LEN ≫= exact_bytes 64) BadSignature.

Definition did_from_raw_key (key : string) : string :=
  b64url_encode (str_take 8 (sha256 key)).

Definition did_from_key_text (key : string) : result string WireError :=
  rmap did_from_raw_key (decode_key key).

Definition is_did_shape (text : string) : bool :=
  (str_len text =? DID_LEN)%N
  && all_chars is_url_b64_char text
  && match b64url_decode text with
     | Some raw => bool_decide (b64url_encode raw = text)
     | None => false
     end.

(** ** Version numbers *)

(** [split_once] at the first of two characters. *)
Fixpoint split_once2 (c d : ascii) (s : string) : option (string * string) :=
  match s with
  | "" => None
  | String a s =>
      if ascii_eqb a c || ascii_eqb a d then Some ("", s)
      else match split_once2 c d s with
           | Some (l, r) => Some (String a l, r)
           | None => None
           end
  end.

(** [i64::checked_sub]. *)
Definition i64_checked_sub (a b : Z) : option Z :=
  if in_i64 (a - b) then Some (a - b)%Z else None.

Definition integral_decimal (text : string) : option N :=
  '(mantissa, exponent) ←
    match split_once2 "e" "E" text with
    | Some (mantissa, exponent) => (fun e => (mantissa, e)) <$> parse_i64 exponent
    | None => Some (text, 0%Z)
    end;
  let '(whole, fraction) := default (mantissa, "") (split_once "." mantissa) in
  let digits := whole +:+ fraction in
  if is_empty digits || negb (all_chars is_ascii_digit digits) then None else
  let digits := trim_start_matches "0" digits in
  if is_empty digits then Some 0%N else
  shift ← i64_checked_sub exponent (Z.of_N (str_len fraction));
  scaled ←
    (if (0 <=? shift)%Z then
       if (19 <? str_len digits + Z.to_N shift)%N then None
       else Some (digits +:+ str_repeat "0" (Z.to_nat shift))
     else
       let cut := Z.to_N (Z.abs shift) in
       if (str_len digits <? cut)%N then None else
       let keep := N.to_nat (str_len digits - cut) in
       if all_chars (ascii_eqb "0") (str_drop keep digits)
       then Some (str_take keep digits) else None);
  parse_unsigned U64_MAX scaled.

Definition version_in_range (v : N) : bool := (1 <=? v)%N && (v <=? MAX_VERSION)%N.

Definition parse_version (raw : string) : result N WireError :=
  let? version := ok_or (integral_decimal raw) BadVersion in
  if (version <=? U32_MAX)%N && version_in_range version then Ok version
  else Err BadVersion.

Definition check_version (version : N) : result unit WireError :=
  if version_in_range version then Ok tt else Err BadVersion.

(** ** Signed texts *)

Definition device_id_signed_text (curve25519_key master_ed25519_key : string) : string :=
  "irc-e2e:v2:id:" +:+ curve25519_key +:+ ":" +:+ master_ed25519_key.

Definition bundle_key_signed_text (curve25519_key : string) : result string WireError :=
  let? _ := decode_key curve25519_key in
  Ok ("irc-e2e:v1:otk:" +:+ curve25519_key).

Definition DEVICE_CERTIFICATE_PREFIX : string := "irc-e2e:v2:dev:".

Definition device_certificate_signed_text (first_list_version : N)
    (device_ed25519_key : string) : result string WireError :=
  let? _ := check_version first_list_version in
  let? _ := decode_key device_ed25519_key in
  Ok (DEVICE_CERTIFICATE_PREFIX +:+ N_display first_list_version +:+ ":" +:+
      device_ed25519_key).

(** The input is raw bytes here, so the UTF-8 check is explicit. *)
Definition parse_device_certificate_signed_text (bytes : string)
    : result (N * string) WireError :=
  if negb (utf8_valid bytes) then Err BadPayload else
  let? rest := ok_or (strip_prefix DEVICE_CERTIFICATE_PREFIX bytes) BadPayload in
  let? (version, key) := ok_or (split_once ":" rest) BadPayload in
  if is_empty version || (10 <? str_len version)%N || starts_with "0" version
     || negb (all_chars is_ascii_digit version)
  then Err BadVersion else
  let? version := ok_or (parse_unsigned U32_MAX version) BadVersion in
  let? _ := check_version version in
  let? _ := decode_key key in
  Ok (version, key).

(** The checks of a list: 1 to 4 keys, each valid, no [did] twice. *)
Fixpoint check_dids (keys dids : list string) : result unit WireError :=
  match keys with
  | [] => Ok tt
  | key :: keys =>
      let? did := did_from_key_text key in
      if contains dids did then Err DuplicateDevice
      else check_dids keys (dids ++ [did])
  end.

Definition check_list_devices (keys : list string) : result unit WireError :=
  if (lenN keys =? 0)%N || (MAX_LIST_DEVICES <? lenN keys)%N
  then Err BadDeviceCount
  else check_dids keys [].

Definition sort_list_keys (device_keys : list string) : result (list string) WireError :=
  let? _ := check_list_devices device_keys in
  Ok (merge_sort String.le device_keys).

Definition list_text (list_version : N) (sorted : list string) : string :=
  "irc-e2e:v2:list:" +:+ N_display list_version +:+ ":" +:+ join "," sorted.

Definition signed_list_signed_text (list_version : N) (device_keys : list string)
    : result string WireError :=
  let? _ := check_version list_version in
  let? sorted := sort_list_keys device_keys in
  Ok (list_text list_version sorted).

(** The order of [(raw key, text)] pairs. *)
Definition raw_pair_le (a b : string * string) : Prop :=
  if decide (a.1 = b.1) then String.le a.2 b.2 else String.le a.1 b.1.

#[global] Instance raw_pair_le_dec : RelDecision raw_pair_le.
Proof. intros a b. unfold raw_pair_le. destruct (decide (a.1 = b.1)); apply _. Defined.

Definition legacy_raw_order_list_signed_text (list_version : N)
    (device_keys : list string) : result string WireError :=
  let? _ := check_version list_version in
  let? _ := check_list_devices device_keys in
  let? raw := collect_result
                (fun key => let? bytes := decode_key key in Ok (bytes, key)) device_keys in
  Ok (list_text list_version (snd <$> merge_sort raw_pair_le raw)).

Definition recipient_binding (sender_ed25519_key recipient_ed25519_key : string) : string :=
  b64_encode (str_take 16 (sha256
    ("irc-e2e:v2:bind:" +:+ sender_ed25519_key +:+ ":" +:+ recipient_ed25519_key))).
End Keys.

(** ** The version rule *)

Inductive ListDecision := Replace | NoOp | Ignore.

#[global] Instance ListDecision_eq_dec : EqDecision ListDecision.
Proof. solve_decision. Defined.

Definition decide_list (stored : option (N * list string)) (new_version : N)
    (new_keys : list string) : ListDecision :=
  match stored with
  | None => Replace
  | Some (version, keys) =>
      if (version <? new_version)%N then Replace
      else if (new_version <? version)%N then Ignore
      else if decide (merge_sort String.le keys = merge_sort String.le new_keys)
           then NoOp else Ignore
  end.

(** ** Addresses and frames *)

Section Frames.
Context {C : Crypto}.

Definition check_msgid (msgid : string) : result unit WireError :=
  if is_empty msgid || negb (all_chars is_std_b64_char msgid) then Err BadMsgid else Ok tt.

Definition check_address (text : string) : result unit WireError :=
  if bool_decide (text = WILDCARD) || is_did_shape text then Ok tt else Err BadAddress.

Definition check_addresses (verb : Verb.t) (from to : string) : result unit WireError :=
  let? _ := check_address from in
  let? _ := check_address to in
  let from_any := bool_decide (from = WILDCARD) in
  let to_any := bool_decide (to = WILDCARD) in
  let ok :=
    match verb with
    | Verb.KeyReq => negb from_any && to_any
    | Verb.Keys => from_any && negb to_any
    | Verb.PkMsg | Verb.Msg => negb from_any
    | Verb.Nack => negb from_any && negb to_any
    end in
  if ok then Ok tt else Err BadAddress.

Definition parse_count (text : string) : result N WireError :=
  if is_empty text || (9 <? str_len text)%N || negb (all_chars is_ascii_digit text)
  then Err BadFragment
  else ok_or (parse_unsigned U32_MAX text) BadFragment.

Definition parse_frame (text : string) : result Frame.t WireError :=
  let? body := ok_or (strip_prefix FRAME_PREFIX text ≫= strip_suffix_char FRAME_SUFFIX)
                 BadFrame in
  if negb (all_chars is_ascii_byte body) || any_char is_ascii_control body
  then Err BadFrame else
  let parts := splitn 6 " " body in
  let next i := ok_or (parts !! i) BadFrame in
  let? verb := rbind (next 0) Verb.parse in
  let? msgid := next 1 in
  let? fragment := next 2 in
  let? from := next 3 in
  let? to := next 4 in
  let? chunk := next 5 in
  let? _ := check_msgid msgid in
  let? (index, total) := ok_or (split_once "/" fragment) BadFragment in
  let? index := parse_count index in
  let? total := parse_count total in
  if (index =? 0)%N || (total <? index)%N then Err BadFragment else
  let? _ := check_addresses verb from to in
  if is_empty chunk || contains_char FRAME_SUFFIX chunk then Err BadFrame else
  Ok (Frame.mk verb msgid index total from to chunk).

(** The [format!] of a frame. *)
Definition frame_text (f : Frame.t) : string :=
  FRAME_PREFIX +:+ Verb.as_str (Frame.verb f) +:+ " " +:+ Frame.msgid f +:+ " " +:+
  N_display (Frame.index f) +:+ "/" +:+ N_display (Frame.total f) +:+ " " +:+
  Frame.from f +:+ " " +:+ Frame.to f +:+ " " +:+ Frame.chunk f +:+
  String FRAME_SUFFIX "".

Definition format_frame (f : Frame.t) : result string WireError :=
  let text := frame_text f in
  let? parsed := parse_frame text in
  if decide (parsed = f) then Ok text else Err BadFrame.
End Frames.

(** ** Fragments *)

Definition MAX_FRAGMENTS : N := 64.
Definition FRAME_MSGID_LEN : N := 11.

Definition frame_line_budget (frame_budget_base : N) (target : string) : N :=
  N.min USIZE_MAX frame_budget_base - str_len target.

Definition frame_head (verb : Verb.t) (total : N) (from to : string) : N :=
  let digits := str_len (N_display total) in
  str_len FRAME_PREFIX + str_len (Verb.as_str verb) + 1 + FRAME_MSGID_LEN + 1
  + 2 * digits + 1 + 1 + str_len from + 1 + str_len to + 1.

Definition frame_room (verb : Verb.t) (line_budget total : N) (from to : string) : N :=
  line_budget - (frame_head verb total from to + 1).

Definition frames_needed (verb : Verb.t) (payload_len line_budget : N) (from to : string)
    : option N :=
  List.find
    (fun total =>
       let room := frame_room verb line_budget total from to in
       (0 <? room)%N && (payload_len <=? saturating_mul USIZE_MAX room total)%N)
    (N.of_nat <$> seq 1 (N.to_nat MAX_FRAGMENTS)).

(** The loop over the frames: [chunks] is the vector of slots. *)
Fixpoint place_chunks (first : Frame.t) (frames : list Frame.t)
    (chunks : list (option string)) : result (list (option string)) WireError :=
  match frames with
  | [] => Ok chunks
  | frame :: frames =>
      if negb (bool_decide (Frame.verb frame = Frame.verb first))
         || negb (bool_decide (Frame.msgid frame = Frame.msgid first))
         || negb (bool_decide (Frame.from frame = Frame.from first))
         || negb (bool_decide (Frame.to frame = Frame.to first))
         || negb (Frame.total frame =? Frame.total first)%N
      then Err FragmentMismatch
      else if (Frame.index frame =? 0)%N then Err BadFragment
      else
        let position := N.to_nat (Frame.index frame - 1) in
        match chunks !! position with
        | None => Err BadFragment
        | Some (Some _) => Err BadFragment
        | Some None =>
            place_chunks first frames (<[position := Some (Frame.chunk frame)]> chunks)
        end
  end.

Definition assemble_fragments (frames : list Frame.t) : result string WireError :=
  match frames with
  | [] => Err BadFragment
  | first :: _ =>
      if negb (lenN frames =? Frame.total first)%N then Err BadFragment else
      let? chunks := place_chunks first frames (replicate (length frames) None) in
      Ok (str_concat (omap id chunks))
  end.

(** ** JSON helpers *)

Section JsonHelpers.
Context {J : Json}.

Definition parse_payload (text : string) : result value WireError :=
  if negb (all_chars is_ascii_byte text) || any_char is_ascii_control text
  then Err BadJson
  else ok_or (from_str text) BadJson.

Definition as_object (v : value) : result (gmap string value) WireError :=
  ok_or (as_object_map v) BadFieldType.

Definition required_str (map : gmap string value) (key : string) : result string WireError :=
  let? field := ok_or (map !! key) MissingField in
  ok_or (as_str field) BadFieldType.

Definition reject_unknown_fields (map : gmap string value) (allowed : list string)
    : result unit WireError :=
  if decide (map_Forall (fun key _ => key ∈ allowed) map) then Ok tt else Err UnknownField.
End JsonHelpers.
