(* ===== verification/WireFacts.v ===== *)
(** * Theorems on the wire text (crates/cordiale-core/src/e2e_wire.rs) *)

From Stdlib Require Import DecimalString DecimalN Permutation.
From S2P Require Import Prelude.
From S2P Require Import RustStr.
From S2P Require Import Interfaces.
From S2P Require Import Concrete.
From S2P Require Import Wire.
From stdpp Require Import options.

(** ** Keys and lists: lemmas *)

Section Keys.
Context {C : Crypto}.

Lemma decode_key_chars key raw :
  decode_key key = Ok raw ->
  all_chars is_std_b64_char key = true /\ str_len key = KEY_TEXT_LEN /\
  b64_encode raw = key /\ str_len raw = 32%N.
Proof.
  unfold decode_key, decode_canonical, exact_bytes. rewrite ok_or_ok. intros H.
  destruct (negb (str_len key =? KEY_TEXT_LEN)%N) eqn:Hl; [done|].
  destruct (all_chars is_std_b64_char key) eqn:Ha; [|done]. simpl in H.
  destruct (b64_decode key) as [r|]; [|done]. simpl in H. case_decide; [|done].
  simpl in H. destruct (str_len r =? 32)%N eqn:Hr; [|done]. injection H as ->.
  apply negb_false_iff, N.eqb_eq in Hl. apply N.eqb_eq in Hr. done.
Qed.

Lemma decode_key_inj k k' raw : decode_key k = Ok raw -> decode_key k' = Ok raw -> k = k'.
Proof.
  intros (_ & _ & <- & _)%decode_key_chars (_ & _ & <- & _)%decode_key_chars. done.
Qed.

Lemma key_without c key raw :
  is_std_b64_char c = false -> decode_key key = Ok raw -> contains_char c key = false.
Proof.
  intros Hc (Ha & _)%decode_key_chars. eapply all_chars_excludes; eauto.
Qed.

Lemma key_nonempty key raw : decode_key key = Ok raw -> key <> "".
Proof. intros (_ & Hl & _)%decode_key_chars ->. done. Qed.

Lemma did_from_key_text_ok key did :
  did_from_key_text key = Ok did <->
  exists raw, decode_key key = Ok raw /\ did_from_raw_key raw = did.
Proof. apply rmap_ok. Qed.

(** A [did] as text of eleven url-safe characters that decodes canonically. *)
Lemma did_shape `{!Base64Laws, !Sha256Laws} key did :
  did_from_key_text key = Ok did -> is_did_shape did = true.
Proof.
  intros (raw & _ & <-)%did_from_key_text_ok. unfold is_did_shape, did_from_raw_key.
  assert (String.length (str_take 8 (sha256 raw)) = 8) as Hlen.
  { apply str_take_length. rewrite sha256_length. lia. }
  rewrite b64url_decode_encode, bool_decide_eq_true_2 by done.
  unfold str_len. rewrite b64url_encode_length, Hlen, andb_true_r.
  apply andb_true_iff. split; [done|]. apply b64url_encode_alphabet.
Qed.

Lemma check_dids_ok keys dids :
  NoDup dids ->
  check_dids keys dids = Ok tt <->
  exists ds, Forall2 (fun key did => did_from_key_text key = Ok did) keys ds /\
             NoDup (dids ++ ds).
Proof.
  revert dids. induction keys as [|key keys IH]; intros dids Hnd; simpl.
  { split; [|done]. intros _. exists []. rewrite app_nil_r. split; [constructor|done]. }
  destruct (did_from_key_text key) as [did|e] eqn:Hd; simpl.
  2: { split; [done|]. intros (ds & H2 & _). inversion H2; congruence. }
  destruct (contains dids did) eqn:Hc.
  - apply contains_spec in Hc. split; [done|]. intros (ds & H2 & Hnd').
    inversion H2 as [|? did' ? ds' Hd']; subst. assert (did = did') as <- by congruence.
    apply NoDup_app in Hnd' as (_ & Hdis & _). exfalso. apply (Hdis did Hc). left.
  - apply contains_false in Hc. rewrite IH.
    2: { apply NoDup_app. split_and!; [done| |apply NoDup_singleton]. set_solver. }
    split.
    + intros (ds & H2 & Hnd'). exists (did :: ds). rewrite <-app_assoc in Hnd'.
      split; [by constructor|done].
    + intros (ds & H2 & Hnd'). inversion H2 as [|? did' ? ds' Hd']; subst. assert (did = did') as <- by congruence.
      exists ds'. rewrite <-app_assoc. done.
Qed.

(** A valid list: one to four keys, each with a [did], no [did] twice. *)
Lemma check_list_devices_ok keys :
  check_list_devices keys = Ok tt <->
  (1 <= lenN keys <= MAX_LIST_DEVICES)%N /\
  exists ds, Forall2 (fun key did => did_from_key_text key = Ok did) keys ds /\ NoDup ds.
Proof.
  unfold check_list_devices.
  destruct (N.eqb_spec (lenN keys) 0) as [H0|H0]; simpl.
  { split; [done|]. intros [? _]. lia. }
  destruct (N.ltb_spec MAX_LIST_DEVICES (lenN keys)) as [H4|H4].
  { split; [done|]. intros [? _]. lia. }
  rewrite check_dids_ok by constructor. simpl. split; [intros H; split; [lia|done]|].
  by intros [_ H].
Qed.

Lemma check_list_devices_tt keys u : check_list_devices keys = Ok u -> u = tt.
Proof. by destruct u. Qed.

Lemma check_list_devices_perm keys keys' :
  keys ≡ₚ keys' -> check_list_devices keys = Ok tt -> check_list_devices keys' = Ok tt.
Proof.
  intros Hp. rewrite !check_list_devices_ok. unfold lenN. rewrite <-Hp.
  intros (Hlen & ds & H2 & Hnd). split; [done|].
  destruct (Permutation_Forall2 Hp H2) as (ds' & Hp' & H2').
  exists ds'. split; [done|]. by rewrite <-Hp'.
Qed.

Lemma check_list_devices_nodup keys : check_list_devices keys = Ok tt -> NoDup keys.
Proof.
  rewrite check_list_devices_ok. intros (_ & ds & H2 & Hnd).
  induction H2 as [|k d keys ds Hk H2 IH]; [constructor|].
  apply NoDup_cons in Hnd as [Hd Hnd]. apply NoDup_cons. split; [|by apply IH].
  intros Hin. apply Hd. apply list_elem_of_lookup in Hin as [i Hi].
  destruct (Forall2_lookup_l _ _ _ _ _ H2 Hi) as (d' & Hd' & Hk').
  assert (d' = d) as <- by congruence. by eapply list_elem_of_lookup_2.
Qed.

Lemma check_list_devices_valid keys key :
  check_list_devices keys = Ok tt -> key ∈ keys -> exists raw, decode_key key = Ok raw.
Proof.
  rewrite check_list_devices_ok. intros (_ & ds & H2 & _) Hin.
  apply list_elem_of_lookup in Hin as [i Hi].
  destruct (Forall2_lookup_l _ _ _ _ _ H2 Hi) as (d & _ & Hk).
  apply did_from_key_text_ok in Hk as (raw & Hr & _). eauto.
Qed.

Lemma check_list_devices_nonempty keys : check_list_devices keys = Ok tt -> keys <> [].
Proof. rewrite check_list_devices_ok. intros [H _] ->. unfold lenN in H. simpl in H. lia. Qed.

Lemma sort_list_keys_ok keys sorted :
  sort_list_keys keys = Ok sorted <->
  check_list_devices keys = Ok tt /\ sorted = merge_sort String.le keys.
Proof.
  unfold sort_list_keys. destruct (check_list_devices keys) as [[]|] eqn:E; simpl;
    naive_solver.
Qed.

Lemma merge_sort_perm_eq (l l' : list string) :
  l ≡ₚ l' -> merge_sort String.le l = merge_sort String.le l'.
Proof.
  intros Hp. apply (StronglySorted_unique String.le);
    [apply (StronglySorted_merge_sort _) ..|].
  by rewrite !merge_sort_Permutation.
Qed.

Lemma merge_sort_eq_perm (l l' : list string) :
  merge_sort String.le l = merge_sort String.le l' -> l ≡ₚ l'.
Proof.
  intros H. rewrite <-(merge_sort_Permutation String.le l), H.
  apply merge_sort_Permutation.
Qed.

Lemma check_version_ok v u : check_version v = Ok u <-> (1 <= v <= MAX_VERSION)%N.
Proof.
  unfold check_version, version_in_range. destruct u.
  destruct (N.leb_spec 1 v), (N.leb_spec v MAX_VERSION); simpl; split; intros; try done; lia.
Qed.

Lemma signed_list_signed_text_ok v keys t :
  signed_list_signed_text v keys = Ok t <->
  (1 <= v <= MAX_VERSION)%N /\ check_list_devices keys = Ok tt /\
  t = list_text v (merge_sort String.le keys).
Proof.
  unfold signed_list_signed_text. rewrite rbind_ok. setoid_rewrite check_version_ok.
  setoid_rewrite rbind_ok. setoid_rewrite sort_list_keys_ok. split.
  - intros (_ & Hv & sorted & [Hc ->] & [= <-]). auto.
  - intros (Hv & Hc & ->). exists tt. split; [done|]. eauto.
Qed.

Lemma signed_list_signed_text_perm v keys keys' t :
  keys ≡ₚ keys' -> signed_list_signed_text v keys = Ok t ->
  signed_list_signed_text v keys' = Ok t.
Proof.
  intros Hp. rewrite !signed_list_signed_text_ok. intros (Hv & Hc & ->).
  split; [done|]. split; [by eapply check_list_devices_perm|].
  by rewrite (merge_sort_perm_eq _ _ Hp).
Qed.

Lemma device_certificate_signed_text_ok n key t :
  device_certificate_signed_text n key = Ok t <->
  (1 <= n <= MAX_VERSION)%N /\ (exists raw, decode_key key = Ok raw) /\
  t = DEVICE_CERTIFICATE_PREFIX +:+ N_display n +:+ ":" +:+ key.
Proof.
  unfold device_certificate_signed_text. rewrite rbind_ok. setoid_rewrite check_version_ok.
  setoid_rewrite rbind_ok. split.
  - intros (_ & Hv & raw & Hr & [= <-]). eauto.
  - intros (Hv & [raw Hr] & ->). exists tt. split; [done|]. eauto.
Qed.
End Keys.

(** ** Signed texts *)

Section SignedTexts.
Context {C : Crypto}.

Lemma display_colon_inj n m a b :
  N_display n +:+ ":" +:+ a = N_display m +:+ ":" +:+ b -> n = m /\ a = b.
Proof.
  intros H. assert (forall k c, split_once ":" (N_display k +:+ ":" +:+ c) =
                                Some (N_display k, c)) as Hs.
  { intros k c. apply split_once_app.
    eapply all_chars_excludes; [|apply display_digits]. done. }
  pose proof (Hs n a) as Hn. rewrite H, Hs in Hn. injection Hn as Hd Hc.
  split; [by apply display_inj|done].
Qed.

(** What a key of the protocol signs. *)
Inductive statement :=
| ListStatement (version : N) (keys : list string)
| CertificateStatement (first_version : N) (device : string)
| IdStatement (curve master : string)
| BundleKeyStatement (key : string).

(** The text of a statement as the code builds it; an id block is signed and
    checked only after its two keys were decoded. *)
Definition statement_text (s : statement) : result string WireError :=
  match s with
  | ListStatement v keys => signed_list_signed_text v keys
  | CertificateStatement n key => device_certificate_signed_text n key
  | IdStatement curve master =>
      let? _ := decode_key curve in
      let? _ := decode_key master in
      Ok (device_id_signed_text curve master)
  | BundleKeyStatement key => bundle_key_signed_text key
  end.

(** Two statements that mean the same: a list is a set of keys. *)
Definition same_statement (s s' : statement) : Prop :=
  match s, s' with
  | ListStatement v keys, ListStatement v' keys' => v = v' /\ keys ≡ₚ keys'
  | ListStatement _ _, _ | _, ListStatement _ _ => False
  | _, _ => s = s'
  end.

(** Every kind of statement has a prefix of its own, and no prefix starts
    another one. *)
Definition statement_prefix (s : statement) : string :=
  match s with
  | ListStatement _ _ => "irc-e2e:v2:list:"
  | CertificateStatement _ _ => DEVICE_CERTIFICATE_PREFIX
  | IdStatement _ _ => "irc-e2e:v2:id:"
  | BundleKeyStatement _ => "irc-e2e:v1:otk:"
  end.

Lemma statement_text_prefix s t :
  statement_text s = Ok t -> exists body, t = statement_prefix s +:+ body.
Proof.
  destruct s as [v keys|n key|curve master|key]; simpl.
  - intros (_ & _ & ->)%signed_list_signed_text_ok. by eexists.
  - intros (_ & _ & ->)%device_certificate_signed_text_ok. by eexists.
  - intros H. inv_result. by eexists.
  - unfold bundle_key_signed_text. intros H. inv_result. by eexists.
Qed.

Lemma statement_prefix_disjoint s s' b b' :
  statement_prefix s +:+ b = statement_prefix s' +:+ b' ->
  statement_prefix s = statement_prefix s'.
Proof.
  destruct s, s'; simpl; try done; intros H; exfalso;
    lazy beta iota zeta delta [Stdlib.Strings.String.append DEVICE_CERTIFICATE_PREFIX] in H;
    discriminate H.
Qed.

Lemma list_text_inj v v' keys keys' :
  check_list_devices keys = Ok tt -> check_list_devices keys' = Ok tt ->
  list_text v (merge_sort String.le keys) = list_text v' (merge_sort String.le keys') ->
  v = v' /\ keys ≡ₚ keys'.
Proof.
  intros Hc Hc' H. unfold list_text in H. apply (inj (String.app _)) in H.
  apply display_colon_inj in H as [-> H]. split; [done|].
  assert (forall l, check_list_devices l = Ok tt ->
    merge_sort String.le l <> [] /\
    Forall (fun s => contains_char "," s = false) (merge_sort String.le l)) as Hl.
  { intros l Hl. split.
    - intros He. apply (check_list_devices_nonempty _ Hl), Permutation_nil_r.
      by rewrite <-He, merge_sort_Permutation.
    - rewrite merge_sort_Permutation. apply Forall_forall. intros key Hin.
      destruct (check_list_devices_valid _ _ Hl Hin) as [raw Hr].
      by eapply key_without. }
  destruct (Hl _ Hc) as [Hn Hf], (Hl _ Hc') as [Hn' Hf'].
  apply merge_sort_eq_perm. by eapply (join_inj ",").
Qed.

Lemma id_text_inj curve curve' master master' raw raw' :
  decode_key curve = Ok raw -> decode_key curve' = Ok raw' ->
  curve +:+ ":" +:+ master = curve' +:+ ":" +:+ master' ->
  curve = curve' /\ master = master'.
Proof.
  intros Hr Hr' H.
  pose proof (split_once_app ":" curve master) as Hs.
  pose proof (split_once_app ":" curve' master') as Hs'.
  change (String ":" master) with (":" +:+ master) in Hs.
  change (String ":" master') with (":" +:+ master') in Hs'.
  rewrite H in Hs. rewrite Hs' in Hs by (by eapply key_without).
  specialize (Hs (key_without ":" _ _ eq_refl Hr)). by injection Hs.
Qed.

(** C38. A signature over one statement is never a signature over another:
    equal signed texts of valid statements come from the same kind of
    statement, the same version and the same keys (for a list, in any
    order). *)
Theorem signed_texts_separated s s' t :
  statement_text s = Ok t -> statement_text s' = Ok t -> same_statement s s'.
Proof.
  intros H H'. destruct (statement_text_prefix _ _ H) as [b Hb].
  destruct (statement_text_prefix _ _ H') as [b' Hb'].
  rewrite Hb in Hb'. apply statement_prefix_disjoint in Hb'. clear b Hb b'.
  destruct s as [v keys|n key|curve master|key], s' as [v' keys'|n' key'|curve' master'|key'];
    simpl in Hb'; try discriminate Hb'; clear Hb'; simpl in *.
  - apply signed_list_signed_text_ok in H as (_ & Hc & ->).
    apply signed_list_signed_text_ok in H' as (_ & Hc' & H'). by apply list_text_inj.
  - apply device_certificate_signed_text_ok in H as (_ & _ & ->).
    apply device_certificate_signed_text_ok in H' as (_ & _ & H').
    apply (inj (String.app _)), display_colon_inj in H' as [-> ->]. done.
  - inv_result. match goal with H : _ +:+ _ = _ |- _ =>
      eapply id_text_inj in H as [-> ->]; [done|eassumption..] end.
  - unfold bundle_key_signed_text in *. by inv_result.
Qed.
End SignedTexts.

(** One list in two orders. *)
Lemma signed_texts_separated_witness :
  same_statement (ListStatement 7 [sample_key 1; sample_key 2]) (ListStatement 7 [sample_key 2; sample_key 1]).
Proof.
  refine (signed_texts_separated _ _
    (list_text 7 [sample_key 1; sample_key 2]) _ _); vm_compute; reflexivity.
Defined.

(** ** The certificate text and its parser *)

Section Certificate.
Context {C : Crypto}.

Lemma std_char_ascii c : is_std_b64_char c = true -> is_ascii_byte c = true.
Proof. destruct c as [[] [] [] [] [] [] [] []]; vm_compute; congruence. Qed.
Lemma digit_ascii c : is_ascii_digit c = true -> is_ascii_byte c = true.
Proof. destruct c as [[] [] [] [] [] [] [] []]; vm_compute; congruence. Qed.

Lemma certificate_text_ascii n key raw :
  decode_key key = Ok raw ->
  all_chars is_ascii_byte
    (DEVICE_CERTIFICATE_PREFIX +:+ N_display n +:+ ":" +:+ key) = true.
Proof.
  intros (Ha & _)%decode_key_chars. rewrite !all_chars_app.
  rewrite (all_chars_impl _ _ _ digit_ascii (display_digits n)).
  rewrite (all_chars_impl _ _ _ std_char_ascii Ha). done.
Qed.

Lemma certificate_text_parses n key raw :
  (1 <= n <= MAX_VERSION)%N -> decode_key key = Ok raw ->
  parse_device_certificate_signed_text
    (DEVICE_CERTIFICATE_PREFIX +:+ N_display n +:+ ":" +:+ key) = Ok (n, key).
Proof.
  intros Hn Hk. unfold parse_device_certificate_signed_text.
  rewrite utf8_valid_ascii by by eapply certificate_text_ascii.
  rewrite (proj2 (strip_prefix_Some _ _ _) eq_refl).
  cbn [negb ok_or rbind]. rewrite split_once_sep.
  2: { eapply all_chars_excludes; [|apply display_digits]. done. }
  cbn [ok_or rbind].
  rewrite (proj2 (is_empty_false _)) by apply display_nonempty.
  assert (String.length (N_display n) <= 10) as Hlen.
  { apply display_length; [|lia]. unfold MAX_VERSION in Hn. lia. }
  replace (10 <? str_len (N_display n))%N with false
    by (symmetry; apply N.ltb_ge; unfold str_len; lia).
  rewrite display_no_leading_zero by lia. rewrite display_digits. cbn [negb orb].
  rewrite parse_display by (unfold MAX_VERSION, U32_MAX in *; lia).
  cbn [ok_or rbind]. unfold check_version, version_in_range.
  destruct Hn as [Hn1 Hn2]. apply N.leb_le in Hn1, Hn2. rewrite Hn1, Hn2.
  cbn [andb rbind]. rewrite Hk. done.
Qed.

Lemma parsed_certificate_text t n key :
  parse_device_certificate_signed_text t = Ok (n, key) ->
  (1 <= n <= MAX_VERSION)%N /\ (exists raw, decode_key key = Ok raw) /\
  t = DEVICE_CERTIFICATE_PREFIX +:+ N_display n +:+ ":" +:+ key.
Proof.
  unfold parse_device_certificate_signed_text.
  destruct (utf8_valid t); [|done]. cbn [negb]. intros H.
  apply rbind_ok in H as (rest & Hrest & H). apply ok_or_ok, strip_prefix_Some in Hrest.
  apply rbind_ok in H as ([version key'] & Hs & H).
  apply ok_or_ok, split_once_Some in Hs as [-> _].
  destruct (is_empty version) eqn:He; [done|].
  destruct (10 <? str_len version)%N; [done|].
  destruct (starts_with "0" version) eqn:Hz; [done|].
  destruct (all_chars is_ascii_digit version) eqn:Hd; [|done]. simpl in H. inv_result.
  match goal with H : check_version _ = Ok _ |- _ => apply check_version_ok in H end.
  match goal with H : parse_unsigned _ _ = Some _ |- _ => apply parse_unsigned_Some in H
    as (_ & digits & u & Hdig & Hne & Hall & Hu & ->) end.
  assert (digits = version) as ->.
  { destruct Hdig as [->| ->]; [done|]. exfalso.
    pose proof (digits_no_sign _ Hd) as Hs.
    rewrite (proj2 (strip_prefix_Some "+" _ digits) eq_refl) in Hs. done. }
  split; [done|]. split; [eauto|].
  rewrite (display_canonical version u Hne Hz Hu). done.
Qed.

(** The parser of a certificate text is the exact inverse of its builder:
    a byte string is read as [(n, key)] if and only if the builder makes that
    byte string from [n] and [key], so a verifier checks a signature only over
    bytes it would build itself. *)
Theorem certificate_text_roundtrip t n key :
  parse_device_certificate_signed_text t = Ok (n, key) <->
  device_certificate_signed_text n key = Ok t.
Proof.
  rewrite device_certificate_signed_text_ok. split; [apply parsed_certificate_text|].
  intros (Hn & [raw Hr] & ->). by eapply certificate_text_parses.
Qed.
End Certificate.

(** ** Frames *)

Section Frames.
Context {C : Crypto}.

(** What a frame must hold to travel. *)
Definition frame_wf (f : Frame.t) : Prop :=
  Frame.msgid f <> "" /\ all_chars is_std_b64_char (Frame.msgid f) = true /\
  (1 <= Frame.index f <= Frame.total f)%N /\ (Frame.total f < 10 ^ 9)%N /\
  check_addresses (Frame.verb f) (Frame.from f) (Frame.to f) = Ok tt /\
  Frame.chunk f <> "" /\ all_chars is_ascii_byte (Frame.chunk f) = true /\
  any_char is_ascii_control (Frame.chunk f) = false.

Lemma any_char_false p s : any_char p s = false <-> all_chars (fun c => negb (p c)) s = true.
Proof.
  induction s as [|c s IH]; [done|]. simpl. rewrite orb_false_iff, andb_true_iff, IH.
  by rewrite negb_true_iff.
Qed.

(** Printable ASCII. *)
Definition is_printable (c : ascii) : bool := is_ascii_byte c && negb (is_ascii_control c).

Lemma printable_split s :
  all_chars is_printable s = true <->
  all_chars is_ascii_byte s = true /\ any_char is_ascii_control s = false.
Proof.
  rewrite any_char_false. induction s as [|c s IH]; [done|]. simpl.
  rewrite !andb_true_iff, IH. unfold is_printable. rewrite andb_true_iff. tauto.
Qed.

Lemma std_char_printable c : is_std_b64_char c = true -> is_printable c = true.
Proof. destruct c as [[] [] [] [] [] [] [] []]; vm_compute; congruence. Qed.
Lemma url_char_printable c : is_url_b64_char c = true -> is_printable c = true.
Proof. destruct c as [[] [] [] [] [] [] [] []]; vm_compute; congruence. Qed.
Lemma digit_printable c : is_ascii_digit c = true -> is_printable c = true.
Proof. destruct c as [[] [] [] [] [] [] [] []]; vm_compute; congruence. Qed.

Lemma check_address_printable a u :
  check_address a = Ok u ->
  all_chars is_printable a = true /\ contains_char " " a = false.
Proof.
  unfold check_address. destruct (bool_decide_reflect (a = WILDCARD)) as [->|_]; [done|].
  simpl. destruct (is_did_shape a) eqn:Hd; [|done]. intros _.
  unfold is_did_shape in Hd. rewrite !andb_true_iff in Hd. destruct Hd as [[_ Ha] _].
  split; [by eapply all_chars_impl; [apply url_char_printable|]|].
  by eapply all_chars_excludes; [|exact Ha].
Qed.

Lemma check_addresses_each v a b u :
  check_addresses v a b = Ok u ->
  (exists u, check_address a = Ok u) /\ (exists u, check_address b = Ok u) /\ u = tt.
Proof.
  unfold check_addresses. intros H. apply rbind_ok in H as (u1 & H1 & H).
  apply rbind_ok in H as (u2 & H2 & H). destruct u. eauto.
Qed.

Lemma verb_as_str_printable v :
  all_chars is_printable (Verb.as_str v) = true /\
  contains_char " " (Verb.as_str v) = false.
Proof. by destruct v. Qed.

Lemma verb_parse_as_str v : Verb.parse (Verb.as_str v) = Ok v.
Proof. by destruct v. Qed.

Lemma verb_parse_ok s v : Verb.parse s = Ok v -> s = Verb.as_str v.
Proof. unfold Verb.parse. repeat case_decide; naive_solver. Qed.

Lemma parse_count_display n :
  (n < 10 ^ 9)%N -> parse_count (N_display n) = Ok n.
Proof.
  intros Hn. unfold parse_count.
  rewrite (proj2 (is_empty_false _)) by apply display_nonempty.
  assert (String.length (N_display n) <= 9) as Hlen by (apply display_length; [done|lia]).
  replace (9 <? str_len (N_display n))%N with false
    by (symmetry; apply N.ltb_ge; unfold str_len; lia).
  rewrite display_digits, parse_display by (unfold U32_MAX; lia). done.
Qed.

Lemma splitn_cons n l r :
  contains_char " " l = false ->
  splitn (S (S n)) " " (l +:+ " " +:+ r) = l :: splitn (S n) " " r.
Proof.
  intros Hl. change (l +:+ " " +:+ r) with (l +:+ String " " r).
  change (splitn (S (S n)) " " (l +:+ String " " r)) with
    (match split_once " " (l +:+ String " " r) with
     | Some (l0, r0) => l0 :: splitn (S n) " " r0
     | None => [l +:+ String " " r]
     end). by rewrite split_once_app.
Qed.

(** The body of a frame between the prefix and the suffix. *)
Definition frame_body (f : Frame.t) : string :=
  Verb.as_str (Frame.verb f) +:+ " " +:+ Frame.msgid f +:+ " " +:+
  (N_display (Frame.index f) +:+ "/" +:+ N_display (Frame.total f)) +:+ " " +:+
  Frame.from f +:+ " " +:+ Frame.to f +:+ " " +:+ Frame.chunk f.

Lemma frame_text_body f :
  frame_text f = FRAME_PREFIX +:+ (frame_body f +:+ String FRAME_SUFFIX "").
Proof. unfold frame_text, frame_body. by rewrite !str_app_assoc. Qed.

Lemma frame_body_printable f : frame_wf f -> all_chars is_printable (frame_body f) = true.
Proof.
  intros (_ & Hm & _ & _ & Ha & _ & Hc1 & Hc2).
  destruct (check_addresses_each _ _ _ _ Ha) as ([u1 H1] & [u2 H2] & _).
  apply check_address_printable in H1 as [H1 _], H2 as [H2 _].
  destruct (verb_as_str_printable (Frame.verb f)) as [Hv _].
  unfold frame_body. rewrite !all_chars_app, Hv, H1, H2.
  rewrite (all_chars_impl _ _ _ std_char_printable Hm).
  rewrite !(all_chars_impl _ _ _ digit_printable (display_digits _)).
  rewrite (proj2 (printable_split (Frame.chunk f)) (conj Hc1 Hc2)). done.
Qed.

Lemma frame_body_parts f :
  frame_wf f ->
  splitn 6 " " (frame_body f) =
    [Verb.as_str (Frame.verb f); Frame.msgid f;
     N_display (Frame.index f) +:+ "/" +:+ N_display (Frame.total f);
     Frame.from f; Frame.to f; Frame.chunk f].
Proof.
  intros (_ & Hm & _ & _ & Ha & _).
  destruct (check_addresses_each _ _ _ _ Ha) as ([u1 H1] & [u2 H2] & _).
  apply check_address_printable in H1 as [_ H1], H2 as [_ H2].
  destruct (verb_as_str_printable (Frame.verb f)) as [_ Hv].
  unfold frame_body. rewrite splitn_cons by done. f_equal.
  rewrite splitn_cons by by eapply all_chars_excludes; [|exact Hm]. f_equal.
  rewrite splitn_cons.
  2: { rewrite !contains_char_app.
       rewrite !(all_chars_excludes is_ascii_digit " " _ eq_refl (display_digits _)). done. }
  f_equal. rewrite splitn_cons by done. f_equal. by rewrite splitn_cons by done.
Qed.

Lemma parse_frame_text f : frame_wf f -> parse_frame (frame_text f) = Ok f.
Proof.
  intros Hwf. unfold parse_frame. rewrite frame_text_body.
  rewrite (proj2 (strip_prefix_Some _ _ _) eq_refl). cbn [mbind option_bind].
  rewrite (proj2 (strip_suffix_char_Some _ _ _) eq_refl). cbn [ok_or rbind].
  destruct (proj1 (printable_split _) (frame_body_printable f Hwf)) as [Ha Hctl].
  rewrite Ha, Hctl. cbn [negb orb]. cbv zeta. rewrite (frame_body_parts f Hwf).
  destruct Hwf as (Hm & Hmc & Hi & Ht & Hadr & Hc & Hc1 & Hc2).
  cbn [lookup list_lookup ok_or rbind]. rewrite verb_parse_as_str. cbn [rbind].
  unfold check_msgid. rewrite (proj2 (is_empty_false _)) by done. rewrite Hmc.
  cbn [negb orb rbind].
  rewrite split_once_sep.
  2: { eapply all_chars_excludes; [|apply display_digits]. done. }
  cbn [ok_or rbind]. rewrite !parse_count_display by lia. cbn [rbind].
  destruct (N.eqb_spec (Frame.index f) 0); [lia|].
  destruct (N.ltb_spec (Frame.total f) (Frame.index f)); [lia|]. cbn [orb].
  rewrite Hadr. cbn [rbind]. rewrite (proj2 (is_empty_false _)) by done. cbn [orb].
  rewrite (all_chars_excludes (fun c => negb (is_ascii_control c)) FRAME_SUFFIX (Frame.chunk f));
    [by destruct f|done|by apply any_char_false].
Qed.

Lemma splitn_chunk_printable n s part :
  part ∈ splitn n " " s -> all_chars is_printable s = true ->
  all_chars is_printable part = true.
Proof.
  revert s. induction n as [|n IH]; intros s Hin Hs; [by apply not_elem_of_nil in Hin|].
  destruct n as [|n]; [apply list_elem_of_singleton in Hin; by subst|].
  change (splitn (S (S n)) " " s) with
    (match split_once " " s with
     | Some (l, r) => l :: splitn (S n) " " r
     | None => [s]
     end) in Hin.
  destruct (split_once " " s) as [[l r]|] eqn:E.
  - apply split_once_Some in E as [-> _]. rewrite all_chars_app in Hs.
    apply andb_true_iff in Hs as [Hl Hr]. simpl in Hr.
    apply elem_of_cons in Hin as [->|Hin]; [done|]. by apply (IH r).
  - apply list_elem_of_singleton in Hin. by subst.
Qed.

Lemma parse_count_bound s n : parse_count s = Ok n -> (n < 10 ^ 9)%N.
Proof.
  unfold parse_count. destruct (is_empty s); [done|].
  destruct (N.ltb_spec 9 (str_len s)) as [|Hl]; [done|].
  destruct (all_chars is_ascii_digit s) eqn:Hd; [|done]. simpl. rewrite ok_or_ok.
  intros (_ & digits & u & Hdig & _ & _ & Hu & ->)%parse_unsigned_Some.
  assert (digits = s) as ->.
  { destruct Hdig as [->| ->]; [done|]. exfalso.
    pose proof (digits_no_sign _ Hd) as Hs.
    rewrite (proj2 (strip_prefix_Some "+" _ digits) eq_refl) in Hs. done. }
  pose proof (of_uint_upper u) as Hub. rewrite (uint_of_string_length _ _ Hu) in Hub.
  eapply N.lt_le_trans; [exact Hub|]. apply N.pow_le_mono_r; [lia|].
  unfold str_len in Hl. lia.
Qed.

Lemma parse_frame_wf t f : parse_frame t = Ok f -> frame_wf f.
Proof.
  unfold parse_frame. intros H. apply rbind_ok in H as (body & _ & H).
  destruct (all_chars is_ascii_byte body) eqn:Ha; [|done].
  destruct (any_char is_ascii_control body) eqn:Hctl; [done|].
  cbn [negb orb] in H. cbv zeta in H. inv_result.
  match goal with H : (splitn 6 " " body !! 5) = Some _ |- _ =>
    apply list_elem_of_lookup_2 in H; rename H into Hchunk end.
  apply splitn_chunk_printable in Hchunk; [|by apply printable_split].
  apply printable_split in Hchunk as [Hc1 Hc2].
  match goal with H : check_msgid _ = Ok _ |- _ => rename H into Hm end.
  unfold check_msgid in Hm. destruct (is_empty _) eqn:Hme in Hm; [done|].
  destruct (all_chars is_std_b64_char _) eqn:Hmc in Hm; [|done].
  match goal with H : split_once "/" _ = Some ?p |- _ => destruct p as [itext ttext] end.
  inv_result.
  repeat match goal with H : parse_count _ = Ok _ |- _ => apply parse_count_bound in H end.
  match goal with H : (if ?b then _ else _) = Ok f |- _ => destruct b eqn:Hrange; [done|] end.
  apply orb_false_iff in Hrange as [Hi0%N.eqb_neq Hit%N.ltb_ge].
  inv_result.
  match goal with H : (if ?b then _ else _) = Ok f |- _ => destruct b eqn:Hlast; [done|] end.
  apply orb_false_iff in Hlast as [Hne _]. injection H as <-.
  match goal with H : check_addresses _ _ _ = Ok ?u |- _ => destruct u end.
  unfold frame_wf. simpl. apply is_empty_false in Hme, Hne.
  repeat split; try done; lia.
Qed.

(** C39. Frames round trip. A frame can be formatted if and only if it is well
    formed; its text then parses back to the same frame; and whatever the
    parser accepts is well formed, so every parsed frame can be formatted and
    parsed again to itself. *)
Theorem frame_roundtrip f :
  (frame_wf f <-> exists t, format_frame f = Ok t /\ parse_frame t = Ok f) /\
  (forall t, parse_frame t = Ok f -> format_frame f = Ok (frame_text f)).
Proof.
  assert (frame_wf f -> format_frame f = Ok (frame_text f)) as Hformat.
  { intros Hwf. unfold format_frame. rewrite (parse_frame_text f Hwf). simpl.
    by rewrite decide_True. }
  split; [split|].
  - intros Hwf. exists (frame_text f). split; [by apply Hformat|by apply parse_frame_text].
  - intros (t & _ & Hp). by eapply parse_frame_wf.
  - intros t Hp. by eapply Hformat, parse_frame_wf.
Qed.

(** ** How many frames a payload needs *)

Definition total_fits (verb : Verb.t) (payload_len line_budget : N) (from to : string)
    (total : N) : Prop :=
  (0 < frame_room verb line_budget total from to)%N /\
  (payload_len <= saturating_mul USIZE_MAX (frame_room verb line_budget total from to) total)%N.

Lemma find_seq_N (p : N -> bool) s n x :
  List.find p (N.of_nat <$> seq s n) = Some x <->
  (N.of_nat s <= x < N.of_nat (s + n))%N /\ p x = true /\
  forall y, (N.of_nat s <= y < x)%N -> p y = false.
Proof.
  revert s. induction n as [|n IH]; intros s; simpl.
  { split; [done|]. intros [? _]. lia. }
  destruct (p (N.of_nat s)) eqn:Hp.
  - split.
    + intros [= <-]. split; [lia|]. split; [done|]. intros y Hy. lia.
    + intros (Hx & Hpx & Hmin). f_equal.
      destruct (decide (x = N.of_nat s)) as [|Hne]; [done|].
      rewrite Hmin in Hp by lia. done.
  - rewrite IH. split.
    + intros (Hx & Hpx & Hmin). split; [lia|]. split; [done|]. intros y Hy.
      destruct (decide (y = N.of_nat s)) as [->|]; [done|]. apply Hmin. lia.
    + intros (Hx & Hpx & Hmin). destruct (decide (x = N.of_nat s)) as [->|]; [congruence|].
      split; [lia|]. split; [done|]. intros y Hy. apply Hmin. lia.
Qed.

Lemma find_seq_N_none (p : N -> bool) s n :
  List.find p (N.of_nat <$> seq s n) = None <->
  forall y, (N.of_nat s <= y < N.of_nat (s + n))%N -> p y = false.
Proof.
  revert s. induction n as [|n IH]; intros s; simpl; [split; [lia|done]|].
  destruct (p (N.of_nat s)) eqn:Hp.
  - split; [done|]. intros H. rewrite H in Hp by lia. done.
  - rewrite IH. split; intros H y Hy; [|apply H; lia].
    destruct (decide (y = N.of_nat s)) as [->|]; [done|]. apply H. lia.
Qed.

Lemma total_fits_spec verb payload_len line_budget from to total :
  (let room := frame_room verb line_budget total from to in
   (0 <? room)%N && (payload_len <=? saturating_mul USIZE_MAX room total)%N) = true <->
  total_fits verb payload_len line_budget from to total.
Proof.
  unfold total_fits. cbv zeta. rewrite andb_true_iff, N.ltb_lt, N.leb_le. done.
Qed.

Lemma frames_needed_Some verb payload_len line_budget from to total :
  frames_needed verb payload_len line_budget from to = Some total <->
  (1 <= total <= MAX_FRAGMENTS)%N /\
  total_fits verb payload_len line_budget from to total /\
  forall smaller, (1 <= smaller < total)%N ->
    ~ total_fits verb payload_len line_budget from to smaller.
Proof.
  unfold frames_needed, MAX_FRAGMENTS. rewrite find_seq_N, total_fits_spec.
  split; intros (H1 & H2 & H3); (split; [lia|]); (split; [done|]);
    intros y Hy; [rewrite <-total_fits_spec|]; [rewrite H3 by lia; done|].
  apply not_true_iff_false. rewrite total_fits_spec. apply H3. lia.
Qed.

Lemma frames_needed_None verb payload_len line_budget from to :
  frames_needed verb payload_len line_budget from to = None <->
  forall total, (1 <= total <= MAX_FRAGMENTS)%N ->
    ~ total_fits verb payload_len line_budget from to total.
Proof.
  unfold frames_needed, MAX_FRAGMENTS. rewrite find_seq_N_none.
  split; intros H y Hy.
  - rewrite <-total_fits_spec, H by lia. done.
  - apply not_true_iff_false. rewrite total_fits_spec. apply H. lia.
Qed.

Lemma display_length_mono n m :
  (n <= m)%N -> String.length (N_display n) <= String.length (N_display m).
Proof.
  intros Hle. apply display_length.
  - eapply N.le_lt_trans; [exact Hle|]. pose proof (display_uint m) as Hu.
    rewrite <-(uint_of_string_length _ _ Hu), <-(DecimalN.Unsigned.of_to m) at 1.
    apply of_uint_upper.
  - pose proof (display_nonempty m). destruct (N_display m); simpl; [done|lia].
Qed.

(** A line of a cut payload is within the budget of a line. *)
Lemma frame_text_length verb line_budget msgid index total from to chunk :
  str_len msgid = FRAME_MSGID_LEN -> (index <= total)%N ->
  (0 < frame_room verb line_budget total from to)%N ->
  (str_len chunk <= frame_room verb line_budget total from to)%N ->
  (str_len (frame_text (Frame.mk verb msgid index total from to chunk)) <= line_budget)%N.
Proof.
  intros Hm Hi Hroom Hc. unfold frame_text. simpl. rewrite !str_len_app, Hm.
  pose proof (display_length_mono _ _ Hi) as Hlen.
  unfold frame_room, frame_head in *. cbv zeta in *.
  change (str_len FRAME_PREFIX) with 5%N in *. change (str_len " ") with 1%N.
  change (str_len "/") with 1%N. change (str_len (String FRAME_SUFFIX "")) with 1%N.
  unfold str_len in *. lia.
Qed.

(** [frames_needed] answers the least number of lines, at most 64, that
    holds the payload, and no answer means that no number of lines does. With
    the answer every line is within the budget: a frame whose chunk has at
    most the room of a line, with an 11-character id, is no longer than the
    line budget. *)
Theorem frames_needed_least verb payload_len line_budget from to :
  (forall total,
     frames_needed verb payload_len line_budget from to = Some total <->
     (1 <= total <= MAX_FRAGMENTS)%N /\
     total_fits verb payload_len line_budget from to total /\
     forall smaller, (1 <= smaller < total)%N ->
       ~ total_fits verb payload_len line_budget from to smaller) /\
  (frames_needed verb payload_len line_budget from to = None <->
     forall total, (1 <= total <= MAX_FRAGMENTS)%N ->
       ~ total_fits verb payload_len line_budget from to total) /\
  (forall total msgid index chunk,
     frames_needed verb payload_len line_budget from to = Some total ->
     str_len msgid = FRAME_MSGID_LEN -> (index <= total)%N ->
     (str_len chunk <= frame_room verb line_budget total from to)%N ->
     (str_len (frame_text (Frame.mk verb msgid index total from to chunk)) <= line_budget)%N).
Proof.
  split; [intros total; apply frames_needed_Some|].
  split; [apply frames_needed_None|].
  intros total msgid index chunk (_ & [Hroom _] & _)%frames_needed_Some Hm Hi Hc.
  by apply frame_text_length.
Qed.
End Frames.

(** ** Fragments *)

(** The frames of a message cut into [chunks], in order. *)
Definition fragments (verb : Verb.t) (msgid from to : string) (chunks : list string)
    : list Frame.t :=
  imap (fun i c => Frame.mk verb msgid (N.of_nat i + 1) (lenN chunks) from to c) chunks.

Definition position (f : Frame.t) : nat := N.to_nat (Frame.index f - 1).

Definition same_head (first f : Frame.t) : Prop :=
  Frame.verb f = Frame.verb first /\ Frame.msgid f = Frame.msgid first /\
  Frame.from f = Frame.from first /\ Frame.to f = Frame.to first /\
  Frame.total f = Frame.total first.

Lemma same_head_test first f :
  negb (bool_decide (Frame.verb f = Frame.verb first))
  || negb (bool_decide (Frame.msgid f = Frame.msgid first))
  || negb (bool_decide (Frame.from f = Frame.from first))
  || negb (bool_decide (Frame.to f = Frame.to first))
  || negb (Frame.total f =? Frame.total first)%N = false <-> same_head first f.
Proof.
  rewrite !orb_false_iff, !negb_false_iff, !bool_decide_eq_true, N.eqb_eq.
  unfold same_head. tauto.
Qed.

(** What a run of the placing loop established. *)
Record placed (first : Frame.t) (frames : list Frame.t) (slots out : list (option string))
    : Prop := {
  placed_heads : Forall (same_head first) frames;
  placed_length : length out = length slots;
  placed_keeps i c : slots !! i = Some (Some c) -> out !! i = Some (Some c);
  placed_sets f : f ∈ frames ->
    (1 <= Frame.index f)%N /\ slots !! position f = Some None /\
    out !! position f = Some (Some (Frame.chunk f));
  placed_only i c : out !! i = Some (Some c) ->
    slots !! i = Some (Some c) \/
    exists f, f ∈ frames /\ position f = i /\ Frame.chunk f = c;
  placed_nodup : NoDup (position <$> frames);
}.

Lemma place_chunks_placed first frames slots out :
  place_chunks first frames slots = Ok out -> placed first frames slots out.
Proof.
  revert slots. induction frames as [|f frames IH]; intros slots; cbn [place_chunks].
  { intros [= <-]. split; try done; [set_solver|by left|constructor]. }
  destruct (_ || negb (Frame.total f =? Frame.total first)%N) eqn:Hh; [done|].
  apply same_head_test in Hh.
  destruct (N.eqb_spec (Frame.index f) 0) as [|Hi]; [done|]. fold (position f).
  destruct (slots !! position f) as [[c|]|] eqn:Hs; [done| |done]. intros H.
  destruct (IH _ H) as [Hheads Hlen Hkeeps Hsets Honly Hnd]. clear IH H.
  assert (position f < length slots) as Hlt by (by eapply lookup_lt_Some).
  assert (position f ∉ position <$> frames) as Hfresh.
  { intros (g & Hg & Hgin)%list_elem_of_fmap. destruct (Hsets g Hgin) as (_ & Hg' & _).
    rewrite <-Hg, list_lookup_insert_eq in Hg' by done. done. }
  split.
  - by constructor.
  - by rewrite Hlen, length_insert.
  - intros i c Hic. apply Hkeeps. rewrite list_lookup_insert_ne; [done|]. congruence.
  - intros g [->|Hg]%elem_of_cons.
    + split; [lia|]. split; [done|]. apply Hkeeps. by apply list_lookup_insert_eq.
    + destruct (Hsets g Hg) as (H1 & H2 & H3). split; [done|]. split; [|done].
      rewrite list_lookup_insert_ne in H2; [done|]. intros Heq. apply Hfresh.
      rewrite Heq. by apply list_elem_of_fmap_2.
  - intros i c Hic. destruct (Honly i c Hic) as [Hold|(g & Hg & Hp & Hgc)].
    + destruct (decide (position f = i)) as [<-|Hne].
      * rewrite list_lookup_insert_eq in Hold by done. injection Hold as <-.
        right. exists f. split; [left|done].
      * rewrite list_lookup_insert_ne in Hold by done. by left.
    + right. exists g. split; [by right|done].
  - by apply NoDup_cons.
Qed.

Lemma place_chunks_total first frames slots :
  Forall (same_head first) frames ->
  (forall f, f ∈ frames -> (1 <= Frame.index f)%N /\ slots !! position f = Some None) ->
  NoDup (position <$> frames) ->
  exists out, place_chunks first frames slots = Ok out.
Proof.
  intros Hheads. revert slots. induction Hheads as [|f frames Hf Hheads IH];
    intros slots Hslots Hnd; cbn [place_chunks]; [eauto|].
  rewrite (proj2 (same_head_test first f) Hf).
  destruct (Hslots f) as [Hi Hs]; [left|].
  destruct (N.eqb_spec (Frame.index f) 0); [lia|]. fold (position f). rewrite Hs.
  apply NoDup_cons in Hnd as [Hfresh Hnd]. apply IH; [|done].
  intros g Hg. destruct (Hslots g) as [Hgi Hgs]; [by right|]. split; [done|].
  rewrite list_lookup_insert_ne; [done|]. intros Heq. apply Hfresh. rewrite Heq.
  by apply list_elem_of_fmap_2.
Qed.

Lemma elem_of_fragments v m a b chunks f :
  f ∈ fragments v m a b chunks <->
  chunks !! position f = Some (Frame.chunk f) /\ (1 <= Frame.index f)%N /\
  Frame.verb f = v /\ Frame.msgid f = m /\ Frame.from f = a /\ Frame.to f = b /\
  Frame.total f = lenN chunks.
Proof.
  unfold fragments. rewrite elem_of_lookup_imap. unfold position. split.
  - intros (i & c & -> & Hc). simpl. replace (N.to_nat (N.of_nat i + 1 - 1)) with i by lia.
    repeat split; [done|lia].
  - intros (Hc & Hi & <- & <- & <- & <- & Ht). eexists _, _. split; [|exact Hc].
    rewrite <-Ht. replace (N.of_nat (N.to_nat (Frame.index f - 1)) + 1)%N
      with (Frame.index f) by lia. by destruct f.
Qed.

Lemma fragments_positions v m a b chunks :
  position <$> fragments v m a b chunks = seq 0 (length chunks).
Proof.
  apply list_eq. intros i. unfold fragments.
  rewrite list_lookup_fmap, list_lookup_imap.
  destruct (chunks !! i) as [c|] eqn:Hc; simpl.
  - apply lookup_lt_Some in Hc. rewrite lookup_seq_lt by done. f_equal. unfold position.
    simpl. lia.
  - apply lookup_ge_None in Hc. by rewrite lookup_seq_ge.
Qed.

Lemma length_fragments v m a b chunks :
  length (fragments v m a b chunks) = length chunks.
Proof. apply length_imap. Qed.

(** All slots are filled: the vector is the list of the chunks. *)
Lemma omap_id_filled (chunks : list string) : omap id (Some <$> chunks) = chunks.
Proof.
  induction chunks as [|c chunks IH]; [done|]. rewrite fmap_cons, omap_cons, IH. done.
Qed.

Lemma placed_filled first frames out :
  placed first frames (replicate (length frames) None) out ->
  exists chunks, out = Some <$> chunks.
Proof.
  intros [_ Hlen _ Hsets _ Hnd]. rewrite length_replicate in Hlen.
  assert (position <$> frames ≡ₚ seq 0 (length frames)) as Hperm.
  { apply submseteq_length_Permutation; [|by rewrite length_fmap, length_seq].
    apply NoDup_submseteq; [done|]. intros i (f & -> & Hf)%list_elem_of_fmap.
    apply elem_of_seq. destruct (Hsets f Hf) as (_ & Hs & _).
    apply lookup_lt_Some in Hs. rewrite length_replicate in Hs. lia. }
  exists (omap id out). apply list_eq. intros i.
  assert (Forall is_Some out) as Hall.
  { apply Forall_lookup. intros j o Ho. pose proof (lookup_lt_Some _ _ _ Ho) as Hj.
    assert (j ∈ position <$> frames) as (f & -> & Hf)%list_elem_of_fmap.
    { rewrite Hperm. apply elem_of_seq. lia. }
    destruct (Hsets f Hf) as (_ & _ & Hout). rewrite Ho in Hout. naive_solver. }
  clear -Hall. revert i. induction Hall as [|o out [c ->] Hall IH]; intros i; [done|].
  rewrite omap_cons. simpl. destruct i as [|i]; [done|]. apply IH.
Qed.

(** C26. Reassembly is exact. A set of frames gives a text if and only if it is,
    in some order, the fragments of one message: one verb, one id, one pair of
    addresses, the indices 1 to the total once each; and the text is the
    concatenation of the chunks in index order. *)
Theorem assemble_exact frames text :
  assemble_fragments frames = Ok text <->
  exists v m a b chunks,
    chunks <> [] /\ frames ≡ₚ fragments v m a b chunks /\ text = str_concat chunks.
Proof.
  split.
  - destruct frames as [|first rest] eqn:Hfr; [done|]. rewrite <-Hfr.
    replace (assemble_fragments frames) with
      (if negb (lenN frames =? Frame.total first)%N then Err BadFragment else
       let? chunks := place_chunks first frames (replicate (length frames) None) in
       Ok (str_concat (omap id chunks))) by (by rewrite Hfr).
    destruct (N.eqb_spec (lenN frames) (Frame.total first)) as [Ht|]; [|done].
    cbn [negb]. intros H. apply rbind_ok in H as (out & Hout & [= <-]).
    apply place_chunks_placed in Hout.
    destruct (placed_filled _ _ _ Hout) as [chunks ->].
    destruct Hout as [Hheads Hlen _ Hsets Honly Hnd].
    rewrite length_fmap, length_replicate in Hlen.
    exists (Frame.verb first), (Frame.msgid first), (Frame.from first), (Frame.to first), chunks.
    split. { intros ->. by rewrite Hfr in Hlen. }
    split; [|by rewrite omap_id_filled].
    apply NoDup_Permutation.
    + by eapply NoDup_fmap_1.
    + eapply (NoDup_fmap_1 position). rewrite fragments_positions. apply NoDup_seq.
    + intros f. rewrite elem_of_fragments. rewrite Forall_forall in Hheads. split.
      * intros Hf. destruct (Hheads f Hf) as (-> & -> & -> & -> & ->).
        destruct (Hsets f Hf) as (Hi & _ & Hs). rewrite list_lookup_fmap in Hs.
        destruct (chunks !! position f); [|done]. injection Hs as ->.
        unfold lenN. rewrite Hlen. split; [done|]. by rewrite <-Ht.
      * intros (Hc & Hi & Hv & Hm & Ha & Hb & Htot).
        destruct (Honly (position f) (Frame.chunk f)) as [Hold|(g & Hg & Hp & Hgc)].
        { by rewrite list_lookup_fmap, Hc. }
        { apply lookup_replicate in Hold as [? _]. done. }
        destruct (Hheads g Hg) as (Hv' & Hm' & Ha' & Hb' & Ht').
        destruct (Hsets g Hg) as (Hgi & _).
        assert (f = g) as ->; [|done]. unfold position in Hp.
        destruct f, g; simpl in *. unfold lenN in *. f_equal; try congruence; lia.
  - intros (v & m & a & b & chunks & Hne & Hperm & ->).
    assert (length frames = length chunks) as Hlen by (by rewrite Hperm, length_fragments).
    assert (forall f, f ∈ frames -> f ∈ fragments v m a b chunks) as Hin.
    { intros f Hf. by rewrite <-Hperm. }
    destruct frames as [|first rest] eqn:Hfr.
    { exfalso. destruct chunks; done. }
    assert (first ∈ frames) as Hfirst by (rewrite Hfr; left). rewrite <-Hfr in *.
    replace (assemble_fragments frames) with
      (if negb (lenN frames =? Frame.total first)%N then Err BadFragment else
       let? chunks := place_chunks first frames (replicate (length frames) None) in
       Ok (str_concat (omap id chunks))) by (by rewrite Hfr).
    pose proof (proj1 (elem_of_fragments _ _ _ _ _ _) (Hin _ Hfirst))
      as (_ & _ & Hv & Hm & Ha & Hb & Ht).
    rewrite Ht. unfold lenN. rewrite Hlen, N.eqb_refl. cbn [negb].
    destruct (place_chunks_total first frames (replicate (length frames) None)) as [out Hout].
    + apply Forall_forall. intros f Hf. apply Hin, elem_of_fragments in Hf.
      unfold same_head. naive_solver congruence.
    + intros f Hf. apply Hin, elem_of_fragments in Hf as (Hc & Hi & _).
      split; [done|]. apply lookup_replicate. split; [done|].
      rewrite Hlen. by eapply lookup_lt_Some.
    + rewrite Hperm, fragments_positions. apply NoDup_seq.
    + rewrite <-Hlen, Hout. cbn [rbind]. do 2 f_equal.
      apply place_chunks_placed in Hout as [_ Hol _ Hsets _ _].
      rewrite length_replicate in Hol.
      rewrite <-(omap_id_filled chunks). f_equal. apply list_eq. intros i.
      rewrite list_lookup_fmap. destruct (chunks !! i) as [c|] eqn:Hc; simpl.
      * pose (f := Frame.mk v m (N.of_nat i + 1) (lenN chunks) a b c).
        assert (position f = i) as Hp by (unfold position, f; simpl; lia).
        destruct (Hsets f) as (_ & _ & Hs).
        { rewrite Hperm, elem_of_fragments, Hp. unfold f; simpl. repeat split; [done|lia]. }
        by rewrite Hp in Hs.
      * apply lookup_ge_None. apply lookup_ge_None in Hc. lia.
Qed.
