(* ===== verification/Device.v ===== *)
(** * Device certificates and device lists (crates/cordiale-core/src/e2e_device.rs)

    The checks of a certificate and of a signed list, and the version rule of
    the stored list. *)

From S2P Require Import Prelude.
From S2P Require Import RustStr.
From S2P Require Import Interfaces.
From S2P Require Import Wire.
From stdpp Require Import options.

Module E2eError.
Inductive t :=
| Wire (e : WireError)
| BadSignature
| UnknownSigner
| DeviceMismatch
| StaleList
| MasterChanged
| RevokedDevice
| LegacyListOrder
| Replay
| BadCertificateVersion
| NotListed
| RecipientMismatch.

#[global] Instance eq_dec : EqDecision t.
Proof. solve_decision. Defined.
End E2eError.

(** [?] on a [WireError] inside a function of [E2eError]. *)
Definition wire {A} (r : result A WireError) : result A E2eError.t := map_err E2eError.Wire r.

Module DeviceCertificate.
Record t := mk {
  did : string;
  curve25519 : string;
  master_ed25519 : string;
  signature : string;
}.
End DeviceCertificate.

Module PeerDevice.
Record t := new { did : string; curve25519 : string; ed25519 : string }.

#[global] Instance eq_dec : EqDecision t.
Proof. solve_decision. Defined.
End PeerDevice.

Module VersionedDeviceCertificate.
Record t := mk {
  first_list_version : N;
  device_ed25519 : string;
  master_ed25519 : string;
  signature : string;
}.

#[global] Instance eq_dec : EqDecision t.
Proof. solve_decision. Defined.
End VersionedDeviceCertificate.

Section Device.
Context {C : Crypto}.

(** The slices to the key and signature types, then the check itself. *)
Definition verify_raw (signer_raw signature_raw signed : string) : result unit E2eError.t :=
  if negb (ed25519_key_ok signer_raw) then Err (E2eError.Wire BadKey)
  else if negb (ed25519_signature_ok signature_raw) then Err (E2eError.Wire BadSignature)
  else if ed25519_verify signer_raw signed signature_raw then Ok tt
  else Err E2eError.BadSignature.

Definition accept_peer_device (cert : DeviceCertificate.t) (approved_keys : list string)
    : result PeerDevice.t E2eError.t :=
  let master := DeviceCertificate.master_ed25519 cert in
  let? _ := wire (decode_key (DeviceCertificate.curve25519 cert)) in
  let? master_raw := wire (decode_key master) in
  let? signature_raw := wire (decode_signature (DeviceCertificate.signature cert)) in
  let? did := wire (did_from_key_text master) in
  if negb (bool_decide (did = DeviceCertificate.did cert)) then Err E2eError.DeviceMismatch else
  if negb (contains approved_keys master) then Err E2eError.UnknownSigner else
  let? _ := verify_raw master_raw signature_raw
              (device_id_signed_text (DeviceCertificate.curve25519 cert) master) in
  Ok (PeerDevice.new (DeviceCertificate.did cert) (DeviceCertificate.curve25519 cert) master).

Definition verify_signature (signer_ed25519 signature signed : string)
    : result unit E2eError.t :=
  let? signer_raw := wire (decode_key signer_ed25519) in
  let? signature_raw := wire (decode_signature signature) in
  verify_raw signer_raw signature_raw signed.

Definition build_device_certificate (first_list_version : N)
    (device_ed25519 master_ed25519 : string) (sign : string -> string)
    : result VersionedDeviceCertificate.t E2eError.t :=
  let? text := wire (device_certificate_signed_text first_list_version device_ed25519) in
  let? _ := wire (decode_key master_ed25519) in
  let signature := sign text in
  let? _ := wire (decode_signature signature) in
  Ok (VersionedDeviceCertificate.mk first_list_version device_ed25519 master_ed25519 signature).

Definition verify_device_certificate_bytes (signed master_ed25519 signature : string)
    (approved_keys : list string) : result (N * string) E2eError.t :=
  let? (version, device) := wire (parse_device_certificate_signed_text signed) in
  let? _ := wire (decode_key master_ed25519) in
  let? _ := wire (decode_signature signature) in
  if negb (contains approved_keys master_ed25519) then Err E2eError.UnknownSigner else
  let? _ := verify_signature master_ed25519 signature signed in
  Ok (version, device).

Definition verify_device_certificate (cert : VersionedDeviceCertificate.t)
    (approved_keys : list string) : result unit E2eError.t :=
  let? signed := wire (device_certificate_signed_text
                         (VersionedDeviceCertificate.first_list_version cert)
                         (VersionedDeviceCertificate.device_ed25519 cert)) in
  rmap (fun _ => tt)
    (verify_device_certificate_bytes signed (VersionedDeviceCertificate.master_ed25519 cert)
       (VersionedDeviceCertificate.signature cert) approved_keys).

Definition build_signed_list_signature (list_version : N) (device_keys : list string)
    (sign : string -> string) : result string E2eError.t :=
  let? text := wire (signed_list_signed_text list_version device_keys) in
  let signature := sign text in
  let? _ := wire (decode_signature signature) in
  Ok signature.

Definition verify_signed_list (list_version : N) (device_keys : list string)
    (master_ed25519 signature : string) : result unit E2eError.t :=
  let? text := wire (signed_list_signed_text list_version device_keys) in
  verify_signature master_ed25519 signature text.
End Device.

(** ** The stored list *)

Module ListState.
Record t := mk { stored : option (N * list string) }.

#[global] Instance eq_dec : EqDecision t.
Proof. solve_decision. Defined.

Definition default : t := mk None.

Definition apply `{Crypto} (s : t) (version : N) (keys : list string)
    : t * result ListDecision E2eError.t :=
  if negb ((1 <=? version)%N && (version <=? MAX_VERSION)%N)
  then (s, Err (E2eError.Wire BadVersion)) else
  match check_list_devices keys with
  | Err e => (s, Err (E2eError.Wire e))
  | Ok _ =>
      match decide_list (stored s) version keys with
      | Replace => (mk (Some (version, keys)), Ok Replace)
      | NoOp => (s, Ok NoOp)
      | Ignore => (s, Err E2eError.StaleList)
      end
  end.

Definition version (s : t) : N :=
  match stored s with Some (version, _) => version | None => 0 end.

Definition keys (s : t) : list string :=
  match stored s with Some (_, keys) => keys | None => [] end.
End ListState.
