(* ===== verification/Manage.v ===== *)
(** * Management of the devices of a peer (crates/cordiale-core/src/e2e_manage.rs) *)

From S2P Require Import Prelude.
From S2P Require Import RustStr.
From S2P Require Import Interfaces.
From S2P Require Import Wire.
From S2P Require Import Device.
From stdpp Require Import options.

Module ManageError.
Inductive t :=
| E2e (e : E2eError.t)
| MasterChanged
| RevokedKey
| Unverified.

#[global] Instance eq_dec : EqDecision t.
Proof. solve_decision. Defined.
End ManageError.

(** [?] on the two errors that convert. *)
Definition manage {A} (r : result A E2eError.t) : result A ManageError.t :=
  map_err ManageError.E2e r.

Module SignedList.
Record t := mk { version : N; keys : list string; signature : string }.

#[global] Instance eq_dec : EqDecision t.
Proof. solve_decision. Defined.
End SignedList.

Module PeerDirectory.
Record t := mk {
  master_ed25519 : string;
  verified : bool;
  list : ListState.t;
  revoked : Datatypes.list string;
}.

Section Directory.
Context {C : Crypto}.

Definition new (master_ed25519 : string) : result t ManageError.t :=
  let? _ := manage (wire (decode_key master_ed25519)) in
  Ok (mk master_ed25519 false ListState.default []).

Definition keys (s : t) : Datatypes.list string := ListState.keys (list s).

Definition confirm_sas (s : t) : t := mk (master_ed25519 s) true (list s) (revoked s).

(** The loop that revokes the dropped keys. *)
Fixpoint revoke_dropped (old new revoked : Datatypes.list string) : Datatypes.list string :=
  match old with
  | [] => revoked
  | key :: old =>
      revoke_dropped old new
        (if negb (contains new key) && negb (contains revoked key)
         then revoked ++ [key] else revoked)
  end.

Definition apply_list (s : t) (master : string) (l : SignedList.t)
    : t * result ListDecision ManageError.t :=
  if negb (bool_decide (master = master_ed25519 s)) then (s, Err ManageError.MasterChanged) else
  match verify_signed_list (SignedList.version l) (SignedList.keys l) master
          (SignedList.signature l) with
  | Err e => (s, Err (ManageError.E2e e))
  | Ok _ =>
      let '(next, applied) := ListState.apply (list s) (SignedList.version l) (SignedList.keys l) in
      match applied with
      | Err e => (s, Err (ManageError.E2e e))
      | Ok Replace =>
          if existsb (contains (revoked s)) (SignedList.keys l)
          then (s, Err ManageError.RevokedKey)
          else (mk (master_ed25519 s) (verified s) next
                  (revoke_dropped (keys s) (SignedList.keys l) (revoked s)), Ok Replace)
      | Ok decision => (s, Ok decision)
      end
  end.

Definition accept_new_master (s : t) (master : string) : t * result unit ManageError.t :=
  match decode_key master with
  | Err e => (s, Err (ManageError.E2e (E2eError.Wire e)))
  | Ok _ => (mk master false ListState.default (revoked s), Ok tt)
  end.

Definition accept_device (s : t) (cert : DeviceCertificate.t)
    : result PeerDevice.t ManageError.t :=
  if negb (verified s) then Err ManageError.Unverified
  else if contains (revoked s) (DeviceCertificate.master_ed25519 cert)
       then Err ManageError.RevokedKey
  else manage (accept_peer_device cert (ListState.keys (list s))).
End Directory.
End PeerDirectory.
