(* ===== verification/ListMigration.v ===== *)
(** * Lists signed over the old key order
    (crates/cordiale-core/src/e2e_list_migration.rs) *)

From S2P Require Import Prelude.
From S2P Require Import RustStr.
From S2P Require Import Interfaces.
From S2P Require Import Wire.
From S2P Require Import Device.
From S2P Require Import Manage.
From stdpp Require Import options.

Inductive ListOrder := Current | Legacy.

#[global] Instance ListOrder_eq_dec : EqDecision ListOrder.
Proof. solve_decision. Defined.

(** What the code uses of [vodozemac::olm::Account]: the text of its Ed25519
    key and the text of its signatures. *)
Record Account := {
  account_ed25519 : string;
  account_sign : string -> string;
}.

Section Migration.
Context {C : Crypto}.

Definition has_legacy_order (version : N) (keys : list string)
    (master_ed25519 signature : string) : bool :=
  if negb (bool_decide (verify_signed_list version keys master_ed25519 signature =
                        Err E2eError.BadSignature))
  then false
  else match legacy_raw_order_list_signed_text version keys with
       | Ok text => is_ok (verify_signature master_ed25519 signature text)
       | Err _ => false
       end.

Definition list_order (version : N) (keys : list string) (master_ed25519 signature : string)
    : result ListOrder E2eError.t :=
  match verify_signed_list version keys master_ed25519 signature with
  | Ok _ => Ok Current
  | Err E2eError.BadSignature =>
      if has_legacy_order version keys master_ed25519 signature then Ok Legacy
      else Err E2eError.BadSignature
  | Err err => Err err
  end.

Definition migrate_own_list (master : Account) (l : SignedList.t)
    : result (option SignedList.t) E2eError.t :=
  let? order := list_order (SignedList.version l) (SignedList.keys l)
                  (account_ed25519 master) (SignedList.signature l) in
  match order with
  | Current => Ok None
  | Legacy =>
      let? signature := build_signed_list_signature (SignedList.version l)
                          (SignedList.keys l) (account_sign master) in
      let? keys := wire (sort_list_keys (SignedList.keys l)) in
      Ok (Some (SignedList.mk (SignedList.version l) keys signature))
  end.
End Migration.
