(* ===== verification/DeviceFacts.v ===== *)
(** * Theorems on device certificates and lists *)

From Stdlib Require Import Permutation.
From S2P Require Import Prelude.
From S2P Require Import RustStr.
From S2P Require Import Interfaces.
From S2P Require Import Concrete.
From S2P Require Import Wire.
From S2P Require Import WireFacts.
From S2P Require Import Device.
From S2P Require Import Manage.
From S2P Require Import ListMigration.
From stdpp Require Import options.

Section Device.
Context {C : Crypto}.

Lemma wire_ok {A} (r : result A WireError) a : wire r = Ok a <-> r = Ok a.
Proof. apply map_err_ok. Qed.

Lemma contains_negb_false `{EqDecision A} (l : list A) x :
  negb (contains l x) = false <-> x ∈ l.
Proof. by rewrite negb_false_iff, contains_spec. Qed.

(** ** Certificates *)

(** What a checked signature means. *)
Lemma verify_signature_ok signer signature signed u :
  verify_signature signer signature signed = Ok u <->
  exists key sig, decode_key signer = Ok key /\ decode_signature signature = Ok sig /\
    ed25519_key_ok key = true /\ ed25519_signature_ok sig = true /\
    ed25519_verify key signed sig = true.
Proof.
  unfold verify_signature, verify_raw. destruct u. split.
  - intros H. apply rbind_ok in H as (key & Hk & H). apply rbind_ok in H as (sig & Hs & H).
    apply wire_ok in Hk, Hs. exists key, sig.
    destruct (ed25519_key_ok key), (ed25519_signature_ok sig); try done.
    by destruct (ed25519_verify key signed sig).
  - intros (key & sig & Hk & Hs & H1 & H2 & H3). unfold wire.
    by rewrite Hk, Hs; simpl; rewrite H1, H2, H3.
Qed.

Lemma certificate_bytes_iff signed master signature approved n device :
  verify_device_certificate_bytes signed master signature approved = Ok (n, device) <->
  device_certificate_signed_text n device = Ok signed /\ master ∈ approved /\
  verify_signature master signature signed = Ok tt.
Proof.
  unfold verify_device_certificate_bytes. split.
  - intros H. apply rbind_ok in H as ([n' device'] & Hp & H). apply wire_ok in Hp.
    apply rbind_ok in H as (k & Hk & H). apply rbind_ok in H as (s & Hs & H).
    destruct (negb (contains approved master)) eqn:Ha; [done|].
    apply contains_negb_false in Ha.
    apply rbind_ok in H as ([] & Hv & H). injection H as -> ->.
    apply parsed_certificate_text in Hp. split; [|done].
    by apply device_certificate_signed_text_ok.
  - intros (Ht & Ha & Hv). pose proof Hv as (key & sig & Hk & Hs & _)%verify_signature_ok.
    apply device_certificate_signed_text_ok in Ht as (Hn & [raw Hraw] & ->).
    rewrite (certificate_text_parses n device raw) by done. unfold wire. simpl.
    rewrite Hk, Hs. simpl. rewrite (proj2 (contains_negb_false approved master)) by done.
    by rewrite Hv.
Qed.

(** A certificate from raw bytes is accepted exactly when the bytes are
    the canonical text of its version and device key, the signer is approved,
    and the signature is valid over those bytes. *)
Theorem certificate_bytes_exact (signed master signature : string) (approved : list string)
    (n : N) (device : string) :
  verify_device_certificate_bytes signed master signature approved = Ok (n, device) <->
  device_certificate_signed_text n device = Ok signed /\ master ∈ approved /\
  verify_signature master signature signed = Ok tt.
Proof. apply certificate_bytes_iff. Qed.

Lemma verify_device_certificate_ok cert approved u :
  verify_device_certificate cert approved = Ok u <->
  exists signed,
    device_certificate_signed_text (VersionedDeviceCertificate.first_list_version cert)
      (VersionedDeviceCertificate.device_ed25519 cert) = Ok signed /\
    VersionedDeviceCertificate.master_ed25519 cert ∈ approved /\
    verify_signature (VersionedDeviceCertificate.master_ed25519 cert)
      (VersionedDeviceCertificate.signature cert) signed = Ok tt.
Proof.
  unfold verify_device_certificate. destruct u. split.
  - intros H. apply rbind_ok in H as (signed & Ht & H). apply wire_ok in Ht.
    exists signed. split; [done|].
    apply rmap_ok in H as ([n device] & H & _).
    by apply certificate_bytes_iff in H as (_ & H).
  - intros (signed & Ht & Hv). unfold wire. rewrite Ht. simpl.
    apply rmap_ok. eexists (_, _). split; [|done].
    apply certificate_bytes_iff. split; [exact Ht|exact Hv].
Qed.

(** A signer whose signatures verify under its key. *)
Definition signs_well (a : Account) : Prop :=
  forall text, verify_signature (account_ed25519 a) (account_sign a text) text = Ok tt.

(** What was built with a good signer verifies. *)
Lemma certificate_built (a : Account) (n : N) (device : string)
    (cert : VersionedDeviceCertificate.t) :
  signs_well a ->
  build_device_certificate n device (account_ed25519 a) (account_sign a) = Ok cert ->
  VersionedDeviceCertificate.first_list_version cert = n /\
  VersionedDeviceCertificate.device_ed25519 cert = device /\
  VersionedDeviceCertificate.master_ed25519 cert = account_ed25519 a /\
  verify_device_certificate cert [account_ed25519 a] = Ok tt.
Proof.
  intros Ha Hbuilt. unfold build_device_certificate in Hbuilt.
  apply rbind_ok in Hbuilt as (text & Ht & H). apply wire_ok in Ht. inv_result. simpl.
  split_and!; try done. apply verify_device_certificate_ok. exists text. simpl.
  split; [done|]. split; [set_solver|apply Ha].
Qed.

(** The id block of a peer device is accepted exactly when its texts are
    canonical, the [did] is the one of the signing key, the key is approved,
    and the signature is valid over the curve key and the signing key. *)
Theorem accept_peer_device_exact (cert : DeviceCertificate.t) (approved : list string)
    (d : PeerDevice.t) :
  accept_peer_device cert approved = Ok d <->
  (exists raw, decode_key (DeviceCertificate.curve25519 cert) = Ok raw) /\
  did_from_key_text (DeviceCertificate.master_ed25519 cert) = Ok (DeviceCertificate.did cert) /\
  DeviceCertificate.master_ed25519 cert ∈ approved /\
  verify_signature (DeviceCertificate.master_ed25519 cert) (DeviceCertificate.signature cert)
    (device_id_signed_text (DeviceCertificate.curve25519 cert)
       (DeviceCertificate.master_ed25519 cert)) = Ok tt /\
  d = PeerDevice.new (DeviceCertificate.did cert) (DeviceCertificate.curve25519 cert)
        (DeviceCertificate.master_ed25519 cert).
Proof.
  unfold accept_peer_device, verify_signature. split.
  - intros H.
    apply rbind_ok in H as (c & Hc & H). apply rbind_ok in H as (k & Hk & H).
    apply rbind_ok in H as (s & Hs & H). apply rbind_ok in H as (did & Hd & H).
    destruct (negb (bool_decide _)) eqn:E1; [done|].
    destruct (negb (contains _ _)) eqn:E2; [done|].
    apply rbind_ok in H as ([] & Hv & H). injection H as <-.
    apply negb_false_iff, bool_decide_eq_true in E1. subst did.
    apply contains_negb_false in E2. rewrite Hk, Hs. apply wire_ok in Hc, Hd. eauto 10.
  - intros ([c Hc] & Hd & Ha & Hv & ->).
    apply rbind_ok in Hv as (k & Hk & Hv). apply rbind_ok in Hv as (s & Hs & Hv).
    rewrite Hk, Hs. unfold wire. rewrite Hc, Hd. simpl.
    rewrite bool_decide_true by done. simpl.
    rewrite (proj2 (contains_negb_false _ _)) by done. by rewrite Hv.
Qed.

(** ** Lists *)

Lemma verify_signed_list_ok v keys master signature u :
  verify_signed_list v keys master signature = Ok u <->
  exists text, signed_list_signed_text v keys = Ok text /\
    verify_signature master signature text = Ok tt.
Proof.
  unfold verify_signed_list. destruct u. rewrite rbind_ok. setoid_rewrite wire_ok.
  naive_solver.
Qed.

Lemma signed_list_built (a : Account) (v : N) (keys : list string) (signature : string) :
  signs_well a ->
  build_signed_list_signature v keys (account_sign a) = Ok signature ->
  forall keys', keys ≡ₚ keys' -> verify_signed_list v keys' (account_ed25519 a) signature = Ok tt.
Proof.
  intros Ha Hb keys' Hp. unfold build_signed_list_signature in Hb.
  apply rbind_ok in Hb as (text & Ht & Hb). apply rbind_ok in Hb as (? & ? & Hb).
  injection Hb as <-. apply wire_ok in Ht. apply verify_signed_list_ok. exists text.
  split; [by eapply signed_list_signed_text_perm|apply Ha].
Qed.

(** The order in which a list arrives never matters: the same keys in any
    order verify with the same signature. *)
Theorem verify_signed_list_order (v : N) (keys keys' : list string) (master signature : string)
    (Hp : keys ≡ₚ keys') :
  verify_signed_list v keys master signature = Ok tt <->
  verify_signed_list v keys' master signature = Ok tt.
Proof.
  rewrite !verify_signed_list_ok. split; intros (text & Ht & Hv); exists text.
  - split; [by eapply signed_list_signed_text_perm|done].
  - symmetry in Hp. split; [by eapply signed_list_signed_text_perm|done].
Qed.

(** ** The stored list *)

(** What an applied list did. *)
Lemma apply_cases s version keys :
  let '(s', r) := ListState.apply s version keys in
  (exists e, r = Err e /\ s' = s) \/
  (r = Ok NoOp /\ s' = s /\ ListState.version s = version /\ ListState.keys s ≡ₚ keys) \/
  (r = Ok Replace /\ ListState.stored s' = Some (version, keys) /\
   (ListState.version s < version)%N /\ check_list_devices keys = Ok tt).
Proof.
  unfold ListState.apply.
  destruct (negb _) eqn:Hv; [left; eauto|]. apply negb_false_iff, andb_prop in Hv as [Hv _].
  apply N.leb_le in Hv.
  destruct (check_list_devices keys) as [[]|e] eqn:Hc; [|left; eauto].
  unfold ListState.version, ListState.keys, decide_list.
  destruct (ListState.stored s) as [[v ks]|]; [|right; right; split_and!; [done..|lia|done]].
  destruct (N.ltb_spec v version); [right; right; done|].
  destruct (N.ltb_spec version v); [left; eauto|].
  case_decide as Hs; [|left; eauto]. right; left. split_and!; [done|done|lia|].
  by apply merge_sort_eq_perm.
Qed.

Definition apply_all (s : ListState.t) (lists : list (N * list string)) : ListState.t :=
  foldl (fun s l => (ListState.apply s l.1 l.2).1) s lists.

(** The stored list only moves forward: whatever lists arrive, its version
    never decreases, and while the version is the same the keys are the same. *)
Theorem list_state_forward (s : ListState.t) (lists : list (N * list string)) :
  (ListState.version s <= ListState.version (apply_all s lists))%N /\
  (ListState.version (apply_all s lists) = ListState.version s ->
   apply_all s lists = s).
Proof.
  revert s. induction lists as [|[v keys] lists IH]; intros s; [done|].
  unfold apply_all in *. cbn [foldl fst snd]. pose proof (apply_cases s v keys) as H.
  destruct (ListState.apply s v keys) as [s' r]. cbn [fst].
  specialize (IH s') as [IH1 IH2].
  destruct H as [(e & -> & ->)|[(-> & -> & _)|(-> & Hs' & Hlt & _)]]; [done..|].
  assert (ListState.version s' = v) as Hv by (unfold ListState.version; by rewrite Hs').
  split; [lia|]. intros Heq. lia.
Qed.

(** ** The old key order *)

(** The own list with an old-order signature is signed again: the result
    has the same version and the same keys in the current order, and its
    signature is valid in the current order. *)
Theorem migrated_list_current (a : Account) (l l' : SignedList.t)
    (Ha : signs_well a)
    (Hm : migrate_own_list a l = Ok (Some l')) :
  SignedList.version l' = SignedList.version l /\
  SignedList.keys l' ≡ₚ SignedList.keys l /\
  list_order (SignedList.version l') (SignedList.keys l') (account_ed25519 a)
    (SignedList.signature l') = Ok Current /\
  list_order (SignedList.version l) (SignedList.keys l) (account_ed25519 a)
    (SignedList.signature l) = Ok Legacy.
Proof.
  unfold migrate_own_list in Hm.
  apply rbind_ok in Hm as (order & Ho & Hm). destruct order; [done|].
  apply rbind_ok in Hm as (signature & Hb & Hm). apply rbind_ok in Hm as (keys & Hk & Hm).
  injection Hm as <-. simpl. apply wire_ok, sort_list_keys_ok in Hk as [Hc ->].
  assert (merge_sort String.le (SignedList.keys l) ≡ₚ SignedList.keys l) as Hp
    by apply merge_sort_Permutation.
  split_and!; [done|done| |done].
  unfold list_order. rewrite (signed_list_built a _ _ _ Ha Hb); [done|by symmetry].
Qed.

(** The check of the order accepts nothing that the master did not sign:
    an answer is given only for a signature of the master over one of the two
    texts of this list, the current one first. *)
Theorem list_order_sound (v : N) (keys : list string) (master signature : string)
    (o : ListOrder) :
  list_order v keys master signature = Ok o <->
  match o with
  | Current => verify_signed_list v keys master signature = Ok tt
  | Legacy =>
      verify_signed_list v keys master signature = Err E2eError.BadSignature /\
      exists text, legacy_raw_order_list_signed_text v keys = Ok text /\
        verify_signature master signature text = Ok tt
  end.
Proof.
  unfold list_order, has_legacy_order.
  destruct (verify_signed_list v keys master signature) as [[]|e] eqn:E.
  - destruct o; split; try done. by intros [? _].
  - split.
    + destruct e; try done. rewrite bool_decide_true by done. simpl.
      destruct (legacy_raw_order_list_signed_text v keys) as [text|]; simpl; [|done].
      destruct (verify_signature master signature text) as [[]|] eqn:Hv; simpl; [|done].
      intros [= <-]. eauto.
    + destruct o; [done|]. intros ([= ->] & text & Ht & Hv).
      rewrite bool_decide_true by done. simpl. by rewrite Ht, Hv.
Qed.
End Device.

(** ** A concrete signer *)

Definition sample_account (n : N) : Account :=
  {| account_ed25519 := sample_key n; account_sign := sample_sign n |}.

Lemma decode_signature_encode raw :
  String.length raw = 64 -> decode_signature (b64_encode raw) = Ok raw.
Proof.
  intros Hl. unfold decode_signature, decode_canonical.
  assert (str_len (b64_encode raw) = SIGNATURE_TEXT_LEN) as ->.
  { unfold str_len. rewrite b64_encode_length, Hl. reflexivity. }
  rewrite (b64_encode_alphabet raw : all_chars is_std_b64_char _ = true).
  rewrite N.eqb_refl, b64_decode_encode. simpl. rewrite decide_True by done. simpl.
  unfold exact_bytes, str_len. by rewrite Hl.
Qed.

Lemma sample_account_signs n : (n < 256)%N -> signs_well (sample_account n).
Proof.
  intros Hn text. apply verify_signature_ok.
  exists (str_repeat (byte_of n) 32), (toy_sign (str_repeat (byte_of n) 32) text).
  assert (String.length (toy_sign (str_repeat (byte_of n) 32) text) = 64) as Hl.
  { unfold toy_sign. rewrite str_length_app, str_repeat_length.
    change (toy_sha256 text) with (sha256 text). by rewrite sha256_length. }
  split_and!.
  - unfold sample_account, sample_key. simpl. unfold byte_of.
    destruct (ascii_of_N n) as [[] [] [] [] [] [] [] []]; vm_compute; reflexivity.
  - by apply decode_signature_encode.
  - cbn [ed25519_key_ok concrete_crypto]. unfold str_len. by rewrite str_repeat_length.
  - cbn [ed25519_signature_ok concrete_crypto]. unfold str_len. by rewrite Hl.
  - cbn [ed25519_verify concrete_crypto]. by rewrite bool_decide_true.
Qed.

Lemma verify_signed_list_order_witness :
  verify_signed_list 2 [sample_key 5; sample_key 4] (sample_key 1)
    (sample_sign 1 (list_text 2 (merge_sort String.le [sample_key 4; sample_key 5]))) = Ok tt <->
  verify_signed_list 2 [sample_key 4; sample_key 5] (sample_key 1)
    (sample_sign 1 (list_text 2 (merge_sort String.le [sample_key 4; sample_key 5]))) = Ok tt.
Proof. apply verify_signed_list_order. apply Permutation_swap. Defined.

(** Two keys whose raw order is not the order of their texts, signed in the
    raw order. *)
Definition legacy_keys : list string := [sample_key 100; sample_key 252].

Definition legacy_list : SignedList.t :=
  SignedList.mk 4 legacy_keys (sample_sign 1 (list_text 4 [sample_key 100; sample_key 252])).

Lemma migrated_list_current_witness :
  match migrate_own_list (sample_account 1) legacy_list with
  | Ok (Some l') =>
      SignedList.version l' = SignedList.version legacy_list /\
      SignedList.keys l' ≡ₚ SignedList.keys legacy_list /\
      list_order (SignedList.version l') (SignedList.keys l') (sample_key 1)
        (SignedList.signature l') = Ok Current /\
      list_order (SignedList.version legacy_list) (SignedList.keys legacy_list) (sample_key 1)
        (SignedList.signature legacy_list) = Ok Legacy
  | _ => False
  end.
Proof.
  destruct (migrate_own_list _ _) as [[l'|]|] eqn:E.
  - apply (migrated_list_current (sample_account 1)); [|exact E].
    apply sample_account_signs. reflexivity.
  - vm_compute in E. discriminate E.
  - vm_compute in E. discriminate E.
Defined.
