(* ===== verification/Trust.v ===== *)
(** * Peer trust and retained revocation (crates/cordiale-core/src/e2e_trust.rs)

    The state is a map of peers by network and nick. An operation that the
    code may refuse returns the state as it leaves it, with its result. *)

From S2P Require Import Prelude.
From S2P Require Import RustStr.
From S2P Require Import Interfaces.
From S2P Require Import Wire.
From S2P Require Import Device.
From S2P Require Import Manage.
From S2P Require Import ListMigration.
From stdpp Require Import options.

Inductive MasterStatus := NewMaster | Same | Changed.

#[global] Instance MasterStatus_eq_dec : EqDecision MasterStatus.
Proof. solve_decision. Defined.

Module PeerRecord.
Record t := mk {
  master : string;
  sas_verified : bool;
  key_verified : bool;
  list : ListState.t;
  curves : gmap string string;
  revoked : gset string;
  revoked_curves : gset string;
  needs_new_list : bool;
  certified : gmap string N;
  released : bool;
}.

#[global] Instance eq_dec : EqDecision t.
Proof. solve_decision. Defined.

Definition new (master : string) : t :=
  mk master false false ListState.default ∅ ∅ ∅ false ∅ false.

(** Assignments to single fields. *)
Definition set_sas (b : bool) (r : t) : t :=
  mk (master r) b (key_verified r) (list r) (curves r) (revoked r) (revoked_curves r)
     (needs_new_list r) (certified r) (released r).
Definition set_key_verified (b : bool) (r : t) : t :=
  mk (master r) (sas_verified r) b (list r) (curves r) (revoked r) (revoked_curves r)
     (needs_new_list r) (certified r) (released r).
Definition set_list (l : ListState.t) (r : t) : t :=
  mk (master r) (sas_verified r) (key_verified r) l (curves r) (revoked r) (revoked_curves r)
     (needs_new_list r) (certified r) (released r).
Definition set_curves (m : gmap string string) (r : t) : t :=
  mk (master r) (sas_verified r) (key_verified r) (list r) m (revoked r) (revoked_curves r)
     (needs_new_list r) (certified r) (released r).
Definition set_revoked (keys curves' : gset string) (r : t) : t :=
  mk (master r) (sas_verified r) (key_verified r) (list r) (curves r) keys curves'
     (needs_new_list r) (certified r) (released r).
Definition set_needs_new_list (b : bool) (r : t) : t :=
  mk (master r) (sas_verified r) (key_verified r) (list r) (curves r) (revoked r)
     (revoked_curves r) b (certified r) (released r).
Definition set_certified (m : gmap string N) (r : t) : t :=
  mk (master r) (sas_verified r) (key_verified r) (list r) (curves r) (revoked r)
     (revoked_curves r) (needs_new_list r) m (released r).

Definition take_master (m : string) (r : t) : t :=
  mk m false false (list r) (curves r) (revoked r) (revoked_curves r)
     (needs_new_list r) (certified r) false.

Definition release (r : t) : t :=
  mk (master r) false false ListState.default ∅ (revoked r) (revoked_curves r) false ∅ true.

Definition is_revoked (r : t) (ed25519 : string) (curve25519 : option string) : bool :=
  bool_decide (ed25519 ∈ revoked r)
  || match curve25519 with
     | Some curve => bool_decide (curve ∈ revoked_curves r)
     | None => false
     end.

(** The keys that enter the revoked sets with one device. *)
Definition revoke (device : string) (r : t) : t :=
  set_revoked ({[device]} ∪ revoked r)
    (match curves r !! device with
     | Some curve => {[curve]} ∪ revoked_curves r
     | None => revoked_curves r
     end) r.
End PeerRecord.

Definition NUL : string := String "000" "".

Definition peer_key (network nick : string) : string := network +:+ NUL +:+ nick.

Module PeerTrust.
Definition t : Type := gmap string PeerRecord.t.

#[global] Instance eq_dec : EqDecision t.
Proof. unfold t. apply _. Defined.

Section Trust.
Context {C : Crypto}.

Definition get (s : t) (network nick : string) : option PeerRecord.t :=
  s !! peer_key network nick.

Definition observe_master (s : t) (network nick master : string)
    : t * result MasterStatus E2eError.t :=
  match decode_key master with
  | Err e => (s, Err (E2eError.Wire e))
  | Ok _ =>
      let key := peer_key network nick in
      match s !! key with
      | None => (<[key := PeerRecord.new master]> s, Ok NewMaster)
      | Some record =>
          if PeerRecord.released record
          then (<[key := PeerRecord.take_master master record]> s, Ok NewMaster)
          else if decide (PeerRecord.master record = master) then (s, Ok Same)
          else (s, Ok Changed)
      end
  end.

Definition master (s : t) (network nick : string) : option string :=
  record ← get s network nick;
  if PeerRecord.released record then None else Some (PeerRecord.master record).

Definition is_sas_verified (s : t) (network nick : string) : bool :=
  match get s network nick with Some record => PeerRecord.sas_verified record | None => false end.

Definition mark_sas_verified (s : t) (network nick master : string)
    : t * result unit E2eError.t :=
  match get s network nick with
  | Some record =>
      if negb (PeerRecord.released record) && bool_decide (PeerRecord.master record = master)
      then (<[peer_key network nick := PeerRecord.set_sas true record]> s, Ok tt)
      else (s, Err E2eError.MasterChanged)
  | None => (s, Err E2eError.MasterChanged)
  end.

Definition is_key_verified (s : t) (network nick : string) : bool :=
  match get s network nick with
  | Some record => negb (PeerRecord.released record) && PeerRecord.key_verified record
  | None => false
  end.

Definition mark_key_verified (s : t) (network nick master : string)
    : t * result unit E2eError.t :=
  match get s network nick with
  | Some record =>
      if negb (PeerRecord.released record) && bool_decide (PeerRecord.master record = master)
      then (<[peer_key network nick := PeerRecord.set_key_verified true record]> s, Ok tt)
      else (s, Err E2eError.MasterChanged)
  | None => (s, Err E2eError.MasterChanged)
  end.

Definition release_master (s : t) (network nick : string) : t :=
  match get s network nick with
  | Some record => <[peer_key network nick := PeerRecord.release record]> s
  | None => s
  end.

Definition replace_master_by_user (s : t) (network nick master : string)
    : t * result unit E2eError.t :=
  match decode_key master with
  | Err e => (s, Err (E2eError.Wire e))
  | Ok _ => (<[peer_key network nick := PeerRecord.new master]> s, Ok tt)
  end.

(** The devices that the list [keys] of [version] drops. *)
Definition dropped (record : PeerRecord.t) (version : N) (keys previous : list string)
    : list string :=
  filter (fun device => device ∉ keys) previous ++
  (fst <$> filter (fun '(device, n) => (n <= version)%N /\ device ∉ keys)
             (map_to_list (PeerRecord.certified record))).

(** The record after a replaced list. *)
Definition replaced (record : PeerRecord.t) (version : N) (keys previous : list string)
    : PeerRecord.t :=
  let record := foldl (fun record device => PeerRecord.revoke device record)
                  record (dropped record version keys previous) in
  PeerRecord.set_certified
    (filter (fun kv => version < kv.2)%N (PeerRecord.certified record)) record.

Definition accept_list (s : t) (network nick master : string) (version : N)
    (keys : list string) (signature : string) : t * result ListDecision E2eError.t :=
  let key := peer_key network nick in
  match verify_signed_list version keys master signature with
  | Err err =>
      if has_legacy_order version keys master signature then
        (match s !! key with
         | Some record =>
             if decide (PeerRecord.master record = master)
             then <[key := PeerRecord.set_needs_new_list true record]> s else s
         | None => s
         end, Err E2eError.LegacyListOrder)
      else (s, Err err)
  | Ok _ =>
      let start :=
        match s !! key with
        | Some record =>
            if PeerRecord.released record then Ok (PeerRecord.take_master master record)
            else if decide (PeerRecord.master record = master) then Ok record
            else Err E2eError.MasterChanged
        | None => Ok (PeerRecord.new master)
        end in
      match start with
      | Err err => (s, Err err)
      | Ok record =>
          if existsb (fun device =>
               PeerRecord.is_revoked record device (PeerRecord.curves record !! device)) keys
          then (s, Err E2eError.RevokedDevice) else
          let previous := ListState.keys (PeerRecord.list record) in
          let '(list, applied) := ListState.apply (PeerRecord.list record) version keys in
          match applied with
          | Err err => (s, Err err)
          | Ok decision =>
              let record := PeerRecord.set_needs_new_list false
                              (PeerRecord.set_list list record) in
              let record := if decide (decision = Replace)
                            then replaced record version keys previous else record in
              (<[key := record]> s, Ok decision)
          end
      end
  end.

Definition revoke_device (s : t) (network nick master ed25519 : string)
    : t * result unit E2eError.t :=
  match decode_key master, decode_key ed25519 with
  | Err e, _ => (s, Err (E2eError.Wire e))
  | Ok _, Err e => (s, Err (E2eError.Wire e))
  | Ok _, Ok _ =>
      let record := default (PeerRecord.new master) (get s network nick) in
      (<[peer_key network nick := PeerRecord.revoke ed25519 record]> s, Ok tt)
  end.

Definition record_curve (s : t) (network nick ed25519 curve25519 : string)
    : t * result bool E2eError.t :=
  match decode_key ed25519, decode_key curve25519 with
  | Err e, _ => (s, Err (E2eError.Wire e))
  | Ok _, Err e => (s, Err (E2eError.Wire e))
  | Ok _, Ok _ =>
      match get s network nick with
      | Some record =>
          let record := PeerRecord.set_curves
                          (<[ed25519 := curve25519]> (PeerRecord.curves record)) record in
          let record :=
            if decide (ed25519 ∈ PeerRecord.revoked record)
            then PeerRecord.set_revoked (PeerRecord.revoked record)
                   ({[curve25519]} ∪ PeerRecord.revoked_curves record) record
            else record in
          (<[peer_key network nick := record]> s, Ok true)
      | None => (s, Ok false)
      end
  end.

Definition record_certified (s : t) (network nick ed25519 : string) (n : N) : t * bool :=
  match get s network nick with
  | Some record =>
      (<[peer_key network nick :=
           PeerRecord.set_certified (<[ed25519 := n]> (PeerRecord.certified record)) record]> s,
       true)
  | None => (s, false)
  end.

Definition list_version (s : t) (network nick : string) : N :=
  match get s network nick with
  | Some record => ListState.version (PeerRecord.list record)
  | None => 0
  end.

Definition needs_new_list (s : t) (network nick : string) : bool :=
  match get s network nick with
  | Some record => PeerRecord.needs_new_list record
  | None => false
  end.

Definition listed_devices (s : t) (network nick : string) : list string :=
  match get s network nick with
  | Some record => ListState.keys (PeerRecord.list record)
  | None => []
  end.

Definition has_revoked_devices (s : t) (network nick : string) : bool :=
  match get s network nick with
  | Some record => negb (bool_decide (PeerRecord.revoked record = ∅))
  | None => false
  end.

Definition is_revoked (s : t) (network nick ed25519 : string) (curve25519 : option string)
    : bool :=
  match get s network nick with
  | Some record => PeerRecord.is_revoked record ed25519 curve25519
  | None => false
  end.

Definition is_did_revoked (s : t) (network nick did : string) : bool :=
  match get s network nick with
  | Some record =>
      existsb (fun key =>
        match did_from_key_text key with
        | Ok revoked => bool_decide (revoked = did)
        | Err _ => false
        end) (elements (PeerRecord.revoked record))
  | None => false
  end.
End Trust.
End PeerTrust.
