(* ===== verification/Peer.v ===== *)
(** * Use of a remote device and replay state (crates/cordiale-core/src/e2e_peer.rs)

    The two doors of a remote device work on a copy of the trust state and
    write it back only where the code does. *)

From S2P Require Import Prelude.
From S2P Require Import RustStr.
From S2P Require Import Interfaces.
From S2P Require Import Wire.
From S2P Require Import Device.
From S2P Require Import Manage.
From S2P Require Import ListMigration.
From S2P Require Import Trust.
From stdpp Require Import options.

Definition REPLAY_WINDOW : N := 256.

Definition peer_device_key (network nick did : string) : string :=
  network +:+ NUL +:+ nick +:+ NUL +:+ did.

Module PeerBundle.
Record t := mk {
  master : string;
  list_version : N;
  list_keys : list string;
  list_signature : string;
  device_ed25519 : string;
  curve25519 : string;
  id_signature : string;
}.
End PeerBundle.

Module CertifiedBundle.
Record t := mk {
  master : string;
  certificate_version : N;
  certificate_signature : string;
  device_ed25519 : string;
  curve25519 : string;
  id_signature : string;
}.
End CertifiedBundle.

Section Doors.
Context {C : Crypto}.

(** The two assignments [*trust = next] of a refused or applied list. *)
Definition keep_marker (status : MasterStatus) (err : E2eError.t) : bool :=
  bool_decide (status = Same) && bool_decide (err = E2eError.LegacyListOrder).
Definition keep_list (status : MasterStatus) (decision : ListDecision) : bool :=
  bool_decide (status = Same) && bool_decide (decision = Replace).

Definition apply_peer_list (trust : PeerTrust.t) (network nick master : string)
    (list_version : N) (list_keys : list string) (list_signature : string)
    : PeerTrust.t * result ListDecision E2eError.t :=
  let '(next, observed) := PeerTrust.observe_master trust network nick master in
  match observed with
  | Err err => (trust, Err err)
  | Ok status =>
      if decide (status = Changed) then (trust, Err E2eError.MasterChanged) else
      let '(next, accepted) := PeerTrust.accept_list next network nick master list_version
                                 list_keys list_signature in
      match accepted with
      | Err err => (if keep_marker status err then next else trust, Err err)
      | Ok decision => (if keep_list status decision then next else trust, Ok decision)
      end
  end.

Definition check_id_block (master device curve25519 id_signature : string)
    : result unit E2eError.t :=
  let? _ := wire (decode_key curve25519) in
  verify_signature device id_signature (device_id_signed_text curve25519 master).

Definition check_listed_device (next : PeerTrust.t) (network nick : string)
    (server_keys : option (list string)) (bundle : PeerBundle.t)
    : result string E2eError.t :=
  let device := PeerBundle.device_ed25519 bundle in
  let? did := wire (did_from_key_text device) in
  if PeerTrust.is_revoked next network nick device (Some (PeerBundle.curve25519 bundle))
  then Err E2eError.RevokedDevice else
  let listed := contains (PeerBundle.list_keys bundle) device in
  let on_server := match server_keys with Some keys => contains keys device | None => true end in
  if negb listed || negb on_server then Err E2eError.NotListed else
  let? _ := check_id_block (PeerBundle.master bundle) device (PeerBundle.curve25519 bundle)
              (PeerBundle.id_signature bundle) in
  Ok did.

Definition verify_peer_device (trust : PeerTrust.t) (network nick : string)
    (server_keys : option (list string)) (bundle : PeerBundle.t)
    : PeerTrust.t * result PeerDevice.t E2eError.t :=
  let '(next, observed) :=
    PeerTrust.observe_master trust network nick (PeerBundle.master bundle) in
  match observed with
  | Err err => (trust, Err err)
  | Ok status =>
      if decide (status = Changed) then (trust, Err E2eError.MasterChanged) else
      let '(next, accepted) :=
        PeerTrust.accept_list next network nick (PeerBundle.master bundle)
          (PeerBundle.list_version bundle) (PeerBundle.list_keys bundle)
          (PeerBundle.list_signature bundle) in
      match accepted with
      | Err err => (if keep_marker status err then next else trust, Err err)
      | Ok decision =>
          match check_listed_device next network nick server_keys bundle with
          | Ok did =>
              let '(next, recorded) :=
                PeerTrust.record_curve next network nick (PeerBundle.device_ed25519 bundle)
                  (PeerBundle.curve25519 bundle) in
              match recorded with
              | Err err => (trust, Err err)
              | Ok _ => (next, Ok (PeerDevice.new did (PeerBundle.curve25519 bundle)
                                     (PeerBundle.device_ed25519 bundle)))
              end
          | Err err => (if keep_list status decision then next else trust, Err err)
          end
      end
  end.

(** The steps of [verify_certified_device] on the copy: the state it writes
    back and the device, or the error that leaves the state alone. *)
Definition certified_steps (trust : PeerTrust.t) (network nick : string)
    (bundle : CertifiedBundle.t) : result (PeerTrust.t * PeerDevice.t) E2eError.t :=
  let master := CertifiedBundle.master bundle in
  let device := CertifiedBundle.device_ed25519 bundle in
  let curve := CertifiedBundle.curve25519 bundle in
  let version := CertifiedBundle.certificate_version bundle in
  let '(next, observed) := PeerTrust.observe_master trust network nick master in
  let? status := observed in
  if decide (status = Changed) then Err E2eError.MasterChanged else
  let? did := wire (did_from_key_text device) in
  let? _ := check_id_block master device curve (CertifiedBundle.id_signature bundle) in
  let? _ := verify_device_certificate
              (VersionedDeviceCertificate.mk version device master
                 (CertifiedBundle.certificate_signature bundle)) [master] in
  if PeerTrust.is_revoked next network nick device (Some curve)
  then Err E2eError.RevokedDevice else
  let listed := contains (PeerTrust.listed_devices next network nick) device in
  if negb listed && (version <=? PeerTrust.list_version next network nick)%N
  then Err E2eError.NotListed else
  let next := if listed then next
              else (PeerTrust.record_certified next network nick device version).1 in
  let '(next, recorded) := PeerTrust.record_curve next network nick device curve in
  let? _ := recorded in
  Ok (next, PeerDevice.new did curve device).

Definition verify_certified_device (trust : PeerTrust.t) (network nick : string)
    (bundle : CertifiedBundle.t) : PeerTrust.t * result PeerDevice.t E2eError.t :=
  match certified_steps trust network nick bundle with
  | Ok (next, device) => (next, Ok device)
  | Err err => (trust, Err err)
  end.
End Doors.

(** ** Replay *)

Module ReplayState.
Record t := mk {
  first_messages : gmap string (list string);
  sessions : gmap string (list string);
}.

#[global] Instance eq_dec : EqDecision t.
Proof. solve_decision. Defined.

Definition initial : t := mk ∅ ∅.

(** [seen.remove(0)] past the window. *)
Definition trim (seen : list string) : list string :=
  if (REPLAY_WINDOW <? lenN seen)%N then tail seen else seen.

Definition record (map : gmap string (list string)) (network nick did id : string)
    : gmap string (list string) * result unit E2eError.t :=
  let key := peer_device_key network nick did in
  let seen := default [] (map !! key) in
  if contains seen id then (<[key := seen]> map, Err E2eError.Replay)
  else (<[key := trim (seen ++ [id])]> map, Ok tt).

Definition accept_first_message (s : t) (network nick did msgid : string)
    : t * result unit E2eError.t :=
  let '(map, r) := record (first_messages s) network nick did msgid in
  (mk map (sessions s), r).

Definition accept_new_session (s : t) (network nick did session_id : string)
    : t * result unit E2eError.t :=
  let '(map, r) := record (sessions s) network nick did session_id in
  (mk (first_messages s) map, r).
End ReplayState.
