(* ===== verification/TrustFacts.v ===== *)
(** * Theorems on peer trust *)

From Stdlib Require Import Permutation.
From S2P Require Import Prelude.
From S2P Require Import RustStr.
From S2P Require Import Interfaces.
From S2P Require Import Concrete.
From S2P Require Import Wire.
From S2P Require Import WireFacts.
From S2P Require Import Device.
From S2P Require Import Manage.
From S2P Require Import ListMigration.
From S2P Require Import DeviceFacts.
From S2P Require Import Trust.
From stdpp Require Import options.

Section Trust.
Context {C : Crypto}.

(** ** One list *)

(** The revoked sets after a list of dropped devices. *)
Lemma revoke_all_fields l r :
  let r' := foldl (fun r device => PeerRecord.revoke device r) r l in
  PeerRecord.master r' = PeerRecord.master r /\ PeerRecord.list r' = PeerRecord.list r /\
  PeerRecord.released r' = PeerRecord.released r /\
  PeerRecord.sas_verified r' = PeerRecord.sas_verified r /\
  PeerRecord.key_verified r' = PeerRecord.key_verified r /\
  PeerRecord.curves r' = PeerRecord.curves r /\
  PeerRecord.revoked r' = list_to_set l ∪ PeerRecord.revoked r /\
  PeerRecord.revoked_curves r ⊆ PeerRecord.revoked_curves r'.
Proof.
  revert r. induction l as [|d l IH]; intros r; simpl; [split_and!; set_solver|].
  destruct (IH (PeerRecord.revoke d r)) as (E1 & E2 & E3 & E4 & E5 & E6 & E7 & E8).
  rewrite E1, E2, E3, E4, E5, E6, E7. split_and!; try done.
  - simpl. set_solver.
  - etransitivity; [|exact E8]. simpl. case_match; set_solver.
Qed.

Lemma dropped_spec record version keys previous device :
  device ∈ PeerTrust.dropped record version keys previous <->
  device ∉ keys /\
  (device ∈ previous \/
   exists n, PeerRecord.certified record !! device = Some n /\ (n <= version)%N).
Proof.
  unfold PeerTrust.dropped. rewrite elem_of_app, list_elem_of_filter, list_elem_of_fmap.
  setoid_rewrite list_elem_of_filter. split.
  - intros [[? ?]|([d n] & -> & [? ?] & Hin)]; [eauto|].
    apply elem_of_map_to_list in Hin. simpl. eauto.
  - intros [Hk [?|(n & Hn & Hle)]]; [auto|]. right. exists (device, n). split; [done|].
    by rewrite elem_of_map_to_list.
Qed.

(** The record that an accepted list starts from. *)
Definition start_record (s : PeerTrust.t) (network nick master : string) (r : PeerRecord.t)
    : Prop :=
  match PeerTrust.get s network nick with
  | None => r = PeerRecord.new master
  | Some r0 =>
      if PeerRecord.released r0 then r = PeerRecord.take_master master r0
      else PeerRecord.master r0 = master /\ r = r0
  end.

Definition list_is_clean (r : PeerRecord.t) (keys : list string) : Prop :=
  Forall (fun device =>
    PeerRecord.is_revoked r device (PeerRecord.curves r !! device) = false) keys.

(** Every way [accept_list] can end. *)
Lemma accept_list_cases s network nick master version keys signature :
  let '(s', result) :=
    PeerTrust.accept_list s network nick master version keys signature in
  (exists e, result = Err e /\ s' = s) \/
  (result = Err E2eError.LegacyListOrder /\
   has_legacy_order version keys master signature = true /\
   exists r, PeerTrust.get s network nick = Some r /\ PeerRecord.master r = master /\
     s' = <[peer_key network nick := PeerRecord.set_needs_new_list true r]> s) \/
  (exists r decision list, result = Ok decision /\ start_record s network nick master r /\
     verify_signed_list version keys master signature = Ok tt /\
     list_is_clean r keys /\
     ListState.apply (PeerRecord.list r) version keys = (list, Ok decision) /\
     s' = <[peer_key network nick :=
             let r1 := PeerRecord.set_needs_new_list false (PeerRecord.set_list list r) in
             if decide (decision = Replace)
             then PeerTrust.replaced r1 version keys (ListState.keys (PeerRecord.list r))
             else r1]> s).
Proof.
  unfold PeerTrust.accept_list, start_record. fold (PeerTrust.get s network nick).
  destruct (verify_signed_list version keys master signature) as [[]|e] eqn:Hv.
  - assert (forall r,
      start_record s network nick master r ->
      let '(s', result) :=
        if existsb (fun device =>
             PeerRecord.is_revoked r device (PeerRecord.curves r !! device)) keys
        then (s, Err E2eError.RevokedDevice) else
        let '(list, applied) := ListState.apply (PeerRecord.list r) version keys in
        match applied with
        | Err err => (s, Err err)
        | Ok decision =>
            (<[peer_key network nick :=
                 let r1 := PeerRecord.set_needs_new_list false (PeerRecord.set_list list r) in
                 if decide (decision = Replace)
                 then PeerTrust.replaced r1 version keys (ListState.keys (PeerRecord.list r))
                 else r1]> s, Ok decision)
        end in
      (exists e, result = Err e /\ s' = s) \/
      (exists r decision list, result = Ok decision /\ start_record s network nick master r /\
         list_is_clean r keys /\
         ListState.apply (PeerRecord.list r) version keys = (list, Ok decision) /\
         s' = <[peer_key network nick :=
                 let r1 := PeerRecord.set_needs_new_list false (PeerRecord.set_list list r) in
                 if decide (decision = Replace)
                 then PeerTrust.replaced r1 version keys (ListState.keys (PeerRecord.list r))
                 else r1]> s)) as Hend.
    { intros r Hr. destruct (existsb _ keys) eqn:Hx; [left; eauto|].
      destruct (ListState.apply (PeerRecord.list r) version keys) as [list [decision|e]] eqn:Ha;
        [|left; eauto]. right. exists r, decision, list. split_and!; try done.
      apply Forall_forall. intros d Hd.
      destruct (PeerRecord.is_revoked _ _ _) eqn:E; [|done].
      rewrite <-Hx. symmetry. apply existsb_exists. exists d.
      split; [by apply list_elem_of_In|done]. }
    unfold start_record in Hend.
    destruct (PeerTrust.get s network nick) as [r0|].
    + destruct (PeerRecord.released r0).
      * specialize (Hend _ eq_refl). case_match. naive_solver.
      * case_decide; [|left; eauto]. specialize (Hend r0 ltac:(done)). case_match. naive_solver.
    + specialize (Hend _ eq_refl). case_match. naive_solver.
  - destruct (has_legacy_order version keys master signature) eqn:Hl; [|left; eauto].
    destruct (PeerTrust.get s network nick) as [r|]; [|left; eauto].
    case_decide; [|left; eauto]. right; left. eauto 10.
Qed.

Lemma get_insert s network nick r :
  PeerTrust.get (<[peer_key network nick := r]> s) network nick = Some r.
Proof. unfold PeerTrust.get, PeerTrust.t in *. apply lookup_insert_eq. Qed.

(** What the queries answer for a peer that was just written. *)
Lemma insert_reads s network nick r :
  let s' : PeerTrust.t := <[peer_key network nick := r]> s in
  PeerTrust.master s' network nick =
    (if PeerRecord.released r then None else Some (PeerRecord.master r)) /\
  PeerTrust.needs_new_list s' network nick = PeerRecord.needs_new_list r /\
  PeerTrust.list_version s' network nick = ListState.version (PeerRecord.list r) /\
  PeerTrust.listed_devices s' network nick = ListState.keys (PeerRecord.list r) /\
  forall device curve,
    PeerTrust.is_revoked s' network nick device curve = PeerRecord.is_revoked r device curve.
Proof.
  simpl. unfold PeerTrust.master, PeerTrust.needs_new_list, PeerTrust.list_version,
    PeerTrust.listed_devices, PeerTrust.is_revoked. by rewrite !get_insert.
Qed.

Lemma start_record_fields s network nick master r :
  start_record s network nick master r ->
  PeerRecord.master r = master /\ PeerRecord.released r = false /\
  ListState.keys (PeerRecord.list r) = PeerTrust.listed_devices s network nick /\
  ListState.version (PeerRecord.list r) = PeerTrust.list_version s network nick /\
  (PeerTrust.master s network nick = None \/ PeerTrust.master s network nick = Some master) /\
  (forall device n,
     (exists r0, PeerTrust.get s network nick = Some r0 /\
        PeerRecord.certified r0 !! device = Some n) ->
     PeerRecord.certified r !! device = Some n).
Proof.
  unfold start_record, PeerTrust.listed_devices, PeerTrust.list_version, PeerTrust.master.
  destruct (PeerTrust.get s network nick) as [r0|]; simpl.
  - destruct (PeerRecord.released r0) eqn:Hr.
    + intros ->. simpl. split_and!; auto. intros d n (r1 & [= <-] & H). exact H.
    + intros [<- ->]. split_and!; auto. intros d n (r1 & [= <-] & H). exact H.
  - intros ->. simpl. split_and!; auto. by intros d n (r1 & [=] & _).
Qed.

Lemma is_revoked_none r device :
  PeerRecord.is_revoked r device None = true <-> device ∈ PeerRecord.revoked r.
Proof. unfold PeerRecord.is_revoked. by rewrite orb_false_r, bool_decide_eq_true. Qed.

Lemma is_revoked_weaken r device curve :
  PeerRecord.is_revoked r device curve = false -> device ∉ PeerRecord.revoked r.
Proof.
  unfold PeerRecord.is_revoked. rewrite orb_false_iff, bool_decide_eq_false. naive_solver.
Qed.

(** An accepted list is signed by the master, and the master is the one
    pinned for the peer (or the peer had none). A replaced list is newer than
    the old one and becomes the list of the peer; none of its devices is
    revoked; every device that the old list had, or that a certificate named
    at this version or below, and that the new list lacks, is revoked. A list
    with nothing new changes no list. *)
Theorem accept_list_sound (s s' : PeerTrust.t) (network nick master : string) (version : N)
    (keys : list string) (signature : string) (decision : ListDecision)
    (H : PeerTrust.accept_list s network nick master version keys signature =
         (s', Ok decision)) :
  verify_signed_list version keys master signature = Ok tt /\
  (PeerTrust.master s network nick = None \/ PeerTrust.master s network nick = Some master) /\
  PeerTrust.master s' network nick = Some master /\
  PeerTrust.needs_new_list s' network nick = false /\
  match decision with
  | Replace =>
      (PeerTrust.list_version s network nick < version)%N /\
      PeerTrust.list_version s' network nick = version /\
      PeerTrust.listed_devices s' network nick = keys /\
      (forall device, device ∈ keys ->
         PeerTrust.is_revoked s' network nick device None = false) /\
      (forall device, device ∉ keys ->
         device ∈ PeerTrust.listed_devices s network nick \/
         (exists r n, PeerTrust.get s network nick = Some r /\
            PeerRecord.certified r !! device = Some n /\ (n <= version)%N) ->
         PeerTrust.is_revoked s' network nick device None = true)
  | NoOp =>
      PeerTrust.list_version s' network nick = PeerTrust.list_version s network nick /\
      PeerTrust.listed_devices s' network nick = PeerTrust.listed_devices s network nick /\
      PeerTrust.listed_devices s network nick ≡ₚ keys
  | Ignore => False
  end.
Proof.
  pose proof (accept_list_cases s network nick master version keys signature) as Hc.
  rewrite H in Hc.
  destruct Hc as [(e & He & _)|[(He & _)|(r & d & list & Hd & Hr & Hv & Hclean & Ha & ->)]];
    [discriminate..|]. injection Hd as <-.
  destruct (start_record_fields _ _ _ _ _ Hr) as (Hm & Hrel & Hk & Hver & Hpin & Hcert).
  split; [done|]. split; [done|].
  match goal with |- context [<[peer_key network nick := ?r']> s] =>
    destruct (insert_reads s network nick r') as (-> & -> & -> & -> & Hrev) end.
  pose proof (apply_cases (PeerRecord.list r) version keys) as Hcase. rewrite Ha in Hcase.
  destruct Hcase as [(e & ? & _)|[(Hd & -> & Hev & Hperm)|(Hd & Hst & Hlt & _)]];
    [discriminate|injection Hd as ->..].
  - rewrite decide_False by done. simpl. rewrite Hrel, Hm, <-Hk. done.
  - rewrite decide_True in * by done. unfold PeerTrust.replaced in *.
    set (r1 := PeerRecord.set_needs_new_list false (PeerRecord.set_list list r)) in *.
    set (drop := PeerTrust.dropped r1 version keys (ListState.keys (PeerRecord.list r))) in *.
    destruct (revoke_all_fields drop r1) as (E1 & E2 & E3 & E4 & E5 & E6 & E7 & E8).
    simpl. rewrite E1, E2, E3. simpl. rewrite Hrel, Hm.
    assert (forall l r0, PeerRecord.needs_new_list
              (foldl (fun r d => PeerRecord.revoke d r) r0 l) = PeerRecord.needs_new_list r0)
      as Hneed by (induction l as [|x l IH]; intros; simpl; [done|by rewrite IH]).
    rewrite Hneed. split_and!; try done.
    + by rewrite <-Hver.
    + unfold ListState.version. by rewrite Hst.
    + unfold ListState.keys. by rewrite Hst.
    + intros device Hin. rewrite Hrev.
      destruct (PeerRecord.is_revoked _ device None) eqn:Hx; [|done].
      apply is_revoked_none in Hx. simpl in Hx. rewrite E7 in Hx. exfalso.
      apply elem_of_union in Hx as [Hx|Hx].
      * apply elem_of_list_to_set, dropped_spec in Hx as [? _]. done.
      * apply (Forall_forall _ _) with (x := device) in Hclean; [|done].
        by apply is_revoked_weaken in Hclean.
    + intros device Hout Hold. rewrite Hrev. apply is_revoked_none. simpl. rewrite E7.
      apply elem_of_union_l, elem_of_list_to_set, dropped_spec. split; [done|].
      destruct Hold as [?|(r0 & n & Hr0 & Hn & Hle)]; [left; by rewrite Hk|].
      right. exists n. split; [|done]. simpl. apply Hcert. eauto.
Qed.

(** A refused list changes nothing, with one exception: a list of the
    stored master that is signed over the old key order marks the peer. *)
Theorem accept_list_refused (s s' : PeerTrust.t) (network nick master : string) (version : N)
    (keys : list string) (signature : string) (e : E2eError.t)
    (H : PeerTrust.accept_list s network nick master version keys signature = (s', Err e)) :
  s' = s \/
  e = E2eError.LegacyListOrder /\ has_legacy_order version keys master signature = true /\
  exists r, PeerTrust.get s network nick = Some r /\ PeerRecord.master r = master /\
    s' = <[peer_key network nick := PeerRecord.set_needs_new_list true r]> s.
Proof.
  pose proof (accept_list_cases s network nick master version keys signature) as Hc.
  rewrite H in Hc.
  destruct Hc as [(e' & He & ->)|[(He & Hl & Hr)|(r & d & l & Hd & _)]]; [by left| |discriminate].
  right. injection He as ->. done.
Qed.

(** ** Runs *)

Inductive trust_op :=
| Observe (network nick master : string)
| MarkSas (network nick master : string)
| MarkKey (network nick master : string)
| Release (network nick : string)
| ReplaceByUser (network nick master : string)
| AcceptList (network nick master : string) (version : N) (keys : list string)
    (signature : string)
| RevokeDevice (network nick master ed25519 : string)
| RecordCurve (network nick ed25519 curve25519 : string)
| RecordCertified (network nick ed25519 : string) (n : N).

Definition trust_step (s : PeerTrust.t) (o : trust_op) : PeerTrust.t :=
  match o with
  | Observe n k m => (PeerTrust.observe_master s n k m).1
  | MarkSas n k m => (PeerTrust.mark_sas_verified s n k m).1
  | MarkKey n k m => (PeerTrust.mark_key_verified s n k m).1
  | Release n k => PeerTrust.release_master s n k
  | ReplaceByUser n k m => (PeerTrust.replace_master_by_user s n k m).1
  | AcceptList n k m v keys sig => (PeerTrust.accept_list s n k m v keys sig).1
  | RevokeDevice n k m ed => (PeerTrust.revoke_device s n k m ed).1
  | RecordCurve n k ed cv => (PeerTrust.record_curve s n k ed cv).1
  | RecordCertified n k ed v => (PeerTrust.record_certified s n k ed v).1
  end.

Definition trust_run (s : PeerTrust.t) (ops : list trust_op) : PeerTrust.t :=
  foldl trust_step s ops.

(** The two actions that drop a master, on a peer. *)
Definition replaces (key : string) (o : trust_op) : bool :=
  match o with ReplaceByUser n k _ => bool_decide (peer_key n k = key) | _ => false end.
Definition releases (key : string) (o : trust_op) : bool :=
  match o with Release n k => bool_decide (peer_key n k = key) | _ => false end.

(** What every operation but these two keeps of a record. *)
Record keeps_revoked (r r' : PeerRecord.t) : Prop := {
  kr_revoked : PeerRecord.revoked r ⊆ PeerRecord.revoked r';
  kr_curves : PeerRecord.revoked_curves r ⊆ PeerRecord.revoked_curves r';
}.

Record keeps_master (r r' : PeerRecord.t) : Prop := {
  km_released : PeerRecord.released r = false -> PeerRecord.released r' = false;
  km_master : PeerRecord.released r = false -> PeerRecord.master r' = PeerRecord.master r;
  km_sas : PeerRecord.released r = false -> PeerRecord.sas_verified r = true ->
    PeerRecord.sas_verified r' = true;
  km_key : PeerRecord.released r = false -> PeerRecord.key_verified r = true ->
    PeerRecord.key_verified r' = true;
  km_version : PeerRecord.released r = false ->
    (ListState.version (PeerRecord.list r) <= ListState.version (PeerRecord.list r'))%N;
}.

#[local] Instance keeps_revoked_preorder : PreOrder keeps_revoked.
Proof.
  split; [split; done|]. intros r1 r2 r3 [? ?] [? ?]. split; by etransitivity.
Qed.

#[local] Instance keeps_master_preorder : PreOrder keeps_master.
Proof.
  split; [split; done|]. intros r1 r2 r3 [A1 A2 A3 A4 A5] [B1 B2 B3 B4 B5].
  split; intros Hr; [by auto|by rewrite B2, A2 by auto|by auto|by auto|].
  specialize (A5 Hr). specialize (B5 (A1 Hr)). lia.
Qed.

(** A step writes one record at most, from the one that was there. *)
Definition writes (s s' : PeerTrust.t) (key : string) (P : PeerRecord.t -> PeerRecord.t -> Prop)
    : Prop :=
  s' = s \/ exists r', s' = <[key := r']> s /\ forall r, s !! key = Some r -> P r r'.

Lemma writes_kept (s s' : PeerTrust.t) key P k (r : PeerRecord.t) :
  Reflexive P -> writes s s' key P -> s !! k = Some r ->
  exists r', s' !! k = Some r' /\ P r r'.
Proof.
  unfold writes, PeerTrust.t in *. intros HP [->|(r' & -> & H)] Hk; [by exists r|].
  destruct (decide (k = key)) as [->|Hne].
  - exists r'. rewrite lookup_insert_eq. auto.
  - exists r. by rewrite lookup_insert_ne.
Qed.

Definition keeps_both (r r' : PeerRecord.t) : Prop := keeps_revoked r r' /\ keeps_master r r'.

Lemma accept_list_writes s n k m v keys sig :
  writes s (PeerTrust.accept_list s n k m v keys sig).1 (peer_key n k) keeps_both.
Proof.
  pose proof (accept_list_cases s n k m v keys sig) as Hc.
  destruct (PeerTrust.accept_list s n k m v keys sig) as [s' res]. simpl.
  destruct Hc as [(e & _ & ->)|[(_ & _ & r & Hr & _ & ->)|
    (r & d & list & _ & Hr & _ & _ & Ha & ->)]]; [by left| |]; right.
  - eexists. split; [done|]. intros r0 Hr0. unfold PeerTrust.get in Hr. simplify_eq.
    split; split; done.
  - eexists. split; [done|]. intros r0 Hr0.
    unfold start_record, PeerTrust.get in Hr. rewrite Hr0 in Hr.
    assert (keeps_both r0 r) as [Hrev Hmas].
    { destruct (PeerRecord.released r0) eqn:Hrel.
      - subst r. split; split; simpl; try done; congruence.
      - destruct Hr as [_ ->]. split; reflexivity. }
    set (r1 := PeerRecord.set_needs_new_list false (PeerRecord.set_list list r)).
    assert (keeps_both r r1) as [Hrev1 Hmas1].
    { pose proof (apply_cases (PeerRecord.list r) v keys) as Hcase. rewrite Ha in Hcase.
      split; split; simpl; try done. intros _.
      destruct Hcase as [(e & ? & _)|[(_ & -> & _)|(_ & Hst & Hlt & _)]]; [done|done|].
      unfold ListState.version at 2. rewrite Hst. lia. }
    case_decide; [|split; etransitivity; eauto].
    unfold PeerTrust.replaced.
    set (drop := PeerTrust.dropped r1 v keys (ListState.keys (PeerRecord.list r))).
    destruct (revoke_all_fields drop r1) as (E1 & E2 & E3 & E4 & E5 & E6 & E7 & E8).
    split.
    + transitivity r; [done|]. transitivity r1; [done|]. split; simpl; [|exact E8].
      rewrite E7. set_solver.
    + transitivity r; [done|]. transitivity r1; [done|].
      split; simpl; rewrite ?E1, ?E2, ?E3, ?E4, ?E5; auto.
Qed.

Lemma step_writes s o key :
  replaces key o = false -> releases key o = false ->
  exists key', writes s (trust_step s o) key' (fun r r' => key' = key -> keeps_both r r').
Proof.
  assert (forall k s, writes s s k (fun r r' => k = key -> keeps_both r r')) as Hsame
    by (intros; by left).
  assert (forall k r r' s, PeerTrust.get s k.1 k.2 = Some r -> keeps_both r r' ->
    writes s (<[peer_key k.1 k.2 := r']> s) (peer_key k.1 k.2)
      (fun r r' => peer_key k.1 k.2 = key -> keeps_both r r')) as Hone.
  { intros k r r' s0 Hget Hk. right. exists r'. split; [done|].
    intros r0 Hr0 _. unfold PeerTrust.get in Hget. by simplify_eq. }
  destruct o as [n k m|n k m|n k m|n k|n k m|n k m v keys sig|n k m ed|n k ed cv|n k ed v];
    simpl; intros Hrep Hrel; exists (peer_key n k).
  - unfold PeerTrust.observe_master. case_match; [|apply Hsame].
    fold (PeerTrust.get s n k). destruct (PeerTrust.get s n k) as [r|] eqn:Hg.
    + case_match; simpl; [|case_decide; apply Hsame].
      apply (Hone (n, k) r); [done|]. split; split; simpl; try done; congruence.
    + right. eexists. split; [done|]. intros r Hr. unfold PeerTrust.get in Hg. congruence.
  - unfold PeerTrust.mark_sas_verified. destruct (PeerTrust.get s n k) as [r|] eqn:Hg; [|apply Hsame].
    case_match; simpl; [|apply Hsame]. apply (Hone (n, k) r); [done|]. split; split; done.
  - unfold PeerTrust.mark_key_verified. destruct (PeerTrust.get s n k) as [r|] eqn:Hg; [|apply Hsame].
    case_match; simpl; [|apply Hsame]. apply (Hone (n, k) r); [done|]. split; split; done.
  - unfold PeerTrust.release_master. destruct (PeerTrust.get s n k) as [r|] eqn:Hg; [|apply Hsame].
    right. eexists. split; [done|]. intros r0 _ He. by apply bool_decide_eq_false in Hrel.
  - unfold PeerTrust.replace_master_by_user. case_match; [|apply Hsame].
    right. eexists. split; [done|]. intros r0 _ He. by apply bool_decide_eq_false in Hrep.
  - destruct (accept_list_writes s n k m v keys sig) as [->|(r' & -> & H)]; [apply Hsame|].
    right. eexists. split; [done|]. intros r Hr _. by apply H.
  - unfold PeerTrust.revoke_device. repeat (case_match; [|apply Hsame]).
    right. eexists. split; [done|]. intros r Hr _. unfold PeerTrust.get. rewrite Hr. simpl.
    split; split; simpl; try done; [set_solver|]. case_match; set_solver.
  - unfold PeerTrust.record_curve. repeat (case_match; [|apply Hsame]). simpl.
    eapply (Hone (n, k)); [done|]. case_decide; split; split; simpl; try done. set_solver.
  - unfold PeerTrust.record_certified. case_match; [|apply Hsame].
    eapply (Hone (n, k)); [done|]. split; split; done.
Qed.

Lemma step_keeps s o key r :
  s !! key = Some r -> replaces key o = false -> releases key o = false ->
  exists r', trust_step s o !! key = Some r' /\ keeps_both r r'.
Proof.
  intros Hr Hrep Hrel. destruct (step_writes s o key Hrep Hrel) as [key' Hw].
  unfold writes, PeerTrust.t in *. destruct Hw as [->|(r' & -> & H)].
  - exists r. split; [done|]. split; reflexivity.
  - destruct (decide (key' = key)) as [->|Hne].
    + exists r'. rewrite lookup_insert_eq. auto.
    + exists r. rewrite lookup_insert_ne by done. split; [done|]. split; reflexivity.
Qed.

Lemma release_keeps s o key r :
  s !! key = Some r -> releases key o = true ->
  exists r', trust_step s o !! key = Some r' /\ keeps_revoked r r'.
Proof.
  destruct o; simpl; try done. intros Hr He. apply bool_decide_eq_true in He.
  unfold PeerTrust.release_master, PeerTrust.get. rewrite He, Hr.
  eexists. unfold PeerTrust.t in *. rewrite lookup_insert_eq. split; [done|]. by split.
Qed.

(** C8. Revocation is retained: once a device or its curve key is revoked for
    a peer, it stays revoked whatever happens next (lists, SAS checks, a
    released master, other peers), until the user replaces the master of that
    peer. *)
Theorem revocation_retained (s : PeerTrust.t) (ops : list trust_op) (network nick : string)
    (device : string) (curve : option string)
    (Hops : forallb (fun o => negb (replaces (peer_key network nick) o)) ops = true)
    (Hrev : PeerTrust.is_revoked s network nick device curve = true) :
  PeerTrust.is_revoked (trust_run s ops) network nick device curve = true.
Proof.
  revert s Hrev. unfold trust_run. induction ops as [|o ops IH]; intros s Hrev; [done|]. simpl in *.
  apply andb_prop in Hops as [Ho Hops]. apply negb_true_iff in Ho. apply IH; [done|].
  clear IH Hops. unfold PeerTrust.is_revoked, PeerTrust.get in *.
  destruct (s !! peer_key network nick) as [r|] eqn:Hr; [|done].
  assert (exists r', trust_step s o !! peer_key network nick = Some r' /\ keeps_revoked r r')
    as (r' & -> & [H1 H2]).
  { destruct (releases (peer_key network nick) o) eqn:Hrel.
    - by apply release_keeps.
    - destruct (step_keeps s o _ r Hr Ho Hrel) as (r' & ? & [? _]). eauto. }
  unfold PeerRecord.is_revoked in *. apply orb_true_iff in Hrev. apply orb_true_iff.
  destruct Hrev as [Hrev|Hrev].
  - left. apply bool_decide_eq_true in Hrev. apply bool_decide_eq_true. set_solver.
  - right. destruct curve; [|done]. apply bool_decide_eq_true in Hrev.
    apply bool_decide_eq_true. set_solver.
Qed.

(** A device that the user revokes is revoked at once, with the curve key
    that the peer used with it; the list that is held stays as it was, so it
    still names the device until the peer publishes a new one. A known peer
    keeps its master, and the other peers are untouched. *)
Theorem revoke_device_exact (s s' : PeerTrust.t) (network nick master device : string)
    (H : PeerTrust.revoke_device s network nick master device = (s', Ok tt)) :
  PeerTrust.is_revoked s' network nick device None = true /\
  (forall r curve other, PeerTrust.get s network nick = Some r ->
     PeerRecord.curves r !! device = Some curve ->
     PeerTrust.is_revoked s' network nick other (Some curve) = true) /\
  PeerTrust.listed_devices s' network nick = PeerTrust.listed_devices s network nick /\
  PeerTrust.list_version s' network nick = PeerTrust.list_version s network nick /\
  PeerTrust.master s' network nick =
    match PeerTrust.get s network nick with
    | Some _ => PeerTrust.master s network nick
    | None => Some master
    end /\
  (forall n k, peer_key n k <> peer_key network nick ->
     PeerTrust.get s' n k = PeerTrust.get s n k).
Proof.
  unfold PeerTrust.revoke_device in H.
  destruct (decode_key master), (decode_key device); simplify_eq/=.
  unfold PeerTrust.is_revoked, PeerTrust.listed_devices, PeerTrust.list_version,
    PeerTrust.master, PeerTrust.get, PeerTrust.t in *.
  rewrite lookup_insert_eq.
  destruct (s !! peer_key network nick) as [r|]; simpl.
  - unfold PeerRecord.is_revoked. repeat split; try done.
    + apply orb_true_intro. left. apply bool_decide_eq_true. set_solver.
    + intros ? curve other [= <-] Hc. simpl. rewrite Hc. apply orb_true_intro. right.
      apply bool_decide_eq_true. set_solver.
    + intros n k Hne. by rewrite lookup_insert_ne.
  - unfold PeerRecord.is_revoked. repeat split; try done.
    + apply orb_true_intro. left. apply bool_decide_eq_true. set_solver.
    + intros n k Hne. by rewrite lookup_insert_ne.
Qed.

(** C37. A master stays pinned: without a user action on that peer (a replaced
    or released master), no sequence of operations changes the master of a
    peer, lowers the version of its list or drops one of its two checks. *)
Theorem master_pinned (s : PeerTrust.t) (ops : list trust_op) (network nick master : string)
    (Hops : forallb (fun o => negb (replaces (peer_key network nick) o)
                              && negb (releases (peer_key network nick) o)) ops = true)
    (Hm : PeerTrust.master s network nick = Some master) :
  PeerTrust.master (trust_run s ops) network nick = Some master /\
  (PeerTrust.list_version s network nick <=
     PeerTrust.list_version (trust_run s ops) network nick)%N /\
  (PeerTrust.is_sas_verified s network nick = true ->
     PeerTrust.is_sas_verified (trust_run s ops) network nick = true) /\
  (PeerTrust.is_key_verified s network nick = true ->
     PeerTrust.is_key_verified (trust_run s ops) network nick = true).
Proof.
  unfold PeerTrust.master, PeerTrust.get in Hm.
  destruct (s !! peer_key network nick) as [r|] eqn:Hr; [|done]. simpl in Hm.
  destruct (PeerRecord.released r) eqn:Hrel; [done|]. injection Hm as Hm.
  assert (exists r', trust_run s ops !! peer_key network nick = Some r' /\ keeps_master r r')
    as (r' & Hr' & [K1 K2 K3 K4 K5]).
  { clear Hm Hrel. revert s r Hr. unfold trust_run.
    induction ops as [|o ops IH]; intros s r Hr; [exists r; split; [done|reflexivity]|].
    simpl in *. apply andb_prop in Hops as [[Ho1 Ho2]%andb_prop Hops].
    apply negb_true_iff in Ho1, Ho2.
    destruct (step_keeps s o _ r Hr Ho1 Ho2) as (r1 & Hr1 & [_ Hk1]).
    destruct (IH Hops _ _ Hr1) as (r2 & Hr2 & Hk2). exists r2. split; [done|].
    by transitivity r1. }
  unfold PeerTrust.master, PeerTrust.list_version, PeerTrust.is_sas_verified,
    PeerTrust.is_key_verified, PeerTrust.get. rewrite Hr, Hr'. simpl.
  rewrite (K1 Hrel), (K2 Hrel), Hrel, Hm. simpl. auto 10.
Qed.
End Trust.

(** ** Concrete runs *)

Definition sample_list (version : N) (keys : list N) : SignedList.t :=
  let keys := sample_key <$> keys in
  SignedList.mk version keys
    (sample_sign 1 (list_text version (merge_sort String.le keys))).

Definition accept_sample (s : PeerTrust.t) (l : SignedList.t) :=
  PeerTrust.accept_list s "azzurra" "luna" (sample_key 1) (SignedList.version l)
    (SignedList.keys l) (SignedList.signature l).

(** Two devices, then one of them. *)
Definition two_devices : PeerTrust.t := (accept_sample ∅ (sample_list 1 [5; 6]%N)).1.
Definition one_device : PeerTrust.t := (accept_sample two_devices (sample_list 2 [5]%N)).1.

Lemma accept_list_sound_witness :
  let s' := one_device in
  verify_signed_list 2 [sample_key 5] (sample_key 1)
    (SignedList.signature (sample_list 2 [5]%N)) = Ok tt /\
  (PeerTrust.master two_devices "azzurra" "luna" = None \/
   PeerTrust.master two_devices "azzurra" "luna" = Some (sample_key 1)) /\
  PeerTrust.master s' "azzurra" "luna" = Some (sample_key 1) /\
  PeerTrust.needs_new_list s' "azzurra" "luna" = false /\
  (PeerTrust.list_version two_devices "azzurra" "luna" < 2)%N /\
  PeerTrust.list_version s' "azzurra" "luna" = 2%N /\
  PeerTrust.listed_devices s' "azzurra" "luna" = [sample_key 5] /\
  (forall device, device ∈ [sample_key 5] ->
     PeerTrust.is_revoked s' "azzurra" "luna" device None = false) /\
  (forall device, device ∉ [sample_key 5] ->
     device ∈ PeerTrust.listed_devices two_devices "azzurra" "luna" \/
     (exists r n, PeerTrust.get two_devices "azzurra" "luna" = Some r /\
        PeerRecord.certified r !! device = Some n /\ (n <= 2)%N) ->
     PeerTrust.is_revoked s' "azzurra" "luna" device None = true).
Proof.
  apply (accept_list_sound two_devices one_device "azzurra" "luna" (sample_key 1) 2
    [sample_key 5] (SignedList.signature (sample_list 2 [5]%N)) Replace).
  vm_compute. reflexivity.
Defined.

(** The old list again. *)
Lemma accept_list_refused_witness :
  let '(s', r) := accept_sample one_device (sample_list 1 [5; 6]%N) in
  r = Err E2eError.RevokedDevice /\
  (s' = one_device \/
   E2eError.RevokedDevice = E2eError.LegacyListOrder /\
   has_legacy_order 1 [sample_key 5; sample_key 6] (sample_key 1)
     (SignedList.signature (sample_list 1 [5; 6]%N)) = true /\
   exists r, PeerTrust.get one_device "azzurra" "luna" = Some r /\
     PeerRecord.master r = sample_key 1 /\
     s' = <[peer_key "azzurra" "luna" := PeerRecord.set_needs_new_list true r]> one_device).
Proof.
  destruct (accept_sample one_device (sample_list 1 [5; 6]%N)) as [s' r] eqn:E.
  assert (r = Err E2eError.RevokedDevice) as ->.
  { change r with (s', r).2. rewrite <-E. vm_compute. reflexivity. }
  split; [reflexivity|]. apply (accept_list_refused one_device s' "azzurra" "luna"
    (sample_key 1) 1 [sample_key 5; sample_key 6]
    (SignedList.signature (sample_list 1 [5; 6]%N)) E2eError.RevokedDevice).
  exact E.
Defined.

Lemma revocation_retained_witness :
  PeerTrust.is_revoked
    (trust_run one_device
       [Release "azzurra" "luna"; Observe "azzurra" "luna" (sample_key 2);
        AcceptList "azzurra" "luna" (sample_key 1) 1 [sample_key 5; sample_key 6]
          (SignedList.signature (sample_list 1 [5; 6]%N))])
    "azzurra" "luna" (sample_key 6) None = true.
Proof.
  apply revocation_retained.
  - vm_compute. reflexivity.
  - vm_compute. reflexivity.
Defined.

Lemma master_pinned_witness :
  let s' := trust_run two_devices
       [Observe "azzurra" "luna" (sample_key 2);
        MarkSas "azzurra" "luna" (sample_key 2);
        ReplaceByUser "azzurra" "sole" (sample_key 3);
        AcceptList "azzurra" "luna" (sample_key 1) 2 [sample_key 5]
          (SignedList.signature (sample_list 2 [5]%N))] in
  PeerTrust.master s' "azzurra" "luna" = Some (sample_key 1) /\
  (PeerTrust.list_version two_devices "azzurra" "luna" <=
     PeerTrust.list_version s' "azzurra" "luna")%N /\
  (PeerTrust.is_sas_verified two_devices "azzurra" "luna" = true ->
     PeerTrust.is_sas_verified s' "azzurra" "luna" = true) /\
  (PeerTrust.is_key_verified two_devices "azzurra" "luna" = true ->
     PeerTrust.is_key_verified s' "azzurra" "luna" = true).
Proof.
  apply master_pinned.
  - vm_compute. reflexivity.
  - vm_compute. reflexivity.
Defined.

Lemma revoke_device_exact_witness :
  let s := trust_run two_devices
             [RevokeDevice "azzurra" "luna" (sample_key 1) (sample_key 6)] in
  PeerTrust.is_revoked s "azzurra" "luna" (sample_key 6) None = true /\
  PeerTrust.listed_devices s "azzurra" "luna" =
    PeerTrust.listed_devices two_devices "azzurra" "luna" /\
  sample_key 6 ∈ PeerTrust.listed_devices two_devices "azzurra" "luna".
Proof.
  set (s := (PeerTrust.revoke_device two_devices "azzurra" "luna" (sample_key 1)
               (sample_key 6)).1).
  change (trust_run two_devices
            [RevokeDevice "azzurra" "luna" (sample_key 1) (sample_key 6)]) with s.
  destruct (revoke_device_exact two_devices s "azzurra" "luna" (sample_key 1) (sample_key 6))
    as (H1 & _ & H2 & _); [vm_compute; reflexivity|].
  split_and!; [exact H1|exact H2|]. apply contains_spec. vm_compute. reflexivity.
Defined.
