(* ===== verification/PeerFacts.v ===== *)
(** * Theorems on remote devices and replay *)

From S2P Require Import Prelude.
From S2P Require Import RustStr.
From S2P Require Import Interfaces.
From S2P Require Import Concrete.
From S2P Require Import Wire.
From S2P Require Import WireFacts.
From S2P Require Import Device.
From S2P Require Import Manage.
From S2P Require Import ListMigration.
From S2P Require Import DeviceFacts.
From S2P Require Import Trust.
From S2P Require Import TrustFacts.
From S2P Require Import Peer.
From stdpp Require Import options.

Section Doors.
Context {C : Crypto}.

Lemma record_curve_ok s network nick ed curve s' b :
  PeerTrust.record_curve s network nick ed curve = (s', Ok b) ->
  PeerTrust.master s' network nick = PeerTrust.master s network nick /\
  PeerTrust.list_version s' network nick = PeerTrust.list_version s network nick /\
  PeerTrust.listed_devices s' network nick = PeerTrust.listed_devices s network nick /\
  (PeerTrust.is_revoked s network nick ed (Some curve) = false ->
   PeerTrust.is_revoked s' network nick ed (Some curve) = false).
Proof.
  unfold PeerTrust.record_curve. case_match; [|done]. case_match; [|done].
  destruct (PeerTrust.get s network nick) as [r|] eqn:Hr; [|intros [= <- _]; done].
  intros [= <- _]. match goal with |- context [<[peer_key network nick := ?r']> s] =>
    destruct (insert_reads s network nick r') as (-> & _ & -> & -> & Hrev) end.
  rewrite Hrev. unfold PeerTrust.master, PeerTrust.list_version, PeerTrust.listed_devices,
    PeerTrust.is_revoked. rewrite Hr. simpl.
  case_decide as Hin; simpl; split_and!; try done.
  intros Hf. exfalso. apply orb_false_iff in Hf as [Hf _].
  apply bool_decide_eq_false in Hf. by apply Hf.
Qed.

Lemma observe_master_same s network nick master s' :
  PeerTrust.observe_master s network nick master = (s', Ok Same) ->
  s' = s /\ PeerTrust.master s network nick = Some master.
Proof.
  unfold PeerTrust.observe_master, PeerTrust.master, PeerTrust.get. case_match; [|done].
  destruct (s !! peer_key network nick) as [r|]; [|done].
  destruct (PeerRecord.released r) eqn:Hr; [done|]. case_decide; [|done].
  intros [= <-]. simpl. rewrite Hr. by subst.
Qed.

(** What an observed master leaves: the peer has it, and had it or none. *)
Lemma observe_master_pins s network nick master s' status :
  PeerTrust.observe_master s network nick master = (s', Ok status) -> status <> Changed ->
  PeerTrust.master s' network nick = Some master /\
  (PeerTrust.master s network nick = None \/ PeerTrust.master s network nick = Some master) /\
  PeerTrust.list_version s' network nick = PeerTrust.list_version s network nick /\
  PeerTrust.listed_devices s' network nick = PeerTrust.listed_devices s network nick /\
  (forall d c, PeerTrust.is_revoked s' network nick d c = PeerTrust.is_revoked s network nick d c).
Proof.
  unfold PeerTrust.observe_master. case_match; [|done].
  fold (PeerTrust.get s network nick).
  destruct (PeerTrust.get s network nick) as [r|] eqn:Hr.
  - destruct (PeerRecord.released r) eqn:Hrel.
    + intros [= <- <-] _. match goal with |- context [<[peer_key network nick := ?r']> s] =>
        destruct (insert_reads s network nick r') as (-> & _ & -> & -> & Hrev) end.
      unfold PeerTrust.master, PeerTrust.list_version, PeerTrust.listed_devices.
      rewrite Hr. simpl. rewrite Hrel. split_and!; auto.
      intros. rewrite Hrev. unfold PeerTrust.is_revoked. by rewrite Hr.
    + case_decide; intros [= <- <-]; [intros _|done].
      unfold PeerTrust.master, PeerTrust.list_version, PeerTrust.listed_devices.
      rewrite Hr. simpl. rewrite Hrel. subst. split_and!; auto.
  - intros [= <- <-] _. match goal with |- context [<[peer_key network nick := ?r']> s] =>
      destruct (insert_reads s network nick r') as (-> & _ & -> & -> & Hrev) end.
    unfold PeerTrust.master, PeerTrust.list_version, PeerTrust.listed_devices.
    rewrite Hr. simpl. split_and!; auto.
    intros d c. rewrite Hrev. unfold PeerTrust.is_revoked, PeerRecord.is_revoked.
    rewrite Hr. simpl. rewrite bool_decide_false by set_solver.
    destruct c; [|done]. by rewrite bool_decide_false by set_solver.
Qed.

(** The facts of an accepted list that a door needs. *)
Lemma accept_list_pins s s' network nick master version keys signature d :
  PeerTrust.accept_list s network nick master version keys signature = (s', Ok d) ->
  verify_signed_list version keys master signature = Ok tt /\
  PeerTrust.master s' network nick = Some master.
Proof.
  intros H. pose proof (accept_list_cases s network nick master version keys signature) as Hc.
  rewrite H in Hc.
  destruct Hc as [(e & He & _)|[(He & _)|(r & d' & list & Hd & Hr & Hv & _ & Ha & ->)]];
    [discriminate..|]. split; [done|].
  destruct (start_record_fields _ _ _ _ _ Hr) as (Hm & Hrel & _).
  match goal with |- context [<[peer_key network nick := ?r']> s] =>
    destruct (insert_reads s network nick r') as (-> & _) end.
  case_decide; [|simpl; by rewrite Hrel, Hm].
  unfold PeerTrust.replaced. simpl.
  destruct (revoke_all_fields (PeerTrust.dropped
    (PeerRecord.set_needs_new_list false (PeerRecord.set_list list r)) version keys
    (ListState.keys (PeerRecord.list r)))
    (PeerRecord.set_needs_new_list false (PeerRecord.set_list list r)))
    as (E1 & _ & E3 & _). rewrite E1, E3. simpl. by rewrite Hrel, Hm.
Qed.

Lemma check_id_block_ok master device curve sig u :
  check_id_block master device curve sig = Ok u <->
  (exists raw, decode_key curve = Ok raw) /\
  verify_signature device sig (device_id_signed_text curve master) = Ok u.
Proof.
  unfold check_id_block. rewrite rbind_ok. setoid_rewrite wire_ok. naive_solver.
Qed.

Lemma verify_peer_device_ok trust trust' network nick server_keys b d
    (H : verify_peer_device trust network nick server_keys b = (trust', Ok d)) :
  verify_signed_list (PeerBundle.list_version b) (PeerBundle.list_keys b)
    (PeerBundle.master b) (PeerBundle.list_signature b) = Ok tt /\
  PeerBundle.device_ed25519 b ∈ PeerBundle.list_keys b /\
  (forall keys, server_keys = Some keys -> PeerBundle.device_ed25519 b ∈ keys) /\
  verify_signature (PeerBundle.device_ed25519 b) (PeerBundle.id_signature b)
    (device_id_signed_text (PeerBundle.curve25519 b) (PeerBundle.master b)) = Ok tt /\
  did_from_key_text (PeerBundle.device_ed25519 b) = Ok (PeerDevice.did d) /\
  PeerDevice.curve25519 d = PeerBundle.curve25519 b /\
  PeerDevice.ed25519 d = PeerBundle.device_ed25519 b /\
  PeerTrust.is_revoked trust' network nick (PeerBundle.device_ed25519 b)
    (Some (PeerBundle.curve25519 b)) = false /\
  (PeerTrust.master trust network nick = None \/
   PeerTrust.master trust network nick = Some (PeerBundle.master b)) /\
  PeerTrust.master trust' network nick = Some (PeerBundle.master b).
Proof.
  unfold verify_peer_device in H.
  destruct (PeerTrust.observe_master trust network nick (PeerBundle.master b))
    as [next [status|e]] eqn:Ho; [|discriminate].
  destruct (decide (status = Changed)) as [|Hs]; [discriminate|].
  destruct (PeerTrust.accept_list next network nick _ _ _ _) as [next2 [decision|e]] eqn:Ha;
    [|discriminate].
  destruct (check_listed_device next2 network nick server_keys b) as [did|e] eqn:Hd;
    [|discriminate].
  destruct (PeerTrust.record_curve next2 network nick _ _) as [next3 [r|e]] eqn:Hr;
    [|discriminate].
  injection H as <- <-. simpl.
  destruct (observe_master_pins _ _ _ _ _ _ Ho Hs) as (_ & Hpin & _).
  destruct (accept_list_pins _ _ _ _ _ _ _ _ _ Ha) as [Hv Hm].
  destruct (record_curve_ok _ _ _ _ _ _ _ Hr) as (Hm3 & _ & _ & Hrev3).
  unfold check_listed_device in Hd. apply rbind_ok in Hd as (did' & Hdid & Hd).
  apply wire_ok in Hdid.
  destruct (PeerTrust.is_revoked next2 network nick _ _) eqn:Hrev; [discriminate|].
  destruct (contains (PeerBundle.list_keys b) _) eqn:Hl; [|discriminate].
  destruct (match server_keys with Some keys => contains keys _ | None => true end) eqn:Hserver;
    [|discriminate]. simpl in Hd.
  apply rbind_ok in Hd as ([] & Hid & Hd). injection Hd as ->.
  apply check_id_block_ok in Hid as [_ Hid]. apply contains_spec in Hl.
  split_and!; auto.
  - intros keys ->. by apply contains_spec.
  - by rewrite Hm3.
Qed.

(** C9. A device of a KEYS answer is used only when the whole chain holds: the
    list is signed by the master, the device is in the list (and in the list
    of the server when there is one), the device signed its curve key with
    this master, its [did] is the one of its key, neither key is revoked, and
    the master is the pinned one or the first of the peer. *)
Theorem verify_peer_device_sound (trust trust' : PeerTrust.t) (network nick : string)
    (server_keys : option (list string)) (b : PeerBundle.t) (d : PeerDevice.t)
    (H : verify_peer_device trust network nick server_keys b = (trust', Ok d)) :
  verify_signed_list (PeerBundle.list_version b) (PeerBundle.list_keys b)
    (PeerBundle.master b) (PeerBundle.list_signature b) = Ok tt /\
  PeerBundle.device_ed25519 b ∈ PeerBundle.list_keys b /\
  (forall keys, server_keys = Some keys -> PeerBundle.device_ed25519 b ∈ keys) /\
  verify_signature (PeerBundle.device_ed25519 b) (PeerBundle.id_signature b)
    (device_id_signed_text (PeerBundle.curve25519 b) (PeerBundle.master b)) = Ok tt /\
  did_from_key_text (PeerBundle.device_ed25519 b) = Ok (PeerDevice.did d) /\
  PeerDevice.curve25519 d = PeerBundle.curve25519 b /\
  PeerDevice.ed25519 d = PeerBundle.device_ed25519 b /\
  PeerTrust.is_revoked trust' network nick (PeerBundle.device_ed25519 b)
    (Some (PeerBundle.curve25519 b)) = false /\
  (PeerTrust.master trust network nick = None \/
   PeerTrust.master trust network nick = Some (PeerBundle.master b)) /\
  PeerTrust.master trust' network nick = Some (PeerBundle.master b).
Proof. by apply verify_peer_device_ok. Qed.

(** A refused device changes the trust only by the word of the pinned
    master: either nothing changes, or the master was pinned already and the
    state is the one after its list, which was applied (its revocations stay)
    or only marked as old-order. *)
Theorem verify_peer_device_refused (trust trust' : PeerTrust.t) (network nick : string)
    (server_keys : option (list string)) (b : PeerBundle.t) (e : E2eError.t)
    (H : verify_peer_device trust network nick server_keys b = (trust', Err e)) :
  trust' = trust \/
  PeerTrust.master trust network nick = Some (PeerBundle.master b) /\
  exists result,
    PeerTrust.accept_list trust network nick (PeerBundle.master b)
      (PeerBundle.list_version b) (PeerBundle.list_keys b) (PeerBundle.list_signature b) =
      (trust', result) /\
    (result = Ok Replace \/ result = Err E2eError.LegacyListOrder).
Proof.
  unfold verify_peer_device in H.
  destruct (PeerTrust.observe_master trust network nick (PeerBundle.master b))
    as [next [status|e0]] eqn:Ho; [|left; congruence].
  destruct (decide (status = Changed)) as [|Hs]; [left; congruence|].
  destruct (PeerTrust.accept_list next network nick _ _ _ _) as [next2 accepted] eqn:Ha.
  assert (status = Same -> next = trust /\
            PeerTrust.master trust network nick = Some (PeerBundle.master b)) as Hsame
    by (intros ->; by apply observe_master_same).
  destruct accepted as [decision|e'].
  - destruct (check_listed_device next2 network nick server_keys b) as [did|e1].
    + destruct (PeerTrust.record_curve _ _ _ _ _) as [? [?|?]]; [discriminate|left; congruence].
    + injection H as H _. destruct (keep_list status decision) eqn:Hk; [|by left].
      apply andb_prop in Hk as [Hk1%bool_decide_eq_true Hk2%bool_decide_eq_true].
      destruct (Hsame Hk1) as [-> Hm]. right. split; [done|].
      exists (Ok decision). rewrite <-H. split; [done|]. left. congruence.
  - injection H as H _. destruct (keep_marker status e') eqn:Hk; [|by left].
    apply andb_prop in Hk as [Hk1%bool_decide_eq_true Hk2%bool_decide_eq_true].
    destruct (Hsame Hk1) as [-> Hm]. right. split; [done|].
    exists (Err e'). rewrite <-H. split; [done|]. right. congruence.
Qed.

Lemma record_certified_fields s network nick device n m :
  PeerTrust.master s network nick = Some m ->
  let s' := (PeerTrust.record_certified s network nick device n).1 in
  PeerTrust.master s' network nick = Some m /\
  (forall d c, PeerTrust.is_revoked s' network nick d c = PeerTrust.is_revoked s network nick d c) /\
  exists record, PeerTrust.get s' network nick = Some record /\
    PeerRecord.certified record !! device = Some n.
Proof.
  unfold PeerTrust.record_certified, PeerTrust.master at 1.
  destruct (PeerTrust.get s network nick) as [r|] eqn:Hr; [|done]. simpl. intros Hm.
  match goal with |- context [<[peer_key network nick := ?r']> s] =>
    destruct (insert_reads s network nick r') as (-> & _ & _ & _ & Hrev) end.
  split; [done|]. split.
  - intros d c. rewrite Hrev. unfold PeerTrust.is_revoked. by rewrite Hr.
  - eexists. rewrite get_insert. split; [done|]. simpl. apply lookup_insert_eq.
Qed.

Lemma record_curve_certified s network nick ed curve s' b record :
  PeerTrust.record_curve s network nick ed curve = (s', Ok b) ->
  PeerTrust.get s network nick = Some record ->
  exists record', PeerTrust.get s' network nick = Some record' /\
    PeerRecord.certified record' = PeerRecord.certified record.
Proof.
  unfold PeerTrust.record_curve. case_match; [|done]. case_match; [|done].
  intros Hs Hr. rewrite Hr in Hs. injection Hs as <- _.
  eexists. rewrite get_insert. split; [done|]. by case_decide.
Qed.

(** A first message never half-changes the trust: a refused device leaves
    it as it was. An accepted device signed its curve key with the master, the
    master certified it with a version, it is not revoked, and it is in the
    stored list, or the stored list is older than the certificate; in this
    case the certificate is remembered. *)
Theorem verify_certified_device_exact (trust trust' : PeerTrust.t) (network nick : string)
    (b : CertifiedBundle.t) (r : result PeerDevice.t E2eError.t)
    (H : verify_certified_device trust network nick b = (trust', r)) :
  let master := CertifiedBundle.master b in
  let device := CertifiedBundle.device_ed25519 b in
  let curve := CertifiedBundle.curve25519 b in
  let version := CertifiedBundle.certificate_version b in
  match r with
  | Err _ => trust' = trust
  | Ok d =>
      verify_signature device (CertifiedBundle.id_signature b)
        (device_id_signed_text curve master) = Ok tt /\
      verify_device_certificate
        (VersionedDeviceCertificate.mk version device master
           (CertifiedBundle.certificate_signature b)) [master] = Ok tt /\
      did_from_key_text device = Ok (PeerDevice.did d) /\
      PeerDevice.curve25519 d = curve /\ PeerDevice.ed25519 d = device /\
      PeerTrust.is_revoked trust network nick device (Some curve) = false /\
      PeerTrust.is_revoked trust' network nick device (Some curve) = false /\
      (PeerTrust.master trust network nick = None \/
       PeerTrust.master trust network nick = Some master) /\
      PeerTrust.master trust' network nick = Some master /\
      (device ∈ PeerTrust.listed_devices trust network nick \/
       (PeerTrust.list_version trust network nick < version)%N /\
       exists record, PeerTrust.get trust' network nick = Some record /\
         PeerRecord.certified record !! device = Some version)
  end.
Proof.
  simpl. unfold verify_certified_device in H.
  destruct (certified_steps trust network nick b) as [[next d]|e] eqn:Hs;
    injection H as <- <-; [|done].
  unfold certified_steps in Hs.
  destruct (PeerTrust.observe_master trust network nick _) as [next1 observed] eqn:Ho.
  apply rbind_ok in Hs as (status & -> & Hs).
  destruct (decide (status = Changed)) as [|Hst]; [discriminate|].
  destruct (observe_master_pins _ _ _ _ _ _ Ho Hst) as (Hm1 & Hpin & Hv1 & Hl1 & Hr1).
  apply rbind_ok in Hs as (did & Hdid & Hs). apply wire_ok in Hdid.
  apply rbind_ok in Hs as ([] & Hid & Hs). apply check_id_block_ok in Hid as [_ Hid].
  apply rbind_ok in Hs as ([] & Hcert & Hs).
  destruct (PeerTrust.is_revoked next1 network nick _ _) eqn:Hrev; [discriminate|].
  rewrite Hl1, Hv1 in Hs.
  destruct (contains (PeerTrust.listed_devices trust network nick) _) eqn:Hin; cbn [negb andb] in Hs.
  - destruct (PeerTrust.record_curve next1 network nick _ _) as [next3 rec] eqn:Hc.
    apply rbind_ok in Hs as (bl & -> & Hs). injection Hs as <- <-. simpl.
    destruct (record_curve_ok _ _ _ _ _ _ _ Hc) as (Hm3 & _ & _ & Hrev3).
    rewrite Hr1 in Hrev. apply contains_spec in Hin. rewrite Hm3. rewrite Hr1 in Hrev3.
    split_and!; auto.
  - destruct (_ <=? _)%N eqn:Hle in Hs; [discriminate|]. apply N.leb_gt in Hle.
    destruct (record_certified_fields next1 network nick (CertifiedBundle.device_ed25519 b)
      (CertifiedBundle.certificate_version b) _ Hm1) as (Hm2 & Hrev2 & record & Hget & Hrec).
    destruct (PeerTrust.record_curve _ network nick _ _) as [next3 rec] eqn:Hc.
    apply rbind_ok in Hs as (bl & -> & Hs). injection Hs as <- <-. simpl.
    destruct (record_curve_ok _ _ _ _ _ _ _ Hc) as (Hm3 & _ & _ & Hrev3).
    destruct (record_curve_certified _ _ _ _ _ _ _ _ Hc Hget) as (record' & Hget' & Heq).
    rewrite Hrev2 in Hrev3. rewrite Hm3. rewrite Hr1 in Hrev. rewrite Hr1 in Hrev3.
    split_and!; auto. right. split; [done|]. exists record'. rewrite Heq. auto.
Qed.
End Doors.

(** ** Replay *)

Module ReplaySpec.
Inductive kind := FirstMessage | NewSession.

#[global] Instance kind_eq_dec : EqDecision kind.
Proof. solve_decision. Defined.

Record attempt := mk {
  what : kind;
  network : string;
  nick : string;
  did : string;
  id : string;
}.

Definition step (s : ReplayState.t) (a : attempt) : ReplayState.t * result unit E2eError.t :=
  match what a with
  | FirstMessage => ReplayState.accept_first_message s (network a) (nick a) (did a) (id a)
  | NewSession => ReplayState.accept_new_session s (network a) (nick a) (did a) (id a)
  end.

Definition slot (a : attempt) : kind * string * string * string :=
  (what a, network a, nick a, did a).

(** The ids of a device that were accepted, newest first. *)
Definition ids (past : list attempt) (sl : kind * string * string * string) : list string :=
  id <$> filter (fun b => slot b = sl) past.

(** Refused exactly when it is one of the last 256 accepted for the device. *)
Definition spec (past : list attempt) (a : attempt) : list attempt * result unit E2eError.t :=
  if contains (take (N.to_nat REPLAY_WINDOW) (ids past (slot a))) (id a)
  then (past, Err E2eError.Replay) else (a :: past, Ok tt).

(** Names of the network have no NUL, which separates the parts of a key. *)
Definition clean (a : attempt) : Prop :=
  contains_char "000" (network a) = false /\ contains_char "000" (nick a) = false.
End ReplaySpec.

Lemma peer_device_key_inj n n' k k' d d' :
  contains_char "000" n = false -> contains_char "000" n' = false ->
  contains_char "000" k = false -> contains_char "000" k' = false ->
  peer_device_key n k d = peer_device_key n' k' d' -> n = n' /\ k = k' /\ d = d'.
Proof.
  intros Hn Hn' Hk Hk' H. unfold peer_device_key, NUL in H.
  pose proof (split_once_sep "000" n (k +:+ String "000" "" +:+ d) Hn) as E1.
  pose proof (split_once_sep "000" n' (k' +:+ String "000" "" +:+ d') Hn') as E2.
  rewrite H, E2 in E1. injection E1 as -> E1.
  pose proof (split_once_sep "000" k d Hk) as E3.
  pose proof (split_once_sep "000" k' d' Hk') as E4.
  rewrite <-E1, E4 in E3. by injection E3 as -> ->.
Qed.

Lemma tail_app_ne {A} (l l' : list A) : l <> [] -> tail (l ++ l') = tail l ++ l'.
Proof. by destruct l. Qed.

Lemma tail_reverse_take {A} (n : nat) (l : list A) :
  n < length l -> tail (reverse (take (S n) l)) = reverse (take n l).
Proof.
  intros Hn. destruct (lookup_lt_is_Some_2 l n Hn) as [x Hx].
  by rewrite (take_S_r _ _ _ Hx), reverse_app.
Qed.

(** The window of a history after one more id. *)
Lemma trim_window ids id :
  ReplayState.trim (reverse (take (N.to_nat REPLAY_WINDOW) ids) ++ [id]) =
  reverse (take (N.to_nat REPLAY_WINDOW) (id :: ids)).
Proof.
  unfold ReplayState.trim. destruct (N.to_nat REPLAY_WINDOW) as [|w] eqn:Hw; [done|].
  assert (REPLAY_WINDOW = N.of_nat (S w)) as -> by lia. clear Hw.
  unfold lenN. rewrite length_app, length_reverse, length_take. cbn [length take].
  rewrite reverse_cons. destruct (Nat.le_gt_cases (length ids) w) as [Hle|Hgt].
  - rewrite (proj2 (N.ltb_ge _ _)) by lia.
    rewrite !take_ge by lia. done.
  - rewrite (proj2 (N.ltb_lt _ _)) by lia. rewrite tail_app_ne.
    + by rewrite tail_reverse_take.
    + intros H. apply (f_equal length) in H. rewrite length_reverse, length_take in H.
      cbn [length] in H. lia.
Qed.

Lemma contains_reverse (l : list string) x : contains (reverse l) x = contains l x.
Proof.
  apply eq_true_iff_eq. rewrite !contains_spec. apply elem_of_reverse.
Qed.

(** What a map of seen ids holds for a device. *)
Definition seen (map : gmap string (list string)) (network nick did : string) : list string :=
  default [] (map !! peer_device_key network nick did).

Lemma record_spec map network nick did id :
  let '(map', r) := ReplayState.record map network nick did id in
  let old := seen map network nick did in
  r = (if contains old id then Err E2eError.Replay else Ok tt) /\
  seen map' network nick did =
    (if contains old id then old else ReplayState.trim (old ++ [id])) /\
  forall network' nick' did',
    peer_device_key network' nick' did' <> peer_device_key network nick did ->
    seen map' network' nick' did' = seen map network' nick' did'.
Proof.
  unfold ReplayState.record, seen. destruct (contains _ id) eqn:E.
  - split_and!; [done|by rewrite lookup_insert_eq|].
    intros. by rewrite lookup_insert_ne.
  - split_and!; [done|by rewrite lookup_insert_eq|].
    intros. by rewrite lookup_insert_ne.
Qed.

Definition seen_of (s : ReplayState.t) (sl : ReplaySpec.kind * string * string * string)
    : list string :=
  let '(k, network, nick, did) := sl in
  seen (match k with
        | ReplaySpec.FirstMessage => ReplayState.first_messages s
        | ReplaySpec.NewSession => ReplayState.sessions s
        end) network nick did.

Definition clean_slot (sl : ReplaySpec.kind * string * string * string) : Prop :=
  let '(_, network, nick, _) := sl in
  contains_char "000" network = false /\ contains_char "000" nick = false.

Lemma replay_step_spec s a :
  ReplaySpec.clean a ->
  let '(s', r) := ReplaySpec.step s a in
  let old := seen_of s (ReplaySpec.slot a) in
  r = (if contains old (ReplaySpec.id a) then Err E2eError.Replay else Ok tt) /\
  forall sl, clean_slot sl -> seen_of s' sl =
    if decide (ReplaySpec.slot a = sl) then
      if contains old (ReplaySpec.id a) then old
      else ReplayState.trim (old ++ [ReplaySpec.id a])
    else seen_of s sl.
Proof.
  destruct a as [k network nick did id]. intros [Hn Hk]. simpl in *.
  unfold ReplaySpec.step, ReplaySpec.slot. cbn [ReplaySpec.what ReplaySpec.network
    ReplaySpec.nick ReplaySpec.did ReplaySpec.id].
  destruct k; unfold ReplayState.accept_first_message, ReplayState.accept_new_session.
  - pose proof (record_spec (ReplayState.first_messages s) network nick did id) as H.
    destruct (ReplayState.record _ _ _ _ _) as [map' r]. destruct H as (-> & Hsame & Hother).
    split; [done|]. intros [[[k' n'] c'] d'] [Hn' Hk']. destruct k'; simpl in *.
    + case_decide as Heq; simplify_eq; [exact Hsame|]. apply Hother. intros Hkey.
      apply Heq. destruct (peer_device_key_inj _ _ _ _ _ _ Hn' Hn Hk' Hk Hkey) as (-> & -> & ->).
      done.
    + done.
  - pose proof (record_spec (ReplayState.sessions s) network nick did id) as H.
    destruct (ReplayState.record _ _ _ _ _) as [map' r]. destruct H as (-> & Hsame & Hother).
    split; [done|]. intros [[[k' n'] c'] d'] [Hn' Hk']. destruct k'; simpl in *.
    + done.
    + case_decide as Heq; simplify_eq; [exact Hsame|]. apply Hother. intros Hkey.
      apply Heq. destruct (peer_device_key_inj _ _ _ _ _ _ Hn' Hn Hk' Hk Hkey) as (-> & -> & ->).
      done.
Qed.

(** C25. Replay is refused, and nothing else: a first message or a new session
    of a device is refused exactly when its id is one of the last 256 that
    were accepted of this kind for this device; other devices, other peers and
    the other kind never matter. Names hold no NUL. *)
Theorem replay_history (attempts : list ReplaySpec.attempt)
    (Hclean : Forall ReplaySpec.clean attempts) :
  (run ReplaySpec.step ReplayState.initial attempts).2 =
  (run ReplaySpec.spec [] attempts).2.
Proof.
  apply (run_simulation _ _ (fun s past => forall sl, clean_slot sl ->
      seen_of s sl = reverse (take (N.to_nat REPLAY_WINDOW) (ReplaySpec.ids past sl)))
    (fun _ _ es => Forall ReplaySpec.clean es)); [| |done].
  - intros s past a as' HR Ha. inversion Ha as [|? ? Ha1 Ha2]; subst.
    pose proof (replay_step_spec s a Ha1) as Hstep.
    assert (clean_slot (ReplaySpec.slot a)) as Hsl by (destruct a; exact Ha1).
    destruct (ReplaySpec.step s a) as [s' r]. destruct Hstep as [-> Hs'].
    rewrite (HR _ Hsl), contains_reverse in *. unfold ReplaySpec.spec. cbn [fst snd].
    destruct (contains _ (ReplaySpec.id a)) eqn:E; cbn [fst snd]; (split; [done|]);
      (split; [|done]); intros sl Hc; rewrite (Hs' _ Hc).
    + case_decide as Heq; [|by apply HR]. by rewrite Heq.
    + unfold ReplaySpec.ids. rewrite filter_cons. case_decide as Heq; [|by apply HR].
      rewrite trim_window, fmap_cons, Heq. done.
  - intros [[[[] n] k] d] _; unfold seen_of, seen, ReplaySpec.ids; simpl;
      rewrite lookup_empty; by destruct (N.to_nat REPLAY_WINDOW).
Qed.

Lemma record_bound map network nick did id :
  (forall key, length (default [] (map !! key)) <= N.to_nat REPLAY_WINDOW) ->
  forall key, length (default [] ((ReplayState.record map network nick did id).1 !! key)) <=
    N.to_nat REPLAY_WINDOW.
Proof.
  intros H key. unfold ReplayState.record.
  set (k := peer_device_key network nick did). pose proof (H k) as Hk.
  destruct (contains _ id); simpl; (destruct (decide (k = key)) as [<-|Hne];
    [rewrite lookup_insert_eq|rewrite lookup_insert_ne by done; apply H]); [done|].
  simpl. unfold ReplayState.trim. rewrite lenN_app. unfold lenN at 1 2.
  destruct (N.ltb_spec REPLAY_WINDOW
    (N.of_nat (length (default [] (map !! k))) + N.of_nat (length [id]))) as [Hlt|Hge].
  - destruct (default [] (map !! k)) as [|x l]; simpl in *; [lia|].
    rewrite length_app. simpl. lia.
  - rewrite length_app. simpl in *. lia.
Qed.

(** The replay state never holds more than 256 ids of a kind for a device. *)
Theorem replay_bounded (attempts : list ReplaySpec.attempt) (key : string) :
  let s := (run ReplaySpec.step ReplayState.initial attempts).1 in
  (lenN (default [] (ReplayState.first_messages s !! key)) <= 256)%N /\
  (lenN (default [] (ReplayState.sessions s !! key)) <= 256)%N.
Proof.
  cbv zeta.
  assert (forall s, (forall key, length (default [] (ReplayState.first_messages s !! key)) <=
                       N.to_nat REPLAY_WINDOW) /\
                    (forall key, length (default [] (ReplayState.sessions s !! key)) <=
                       N.to_nat REPLAY_WINDOW) ->
    forall a, (forall key, length (default [] (ReplayState.first_messages
                       (ReplaySpec.step s a).1 !! key)) <= N.to_nat REPLAY_WINDOW) /\
              (forall key, length (default [] (ReplayState.sessions
                       (ReplaySpec.step s a).1 !! key)) <= N.to_nat REPLAY_WINDOW)) as Hstep.
  { intros s [H1 H2] a. unfold ReplaySpec.step.
    destruct (ReplaySpec.what a);
      unfold ReplayState.accept_first_message, ReplayState.accept_new_session.
    - pose proof (record_bound _ (ReplaySpec.network a) (ReplaySpec.nick a) (ReplaySpec.did a)
        (ReplaySpec.id a) H1) as H. by destruct (ReplayState.record _ _ _ _ _).
    - pose proof (record_bound _ (ReplaySpec.network a) (ReplaySpec.nick a) (ReplaySpec.did a)
        (ReplaySpec.id a) H2) as H. by destruct (ReplayState.record _ _ _ _ _). }
  destruct (run_invariant ReplaySpec.step (fun s =>
    (forall key, length (default [] (ReplayState.first_messages s !! key)) <=
       N.to_nat REPLAY_WINDOW) /\
    (forall key, length (default [] (ReplayState.sessions s !! key)) <=
       N.to_nat REPLAY_WINDOW)) ReplayState.initial attempts) as [H1 H2].
  - split; intros k; simpl; rewrite lookup_empty; simpl; lia.
  - intros s a Hs. by apply Hstep.
  - unfold lenN. specialize (H1 key). specialize (H2 key). unfold REPLAY_WINDOW in *. lia.
Qed.

(** ** Concrete doors *)

Definition sample_id_signature (device curve : N) : string :=
  sample_sign device (device_id_signed_text (sample_key curve) (sample_key 1)).

Definition sample_bundle (device curve : N) (l : SignedList.t) : PeerBundle.t :=
  PeerBundle.mk (sample_key 1) (SignedList.version l) (SignedList.keys l)
    (SignedList.signature l) (sample_key device) (sample_key curve)
    (sample_id_signature device curve).

Definition sample_certified (device curve version : N) : CertifiedBundle.t :=
  CertifiedBundle.mk (sample_key 1) version
    (sample_sign 1 (DEVICE_CERTIFICATE_PREFIX +:+ N_display version +:+ ":" +:+
                    sample_key device))
    (sample_key device) (sample_key curve) (sample_id_signature device curve).

Lemma verify_peer_device_sound_witness :
  let b := sample_bundle 6 9 (sample_list 1 [5; 6]%N) in
  exists trust' d,
    verify_peer_device ∅ "azzurra" "luna" (Some [sample_key 6]) b = (trust', Ok d) /\
    PeerTrust.is_revoked trust' "azzurra" "luna" (sample_key 6) (Some (sample_key 9)) = false /\
    PeerTrust.master trust' "azzurra" "luna" = Some (sample_key 1).
Proof.
  cbv zeta.
  destruct (verify_peer_device ∅ "azzurra" "luna" (Some [sample_key 6])
    (sample_bundle 6 9 (sample_list 1 [5; 6]%N))) as [trust' [d|e]] eqn:E.
  - pose proof (verify_peer_device_sound _ _ _ _ _ _ _ E)
      as (_ & _ & _ & _ & _ & _ & _ & Hrev & _ & Hm).
    exists trust', d. split; [reflexivity|]. split; [exact Hrev|exact Hm].
  - exfalso. apply (f_equal (fun p => is_ok p.2)) in E. vm_compute in E. discriminate E.
Defined.

(** A newer list of the pinned master without the device: it stays. *)
Lemma verify_peer_device_refused_witness :
  let b := sample_bundle 6 9 (sample_list 2 [5]%N) in
  let trust' := (verify_peer_device two_devices "azzurra" "luna" None b).1 in
  (verify_peer_device two_devices "azzurra" "luna" None b).2 = Err E2eError.RevokedDevice /\
  (trust' = two_devices \/
   PeerTrust.master two_devices "azzurra" "luna" = Some (sample_key 1) /\
   exists result,
     PeerTrust.accept_list two_devices "azzurra" "luna" (sample_key 1) 2 [sample_key 5]
       (SignedList.signature (sample_list 2 [5]%N)) = (trust', result) /\
     (result = Ok Replace \/ result = Err E2eError.LegacyListOrder)).
Proof.
  cbv zeta. split; [vm_compute; reflexivity|].
  destruct (verify_peer_device two_devices "azzurra" "luna" None
    (sample_bundle 6 9 (sample_list 2 [5]%N))) as [trust' r] eqn:E. cbn [fst].
  assert (r = Err E2eError.RevokedDevice) as ->.
  { change r with (trust', r).2. rewrite <-E. vm_compute. reflexivity. }
  exact (verify_peer_device_refused _ _ _ _ _ _ _ E).
Defined.

(** A device that was added with list 2, before list 2 is known. *)
Lemma verify_certified_device_exact_witness :
  exists trust' d,
    verify_certified_device two_devices "azzurra" "luna" (sample_certified 7 9 2) =
      (trust', Ok d) /\
    (PeerTrust.list_version two_devices "azzurra" "luna" < 2)%N /\
    exists record, PeerTrust.get trust' "azzurra" "luna" = Some record /\
      PeerRecord.certified record !! sample_key 7 = Some 2%N.
Proof.
  destruct (verify_certified_device two_devices "azzurra" "luna" (sample_certified 7 9 2))
    as [trust' r] eqn:E.
  pose proof (verify_certified_device_exact _ _ _ _ _ _ E) as H. cbv zeta in H.
  destruct r as [d|e].
  - exists trust', d. split; [reflexivity|].
    destruct H as (_ & _ & _ & _ & _ & _ & _ & _ & _ & [Hin|Hcert]); [|exact Hcert].
    exfalso. apply contains_spec in Hin. vm_compute in Hin. discriminate Hin.
  - exfalso. apply (f_equal (fun p => is_ok p.2)) in E. vm_compute in E. discriminate E.
Defined.

Definition sample_attempts : list ReplaySpec.attempt :=
  [ReplaySpec.mk ReplaySpec.FirstMessage "azzurra" "luna" "d1" "m1";
   ReplaySpec.mk ReplaySpec.FirstMessage "azzurra" "luna" "d2" "m1";
   ReplaySpec.mk ReplaySpec.FirstMessage "azzurra" "luna" "d1" "m1";
   ReplaySpec.mk ReplaySpec.NewSession "azzurra" "luna" "d1" "m1"].

Lemma replay_history_witness :
  (run ReplaySpec.step ReplayState.initial sample_attempts).2 =
  (run ReplaySpec.spec [] sample_attempts).2.
Proof. apply replay_history. repeat constructor; reflexivity. Defined.

Example replay_outcomes :
  (run ReplaySpec.step ReplayState.initial sample_attempts).2 =
  [Ok tt; Ok tt; Err E2eError.Replay; Ok tt].
Proof. vm_compute. reflexivity. Qed.
