(* ===== verification/ManageFacts.v ===== *)
(** * Theorems on the directory of a peer *)

From S2P Require Import Prelude.
From S2P Require Import RustStr.
From S2P Require Import Interfaces.
From S2P Require Import Concrete.
From S2P Require Import Wire.
From S2P Require Import WireFacts.
From S2P Require Import Device.
From S2P Require Import Manage.
From S2P Require Import ListMigration.
From S2P Require Import DeviceFacts.
From S2P Require Import Trust.
From S2P Require Import TrustFacts.
From stdpp Require Import options.

Section Directory.
Context {C : Crypto}.

Inductive directory_op :=
| ApplyList (master : string) (l : SignedList.t)
| ConfirmSas
| AcceptNewMaster (master : string).

Definition directory_step (s : PeerDirectory.t) (o : directory_op) : PeerDirectory.t :=
  match o with
  | ApplyList master l => (PeerDirectory.apply_list s master l).1
  | ConfirmSas => PeerDirectory.confirm_sas s
  | AcceptNewMaster master => (PeerDirectory.accept_new_master s master).1
  end.

Lemma revoke_dropped_spec old new revoked key :
  key ∈ PeerDirectory.revoke_dropped old new revoked <->
  key ∈ revoked \/ (key ∈ old /\ key ∉ new).
Proof.
  revert revoked. induction old as [|k old IH]; intros revoked; simpl; [set_solver|].
  rewrite IH. destruct (contains new k) eqn:En; simpl.
  - apply contains_spec in En. set_solver.
  - apply contains_false in En. destruct (contains revoked k) eqn:Er; simpl.
    + apply contains_spec in Er. set_solver.
    + set_solver.
Qed.

(** What an applied list does to the directory. *)
Lemma apply_list_cases s master l :
  let '(s', r) := PeerDirectory.apply_list s master l in
  (s' = s /\ r <> Ok Replace) \/
  (r = Ok Replace /\ master = PeerDirectory.master_ed25519 s /\
   verify_signed_list (SignedList.version l) (SignedList.keys l) master
     (SignedList.signature l) = Ok tt /\
   PeerDirectory.master_ed25519 s' = master /\
   PeerDirectory.verified s' = PeerDirectory.verified s /\
   PeerDirectory.keys s' = SignedList.keys l /\
   (ListState.version (PeerDirectory.list s) < ListState.version (PeerDirectory.list s'))%N /\
   (forall key, key ∈ SignedList.keys l -> key ∉ PeerDirectory.revoked s) /\
   (forall key, key ∈ PeerDirectory.revoked s' <->
      key ∈ PeerDirectory.revoked s \/
      (key ∈ PeerDirectory.keys s /\ key ∉ SignedList.keys l))).
Proof.
  unfold PeerDirectory.apply_list.
  destruct (negb (bool_decide _)) eqn:Hm; [by left|].
  apply negb_false_iff, bool_decide_eq_true in Hm.
  destruct (verify_signed_list _ _ _ _) as [[]|e] eqn:Hv; [|by left].
  pose proof (apply_cases (PeerDirectory.list s) (SignedList.version l) (SignedList.keys l)) as Hc.
  destruct (ListState.apply _ _ _) as [next applied].
  destruct Hc as [(e & -> & _)|[(-> & _)|(-> & Hst & Hlt & _)]]; [by left|by left|].
  destruct (existsb _ _) eqn:Hx; [by left|]. right. simpl. split_and!; try done.
  - unfold PeerDirectory.keys, ListState.keys. simpl. by rewrite Hst.
  - unfold ListState.version at 2. by rewrite Hst.
  - intros key Hin Hrev. apply contains_spec in Hrev.
    assert (existsb (contains (PeerDirectory.revoked s)) (SignedList.keys l) = true); [|congruence].
    apply existsb_exists. exists key. split; [by apply list_elem_of_In|done].
  - intros key. apply revoke_dropped_spec.
Qed.

Definition directory_run (s : PeerDirectory.t) (ops : list directory_op) : PeerDirectory.t :=
  foldl directory_step s ops.

Lemma directory_run_snoc s ops o :
  directory_run s (ops ++ [o]) = directory_step (directory_run s ops) o.
Proof. unfold directory_run. by rewrite foldl_app. Qed.

(** The operation leaves the master of the directory. *)
Definition same_master (o : directory_op) : Prop :=
  match o with AcceptNewMaster m => is_ok (decode_key m) = false | _ => True end.

(** Since one operation of [ops] the directory has had its last master. *)
Definition since (s0 : PeerDirectory.t) (ops : list directory_op) (P : string -> directory_op -> Prop)
    : Prop :=
  exists before o after, ops = before ++ o :: after /\ Forall same_master after /\
    P (PeerDirectory.master_ed25519 (directory_run s0 before)) o /\
    PeerDirectory.master_ed25519 (directory_run s0 before) =
      PeerDirectory.master_ed25519 (directory_run s0 ops).

(** The user confirmed the SAS of the master that the directory has. *)
Definition sas_confirmed s0 ops : Prop := since s0 ops (fun _ o => o = ConfirmSas).

(** The master that the directory has signed a list with the key. *)
Definition listed_by_master s0 ops (key : string) : Prop :=
  since s0 ops (fun master o => exists l, o = ApplyList master l /\ key ∈ SignedList.keys l /\
    verify_signed_list (SignedList.version l) (SignedList.keys l) master
      (SignedList.signature l) = Ok tt).

Lemma same_master_step s o :
  same_master o -> PeerDirectory.master_ed25519 (directory_step s o) = PeerDirectory.master_ed25519 s.
Proof.
  destruct o as [m l| |m]; simpl; [intros _|done|].
  - pose proof (apply_list_cases s m l) as H. destruct (PeerDirectory.apply_list s m l) as [s' r].
    simpl. destruct H as [[-> _]|(_ & -> & _ & -> & _)]; done.
  - unfold PeerDirectory.accept_new_master. by destruct (decode_key m).
Qed.

Lemma since_now s0 ops P o :
  same_master o -> P (PeerDirectory.master_ed25519 (directory_run s0 ops)) o ->
  since s0 (ops ++ [o]) P.
Proof.
  intros Hsame HP. exists ops, o, []. split_and!; [done|by constructor|done|].
  by rewrite directory_run_snoc, same_master_step.
Qed.

Lemma since_more s0 ops P o : same_master o -> since s0 ops P -> since s0 (ops ++ [o]) P.
Proof.
  intros Hsame (before & x & after & -> & Hafter & HP & Hm).
  exists before, x, (after ++ [o]). split_and!; [by rewrite <- app_assoc| |done|].
  - apply Forall_app. split; [done|]. by constructor.
  - by rewrite directory_run_snoc, same_master_step.
Qed.

(** What holds of a directory after any operations. *)
Record directory_ok s0 ops : Prop := {
  listed_not_revoked : forall key, key ∈ PeerDirectory.keys (directory_run s0 ops) ->
    key ∉ PeerDirectory.revoked (directory_run s0 ops);
  listed_signed : forall key, key ∈ PeerDirectory.keys (directory_run s0 ops) ->
    listed_by_master s0 ops key;
  verified_confirmed : PeerDirectory.verified (directory_run s0 ops) = true -> sas_confirmed s0 ops;
}.

Lemma directory_revoked_kept s o key :
  key ∈ PeerDirectory.revoked s -> key ∈ PeerDirectory.revoked (directory_step s o).
Proof.
  destruct o as [m l| |m]; simpl; [|done|].
  - pose proof (apply_list_cases s m l) as H. destruct (PeerDirectory.apply_list s m l) as [s' r].
    simpl. destruct H as [[-> _]|(_ & _ & _ & _ & _ & _ & _ & _ & Hrev)]; [done|].
    intros Hk. apply Hrev. by left.
  - unfold PeerDirectory.accept_new_master. by destruct (decode_key m).
Qed.

Lemma directory_ok_step s0 ops o : directory_ok s0 ops -> directory_ok s0 (ops ++ [o]).
Proof.
  set (s := directory_run s0 ops). intros [H1 H2 H3].
  assert (same_master o -> PeerDirectory.keys (directory_step s o) = PeerDirectory.keys s ->
    PeerDirectory.revoked (directory_step s o) = PeerDirectory.revoked s ->
    (PeerDirectory.verified (directory_step s o) = true ->
       PeerDirectory.verified s = true \/ o = ConfirmSas) -> directory_ok s0 (ops ++ [o])) as Hsame.
  { intros Ho Hk Hr Hv. split; rewrite directory_run_snoc; fold s; rewrite ?Hk, ?Hr; [done| |].
    - intros key Hin. apply since_more; [done|]. by apply H2.
    - intros [Hver| ->]%Hv; [apply since_more; [done|by apply H3]|by apply since_now]. }
  destruct o as [m l| |m].
  - pose proof (apply_list_cases s m l) as H. simpl in Hsame.
    destruct (PeerDirectory.apply_list s m l) as [s' r] eqn:E. simpl in Hsame.
    destruct H as [[-> _]|(_ & Hm & Hsig & _ & Hv & Hk & _ & Hold & Hrev)]; [by apply Hsame; auto|].
    split; rewrite directory_run_snoc; fold s; simpl; rewrite E; simpl.
    + intros key. rewrite Hrev, Hk. naive_solver.
    + intros key Hin. rewrite Hk in Hin. apply since_now; [done|]. fold s. exists l.
      rewrite <- Hm. by split_and!.
    + rewrite Hv. intros Hver. apply since_more; [done|by apply H3].
  - by apply Hsame; auto.
  - simpl in Hsame. unfold PeerDirectory.accept_new_master in Hsame.
    destruct (decode_key m) as [raw|e] eqn:E; [|apply Hsame; simpl; rewrite ?E; auto].
    split; rewrite directory_run_snoc; fold s; simpl; unfold PeerDirectory.accept_new_master;
      rewrite E; simpl; [| |done]; intros key Hin;
      unfold PeerDirectory.keys, ListState.keys in Hin; simpl in Hin; set_solver.
Qed.

(** C27. In a directory no listed key is revoked, whatever happens to it after
    it is made; a revoked key stays revoked, also under a new master; and a
    device that the directory accepts is in a list that the present master
    signed, was never revoked, signed its own keys, and the user confirmed the
    SAS of this same master since it became the master. *)
Theorem directory_safe (master : string) (s0 : PeerDirectory.t) (ops : list directory_op)
    (Hnew : PeerDirectory.new master = Ok s0) :
  let s := directory_run s0 ops in
  (forall key, key ∈ PeerDirectory.keys s -> key ∉ PeerDirectory.revoked s) /\
  (forall o key, key ∈ PeerDirectory.revoked s ->
     key ∈ PeerDirectory.revoked (directory_step s o)) /\
  (forall cert d, PeerDirectory.accept_device s cert = Ok d ->
     sas_confirmed s0 ops /\ listed_by_master s0 ops (PeerDevice.ed25519 d) /\
     PeerDevice.ed25519 d ∉ PeerDirectory.revoked s /\
     accept_peer_device cert (PeerDirectory.keys s) = Ok d).
Proof.
  cbv zeta.
  assert (directory_ok s0 ops) as Hok.
  { induction ops as [|o ops IH] using rev_ind; [|by apply directory_ok_step].
    unfold PeerDirectory.new in Hnew. inv_result.
    split; [| |done]; intros key; unfold PeerDirectory.keys, ListState.keys; simpl; set_solver. }
  destruct Hok as [H1 H2 H3]. split; [exact H1|]. split; [intros o key; apply directory_revoked_kept|].
  intros cert d Hd. unfold PeerDirectory.accept_device in Hd.
  destruct (PeerDirectory.verified _) eqn:Hver; [|done]. simpl in Hd.
  destruct (contains _ (DeviceCertificate.master_ed25519 cert)) eqn:Hrev; [done|].
  apply contains_false in Hrev. apply map_err_ok in Hd. pose proof Hd as Haccept.
  unfold accept_peer_device in Hd. inv_checks. simpl.
  split_and!; [by apply H3| |done|exact Haccept]. apply H2. by apply contains_negb_false.
Qed.
End Directory.

Lemma directory_safe_witness :
  let s0 := PeerDirectory.mk (sample_key 1) false ListState.default [] in
  let ops := [ApplyList (sample_key 1) (sample_list 1 [5; 6]%N); ConfirmSas;
     ApplyList (sample_key 1) (sample_list 2 [5]%N)] in
  PeerDirectory.keys (directory_run s0 ops) = [sample_key 5] /\
  PeerDirectory.revoked (directory_run s0 ops) = [sample_key 6] /\
  (forall o, sample_key 6 ∈ PeerDirectory.revoked (directory_step (directory_run s0 ops) o)).
Proof.
  cbv zeta. split; [vm_compute; reflexivity|]. split; [vm_compute; reflexivity|].
  destruct (directory_safe (sample_key 1) (PeerDirectory.mk (sample_key 1) false ListState.default [])
    [ApplyList (sample_key 1) (sample_list 1 [5; 6]%N); ConfirmSas;
     ApplyList (sample_key 1) (sample_list 2 [5]%N)]) as (_ & H & _); [vm_compute; reflexivity|].
  intros o. apply H. vm_compute. by left.
Defined.
