(* ===== verification/Sas.v ===== *)
(** * The SAS code of a pair of masters (crates/cordiale-core/src/e2e_sas.rs) *)

From S2P Require Import Prelude.
From S2P Require Import RustStr.
From S2P Require Import Interfaces.
From S2P Require Import Wire.
From S2P Require Import Device.
From stdpp Require Import options.

Definition DOMAIN : string := "cordiale-sas-v1".
Definition GROUPS : nat := 3.
Definition GROUP_DIGITS : nat := 4.

Section Sas.
Context {C : Crypto}.

(** One group of digits of the hash; [rev] makes the big-endian reading. *)
Definition sas_group (hash : string) (index : nat) : string :=
  let raw := str_slice (index * 8) (index * 8 + 8) hash in
  pad_zeros GROUP_DIGITS
    (N_display (from_le_bytes (String.rev raw) mod 10 ^ N.of_nat GROUP_DIGITS)).

Definition sas_code (own_master peer_master : string) : result string E2eError.t :=
  let? own := wire (decode_key own_master) in
  let? peer := wire (decode_key peer_master) in
  let '(low, high) := if String.leb own peer then (own, peer) else (peer, own) in
  let hash := sha256 (DOMAIN +:+ low +:+ high) in
  Ok (join " " (sas_group hash <$> seq 0 GROUPS)).

(** ** Theorems *)

Lemma group_shape hash index :
  String.length (sas_group hash index) = GROUP_DIGITS /\
  all_chars is_ascii_digit (sas_group hash index) = true.
Proof.
  unfold sas_group, pad_zeros.
  set (n := (from_le_bytes _ mod _)%N).
  assert (n < 10 ^ N.of_nat GROUP_DIGITS)%N as Hn by (apply N.mod_lt; vm_compute; discriminate).
  assert (String.length (N_display n) <= GROUP_DIGITS).
  { apply display_length; [done|unfold GROUP_DIGITS; lia]. }
  split.
  - rewrite str_length_app, str_repeat_length. lia.
  - rewrite all_chars_app, display_digits, andb_true_r.
    induction (GROUP_DIGITS - String.length (N_display n)) as [|k IH]; [done|exact IH].
Qed.

(** The two users see one code: it exists exactly for two valid keys, it
    is three groups of four digits, and it does not depend on whose key is
    named first. *)
Theorem sas_code_symmetric (own peer : string) :
  ((exists code, sas_code own peer = Ok code) <->
   (exists raw, decode_key own = Ok raw) /\ (exists raw, decode_key peer = Ok raw)) /\
  (forall code, sas_code own peer = Ok code ->
     sas_code peer own = Ok code /\
     exists a b c, code = a +:+ " " +:+ b +:+ " " +:+ c /\
       Forall (fun g => String.length g = 4 /\ all_chars is_ascii_digit g = true) [a; b; c]).
Proof.
  split.
  - unfold sas_code, wire. destruct (decode_key own) as [o|]; simpl; [|naive_solver].
    destruct (decode_key peer) as [p|]; simpl; [|naive_solver].
    destruct (String.leb o p); naive_solver.
  - intros code. unfold sas_code, wire.
    destruct (decode_key own) as [o|]; simpl; [|done].
    destruct (decode_key peer) as [p|]; simpl; [|done]. intros H. split.
    + destruct (String.leb o p) eqn:E1, (String.leb p o) eqn:E2; try done.
      * assert (o = p) as -> by (by apply String.leb_antisym). done.
      * destruct (String.leb_total o p) as [Ht|Ht]; congruence.
    + assert (exists hash, code = join " " (sas_group hash <$> seq 0 GROUPS)) as [hash ->].
      { destruct (String.leb o p); simplify_eq; eauto. }
      exists (sas_group hash 0), (sas_group hash 1), (sas_group hash 2).
      split; [reflexivity|]. repeat constructor; apply group_shape.
Qed.
End Sas.
