(* ===== verification/Files.v ===== *)
(** * Files and atomic writes (crates/cordiale-core/src/persistence.rs)

    A disk is a map from paths to contents. What the operating system decides
    (a failed open, a write cut short, a refused rename) is an argument of each
    call, so a theorem covers every outcome. *)

From S2P Require Import Prelude.
From S2P Require Import RustStr.
From stdpp Require Import options.

Definition disk : Type := gmap string string.

(** The message of an [io::Error]. *)
Definition io_error : Type := string.

(** How one open-write-sync of a new file ends. *)
Inductive write_outcome :=
| WriteOk
| OpenFails (e : io_error)
| WriteFails (written : string) (e : io_error).

(** One [write_atomic]: the name that [temp_path_for] picks, and what the
    operating system does with each call. *)
Record write_env := {
  temp : string;
  writing : write_outcome;
  renaming : option io_error;
  removing : bool;
}.

(** [create_new(true)]: an existing file is not touched. *)
Definition write_synced (d : disk) (path contents : string) (w : write_outcome)
    : disk * result unit io_error :=
  match d !! path with
  | Some _ => (d, Err "File exists")
  | None =>
      match w with
      | WriteOk => (<[path := contents]> d, Ok tt)
      | OpenFails e => (d, Err e)
      | WriteFails written e => (<[path := written]> d, Err e)
      end
  end.

(** [fs::rename] replaces the target at once or changes nothing. *)
Definition rename_file (d : disk) (from to : string) (refused : option io_error)
    : disk * result unit io_error :=
  match refused, d !! from with
  | Some e, _ => (d, Err e)
  | None, None => (d, Err "No such file or directory")
  | None, Some contents => (<[to := contents]> (delete from d), Ok tt)
  end.

Definition remove_file (d : disk) (path : string) (works : bool) : disk :=
  if works then delete path d else d.

Definition write_atomic (env : write_env) (d : disk) (path contents : string)
    : disk * result unit io_error :=
  let '(d, written) := write_synced d (temp env) contents (writing env) in
  let '(d, r) :=
    match written with
    | Ok _ => rename_file d (temp env) path (renaming env)
    | Err e => (d, Err e)
    end in
  (match r with Ok _ => d | Err _ => remove_file d (temp env) (removing env) end, r).

(** [fs::read]. *)
Definition read_file (d : disk) (path : string) (refused : option io_error)
    : result string io_error :=
  match refused with
  | Some e => Err e
  | None => ok_or (d !! path) "No such file or directory"
  end.

(** [Path::exists]: a [stat] that fails, for whatever reason, reads as no
    file. *)
Definition path_exists (d : disk) (path : string) (stat : option io_error) : bool :=
  match stat with
  | Some _ => false
  | None => bool_decide (is_Some (d !! path))
  end.

(** ** Lemmas *)

Lemma path_exists_true d path stat contents :
  d !! path = Some contents -> stat = None -> path_exists d path stat = true.
Proof. intros Hd ->. unfold path_exists. by rewrite bool_decide_true by (by exists contents). Qed.

Lemma path_exists_none d path stat : d !! path = None -> path_exists d path stat = false.
Proof.
  intros Hd. unfold path_exists, disk in *. rewrite Hd. destruct stat; [done|].
  apply bool_decide_eq_false. by intros [x Hx].
Qed.

Lemma path_exists_cases d path stat :
  if path_exists d path stat then stat = None /\ exists contents, d !! path = Some contents
  else is_Some stat \/ d !! path = None.
Proof.
  unfold path_exists. destruct stat as [e|]; [left; by exists e|].
  case_bool_decide as Hd; [by destruct Hd; eauto|]. right. by apply eq_None_not_Some.
Qed.

(** The target of an atomic write is the new contents, or what it was; other
    files stay, the temporary one apart. *)
Lemma write_atomic_spec env d path contents :
  temp env <> path ->
  let '(d', r) := write_atomic env d path contents in
  d' !! path = (match r with Ok _ => Some contents | Err _ => d !! path end) /\
  forall other, other <> path -> other <> temp env -> d' !! other = d !! other.
Proof.
  intros Hne. unfold write_atomic, write_synced, rename_file, remove_file, disk in *.
  destruct (d !! temp env) eqn:Ht; [|destruct (writing env)]; simpl.
  - destruct (removing env); (split; [by rewrite ?lookup_delete_ne|]); intros;
      by rewrite ?lookup_delete_ne.
  - destruct (renaming env); simpl.
    + destruct (removing env); (split; [by rewrite ?lookup_delete_ne, lookup_insert_ne|]);
        intros; by rewrite ?lookup_delete_ne, ?lookup_insert_ne.
    + rewrite lookup_insert_eq. split; [by rewrite lookup_insert_eq|].
      intros. by rewrite lookup_insert_ne, lookup_delete_ne, lookup_insert_ne.
  - destruct (removing env); (split; [by rewrite ?lookup_delete_ne|]); intros;
      by rewrite ?lookup_delete_ne.
  - destruct (removing env); (split; [by rewrite ?lookup_delete_ne, lookup_insert_ne|]);
      intros; by rewrite ?lookup_delete_ne, ?lookup_insert_ne.
Qed.
