(* ===== verification/History.v ===== *)
(** * The sealed history of conversations (crates/cordiale-core/src/e2e_store.rs)

    The key of the sealed files and its place in the keyring, the format of
    the history file (one sealed record for each row), and every operation of
    the history store. The keyring, the disk and the drawn nonces are values
    and arguments; what the operating system decides is an argument of each
    operation. Overwriting texts in memory ([wipe], [Drop]) has no value to
    model. *)

From S2P Require Import Prelude.
From S2P Require Import RustStr.
From S2P Require Import Interfaces.
From S2P Require Import Files.
From stdpp Require Import options.

Definition HISTORY_FILE_NAME : string := "e2e_history.bin".
Definition KEY_SERVICE : string := "cordiale-e2e".
Definition KEY_USERNAME : string := "history-key".
Definition KEY_LEN : N := 32.
Definition MAGIC : string := "CORDIALE-E2E-HISTORY-1".
Definition NONCE_LEN : N := 24.
Definition LEN_FIELD : N := 4.

Module E2eStoreError.
Inductive t :=
| SecureStorageUnavailable
| Key (e : string)
| NoDataDir
| InUse
| Corrupted
| WrongKey
| Io (e : io_error).

#[global] Instance eq_dec : EqDecision t.
Proof. solve_decision. Defined.
End E2eStoreError.

(** [?] on an [io::Error]. *)
Definition io {A} (r : result A io_error) : result A E2eStoreError.t :=
  map_err E2eStoreError.Io r.

(** ** Parameters *)

(** XChaCha20-Poly1305: key, nonce, associated data, text. *)
Class Aead := {
  aead_encrypt : string -> string -> string -> string -> option string;
  aead_decrypt : string -> string -> string -> string -> option string;
}.

Class AeadLaws `{Aead} : Prop := {
  aead_round key nonce aad text sealed :
    aead_encrypt key nonce aad text = Some sealed ->
    aead_decrypt key nonce aad sealed = Some text;
}.

(** ** The key *)

(** The entries of the keyring by service and user name. *)
Definition keyring : Type := gmap (string * string) string.

Inductive secret_outcome :=
| SecretSet
| SecretFails (stored : bool) (e : string).

(** What one creation or reading of the key meets. *)
Record key_env := {
  lock_open : option io_error;
  lock_wait : option io_error;
  secret_read : option string;
  generated : string;
  secret_write : secret_outcome;
}.

Definition hex_digit (n : N) : ascii :=
  if (n <? 10)%N then byte_of (48 + n) else byte_of (87 + n).

(** [{byte:02x}] of each byte. *)
Fixpoint hex_lower (s : string) : string :=
  match s with
  | "" => ""
  | String c s =>
      String (hex_digit (code c / 16)) (String (hex_digit (code c mod 16)) (hex_lower s))
  end.

Section Key.
Context {C : Crypto}.

Definition key_username (dir : string) : string :=
  KEY_USERNAME +:+ "-" +:+ hex_lower (str_take 16 (sha256 dir)).

(** [decode_key] of the source; [Wire] has another one. *)
Definition decode_stored_key (text : string) : result string E2eStoreError.t :=
  let? raw := ok_or (b64_decode text) E2eStoreError.Corrupted in
  if (str_len raw =? KEY_LEN)%N then Ok raw else Err E2eStoreError.Corrupted.

Definition load_or_create_locked (env : key_env) (ring : keyring) (username : string)
    : keyring * result string E2eStoreError.t :=
  match lock_open env, lock_wait env, secret_read env with
  | Some e, _, _ => (ring, Err (E2eStoreError.Io e))
  | None, Some e, _ => (ring, Err (E2eStoreError.Io e))
  | None, None, Some e => (ring, Err (E2eStoreError.Key e))
  | None, None, None =>
      match ring !! (KEY_SERVICE, username) with
      | Some text => (ring, decode_stored_key text)
      | None =>
          let written := <[(KEY_SERVICE, username) := b64_encode (generated env)]> ring in
          match secret_write env with
          | SecretSet => (written, Ok (generated env))
          | SecretFails stored e =>
              (if stored then written else ring, Err (E2eStoreError.Key e))
          end
      end
  end.

(** [available] is the probe of the keyring, [dir] the data folder and
    [canonical] what its creation and its canonical path give. *)
Definition load_or_create_key (available : bool) (dir : option string)
    (canonical : result string io_error) (env : key_env) (ring : keyring)
    : keyring * result string E2eStoreError.t :=
  if negb available then (ring, Err E2eStoreError.SecureStorageUnavailable) else
  match dir, io canonical with
  | None, _ => (ring, Err E2eStoreError.NoDataDir)
  | Some _, Err e => (ring, Err e)
  | Some _, Ok path => load_or_create_locked env ring (key_username path)
  end.
End Key.

(** ** Rows *)

Inductive CaptureDirection := In | Out.

#[global] Instance CaptureDirection_eq_dec : EqDecision CaptureDirection.
Proof. solve_decision. Defined.

Module E2eCapture.
Record t := mk {
  verb : string;
  msgid : option string;
  payload : string;
  direction : CaptureDirection;
}.

#[global] Instance eq_dec : EqDecision t.
Proof. solve_decision. Defined.
End E2eCapture.

Module E2eMessage.
Record t := mk {
  id : string;
  conversation_id : string;
  sender_device : string;
  sent_at : Z;
  text : string;
  encrypted : bool;
  captures : list E2eCapture.t;
}.

#[global] Instance eq_dec : EqDecision t.
Proof. solve_decision. Defined.

Definition push_capture (capture : E2eCapture.t) (m : t) : t :=
  mk (id m) (conversation_id m) (sender_device m) (sent_at m) (text m) (encrypted m)
    (captures m ++ [capture]).
End E2eMessage.

(** [serde_json] on a row and [caseless::default_case_fold_str]. *)
Class HistoryText := {
  message_to_vec : E2eMessage.t -> result string io_error;
  message_from_slice : string -> option E2eMessage.t;
  fold_case : string -> string;
}.

Class HistoryTextLaws `{HistoryText} : Prop := {
  message_text_round m text : message_to_vec m = Ok text -> message_from_slice text = Some m;
}.

(** [Vec::insert] after the rows that are not later. *)
Definition insert_row : list E2eMessage.t -> E2eMessage.t -> list E2eMessage.t :=
  insert_by_key E2eMessage.sent_at.

Definition sort_by_sent_at : list E2eMessage.t -> list E2eMessage.t :=
  sort_by_key E2eMessage.sent_at.

(** ** Records *)

Section Records.
Context {T : HistoryText} {A : Aead}.

Definition record_aad (index : N) : string := MAGIC +:+ to_le_bytes 8 index.

Definition seal_record (key nonce : string) (message : E2eMessage.t) (index : N)
    : result string E2eStoreError.t :=
  let? plain := io (message_to_vec message) in
  let? sealed := ok_or (aead_encrypt key nonce (record_aad index) plain)
                   E2eStoreError.Corrupted in
  if (U32_MAX <? str_len sealed)%N then Err E2eStoreError.Corrupted else
  Ok (to_le_bytes 4 (str_len sealed) +:+ nonce +:+ sealed).

(** The loop of [read_records]. A turn takes at least [LEN_FIELD + NONCE_LEN]
    bytes, so the length of the text is fuel enough ([read_loop_terminates]). *)
Fixpoint read_loop (fuel : nat) (key : string) (index : N) (rest : string)
    : result (list E2eMessage.t) E2eStoreError.t :=
  if is_empty rest then Ok [] else
  match fuel with
  | 0 => Err E2eStoreError.Corrupted
  | S fuel =>
      if (str_len rest <? LEN_FIELD + NONCE_LEN)%N then Err E2eStoreError.Corrupted else
      let len := from_le_bytes (str_take 4 rest) in
      let body := str_drop 4 rest in
      if (str_len body - NONCE_LEN <? len)%N then Err E2eStoreError.Corrupted else
      let nonce := str_take 24 body in
      let sealed := str_take (N.to_nat len) (str_drop 24 body) in
      let? plain := ok_or (aead_decrypt key nonce (record_aad index) sealed)
                      E2eStoreError.Corrupted in
      let? row := ok_or (message_from_slice plain) E2eStoreError.Corrupted in
      let? rows := read_loop fuel key (index + 1) (str_drop (N.to_nat len) (str_drop 24 body)) in
      Ok (row :: rows)
  end.

Definition read_records (key data : string) : result (list E2eMessage.t) E2eStoreError.t :=
  if negb (starts_with MAGIC data) then Err E2eStoreError.Corrupted else
  let rest := str_drop (String.length MAGIC) data in
  read_loop (String.length rest) key 0 rest.

(** The records of [rewrite_file], with the nonce that each seal draws. *)
Fixpoint seal_rows (key : string) (nonces : N -> string) (index : N)
    (rows : list E2eMessage.t) : result string E2eStoreError.t :=
  match rows with
  | [] => Ok ""
  | row :: rows =>
      let? record := seal_record key (nonces index) row index in
      let? records := seal_rows key nonces (index + 1) rows in
      Ok (record +:+ records)
  end.
End Records.

(** How the write and sync of a record at the end of a file ends; a failure
    may leave a part of the record, and [set_len] may fail to cut it. *)
Inductive append_outcome :=
| AppendOk
| AppendFails (written : string) (e : io_error) (cut : bool).

Record append_env := {
  record_nonce : string;
  (** What the existence test of the path meets. *)
  append_stat : option io_error;
  header_write : write_env;
  append_open : option io_error;
  append_seek : option io_error;
  appending : append_outcome;
}.

Definition append_record (env : append_env) (d : disk) (path record : string)
    : disk * result unit io_error :=
  let '(d, ready) :=
    if path_exists d path (append_stat env) then (d, Ok tt)
    else write_atomic (header_write env) d path MAGIC in
  match ready, append_open env, append_seek env, d !! path with
  | Err e, _, _, _ => (d, Err e)
  | Ok _, Some e, _, _ => (d, Err e)
  | Ok _, None, _, None => (d, Err "No such file or directory")
  | Ok _, None, Some e, Some _ => (d, Err e)
  | Ok _, None, None, Some old =>
      match appending env with
      | AppendOk => (<[path := old +:+ record]> d, Ok tt)
      | AppendFails written e cut =>
          (<[path := if cut then old else old +:+ written]> d, Err e)
      end
  end.

(** What a rewrite meets: the nonces and the file writer. *)
Record rewrite_env := { record_nonces : N -> string; rewriting : write_env }.

(** ** The store *)

Module E2eHistoryStore.
Record t := mk {
  path : string;
  key : string;
  messages : list E2eMessage.t;
  records : N;
}.

Section Store.
Context {T : HistoryText} {A : Aead}.

Definition read_file (d : disk) (s : t) (reading : option io_error)
    : result (list E2eMessage.t * N) E2eStoreError.t :=
  let? data := io (Files.read_file d (path s) reading) in
  let? rows := read_records (key s) data in
  Ok (sort_by_sent_at rows, lenN rows).

Record open_env := {
  directory : result unit io_error;
  lock_file : result unit io_error;
  (** [None]: taken; [Some None]: another holder; [Some (Some e)]: an error. *)
  lock : option (option io_error);
  provider : result string E2eStoreError.t;
  (** What the existence test of the path meets. *)
  stat : option io_error;
  reading : option io_error;
}.

Definition open (env : open_env) (d : disk) (path : string) : result t E2eStoreError.t :=
  let? _ := io (directory env) in
  let? _ := io (lock_file env) in
  let? _ := match lock env with
            | None => Ok tt
            | Some None => Err E2eStoreError.InUse
            | Some (Some e) => Err (E2eStoreError.Io e)
            end in
  let? key := provider env in
  let store := mk path key [] 0 in
  if negb (path_exists d path (stat env)) then Ok store else
  let? (rows, records) := read_file d store (reading env) in
  Ok (mk path key rows records).

Definition append (env : append_env) (d : disk) (s : t) (message : E2eMessage.t)
    : disk * t * result unit E2eStoreError.t :=
  match seal_record (key s) (record_nonce env) message (records s) with
  | Err e => (d, s, Err e)
  | Ok record =>
      let '(d, written) := append_record env d (path s) record in
      match written with
      | Err e => (d, s, Err (E2eStoreError.Io e))
      | Ok _ => (d, mk (path s) (key s) (insert_row (messages s) message) (records s + 1), Ok tt)
      end
  end.

Definition rewrite_file (env : rewrite_env) (d : disk) (s : t) (rows : list E2eMessage.t)
    : disk * result unit E2eStoreError.t :=
  match seal_rows (key s) (record_nonces env) 0 rows with
  | Err e => (d, Err e)
  | Ok sealed =>
      let '(d, written) := write_atomic (rewriting env) d (path s) (MAGIC +:+ sealed) in
      (d, io written)
  end.

(** [iter().position]. *)
Fixpoint position (id : string) (rows : list E2eMessage.t) : option nat :=
  match rows with
  | [] => None
  | row :: rows => if decide (E2eMessage.id row = id) then Some 0 else S <$> position id rows
  end.

Definition add_capture (env : rewrite_env) (d : disk) (s : t) (id : string)
    (capture : E2eCapture.t) : disk * t * result bool E2eStoreError.t :=
  match position id (messages s) with
  | None => (d, s, Ok false)
  | Some at_ =>
      let rows := alter (E2eMessage.push_capture capture) at_ (messages s) in
      let '(d, written) := rewrite_file env d s rows in
      match written with
      | Err e => (d, s, Err e)
      | Ok _ => (d, mk (path s) (key s) rows (records s), Ok true)
      end
  end.

Definition in_conversation (conversation_id : option string) (m : E2eMessage.t) : bool :=
  match conversation_id with
  | None => true
  | Some id => bool_decide (E2eMessage.conversation_id m = id)
  end.

Definition search_captures (s : t) (conversation_id : option string) (needle : string)
    : list E2eMessage.t :=
  let needle := fold_case needle in
  if is_empty needle then [] else
  List.filter (fun message =>
    in_conversation conversation_id message &&
    existsb (fun capture =>
      contains_str needle (fold_case (E2eCapture.payload capture)) ||
      match E2eCapture.msgid capture with
      | Some msgid => contains_str needle (fold_case msgid)
      | None => false
      end) (E2eMessage.captures message)) (messages s).

(** The method [messages]; the field has the name here. *)
Definition messages_of (s : t) (conversation_id : string) : list E2eMessage.t :=
  List.filter (in_conversation (Some conversation_id)) (messages s).

Definition search (s : t) (conversation_id : option string) (needle : string)
    : list E2eMessage.t :=
  let needle := fold_case needle in
  if is_empty needle then [] else
  List.filter (fun message =>
    in_conversation conversation_id message &&
    contains_str needle (fold_case (E2eMessage.text message))) (messages s).

Definition conversation_ids (s : t) : list string :=
  foldl (fun ids message =>
    if contains ids (E2eMessage.conversation_id message) then ids
    else ids ++ [E2eMessage.conversation_id message]) [] (messages s).

Definition delete_conversation (env : rewrite_env) (d : disk) (s : t)
    (conversation_id : string) : disk * t * result unit E2eStoreError.t :=
  let kept := List.filter (fun m => negb (in_conversation (Some conversation_id) m))
                (messages s) in
  let '(d, written) := rewrite_file env d s kept in
  match written with
  | Err e => (d, s, Err e)
  | Ok _ => (d, mk (path s) (key s) kept (lenN kept), Ok tt)
  end.

(** [fs::remove_file]; a file that is not there is no error. *)
Definition delete_all (removing : option io_error) (d : disk) (s : t)
    : disk * t * result unit E2eStoreError.t :=
  match removing with
  | Some e => (d, s, Err (E2eStoreError.Io e))
  | None => (delete (path s) d, mk (path s) (key s) [] 0, Ok tt)
  end.
End Store.
End E2eHistoryStore.
