(* ===== verification/HistoryFacts.v ===== *)
(** * Theorems on the sealed history and its key *)

From S2P Require Import Prelude.
From S2P Require Import RustStr.
From S2P Require Import Interfaces.
From S2P Require Import Concrete.
From S2P Require Import Files.
From S2P Require Import History.
From stdpp Require Import options.

(** ** The key *)

Section Key.
Context {C : Crypto} {HB : Base64Laws}.

(** Loads of the key of one data folder, each with what it meets. *)
Definition load_step (username : string) (ring : keyring) (env : key_env)
    : keyring * result string E2eStoreError.t :=
  load_or_create_locked env ring username.

Lemma load_keeps env ring username user :
  let '(ring', _) := load_or_create_locked env ring username in
  forall text, ring !! (KEY_SERVICE, user) = Some text ->
    ring' !! (KEY_SERVICE, user) = Some text.
Proof.
  unfold load_or_create_locked.
  destruct (lock_open env), (lock_wait env), (secret_read env); try done.
  destruct (ring !! (KEY_SERVICE, username)) eqn:E; [done|].
  assert (forall text, ring !! (KEY_SERVICE, user) = Some text ->
    <[(KEY_SERVICE, username) := b64_encode (generated env)]> ring !! (KEY_SERVICE, user) =
    Some text).
  { intros text Ht. unfold keyring. rewrite lookup_insert_ne; [done|].
    intros [= ->]. congruence. }
  destruct (secret_write env) as [|[]]; done.
Qed.

Lemma load_stored env ring username ring' key :
  str_len (generated env) = KEY_LEN ->
  load_or_create_locked env ring username = (ring', Ok key) ->
  exists text, ring' !! (KEY_SERVICE, username) = Some text /\ decode_stored_key text = Ok key.
Proof using HB.
  intros Hg. unfold load_or_create_locked.
  destruct (lock_open env), (lock_wait env), (secret_read env); try done.
  destruct (ring !! (KEY_SERVICE, username)) as [text|] eqn:E; [naive_solver|].
  destruct (secret_write env) as [|[]]; try done. intros [= <- <-].
  eexists. unfold keyring. rewrite lookup_insert_eq. split; [done|]. unfold decode_stored_key.
  rewrite b64_decode_encode. simpl. by rewrite Hg.
Qed.

Lemma load_run_fixed username ring envs text :
  ring !! (KEY_SERVICE, username) = Some text ->
  forall key, Ok key ∈ (run (load_step username) ring envs).2 -> decode_stored_key text = Ok key.
Proof.
  revert ring. induction envs as [|env envs IH]; intros ring Ht key Hk; [by apply not_elem_of_nil in Hk|].
  simpl in Hk. pose proof (load_keeps env ring username username) as Hkeep.
  unfold load_step at 1 in Hk. destruct (load_or_create_locked env ring username) as [ring1 r] eqn:E.
  specialize (IH ring1 (Hkeep _ Ht)).
  destruct (run (load_step username) ring1 envs) as [ring2 rs]. simpl in *.
  apply elem_of_cons in Hk as [<-|Hk]; [|by apply IH].
  unfold load_or_create_locked in E. rewrite Ht in E.
  destruct (lock_open env), (lock_wait env), (secret_read env); by simplify_eq.
Qed.

(** A data folder has one key for its life: whatever fails on the way (the
    lock, the keyring, a write that failed but was stored), every load that
    gives a key gives the same one, and no load changes an entry that the
    keyring holds, of this folder or of another. *)
Theorem key_never_replaced (username : string) (ring : keyring) (envs : list key_env)
    (Hg : Forall (fun env => str_len (generated env) = KEY_LEN) envs) :
  (forall key key', Ok key ∈ (run (load_step username) ring envs).2 ->
     Ok key' ∈ (run (load_step username) ring envs).2 -> key = key') /\
  (forall user text, ring !! (KEY_SERVICE, user) = Some text ->
     (run (load_step username) ring envs).1 !! (KEY_SERVICE, user) = Some text).
Proof using HB.
  split.
  - revert ring Hg. induction envs as [|env envs IH]; intros ring Hg; [set_solver|].
    apply Forall_cons in Hg as [Hg1 Hg]. simpl.
    destruct (load_step username ring env) as [ring1 r] eqn:E. unfold load_step in E.
    specialize (IH ring1 Hg). destruct r as [key0|e].
    + apply load_stored in E as (text & Ht & Hd); [|done].
      pose proof (load_run_fixed username ring1 envs text Ht) as Hfix.
      destruct (run (load_step username) ring1 envs) as [ring2 rs]. simpl in *.
      assert (forall key, Ok key ∈ Ok key0 :: rs -> key = key0) as Hall.
      { intros key [?|Hk]%elem_of_cons; [congruence|]. apply Hfix in Hk. congruence. }
      intros key key' H1 H2. by rewrite (Hall key H1), (Hall key' H2).
    + destruct (run (load_step username) ring1 envs) as [ring2 rs]. simpl in *.
      intros key key' [?|H1]%elem_of_cons [?|H2]%elem_of_cons; naive_solver.
  - intros user text Ht. apply run_invariant; [done|].
    intros ring' env H. pose proof (load_keeps env ring' username user) as Hkeep.
    unfold load_step. destruct (load_or_create_locked env ring' username). by apply Hkeep.
Qed.
End Key.

(** ** The order of the rows *)

Definition not_later : relation E2eMessage.t := by_key E2eMessage.sent_at.

Lemma list_filter_sublist {A} (p : A -> bool) (l : list A) : sublist (List.filter p l) l.
Proof.
  induction l as [|x l IH]; simpl; [constructor|]. destruct (p x); by constructor.
Qed.

Lemma list_filter_none {A} (p : A -> bool) (l : list A) :
  (forall x, x ∈ l -> p x = false) -> List.filter p l = [].
Proof.
  induction l as [|x l IH]; intros H; simpl; [done|].
  rewrite H by left. apply IH. intros y Hy. apply H. by right.
Qed.

Lemma list_filter_keep {A} (p q : A -> bool) (l : list A) :
  (forall x, p x = true -> q x = true) -> List.filter p (List.filter q l) = List.filter p l.
Proof.
  intros H. induction l as [|x l IH]; simpl; [done|]. destruct (q x) eqn:Eq; simpl.
  - by rewrite IH.
  - destruct (p x) eqn:Ep; [|done]. apply H in Ep. congruence.
Qed.

(** ** Records *)

Section Records.
Context {T : HistoryText} {A : Aead}.

(** The bytes of one record of [row] at [index]. *)
Definition is_record (key : string) (index : N) (record : string) (row : E2eMessage.t) : Prop :=
  exists nonce sealed plain,
    record = to_le_bytes 4 (str_len sealed) +:+ nonce +:+ sealed /\
    (str_len sealed <= U32_MAX)%N /\ str_len nonce = NONCE_LEN /\
    aead_decrypt key nonce (record_aad index) sealed = Some plain /\
    message_from_slice plain = Some row.

Fixpoint is_records (key : string) (index : N) (rows : list E2eMessage.t) (data : string)
    : Prop :=
  match rows with
  | [] => data = ""
  | row :: rows => exists record rest, data = record +:+ rest /\
      is_record key index record row /\ is_records key (index + 1) rows rest
  end.

(** The three fields of a record in front of [rest]. *)
Lemma record_fields nonce sealed rest :
  (str_len sealed <= U32_MAX)%N -> str_len nonce = NONCE_LEN ->
  let data := (to_le_bytes 4 (str_len sealed) +:+ nonce +:+ sealed) +:+ rest in
  from_le_bytes (str_take 4 data) = str_len sealed /\
  str_drop 4 data = nonce +:+ sealed +:+ rest /\
  str_take 24 (nonce +:+ sealed +:+ rest) = nonce /\
  str_drop 24 (nonce +:+ sealed +:+ rest) = sealed +:+ rest /\
  str_take (N.to_nat (str_len sealed)) (sealed +:+ rest) = sealed /\
  str_drop (N.to_nat (str_len sealed)) (sealed +:+ rest) = rest.
Proof.
  intros Hs Hn data. unfold data. rewrite !str_app_assoc.
  pose proof (to_le_bytes_length 4 (str_len sealed)) as H4.
  assert (String.length nonce = 24) as H24 by (unfold str_len, NONCE_LEN in Hn; lia).
  assert (N.to_nat (str_len sealed) = String.length sealed) as -> by (unfold str_len; lia).
  assert (from_le_bytes (to_le_bytes 4 (str_len sealed)) = str_len sealed) as H5.
  { apply from_to_le_bytes. unfold U32_MAX in Hs. change (256 ^ N.of_nat 4)%N with 4294967296%N. lia. }
  set (head := to_le_bytes 4 (str_len sealed)) in *. clearbody head.
  rewrite <-H4 at 1 2. rewrite <-H24. rewrite !str_take_app, !str_drop_app. done.
Qed.

Lemma str_len_pos s : is_empty s = false -> (0 < str_len s)%N.
Proof. destruct s; [done|]. unfold str_len. simpl. lia. Qed.

Lemma is_record_long key index record row :
  is_record key index record row -> (LEN_FIELD + NONCE_LEN <= str_len record)%N.
Proof.
  intros (nonce & sealed & plain & -> & _ & Hn & _). rewrite !str_len_app, Hn.
  unfold str_len at 1. rewrite to_le_bytes_length. unfold LEN_FIELD. lia.
Qed.

(** One turn of the loop reads one record. *)
Lemma read_loop_step fuel key index rest row rows :
  String.length rest <= S fuel ->
  (read_loop (S fuel) key index rest = Ok (row :: rows) <->
   exists record tail, rest = record +:+ tail /\ String.length tail <= fuel /\
     is_record key index record row /\ read_loop fuel key (index + 1) tail = Ok rows).
Proof.
  intros Hfuel. split.
  - cbn [read_loop]. destruct (is_empty rest) eqn:He; [naive_solver|].
    destruct (N.ltb_spec (str_len rest) (LEN_FIELD + NONCE_LEN)) as [|Hlong]; [done|].
    destruct (str_cut 4 rest) as (head & body & -> & Hh & Ht4 & Hd4);
      [unfold str_len, LEN_FIELD, NONCE_LEN in Hlong; lia|]. rewrite Ht4, Hd4.
    rewrite str_len_app in Hlong.
    assert (str_len head = LEN_FIELD) as Hh' by (unfold str_len, LEN_FIELD; lia).
    destruct (N.ltb_spec (str_len body - NONCE_LEN) (from_le_bytes head)) as [|Hlen]; [done|].
    destruct (str_cut 24 body) as (nonce & tail & -> & Hn & Ht & Hd);
      [unfold str_len, LEN_FIELD, NONCE_LEN in *; lia|]. rewrite Ht, Hd.
    rewrite str_len_app in Hlen.
    destruct (str_cut (N.to_nat (from_le_bytes head)) tail) as (sealed & rest & -> & Hs & Ht' & Hd');
      [unfold str_len, NONCE_LEN in *; lia|]. rewrite Ht', Hd'.
    intros H. inv_result.
    assert (from_le_bytes head = str_len sealed) as Hls by (unfold str_len; lia).
    exists (head +:+ nonce +:+ sealed), rest.
    split; [by rewrite !str_app_assoc|]. split.
    { rewrite !str_length_app in Hfuel. lia. }
    split; [|done]. exists nonce, sealed, a.
    split_and!; [| |unfold str_len, NONCE_LEN; lia|done..].
    + rewrite <-Hls, <-Hh. by rewrite to_from_le_bytes.
    + rewrite <-Hls, <-(to_from_le_bytes head), Hh. clear.
      generalize (from_le_bytes head). intros n. unfold U32_MAX.
      simpl to_le_bytes. simpl from_le_bytes. unfold code, byte_of.
      rewrite !Ascii.N_ascii_embedding by (apply N.mod_lt; lia).
      pose proof (N.mod_lt n 256). pose proof (N.mod_lt (n / 256) 256).
      pose proof (N.mod_lt (n / 256 / 256) 256). pose proof (N.mod_lt (n / 256 / 256 / 256) 256).
      lia.
  - intros (record & tail & -> & Ht & Hrec & Hrows). pose proof (is_record_long _ _ _ _ Hrec) as Hl.
    destruct Hrec as (nonce & sealed & plain & -> & Hs & Hn & Hdec & Hrow).
    destruct (record_fields nonce sealed tail Hs Hn) as (E1 & E2 & E3 & E4 & E5 & E6).
    cbn [read_loop].
    destruct (is_empty _) eqn:He.
    { apply is_empty_true in He. apply (f_equal str_len) in He. rewrite !str_len_app in *.
      unfold LEN_FIELD in Hl. change (str_len "") with 0%N in He. lia. }
    rewrite (proj2 (N.ltb_ge _ _)) by (rewrite str_len_app; lia).
    rewrite E1, E2, E3, E4, E5, E6.
    rewrite (proj2 (N.ltb_ge _ _)) by (rewrite !str_len_app, Hn; lia).
    rewrite Hdec. simpl. rewrite Hrow. simpl. by rewrite Hrows.
Qed.

Lemma read_loop_nil fuel key index rest :
  read_loop fuel key index rest = Ok [] <-> rest = "".
Proof.
  split; [|intros ->; by destruct fuel].
  destruct fuel; cbn [read_loop]; destruct (is_empty rest) eqn:He; try by apply is_empty_true in He.
  - done.
  - intros H. repeat case_match; inv_result.
Qed.

Lemma read_loop_ok fuel key index rest rows :
  String.length rest <= fuel ->
  read_loop fuel key index rest = Ok rows <-> is_records key index rows rest.
Proof.
  revert key index rest rows. induction fuel as [|fuel IH]; intros key index rest rows Hf;
    (destruct rows as [|row rows]; [apply read_loop_nil|]).
  - destruct rest; [|simpl in Hf; lia]. simpl. split; [done|].
    intros (record & tail & Heq & Hrec & _). apply is_record_long in Hrec.
    apply (f_equal str_len) in Heq. rewrite str_len_app in Heq.
    unfold LEN_FIELD in Hrec. change (str_len "") with 0%N in Heq. lia.
  - rewrite read_loop_step by done. split.
    + intros (record & tail & -> & Ht & Hrec & Hrows). exists record, tail.
      split_and!; [done..|]. by apply IH.
    + intros (record & tail & -> & Hrec & Hrows). exists record, tail.
      assert (String.length tail <= fuel).
      { apply is_record_long in Hrec. rewrite str_length_app in Hf.
        unfold str_len, LEN_FIELD in Hrec. lia. }
      split_and!; [done..|]. by apply IH.
Qed.

Lemma read_loop_errors fuel key index rest e :
  read_loop fuel key index rest = Err e -> e = E2eStoreError.Corrupted.
Proof.
  revert index rest. induction fuel as [|fuel IH]; intros index rest; cbn [read_loop];
    (destruct (is_empty rest); [done|]); [congruence|].
  repeat (case_match; [congruence|]).
  intros Herr. apply rbind_err in Herr as [Herr|(plain & _ & Herr)];
    [by destruct (aead_decrypt _ _ _ _); simplify_eq/=|].
  apply rbind_err in Herr as [Herr|(row & _ & Herr)];
    [by destruct (message_from_slice _); simplify_eq/=|].
  apply rbind_err in Herr as [Herr|(rows & _ & Herr)]; [by eapply IH|done].
Qed.

Lemma str_drop_length n s : String.length (str_drop n s) = String.length s - n.
Proof. revert s. induction n as [|n IH]; intros [|c s]; simpl; auto. Qed.

Lemma read_loop_fuels fuel fuel' key index rest :
  String.length rest <= 28 * fuel -> String.length rest <= 28 * fuel' ->
  read_loop fuel key index rest = read_loop fuel' key index rest.
Proof.
  revert fuel' index rest. induction fuel as [|fuel IH]; intros fuel' index rest H H'.
  - destruct rest; [|simpl in H; lia]. by destruct fuel'.
  - destruct rest as [|c rest0] eqn:Er; [by destruct fuel'|]. rewrite <-Er in *.
    destruct fuel' as [|fuel']; [rewrite Er in H'; simpl in H'; lia|].
    cbn [read_loop]. destruct (is_empty rest); [done|].
    destruct (N.ltb_spec (str_len rest) (LEN_FIELD + NONCE_LEN)) as [|Hl]; [done|].
    unfold str_len, LEN_FIELD, NONCE_LEN in Hl. rewrite (IH fuel'); [done| |];
      rewrite !str_drop_length; lia.
Qed.

(** The reader of a history always ends. A turn of its loop takes the 28
    bytes of a length and a nonce at least, so one turn for each 28 bytes of a
    file, whatever these bytes are, gives the answer, and no further turn
    changes it. *)
Theorem read_loop_terminates (fuel : nat) (key : string) (index : N) (rest : string)
    (Hfuel : String.length rest <= 28 * fuel) :
  read_loop fuel key index rest = read_loop (String.length rest) key index rest.
Proof. apply read_loop_fuels; lia. Qed.

Lemma read_records_ok key data rows :
  read_records key data = Ok rows <->
  exists records, data = MAGIC +:+ records /\ is_records key 0 rows records.
Proof.
  unfold read_records. split.
  - destruct (starts_with MAGIC data) eqn:E; [|done]. cbn [negb].
    apply starts_with_split in E as [records ->]. rewrite str_drop_app.
    rewrite read_loop_ok by done. eauto.
  - intros (records & -> & H). rewrite starts_with_app, str_drop_app. cbn [negb].
    by apply read_loop_ok.
Qed.

Lemma read_records_errors key data e :
  read_records key data = Err e -> e = E2eStoreError.Corrupted.
Proof. unfold read_records. destruct (negb _); [congruence|]. apply read_loop_errors. Qed.

(** A history file is read exactly when it is the header and one record
    for each row, each sealed for its own index; any other file is an error
    of its own, never a shorter or an empty history. *)
Theorem history_read_exact (key data : string) :
  (forall rows, read_records key data = Ok rows <->
     exists records, data = MAGIC +:+ records /\ is_records key 0 rows records) /\
  (forall e, read_records key data = Err e -> e = E2eStoreError.Corrupted).
Proof.
  split; [intros rows; apply read_records_ok|].
  intros e. apply read_records_errors.
Qed.

Lemma record_unique key index record row index' record' row' tail tail' :
  is_record key index record row -> is_record key index' record' row' ->
  record +:+ tail = record' +:+ tail' -> record = record' /\ tail = tail'.
Proof.
  intros (nonce & sealed & plain & -> & Hs & Hn & _) (nonce' & sealed' & plain' & -> & Hs' & Hn' & _)
    Heq.
  destruct (record_fields nonce sealed tail Hs Hn) as (E1 & E2 & E3 & E4 & E5 & E6).
  destruct (record_fields nonce' sealed' tail' Hs' Hn') as (F1 & F2 & F3 & F4 & F5 & F6).
  rewrite Heq in E1, E2. rewrite F1 in E1. rewrite F2 in E2. rewrite <-E2 in E3, E4.
  rewrite F3 in E3. rewrite F4 in E4. rewrite <-E4, <-E1 in E5, E6.
  rewrite F5 in E5. rewrite F6 in E6. by subst.
Qed.

Lemma is_records_app key index rows rows' data data' :
  is_records key index rows data ->
  is_records key (index + lenN rows) rows' data' ->
  is_records key index (rows ++ rows') (data +:+ data').
Proof.
  revert index data. induction rows as [|row rows IH]; intros index data; simpl.
  - intros -> H. by rewrite N.add_0_r in H.
  - intros (record & rest & -> & Hrec & Hrest) H. exists record, (rest +:+ data').
    split; [by rewrite str_app_assoc|]. split; [done|]. apply IH; [done|].
    replace (index + 1 + lenN rows)%N with (index + lenN (row :: rows))%N; [done|].
    unfold lenN. simpl. lia.
Qed.

Lemma torn_not_records key index rows data row part more rows' :
  is_records key index rows data ->
  is_record key (index + lenN rows) (part +:+ more) row ->
  part <> "" -> more <> "" ->
  ~ is_records key index rows' (data +:+ part).
Proof.
  revert index data rows'. induction rows as [|r rows IH]; intros index data rows' Hd Hrec Hp Hm.
  - simpl in Hd. subst data. destruct rows' as [|r' rows']; [done|].
    intros (record & tail & Heq & Hrec' & _). rewrite str_app_nil_l in Heq. subst part.
    pose proof (record_unique _ _ _ _ _ _ _ "" (tail +:+ more) Hrec Hrec') as Hu.
    rewrite str_app_nil_r, str_app_assoc in Hu. destruct (Hu eq_refl) as [_ Hu2].
    symmetry in Hu2. apply (f_equal str_len) in Hu2. rewrite str_len_app in Hu2.
    apply Hm. destruct more; [done|]. unfold str_len in Hu2. simpl in Hu2. lia.
  - destruct Hd as (record & rest & -> & Hr & Hrest).
    destruct rows' as [|r' rows']; simpl.
    + intros Heq. apply (f_equal str_len) in Heq. rewrite !str_len_app in Heq.
      apply is_record_long in Hr. unfold LEN_FIELD in Hr. change (str_len "") with 0%N in Heq. lia.
    + intros (record' & tail & Heq & Hr' & Htail). rewrite str_app_assoc in Heq.
      destruct (record_unique _ _ _ _ _ _ _ _ _ Hr Hr' Heq) as [<- <-].
      eapply (IH (index + 1)%N rest rows'); [done| |done..|done].
      replace (index + 1 + lenN rows)%N with (index + lenN (r :: rows))%N; [done|].
      unfold lenN. simpl. lia.
Qed.

Lemma torn_records_corrupted key rows data row part more :
  read_records key data = Ok rows ->
  is_record key (lenN rows) (part +:+ more) row ->
  part <> "" -> more <> "" ->
  read_records key (data +:+ part) = Err E2eStoreError.Corrupted.
Proof.
  intros Hd Hrec Hp Hm. destruct (read_records key (data +:+ part)) as [rows'|e] eqn:E.
  - apply read_records_ok in Hd as (records & -> & Hd).
    apply read_records_ok in E as (records' & Heq & E). rewrite str_app_assoc in Heq.
    assert (records' = records +:+ part) as ->.
    { apply (f_equal (str_drop (String.length MAGIC))) in Heq. by rewrite !str_drop_app in Heq. }
    exfalso. rewrite <-(N.add_0_l (lenN rows)) in Hrec.
    exact (torn_not_records _ _ _ _ _ _ _ _ Hd Hrec Hp Hm E).
  - f_equal. by eapply read_records_errors.
Qed.

Context {HT : HistoryTextLaws} {HA : AeadLaws}.

Lemma seal_record_ok key nonce m index record :
  str_len nonce = NONCE_LEN -> seal_record key nonce m index = Ok record ->
  is_record key index record m.
Proof using HT HA.
  intros Hn. unfold seal_record, io. intros H. inv_checks. apply N.ltb_ge in Hcheck.
  exists nonce, a0, a. split_and!; [done..| |].
  - by apply aead_round.
  - by apply message_text_round.
Qed.

Lemma seal_rows_ok key nonces index rows sealed :
  (forall i, str_len (nonces i) = NONCE_LEN) ->
  seal_rows key nonces index rows = Ok sealed -> is_records key index rows sealed.
Proof using HT HA.
  intros Hn. revert index sealed. induction rows as [|row rows IH]; intros index sealed H.
  - simpl in H. by simplify_eq.
  - cbn [seal_rows] in H. inv_result. exists a, a0. split_and!; [done| |by apply IH].
    by apply seal_record_ok in Hstep.
Qed.
End Records.

(** ** The store *)

Section Store.
Context {T : HistoryText} {A : Aead}.
Import E2eHistoryStore.

(** An operation that may change the store, with what it meets. *)
Inductive history_op :=
| Append (env : append_env) (m : E2eMessage.t)
| AddCapture (env : rewrite_env) (id : string) (capture : E2eCapture.t)
| DeleteConversation (env : rewrite_env) (id : string)
| DeleteAll (removing : option io_error).

Definition history_step (d : disk) (s : t) (o : history_op)
    : disk * t * result unit E2eStoreError.t :=
  match o with
  | Append env m => append env d s m
  | AddCapture env id capture =>
      let '(d, s, r) := add_capture env d s id capture in
      (d, s, rmap (fun _ => tt) r)
  | DeleteConversation env id => delete_conversation env d s id
  | DeleteAll removing => delete_all removing d s
  end.

Fixpoint history_run (d : disk) (s : t) (ops : list history_op) : disk * t :=
  match ops with
  | [] => (d, s)
  | o :: ops => let '(d, s, _) := history_step d s o in history_run d s ops
  end.

(** What the code relies on: nonces have their length, a temporary file is not
    the history, and the existence test of an append does not fail. *)
Definition op_ok (path : string) (o : history_op) : Prop :=
  match o with
  | Append env _ =>
      str_len (record_nonce env) = NONCE_LEN /\ temp (header_write env) <> path /\
      append_stat env = None
  | AddCapture env _ _ | DeleteConversation env _ =>
      (forall i, str_len (record_nonces env i) = NONCE_LEN) /\ temp (rewriting env) <> path
  | DeleteAll _ => True
  end.

(** The file holds the rows of the store. *)
Definition holds (d : disk) (s : t) : Prop :=
  match d !! path s with
  | None => messages s = [] /\ records s = 0%N
  | Some data => exists rows, read_records (key s) data = Ok rows /\
      messages s = sort_by_sent_at rows /\ records s = lenN rows
  end.

Lemma holds_sorted d s : holds d s -> StronglySorted not_later (messages s).
Proof.
  unfold holds. destruct (d !! path s).
  - intros (rows & _ & -> & _). apply sort_sorted.
  - intros [-> _]. constructor.
Qed.

Lemma holds_records d s : holds d s -> records s = lenN (messages s).
Proof.
  unfold holds. destruct (d !! path s).
  - intros (rows & _ & -> & ->). unfold lenN. unfold sort_by_sent_at; by rewrite sort_perm.
  - by intros [-> ->].
Qed.

Lemma holds_ext d d' s : d' !! path s = d !! path s -> holds d s -> holds d' s.
Proof. unfold holds. by intros ->. Qed.

Lemma open_holds env d s :
  holds d s -> directory env = Ok tt -> lock_file env = Ok tt -> lock env = None ->
  provider env = Ok (key s) -> stat env = None -> reading env = None -> open env d (path s) = Ok s.
Proof.
  intros Hh H1 H2 H3 H4 H5 H6. unfold open. rewrite H1, H2, H3, H4. cbn [io map_err rbind].
  unfold holds in Hh. destruct (d !! path s) as [data|] eqn:E.
  - rewrite (path_exists_true _ _ _ _ E H5). destruct Hh as (rows & Hr & Hm & Hn).
    unfold read_file, Files.read_file, io. cbn [negb path key].
    rewrite H6, E. cbn [ok_or map_err rbind]. rewrite Hr. cbn [rbind]. rewrite <-Hm, <-Hn.
    by destruct s.
  - rewrite (path_exists_none _ _ _ E). destruct Hh as [Hm Hn]. cbn [negb].
    rewrite <-Hm, <-Hn. by destruct s.
Qed.

(** A write of a record that the disk broke off and did not let cut. *)
Definition cut_fails (env : append_env) : bool :=
  match append_open env, append_seek env, appending env with
  | None, None, AppendFails written _ false => negb (is_empty written)
  | _, _, _ => false
  end.

Lemma append_record_spec env d path record :
  temp (header_write env) <> path -> append_stat env = None ->
  let '(d', r) := append_record env d path record in
  match r with
  | Ok _ => d' !! path = Some (default MAGIC (d !! path) +:+ record)
  | Err _ =>
      d' !! path = d !! path \/ (d !! path = None /\ d' !! path = Some MAGIC) \/
      (cut_fails env = true /\
       exists part, d' !! path = Some (default MAGIC (d !! path) +:+ part))
  end.
Proof.
  intros Ht Hstat. unfold append_record.
  assert (exists d1 ready,
    (if path_exists d path (append_stat env) then (d, Ok tt)
     else write_atomic (header_write env) d path MAGIC) = (d1, ready) /\
    match ready with
    | Ok _ => d1 !! path = Some (default MAGIC (d !! path))
    | Err _ => d1 !! path = d !! path
    end) as (d1 & ready & -> & Hready).
  { destruct (d !! path) as [old|] eqn:E.
    { rewrite (path_exists_true _ _ _ _ E Hstat). by exists d, (Ok tt). }
    rewrite (path_exists_none _ _ _ E).
    pose proof (write_atomic_spec (header_write env) d path MAGIC Ht) as Hw.
    destruct (write_atomic (header_write env) d path MAGIC) as [d1 r].
    exists d1, r. split; [done|]. destruct Hw as [Hw _]. destruct r; simpl; congruence. }
  destruct ready as [[]|e]; [|by left].
  assert (d1 !! path = d !! path \/ d !! path = None /\ d1 !! path = Some MAGIC) as Hsame.
  { rewrite Hready. destruct (d !! path); simpl; auto. }
  destruct (append_open env) as [e|] eqn:Ho; [destruct Hsame; auto|].
  destruct (append_seek env) as [e|] eqn:Hk; rewrite Hready; [destruct Hsame; auto|].
  unfold disk in *. destruct (appending env) as [|written e cut] eqn:Ha.
  - by rewrite lookup_insert_eq.
  - rewrite lookup_insert_eq. destruct cut.
    + destruct (d !! path); simpl; auto.
    + destruct (is_empty written) eqn:Hw.
      * assert (written = "") as -> by by destruct written. rewrite str_app_nil_r.
        destruct (d !! path); simpl; auto.
      * right; right. split; [|by eexists]. unfold cut_fails. by rewrite Ho, Hk, Ha, Hw.
Qed.

Context {HT : HistoryTextLaws} {HA : AeadLaws}.

Lemma rewrite_file_holds env d s rows :
  (forall i, str_len (record_nonces env i) = NONCE_LEN) -> temp (rewriting env) <> path s ->
  StronglySorted not_later rows ->
  let '(d', r) := rewrite_file env d s rows in
  match r with
  | Ok _ => holds d' (mk (path s) (key s) rows (lenN rows))
  | Err _ => d' !! path s = d !! path s
  end.
Proof using HT HA.
  intros Hn Ht Hs. unfold rewrite_file.
  destruct (seal_rows (key s) (record_nonces env) 0 rows) as [sealed|e] eqn:E; [|done].
  pose proof (write_atomic_spec (rewriting env) d (path s) (MAGIC +:+ sealed) Ht) as Hw.
  destruct (write_atomic _ _ _ _) as [d' r]. destruct Hw as [Hw _].
  destruct r as [[]|e]; simpl; [|done]. unfold holds. simpl. rewrite Hw.
  exists rows. split_and!; [|symmetry; by apply sort_id|done].
  apply read_records_ok. exists sealed. split; [done|]. by eapply seal_rows_ok.
Qed.

(** What a file keeps when a record stays torn in it: the rows that were there
    before, at its head, in full; the memory of the store is whole. *)
Definition kept (d : disk) (s : t) : Prop :=
  StronglySorted not_later (messages s) /\ records s = lenN (messages s) /\
  exists data rest rows, d !! path s = Some (data +:+ rest) /\
    read_records (key s) data = Ok rows /\ Forall (fun row => row ∈ messages s) rows.

Lemma sort_in rows row : row ∈ sort_by_sent_at rows <-> row ∈ rows.
Proof. unfold sort_by_sent_at. by rewrite sort_perm. Qed.

Lemma holds_kept d s data : holds d s -> d !! path s = Some data -> kept d s.
Proof.
  intros Hh Hd. split_and!; [by eapply holds_sorted|by eapply holds_records|].
  unfold holds in Hh. rewrite Hd in Hh. destruct Hh as (rows & Hr & Hm & _).
  exists data, "", rows. rewrite str_app_nil_r. split_and!; [done|done|].
  apply Forall_forall. intros row Hrow. by rewrite Hm, sort_in.
Qed.

(** The state of the pair of file and memory: the file is the history, or a
    record stays torn in it. *)
Definition stored (torn : bool) (d : disk) (s : t) : Prop :=
  if torn then kept d s else holds d s.

(** Whether a record stays torn after a step: an append that broke off and was
    not cut tears the file, a step that writes the whole file mends it. *)
Definition tears (torn : bool) (d d' : disk) (s : t) (o : history_op)
    (r : result unit E2eStoreError.t) : bool :=
  match o, r with
  | Append env _, Err _ => torn || (cut_fails env && bool_decide (is_Some (d' !! path s)))
  | AddCapture _ id _, Ok _ => torn && bool_decide (position id (messages s) = None)
  | (DeleteConversation _ _ | DeleteAll _), Ok _ => false
  | _, _ => torn
  end.

Lemma stored_sorted torn d s : stored torn d s -> StronglySorted not_later (messages s).
Proof. destruct torn; [by intros []|apply holds_sorted]. Qed.

Lemma stored_records torn d s : stored torn d s -> records s = lenN (messages s).
Proof. destruct torn; [by intros (_ & ? & _)|apply holds_records]. Qed.

Lemma stored_ext torn d d' s : d' !! path s = d !! path s -> stored torn d s -> stored torn d' s.
Proof.
  destruct torn; [|apply holds_ext]. unfold stored, kept. by intros ->.
Qed.

Lemma append_stored torn env d s m :
  op_ok (path s) (Append env m) -> stored torn d s ->
  let '(d', s', r) := append env d s m in
  stored (tears torn d d' s (Append env m) r) d' s' /\ path s' = path s /\ key s' = key s.
Proof using HT HA.
  intros (Hn & Ht & Hstat) Hh. unfold append, tears.
  destruct (seal_record _ _ _ _) as [record|e] eqn:E.
  2: { split; [|done]. destruct torn; [done|]. cbn.
       destruct (cut_fails env); [|done]. case_bool_decide as Hd; [|done].
       destruct Hd as [data Hd]. by eapply holds_kept. }
  apply seal_record_ok in E; [|done].
  pose proof (append_record_spec env d (path s) record Ht Hstat) as Hw.
  destruct (append_record env d (path s) record) as [d' r]. destruct r as [[]|e]; (split; [|done]).
  - destruct torn; simpl.
    + destruct Hh as (Hs & Hc & data & rest & rows & Hd & Hr & Hall). rewrite Hd in Hw. split_and!; simpl.
      * unfold insert_row. by apply insert_by_key_sorted.
      * rewrite Hc. unfold lenN, insert_row. rewrite insert_by_key_perm. cbn. lia.
      * exists data, (rest +:+ record), rows. split_and!; [by rewrite Hw, <- str_app_assoc|done|].
        eapply Forall_impl; [exact Hall|]. intros row Hrow. unfold insert_row.
        rewrite insert_by_key_perm. by right.
    + unfold stored, holds in *. simpl. rewrite Hw. destruct (d !! path s) as [data|]; simpl.
      * destruct Hh as (rows & Hr & Hm & Hc). exists (rows ++ [m]).
        unfold sort_by_sent_at; rewrite sort_snoc; fold sort_by_sent_at;
          rewrite <-Hm, lenN_app, <-Hc. split_and!; [|done|done].
        apply read_records_ok in Hr as (records' & -> & Hr). apply read_records_ok.
        exists (records' +:+ record). split; [by rewrite str_app_assoc|].
        apply is_records_app; [done|]. exists record, "". rewrite str_app_nil_r, N.add_0_l, <-Hc.
        done.
      * destruct Hh as [Hm Hc]. exists [m]. rewrite Hm, Hc in *. split_and!; [|done|done].
        apply read_records_ok. exists record. split; [done|]. exists record, "".
        by rewrite str_app_nil_r.
  - assert (d' !! path s = d !! path s \/ d !! path s = None /\ d' !! path s = Some MAGIC \/
      cut_fails env = true /\
      exists part, d' !! path s = Some (default MAGIC (d !! path s) +:+ part)) as [Hw'|[[Hnone Hw']|[Hcut [part Hw']]]] by done.
    + pose proof (stored_ext torn d d' s Hw' Hh) as Hh'. destruct torn; [exact Hh'|]. cbn.
      destruct (cut_fails env); [|exact Hh']. case_bool_decide as Hd; [|exact Hh'].
      destruct Hd as [data Hd]. by eapply holds_kept.
    + destruct torn.
      { destruct Hh as (_ & _ & data & rest & rows & Hd & _). by rewrite Hd in Hnone. }
      assert (holds d' s) as Hh'.
      { unfold stored, holds in *. rewrite Hw'. rewrite Hnone in Hh. destruct Hh as [Hm Hc].
        exists []. rewrite Hm, Hc. split_and!; [|done|done].
        apply read_records_ok. by exists "". }
      cbn. destruct (cut_fails env); [|done]. case_bool_decide; [|done]. by eapply holds_kept.
    + rewrite Hcut, bool_decide_true by (by eexists). rewrite orb_true_r. cbn.
      assert (d !! path s = None \/ kept d s) as [Hnone|Hk].
      { destruct torn; [by right|]. destruct (d !! path s) as [data|] eqn:Hd; [right|by left].
        by eapply holds_kept. }
      * destruct torn.
        { destruct Hh as (_ & _ & data & rest & rows & Hd & _). by rewrite Hd in Hnone. }
        split_and!; [by eapply holds_sorted|by eapply holds_records|].
        exists MAGIC, part, []. rewrite Hw', Hnone. split_and!; [done| |by constructor].
        apply read_records_ok. by exists "".
      * destruct Hk as (Hs & Hc & data & rest & rows & Hd & Hr & Hall). split_and!; [done|done|].
        exists data, (rest +:+ part), rows. split_and!; [|done|done].
        by rewrite Hw', Hd, <- str_app_assoc.
Qed.

Lemma push_capture_sorted capture i rows :
  StronglySorted not_later rows ->
  StronglySorted not_later (alter (E2eMessage.push_capture capture) i rows).
Proof.
  intros Hs. revert i. induction Hs as [|row rows Hs IH Hall]; intros i; [constructor|].
  destruct i as [|i]; simpl.
  - constructor; [done|]. done.
  - constructor; [apply IH|]. apply Forall_alter; [done|]. intros x _ Hx. exact Hx.
Qed.

Lemma history_step_stored torn d s o :
  op_ok (path s) o -> stored torn d s ->
  let '(d', s', r) := history_step d s o in
  stored (tears torn d d' s o r) d' s' /\ path s' = path s /\ key s' = key s.
Proof using HT HA.
  intros Hok Hh. destruct o as [env m|env id capture|env id|removing]; simpl.
  - by apply append_stored.
  - unfold add_capture. destruct (position id (messages s)) as [at_|] eqn:Hpos; simpl.
    2: { split; [|done]. by destruct torn. }
    destruct Hok as [Hn Ht].
    pose proof (rewrite_file_holds env d s _ Hn Ht
                  (push_capture_sorted capture at_ _ (stored_sorted _ _ _ Hh))) as Hw.
    destruct (rewrite_file _ _ _ _) as [d' r]. destruct r as [[]|e]; simpl.
    + rewrite andb_false_r.
      split; [|done]. rewrite (stored_records torn d s) by done. cbn.
      by replace (lenN (messages s)) with
        (lenN (alter (E2eMessage.push_capture capture) at_ (messages s)))
        by (unfold lenN; by rewrite length_alter).
    + split; [|done]. by eapply stored_ext.
  - unfold delete_conversation. destruct Hok as [Hn Ht].
    set (left := List.filter _ _).
    assert (StronglySorted not_later left) as Hs.
    { eapply sorted_sublist; [|by eapply stored_sorted]. apply list_filter_sublist. }
    pose proof (rewrite_file_holds env d s left Hn Ht Hs) as Hw.
    destruct (rewrite_file _ _ _ _) as [d' r]. destruct r as [[]|e]; simpl;
      (split; [|done]); [done|]. by eapply stored_ext.
  - destruct removing as [e|]; simpl; [done|]. split; [|done]. unfold holds. simpl.
    unfold disk. by rewrite lookup_delete_eq.
Qed.

(** Whether a record stays torn at the end of a run. *)
Fixpoint torn_after (torn : bool) (d : disk) (s : t) (ops : list history_op) : bool :=
  match ops with
  | [] => torn
  | o :: ops =>
      let '(d', s', r) := history_step d s o in torn_after (tears torn d d' s o r) d' s' ops
  end.

Lemma history_run_stored torn d s ops :
  Forall (op_ok (path s)) ops -> stored torn d s ->
  let '(d', s') := history_run d s ops in
  stored (torn_after torn d s ops) d' s' /\ path s' = path s /\ key s' = key s.
Proof using HT HA.
  revert torn d s. induction ops as [|o ops IH]; intros torn d s Hops Hh; [done|].
  apply Forall_cons in Hops as [Ho Hops]. simpl.
  pose proof (history_step_stored torn d s o Ho Hh) as Hstep.
  destruct (history_step d s o) as [[d1 s1] r]. destruct Hstep as (Hh1 & Hp & Hk).
  rewrite <-Hp in Hops. specialize (IH _ d1 s1 Hops Hh1).
  destruct (history_run d1 s1 ops) as [d2 s2]. destruct IH as (? & ? & ?).
  split_and!; [done|congruence..].
Qed.


(** A record that a failed append leaves in part, because the cut of the
    file failed too, is never read as rows: the store reports the failure and
    keeps its rows, and a later opening is an error, not a shorter history. *)
Theorem torn_append_refused (env : append_env) (d : disk) (s : t) (m : E2eMessage.t)
    (data written more : string) (e : io_error) (oenv : open_env)
    (Hh : holds d s) (Hd : d !! path s = Some data)
    (Hn : str_len (record_nonce env) = NONCE_LEN)
    (Hrec : seal_record (key s) (record_nonce env) m (records s) = Ok (written +:+ more))
    (Hpart : written <> "" /\ more <> "")
    (Henv : append_stat env = None /\ append_open env = None /\ append_seek env = None /\
            appending env = AppendFails written e false)
    (Hopen : directory oenv = Ok tt /\ lock_file oenv = Ok tt /\ lock oenv = None /\
             provider oenv = Ok (key s) /\ stat oenv = None /\ reading oenv = None) :
  let '(d', s', r) := append env d s m in
  s' = s /\ r = Err (E2eStoreError.Io e) /\
  open oenv d' (path s) = Err E2eStoreError.Corrupted.
Proof using HT HA.
  destruct Henv as (He0 & He1 & He2 & He3), Hpart as [Hp Hm].
  destruct Hopen as (H1 & H2 & H3 & H4 & H0 & H5).
  unfold append. rewrite Hrec. unfold append_record.
  rewrite (path_exists_true _ _ _ _ Hd He0), He1, He2, Hd, He3.
  split; [done|]. split; [done|].
  apply seal_record_ok in Hrec; [|done].
  unfold holds in Hh. rewrite Hd in Hh. destruct Hh as (rows & Hr & _ & Hc). rewrite Hc in Hrec.
  pose proof (torn_records_corrupted _ _ _ _ _ _ Hr Hrec Hp Hm) as Htorn.
  unfold open. rewrite H1, H2, H3, H4. cbn [io map_err rbind].
  erewrite path_exists_true; [|apply lookup_insert_eq|done]. cbn [negb].
  unfold read_file, Files.read_file, disk in *. cbn [path key].
  rewrite H5, lookup_insert_eq. cbn [io ok_or map_err rbind]. by rewrite Htorn.
Qed.

(** A deleted conversation is gone from the memory and from the file; the
    rows of every other conversation stay, in their order. *)
Theorem delete_conversation_exact (env : rewrite_env) (d d' : disk) (s s' : t) (id : string)
    (Hh : holds d s) (Ho : op_ok (path s) (DeleteConversation env id))
    (H : delete_conversation env d s id = (d', s', Ok tt)) :
  messages_of s' id = [] /\
  (forall other, other <> id -> messages_of s' other = messages_of s other) /\
  (exists data rows, d' !! path s = Some data /\ read_records (key s) data = Ok rows /\
     rows = messages s' /\ Forall (fun m => E2eMessage.conversation_id m <> id) rows).
Proof using HT HA.
  unfold delete_conversation in H. set (kept := List.filter _ _) in H.
  assert (StronglySorted not_later kept) as Hs.
  { eapply sorted_sublist; [|by eapply holds_sorted]. apply list_filter_sublist. }
  destruct Ho as [Hn Ht]. unfold rewrite_file in H.
  destruct (seal_rows (key s) (record_nonces env) 0 kept) as [sealed|e] eqn:E; [|done].
  pose proof (write_atomic_spec (rewriting env) d (path s) (MAGIC +:+ sealed) Ht) as Hw.
  destruct (write_atomic _ _ _ _) as [d1 r]. destruct Hw as [Hw _].
  destruct r as [[]|e]; simplify_eq/=. unfold messages_of. cbn [messages path key].
  assert (forall m, m ∈ kept -> E2eMessage.conversation_id m <> id) as Hkept.
  { intros m Hm. apply list_elem_of_In, List.filter_In in Hm as [_ Hm].
    apply negb_true_iff in Hm. by apply bool_decide_eq_false in Hm. }
  split_and!.
  - apply list_filter_none. intros m Hm. apply bool_decide_eq_false. by apply Hkept.
  - intros other Hne. apply list_filter_keep. intros m Hm. apply bool_decide_eq_true in Hm.
    apply negb_true_iff, bool_decide_eq_false. congruence.
  - exists (MAGIC +:+ sealed), kept. split; [done|]. split.
    + apply read_records_ok. exists sealed. split; [done|]. by eapply seal_rows_ok.
    + split; [done|]. by apply Forall_forall.
Qed.
End Store.

(** ** Concrete runs *)

Definition aead_tag (key nonce aad : string) : string :=
  sha256 (key +:+ nonce +:+ aad).

#[export] Instance concrete_aead : Aead := {|
  aead_encrypt key nonce aad text := Some (aead_tag key nonce aad +:+ text);
  aead_decrypt key nonce aad sealed := strip_prefix (aead_tag key nonce aad) sealed;
|}.

#[export] Instance concrete_aead_laws : AeadLaws.
Proof. split. intros key nonce aad text sealed [= <-]. by apply strip_prefix_Some. Qed.


Definition sample_row (id conversation : string) (at_ : Z) : E2eMessage.t :=
  E2eMessage.mk id conversation "d1" at_ "ciao" true [].
Definition sample_capture : E2eCapture.t := E2eCapture.mk "msg" None "AAAA" Out.

Definition known_rows : list E2eMessage.t :=
  [sample_row "a" "luna" 20; sample_row "b" "sole" 10; sample_row "c" "luna" 15;
   E2eMessage.push_capture sample_capture (sample_row "b" "sole" 10)].

#[local] Instance concrete_history_text : HistoryText := {|
  message_to_vec m := ok_or (table_encode known_rows m) "no text for this row";
  message_from_slice := table_decode known_rows;
  fold_case text := text;
|}.

#[local] Instance concrete_history_text_laws : HistoryTextLaws.
Proof. split. intros m text H. apply ok_or_ok in H. by apply table_round. Qed.

Section Examples.
Import E2eHistoryStore.

Definition history_path : string := "/data/e2e_history.bin".
Definition history_nonce : string := str_repeat "n" 24.
Definition history_write (w : write_outcome) : write_env :=
  {| temp := "/data/.tmp-2"; writing := w; renaming := None; removing := true |}.
Definition appending_env (o : append_outcome) : append_env :=
  {| record_nonce := history_nonce; append_stat := None; header_write := history_write WriteOk;
     append_open := None; append_seek := None; appending := o |}.
Definition copying_env (w : write_outcome) : rewrite_env :=
  {| record_nonces := fun _ => history_nonce; rewriting := history_write w |}.
Definition history_opening : open_env :=
  {| directory := Ok tt; lock_file := Ok tt; lock := None;
     provider := Ok (str_repeat "k" 32); stat := None; reading := None |}.
Definition empty_history : t := mk history_path (str_repeat "k" 32) [] 0.

(** Three rows, the second out of order, the third after a record that was cut
    short; a copy of the file that fails, and a deleted conversation. *)
Definition history_ops : list history_op :=
  [Append (appending_env AppendOk) (sample_row "a" "luna" 20);
   Append (appending_env AppendOk) (sample_row "b" "sole" 10);
   Append (appending_env (AppendFails "torn" "No space left on device" true))
     (sample_row "c" "luna" 15);
   AddCapture (copying_env (OpenFails "denied")) "b" sample_capture;
   Append (appending_env AppendOk) (sample_row "c" "luna" 15);
   AddCapture (copying_env WriteOk) "b" sample_capture;
   DeleteConversation (copying_env WriteOk) "luna"].


(** A record that stays torn is mended by the next copy of the file. *)
Example torn_and_mended :
  let tear := [Append (appending_env AppendOk) (sample_row "a" "luna" 20);
               Append (appending_env (AppendFails "torn" "disk removed" false))
                 (sample_row "b" "sole" 10)] in
  let mend := [DeleteConversation (copying_env WriteOk) "sole"] in
  torn_after false ∅ empty_history tear = true /\
  torn_after false ∅ empty_history (tear ++ mend) = false.
Proof. split; vm_compute; reflexivity. Qed.

Definition two_rows : disk * t := history_run ∅ empty_history (take 2 history_ops).
Definition third_record : string :=
  match seal_record (key (snd two_rows)) history_nonce (sample_row "c" "luna" 15) 2 with
  | Ok record => record
  | Err _ => ""
  end.

Lemma torn_append_refused_witness :
  let '(d', s', r) :=
    append (appending_env (AppendFails (str_take 40 third_record) "disk removed" false))
      (fst two_rows) (snd two_rows) (sample_row "c" "luna" 15) in
  s' = snd two_rows /\ r = Err (E2eStoreError.Io "disk removed") /\
  open history_opening d' history_path = Err E2eStoreError.Corrupted.
Proof.
  apply (torn_append_refused _ (fst two_rows) (snd two_rows) _
           (default "" (fst two_rows !! history_path)) (str_take 40 third_record)
           (str_drop 40 third_record) "disk removed" history_opening).
  - exists [sample_row "a" "luna" 20; sample_row "b" "sole" 10].
    split_and!; vm_compute; reflexivity.
  - vm_compute. reflexivity.
  - vm_compute. reflexivity.
  - vm_compute. reflexivity.
  - split; vm_compute; discriminate.
  - split_and!; reflexivity.
  - split_and!; vm_compute; reflexivity.
Defined.

Lemma delete_conversation_exact_witness :
  let '(d', s', r) := delete_conversation (copying_env WriteOk) (fst two_rows) (snd two_rows)
                        "luna" in
  messages_of s' "luna" = [] /\ messages_of s' "sole" = messages_of (snd two_rows) "sole".
Proof.
  destruct (delete_conversation (copying_env WriteOk) (fst two_rows) (snd two_rows) "luna")
    as [[d' s'] r] eqn:E.
  destruct (delete_conversation_exact (copying_env WriteOk) (fst two_rows) d' (snd two_rows) s'
              "luna") as (H1 & H2 & _).
  - exists [sample_row "a" "luna" 20; sample_row "b" "sole" 10].
    split_and!; vm_compute; reflexivity.
  - split; [intros i; vm_compute; reflexivity|vm_compute; discriminate].
  - rewrite E. f_equal. vm_compute in E. congruence.
  - split; [exact H1|]. apply H2. vm_compute. discriminate.
Defined.

Definition loading_env (w : secret_outcome) (c : ascii) : key_env :=
  {| lock_open := None; lock_wait := None; secret_read := None;
     generated := str_repeat c 32; secret_write := w |}.

(** A write of the keyring that fails and stores, then two loads. *)
Definition loads : list key_env :=
  [loading_env (SecretFails false "locked") "a"; loading_env (SecretFails true "timeout") "b";
   loading_env SecretSet "c"; loading_env SecretSet "d"].

Lemma key_never_replaced_witness :
  (run (load_step "history-key-1") ∅ loads).2 =
    [Err (E2eStoreError.Key "locked"); Err (E2eStoreError.Key "timeout");
     Ok (str_repeat "b" 32); Ok (str_repeat "b" 32)] /\
  (forall key key', Ok key ∈ (run (load_step "history-key-1") ∅ loads).2 ->
     Ok key' ∈ (run (load_step "history-key-1") ∅ loads).2 -> key = key').
Proof.
  split; [vm_compute; reflexivity|].
  apply (key_never_replaced "history-key-1" ∅ loads).
  repeat constructor.
Defined.

(** The rows of a run, then a record with a length field that lies. *)
Lemma read_loop_terminates_witness :
  let rest := str_drop (String.length MAGIC) (default "" (fst two_rows !! history_path)) in
  let rest := rest +:+ to_le_bytes 4 1000 +:+ str_repeat "x" 30 in
  read_loop 20 (key (snd two_rows)) 0 rest =
    read_loop (String.length rest) (key (snd two_rows)) 0 rest.
Proof. apply read_loop_terminates. vm_compute. lia. Defined.

Example history_run_rows :
  let h := history_run ∅ empty_history (take 5 history_ops) in
  let h' := history_run ∅ empty_history history_ops in
  map E2eMessage.id (messages (snd h)) = ["b"; "c"; "a"] /\
  messages (snd h') = [E2eMessage.push_capture sample_capture (sample_row "b" "sole" 10)].
Proof. split; vm_compute; reflexivity. Qed.
End Examples.
