(* ===== verification/State.v ===== *)
(** * The sealed state of the device (crates/cordiale-core/src/e2e_state.rs)

    The state in memory, its sealed form, the file and every operation of the
    store. The cipher, the pickles and the text form of the state are
    parameters; the disk is a value, and each operation takes the nonce and
    the outcomes of the system calls that it meets. Overwriting secrets in
    memory ([zeroize], [Drop]) has no value to model. *)

From S2P Require Import Prelude.
From S2P Require Import RustStr.
From S2P Require Import Interfaces.
From S2P Require Import Wire.
From S2P Require Import Device.
From S2P Require Import Manage.
From S2P Require Import ListMigration.
From S2P Require Import Trust.
From S2P Require Import Peer.
From S2P Require Import Files.
From S2P Require Import History.
From stdpp Require Import options.

Definition KEY_LEN : N := 32.
Definition MAGIC_V1 : string := "CORDIALE-E2E-STATE-1".
Definition MAGIC : string := "CORDIALE-E2E-STATE-2".
Definition NONCE_LEN : N := 24.
Definition CHECK_LEN : N := 16.
Definition CHECK_DOMAIN : string := "cordiale-e2e-state-key-check".
Definition STAGING_SUFFIX : string := ".migrating".

Module PendingRevoke.
Record t := mk { ed25519 : string; did : string }.

#[global] Instance eq_dec : EqDecision t.
Proof. solve_decision. Defined.
End PendingRevoke.

Module StateData.
Record t := mk {
  account : option string;
  sessions : gmap string string;
  master : option string;
  signed_list : option SignedList.t;
  list_pending : bool;
  list_migrated : bool;
  device_certificate : option VersionedDeviceCertificate.t;
  trust : PeerTrust.t;
  pending_pairing : option string;
  replay : ReplayState.t;
  pending_revoke : option PendingRevoke.t;
  own_revoked : list string;
  reset_pending : bool;
  dropped_rows : gmap string string;
}.

#[global] Instance eq_dec : EqDecision t.
Proof. solve_decision. Defined.

Definition initial : t :=
  mk None ∅ None None false false None ∅ None ReplayState.initial None [] false ∅.

(** Assignments to single fields. *)
Definition set_account x (d : t) : t :=
  mk x (sessions d) (master d) (signed_list d) (list_pending d) (list_migrated d)
    (device_certificate d) (trust d) (pending_pairing d) (replay d) (pending_revoke d)
    (own_revoked d) (reset_pending d) (dropped_rows d).
Definition set_sessions x (d : t) : t :=
  mk (account d) x (master d) (signed_list d) (list_pending d) (list_migrated d)
    (device_certificate d) (trust d) (pending_pairing d) (replay d) (pending_revoke d)
    (own_revoked d) (reset_pending d) (dropped_rows d).
Definition set_master x (d : t) : t :=
  mk (account d) (sessions d) x (signed_list d) (list_pending d) (list_migrated d)
    (device_certificate d) (trust d) (pending_pairing d) (replay d) (pending_revoke d)
    (own_revoked d) (reset_pending d) (dropped_rows d).
(** The list, its two marks at once: the list is never written without one. *)
Definition set_list x pending migrated (d : t) : t :=
  mk (account d) (sessions d) (master d) x pending migrated
    (device_certificate d) (trust d) (pending_pairing d) (replay d) (pending_revoke d)
    (own_revoked d) (reset_pending d) (dropped_rows d).
Definition set_certificate x (d : t) : t :=
  mk (account d) (sessions d) (master d) (signed_list d) (list_pending d) (list_migrated d)
    x (trust d) (pending_pairing d) (replay d) (pending_revoke d)
    (own_revoked d) (reset_pending d) (dropped_rows d).
Definition set_trust x (d : t) : t :=
  mk (account d) (sessions d) (master d) (signed_list d) (list_pending d) (list_migrated d)
    (device_certificate d) x (pending_pairing d) (replay d) (pending_revoke d)
    (own_revoked d) (reset_pending d) (dropped_rows d).
Definition set_pairing x (d : t) : t :=
  mk (account d) (sessions d) (master d) (signed_list d) (list_pending d) (list_migrated d)
    (device_certificate d) (trust d) x (replay d) (pending_revoke d)
    (own_revoked d) (reset_pending d) (dropped_rows d).
Definition set_replay x (d : t) : t :=
  mk (account d) (sessions d) (master d) (signed_list d) (list_pending d) (list_migrated d)
    (device_certificate d) (trust d) (pending_pairing d) x (pending_revoke d)
    (own_revoked d) (reset_pending d) (dropped_rows d).
Definition set_revoke x keys (d : t) : t :=
  mk (account d) (sessions d) (master d) (signed_list d) (list_pending d) (list_migrated d)
    (device_certificate d) (trust d) (pending_pairing d) (replay d) x
    keys (reset_pending d) (dropped_rows d).
Definition set_reset x (d : t) : t :=
  mk (account d) (sessions d) (master d) (signed_list d) (list_pending d) (list_migrated d)
    (device_certificate d) (trust d) (pending_pairing d) (replay d) (pending_revoke d)
    (own_revoked d) x (dropped_rows d).
Definition set_dropped x (d : t) : t :=
  mk (account d) (sessions d) (master d) (signed_list d) (list_pending d) (list_migrated d)
    (device_certificate d) (trust d) (pending_pairing d) (replay d) (pending_revoke d)
    (own_revoked d) (reset_pending d) x.
End StateData.

(** ** Parameters *)

(** The accounts and sessions of [vodozemac::olm] with their encrypted
    pickles (key, value), the public texts of an account and the text of its
    signatures. *)
Class Olm := {
  account : Type;
  session : Type;
  account_pickle : string -> account -> string;
  account_from_encrypted : string -> string -> option account;
  session_pickle : string -> session -> string;
  session_from_encrypted : string -> string -> option session;
  identity_ed25519 : account -> string;
  identity_curve25519 : account -> string;
  sign_text : account -> string -> string;
}.

(** What a signing step uses of an account. *)
Definition signer `{Olm} (a : account) : Account :=
  {| account_ed25519 := identity_ed25519 a; account_sign := sign_text a |}.

(** [serde_json] on the state. *)
Class StateText := {
  state_to_vec : StateData.t -> result string io_error;
  state_from_slice : string -> option StateData.t;
}.

Class OlmLaws `{Olm} : Prop := {
  account_round key a : account_from_encrypted key (account_pickle key a) = Some a;
  session_round key s : session_from_encrypted key (session_pickle key s) = Some s;
}.

Class StateTextLaws `{StateText} : Prop := {
  state_text_round d text : state_to_vec d = Ok text -> state_from_slice text = Some d;
}.

(** ** Seal *)

Section Seal.
Context {C : Crypto} {T : StateText} {A : Aead}.

Definition key_check (key : string) : string :=
  str_take (N.to_nat CHECK_LEN) (sha256 (CHECK_DOMAIN +:+ key)).

Definition seal (key nonce : string) (d : StateData.t) : result string E2eStoreError.t :=
  let? plain := io (state_to_vec d) in
  let header := MAGIC +:+ key_check key in
  let? sealed := ok_or (aead_encrypt key nonce header plain) E2eStoreError.Corrupted in
  Ok (header +:+ nonce +:+ sealed).

Definition open_sealed (key body aad : string) : result string E2eStoreError.t :=
  if (str_len body <? NONCE_LEN)%N then Err E2eStoreError.Corrupted else
  ok_or (aead_decrypt key (str_take (N.to_nat NONCE_LEN) body) aad
           (str_drop (N.to_nat NONCE_LEN) body)) E2eStoreError.Corrupted.

Definition parse (plain : string) : result StateData.t E2eStoreError.t :=
  ok_or (state_from_slice plain) E2eStoreError.Corrupted.

Definition unseal (key raw : string) : result (StateData.t * bool) E2eStoreError.t :=
  if starts_with MAGIC_V1 raw then
    let? plain := open_sealed key (str_drop (String.length MAGIC_V1) raw) MAGIC_V1 in
    let? d := parse plain in Ok (d, true)
  else
    let header_len := (str_len MAGIC + CHECK_LEN)%N in
    if negb (starts_with MAGIC raw) || (str_len raw <? header_len + NONCE_LEN)%N
    then Err E2eStoreError.Corrupted else
    let header := str_take (N.to_nat header_len) raw in
    if negb (bool_decide (str_drop (String.length MAGIC) header = key_check key))
    then Err E2eStoreError.WrongKey else
    let? plain := open_sealed key (str_drop (N.to_nat header_len) raw) header in
    let? d := parse plain in Ok (d, false).
End Seal.

(** ** The store *)

(** One write of the store: the nonce and the outcomes of the file writer. *)
Record io_env := { nonce : string; write : write_env }.

Definition Writer : Type := write_env -> disk -> string -> string -> disk * result unit io_error.

Module Store.
Record t := mk {
  path : string;
  key : string;
  data : StateData.t;
  writer : Writer;
}.

Definition with_data (s : t) (d : StateData.t) : t := mk (path s) (key s) d (writer s).

Section Operations.
Context {C : Crypto} {T : StateText} {A : Aead} {O : Olm}.

(** An operation: the disk, the store and its result. *)
Definition outcome : Type := disk * t * result unit E2eStoreError.t.

Definition commit (env : io_env) (d : disk) (s : t) (change : StateData.t -> StateData.t)
    : outcome :=
  let next := change (data s) in
  match seal (key s) (nonce env) next with
  | Err e => (d, s, Err e)
  | Ok sealed =>
      let '(d, written) := writer s (write env) d (path s) sealed in
      match written with
      | Err e => (d, s, Err (E2eStoreError.Io e))
      | Ok _ => (d, with_data s next, Ok tt)
      end
  end.

(** *** The Olm values *)

Definition olm_identity (s : t) : result (option account) E2eStoreError.t :=
  match StateData.account (data s) with
  | None => Ok None
  | Some text =>
      rmap Some (ok_or (account_from_encrypted (key s) text) E2eStoreError.Corrupted)
  end.

Definition device_key (s : t) : result (option string) E2eStoreError.t :=
  rmap (fmap identity_ed25519) (olm_identity s).

Definition set_account env d s (a : account) : outcome :=
  commit env d s (StateData.set_account (Some (account_pickle (key s) a))).

Definition session_of (s : t) (id : string) : result (option session) E2eStoreError.t :=
  match StateData.sessions (data s) !! id with
  | None => Ok None
  | Some text =>
      rmap Some (ok_or (session_from_encrypted (key s) text) E2eStoreError.Corrupted)
  end.

Definition set_session env d s (id : string) (x : session) : outcome :=
  let text := session_pickle (key s) x in
  commit env d s (fun data => StateData.set_sessions (<[id := text]> (StateData.sessions data)) data).

Definition peer_session (s : t) (network nick did : string)
    : result (option session) E2eStoreError.t :=
  session_of s (peer_device_key network nick did).

Definition set_peer_session env d s (network nick did : string) (x : session) : outcome :=
  set_session env d s (peer_device_key network nick did) x.

Definition remove_peer_session env d s (network nick did : string) : outcome :=
  let id := peer_device_key network nick did in
  match StateData.sessions (data s) !! id with
  | None => (d, s, Ok tt)
  | Some _ =>
      commit env d s (fun data => StateData.set_sessions (delete id (StateData.sessions data)) data)
  end.

(** The filter over the keys. *)
Definition is_stale (network : string) (is_peer : string -> bool) (id : string) : bool :=
  match strip_prefix (network +:+ NUL) id with
  | Some rest => match split_char "000" rest with nick :: _ => is_peer nick | [] => false end
  | None => false
  end.

Definition remove_peer_sessions env d s (network : string) (is_peer : string -> bool) : outcome :=
  let stale := filter (fun id => is_stale network is_peer id = true)
                 (fst <$> map_to_list (StateData.sessions (data s))) in
  match stale with
  | [] => (d, s, Ok tt)
  | _ =>
      commit env d s (fun data =>
        StateData.set_sessions
          (foldl (fun sessions id => delete id sessions) (StateData.sessions data) stale) data)
  end.

Definition set_inbound env d s (network nick did : string) (x : session)
    (a : option account) (replay : option ReplayState.t) : outcome :=
  let id := peer_device_key network nick did in
  let session_text := session_pickle (key s) x in
  let account_text := account_pickle (key s) <$> a in
  commit env d s (fun data =>
    let data := StateData.set_sessions (<[id := session_text]> (StateData.sessions data)) data in
    let data := match account_text with
                | Some text => StateData.set_account (Some text) data
                | None => data
                end in
    match replay with Some replay => StateData.set_replay replay data | None => data end).

Definition set_replay env d s (replay : ReplayState.t) : outcome :=
  commit env d s (StateData.set_replay replay).

Definition master_key (s : t) : result (option account) E2eStoreError.t :=
  match StateData.master (data s) with
  | None => Ok None
  | Some text =>
      rmap Some (ok_or (account_from_encrypted (key s) text) E2eStoreError.Corrupted)
  end.

Definition master_public_key (s : t) : result (option string) E2eStoreError.t :=
  match StateData.device_certificate (data s) with
  | Some certificate => Ok (Some (VersionedDeviceCertificate.master_ed25519 certificate))
  | None => rmap (fmap identity_ed25519) (master_key s)
  end.

Definition set_master_key env d s (a : account) : outcome :=
  commit env d s (StateData.set_master (Some (account_pickle (key s) a))).

(** *** The own list *)

Definition set_signed_list env d s (l : SignedList.t) : outcome :=
  commit env d s (fun data =>
    StateData.set_list (Some l) (StateData.list_pending data) (StateData.list_migrated data) data).

Definition set_signed_list_pending env d s (l : SignedList.t) : outcome :=
  commit env d s (fun data =>
    StateData.set_list (Some l) true (StateData.list_migrated data) data).

Definition set_published_list env d s (l : SignedList.t) : outcome :=
  commit env d s (fun data =>
    StateData.set_list (Some l) false (StateData.list_migrated data) data).

Definition set_list_migrated env d s : outcome :=
  if StateData.list_migrated (data s) then (d, s, Ok tt) else
  commit env d s (fun data =>
    StateData.set_list (StateData.signed_list data) (StateData.list_pending data) true data).

Definition set_migrated_list env d s (l : SignedList.t) (pending : bool) : outcome :=
  commit env d s (fun data =>
    StateData.set_list (Some l) (StateData.list_pending data || pending) true data).

Definition clear_list_pending env d s : outcome :=
  if negb (StateData.list_pending (data s)) then (d, s, Ok tt) else
  commit env d s (fun data =>
    StateData.set_list (StateData.signed_list data) false (StateData.list_migrated data) data).

Definition set_device_certificate env d s (c : VersionedDeviceCertificate.t) : outcome :=
  commit env d s (StateData.set_certificate (Some c)).

(** *** Trust, rows and pairing *)

Definition set_trust env d s (trust : PeerTrust.t) : outcome :=
  commit env d s (StateData.set_trust trust).

Definition set_dropped_row env d s (row_id reason : string) : outcome :=
  match StateData.dropped_rows (data s) !! row_id with
  | Some _ => (d, s, Ok tt)
  | None =>
      commit env d s (fun data =>
        StateData.set_dropped (<[row_id := reason]> (StateData.dropped_rows data)) data)
  end.

Definition set_pending_pairing env d s (state : string) : outcome :=
  commit env d s (StateData.set_pairing (Some state)).

Definition clear_pending_pairing env d s : outcome :=
  match StateData.pending_pairing (data s) with
  | None => (d, s, Ok tt)
  | Some _ => commit env d s (StateData.set_pairing None)
  end.

(** *** Revoke and reset *)

Definition begin_revoke env d s (pending : PendingRevoke.t) (l : SignedList.t) : outcome :=
  commit env d s (fun data =>
    let key := PendingRevoke.ed25519 pending in
    let keys := if contains (StateData.own_revoked data) key
                then StateData.own_revoked data else StateData.own_revoked data ++ [key] in
    StateData.set_revoke (Some pending) keys
      (StateData.set_list (Some l) true (StateData.list_migrated data) data)).

Definition clear_pending_revoke env d s : outcome :=
  match StateData.pending_revoke (data s) with
  | None => (d, s, Ok tt)
  | Some _ =>
      commit env d s (fun data => StateData.set_revoke None (StateData.own_revoked data) data)
  end.

Definition begin_reset env d s : outcome :=
  if StateData.reset_pending (data s) then (d, s, Ok tt)
  else commit env d s (StateData.set_reset true).

Definition reset_data (network own_nick : string) (data : StateData.t) : StateData.t :=
  StateData.mk None ∅ None None false false None
    (PeerTrust.release_master (StateData.trust data) network own_nick)
    None (StateData.replay data) None [] false (StateData.dropped_rows data).

Definition finish_reset env d s (network own_nick : string) : outcome :=
  commit env d s (reset_data network own_nick).

(** *** Opening *)

(** What opening meets: the directory, the lock, the key and the files. *)
Record open_env := {
  directory : result unit io_error;
  lock_file : result unit io_error;
  (** [None]: taken; [Some None]: another holder; [Some (Some e)]: an error. *)
  lock : option (option io_error);
  provider : result string E2eStoreError.t;
  (** What the existence test of the path meets. *)
  stat : option io_error;
  reading : option io_error;
  staging_write : io_env;
  staging_read : option io_error;
  staging_rename : option io_error;
  staging_remove : bool;
}.

Definition write_checked (env : open_env) (d : disk) (s : t) (staging : string)
    : disk * result unit E2eStoreError.t :=
  match seal (key s) (nonce (staging_write env)) (data s) with
  | Err e => (d, Err e)
  | Ok sealed =>
      let '(d, written) := writer s (write (staging_write env)) d staging sealed in
      match written with
      | Err e => (d, Err (E2eStoreError.Io e))
      | Ok _ =>
          (d, let? raw := io (read_file d staging (staging_read env)) in
              let? (back, legacy) := unseal (key s) raw in
              if negb legacy && bool_decide (back = data s) then Ok tt
              else Err E2eStoreError.Corrupted)
      end
  end.

Definition migrate (env : open_env) (d : disk) (s : t) : disk * result unit E2eStoreError.t :=
  let staging := path s +:+ STAGING_SUFFIX in
  let '(d, checked) := write_checked env d s staging in
  let '(d, r) :=
    match checked with
    | Err e => (d, Err e)
    | Ok _ => let '(d, r) := rename_file d staging (path s) (staging_rename env) in (d, io r)
    end in
  (match r with Ok _ => d | Err _ => remove_file d staging (staging_remove env) end, r).

Definition open_with_writer (env : open_env) (d : disk) (path : string) (writer : Writer)
    : disk * result t E2eStoreError.t :=
  match io (directory env), io (lock_file env), lock env, provider env with
  | Err e, _, _, _ => (d, Err e)
  | Ok _, Err e, _, _ => (d, Err e)
  | Ok _, Ok _, Some None, _ => (d, Err E2eStoreError.InUse)
  | Ok _, Ok _, Some (Some e), _ => (d, Err (E2eStoreError.Io e))
  | Ok _, Ok _, None, Err e => (d, Err e)
  | Ok _, Ok _, None, Ok key =>
      let store := mk path key StateData.initial writer in
      if negb (path_exists d path (stat env)) then (d, Ok store) else
      match (let? raw := io (read_file d path (reading env)) in unseal key raw) with
      | Err e => (d, Err e)
      | Ok (data, legacy) =>
          let store := with_data store data in
          if legacy then
            let '(d, migrated) := migrate env d store in
            match migrated with Ok _ => (d, Ok store) | Err e => (d, Err e) end
          else (d, Ok store)
      end
  end.

Definition open (env : open_env) (d : disk) (path : string)
    : disk * result t E2eStoreError.t :=
  open_with_writer env d path write_atomic.
End Operations.
End Store.
