(* ===== verification/StateFacts.v ===== *)
(** * Theorems on the sealed state

    The theorems, and a concrete store to run them on. *)

From S2P Require Import Prelude.
From S2P Require Import RustStr.
From S2P Require Import Interfaces.
From S2P Require Import Concrete.
From S2P Require Import Wire.
From S2P Require Import Device.
From S2P Require Import Manage.
From S2P Require Import ListMigration.
From S2P Require Import Trust.
From S2P Require Import Peer.
From S2P Require Import TrustFacts.
From S2P Require Import PeerFacts.
From S2P Require Import Files.
From S2P Require Import History.
From S2P Require Import HistoryFacts.
From S2P Require Import State.
From stdpp Require Import options.

(** ** Seal *)

Section Seal.
Context {C : Crypto} {HC : Sha256Laws} {T : StateText} {A : Aead}.

Lemma key_check_length key : String.length (key_check key) = N.to_nat CHECK_LEN.
Proof using HC. apply str_take_length. rewrite sha256_length. unfold CHECK_LEN. lia. Qed.

Lemma open_sealed_app key nonce sealed aad :
  str_len nonce = NONCE_LEN ->
  open_sealed key (nonce +:+ sealed) aad =
  ok_or (aead_decrypt key nonce aad sealed) E2eStoreError.Corrupted.
Proof.
  intros Hn. unfold open_sealed. rewrite str_len_app, Hn.
  rewrite (proj2 (N.ltb_ge _ _)) by lia.
  assert (N.to_nat NONCE_LEN = String.length nonce) as -> by (unfold str_len in Hn; lia).
  by rewrite str_take_app, str_drop_app.
Qed.

Lemma open_sealed_ok key body aad plain :
  open_sealed key body aad = Ok plain <->
  exists nonce sealed, body = nonce +:+ sealed /\ str_len nonce = NONCE_LEN /\
    aead_decrypt key nonce aad sealed = Some plain.
Proof.
  split.
  - unfold open_sealed. destruct (N.ltb_spec (str_len body) NONCE_LEN) as [|Hle]; [done|].
    destruct (str_cut (N.to_nat NONCE_LEN) body) as (nonce & sealed & -> & Hl & -> & ->);
      [unfold str_len in Hle; lia|].
    intros H. apply ok_or_ok in H. exists nonce, sealed. split; [done|]. split; [|done].
    unfold str_len. lia.
  - intros (nonce & sealed & -> & Hl & H). rewrite open_sealed_app by done. by apply ok_or_ok.
Qed.

(** The header of each schema. *)
Definition header (key : string) (legacy : bool) : string :=
  if legacy then MAGIC_V1 else MAGIC +:+ key_check key.

Lemma magic_differ s : starts_with MAGIC_V1 (MAGIC +:+ s) = false.
Proof. reflexivity. Qed.

Lemma unseal_current key check body :
  String.length check = N.to_nat CHECK_LEN ->
  unseal key (MAGIC +:+ check +:+ body) =
  if (str_len body <? NONCE_LEN)%N then Err E2eStoreError.Corrupted
  else if decide (check = key_check key) then
    let? plain := open_sealed key body (MAGIC +:+ check) in
    let? d := parse plain in Ok (d, false)
  else Err E2eStoreError.WrongKey.
Proof.
  intros Hc. unfold unseal. rewrite magic_differ, starts_with_app.
  rewrite !str_len_app. cbn [negb orb].
  assert (str_len check = CHECK_LEN) as Hl by (unfold str_len; lia). rewrite Hl.
  assert ((str_len MAGIC + (CHECK_LEN + str_len body) <? str_len MAGIC + CHECK_LEN + NONCE_LEN) =
          (str_len body <? NONCE_LEN))%N as ->.
  { destruct (N.ltb_spec (str_len body) NONCE_LEN);
      [apply N.ltb_lt|apply N.ltb_ge]; lia. }
  destruct (str_len body <? NONCE_LEN)%N; [done|].
  assert (N.to_nat (str_len MAGIC + CHECK_LEN) = String.length (MAGIC +:+ check)) as ->.
  { rewrite str_length_app, Hc. unfold str_len. lia. }
  rewrite <-(str_app_assoc MAGIC check body), str_take_app, !str_drop_app.
  case_decide as He.
  - by rewrite bool_decide_true.
  - by rewrite bool_decide_false.
Qed.

(** A file opens exactly when it is the header of one of the two schemas
    (the current one with the check value of this key), a nonce and a text
    that the cipher opens under this header to a state. *)
Theorem unseal_exact (key raw : string) (d : StateData.t) (legacy : bool) :
  unseal key raw = Ok (d, legacy) <->
  exists nonce sealed plain,
    raw = header key legacy +:+ nonce +:+ sealed /\ str_len nonce = NONCE_LEN /\
    aead_decrypt key nonce (header key legacy) sealed = Some plain /\
    state_from_slice plain = Some d.
Proof using HC.
  split.
  - intros H. pose proof H as H0. unfold unseal in H0.
    destruct (starts_with MAGIC_V1 raw) eqn:H1.
    + apply starts_with_split in H1 as [body ->]. rewrite str_drop_app in H0.
      apply rbind_ok in H0 as (plain & Ho & H0). apply rbind_ok in H0 as (d' & Hp & H0).
      injection H0 as <- <-. apply open_sealed_ok in Ho as (n & sealed & -> & Hn & Hd).
      apply ok_or_ok in Hp. by exists n, sealed, plain.
    + destruct (starts_with MAGIC raw) eqn:H2; [|done]. cbn [negb orb] in H0.
      apply starts_with_split in H2 as [rest ->]. rewrite str_len_app in H0.
      destruct (N.ltb_spec (str_len MAGIC + str_len rest)
        (str_len MAGIC + CHECK_LEN + NONCE_LEN)) as [|Hle]; [done|]. clear H0.
      destruct (str_cut (N.to_nat CHECK_LEN) rest) as (check & body & -> & Hc & _);
        [unfold str_len in Hle; lia|].
      rewrite unseal_current in H by done.
      destruct (str_len body <? NONCE_LEN)%N; [done|]. case_decide as He; [|done].
      apply rbind_ok in H as (plain & Ho & H). apply rbind_ok in H as (d' & Hp & H).
      injection H as <- <-. apply open_sealed_ok in Ho as (n & sealed & -> & Hn & Hd).
      apply ok_or_ok in Hp. subst check. exists n, sealed, plain. simpl.
      by rewrite str_app_assoc.
  - intros (nonce & sealed & plain & -> & Hn & Hd & Hp). destruct legacy; simpl.
    + unfold unseal. rewrite starts_with_app, str_drop_app, open_sealed_app by done.
      simpl in Hd. rewrite Hd. simpl. unfold parse. by rewrite Hp.
    + rewrite str_app_assoc, unseal_current by apply key_check_length.
      rewrite str_len_app, Hn. rewrite (proj2 (N.ltb_ge _ _)) by lia.
      rewrite decide_True by done. rewrite open_sealed_app by done.
      simpl in Hd. rewrite Hd. simpl. unfold parse. by rewrite Hp.
Qed.

Context {HT : StateTextLaws} {HA : AeadLaws}.

Lemma unseal_sealed key nonce d raw :
  str_len nonce = NONCE_LEN -> seal key nonce d = Ok raw -> unseal key raw = Ok (d, false).
Proof using HA HC HT.
  intros Hn H. unfold seal in H. apply rbind_ok in H as (plain & Hp & H).
  apply rbind_ok in H as (sealed & Hs & H). injection H as <-.
  apply map_err_ok in Hp. apply ok_or_ok in Hs.
  rewrite str_app_assoc, unseal_current by apply key_check_length.
  rewrite str_len_app, Hn, (proj2 (N.ltb_ge _ _)) by lia. rewrite decide_True by done.
  rewrite open_sealed_app by done. rewrite (aead_round _ _ _ _ _ Hs). simpl.
  unfold parse. by rewrite (state_text_round _ _ Hp).
Qed.

(** What the store seals it opens again with the same key, to the same
    state; a key with another check value is told apart as a wrong key,
    never as damage. *)
Theorem seal_roundtrip (key nonce raw : string) (d : StateData.t)
    (Hn : str_len nonce = NONCE_LEN) (H : seal key nonce d = Ok raw) :
  unseal key raw = Ok (d, false) /\
  forall other, key_check other <> key_check key -> unseal other raw = Err E2eStoreError.WrongKey.
Proof using HA HC HT.
  split; [by eapply unseal_sealed|]. intros other Ho.
  unfold seal in H. apply rbind_ok in H as (plain & Hp & H).
  apply rbind_ok in H as (sealed & Hs & H). injection H as <-.
  rewrite str_app_assoc, unseal_current by apply key_check_length.
  rewrite str_len_app, Hn, (proj2 (N.ltb_ge _ _)) by lia. by rewrite decide_False by congruence.
Qed.
End Seal.

(** ** The store *)

Section Operations.
Context {C : Crypto} {T : StateText} {A : Aead} {O : Olm}.

(** Every operation that may change the state. *)
Inductive store_op :=
| SetAccount (a : account)
| SetSession (id : string) (x : session)
| SetPeerSession (network nick did : string) (x : session)
| RemovePeerSession (network nick did : string)
| RemovePeerSessions (network : string) (is_peer : string -> bool)
| SetInbound (network nick did : string) (x : session) (a : option account)
    (replay : option ReplayState.t)
| SetReplay (replay : ReplayState.t)
| SetMasterKey (a : account)
| SetSignedList (l : SignedList.t)
| SetSignedListPending (l : SignedList.t)
| SetPublishedList (l : SignedList.t)
| SetListMigrated
| SetMigratedList (l : SignedList.t) (pending : bool)
| ClearListPending
| SetDeviceCertificate (c : VersionedDeviceCertificate.t)
| SetTrust (trust : PeerTrust.t)
| SetDroppedRow (row_id reason : string)
| SetPendingPairing (state : string)
| ClearPendingPairing
| BeginRevoke (pending : PendingRevoke.t) (l : SignedList.t)
| ClearPendingRevoke
| BeginReset
| FinishReset (network own_nick : string).

Definition store_step (env : io_env) (d : disk) (s : Store.t) (o : store_op) : Store.outcome :=
  match o with
  | SetAccount a => Store.set_account env d s a
  | SetSession id x => Store.set_session env d s id x
  | SetPeerSession n k did x => Store.set_peer_session env d s n k did x
  | RemovePeerSession n k did => Store.remove_peer_session env d s n k did
  | RemovePeerSessions n p => Store.remove_peer_sessions env d s n p
  | SetInbound n k did x a replay => Store.set_inbound env d s n k did x a replay
  | SetReplay replay => Store.set_replay env d s replay
  | SetMasterKey a => Store.set_master_key env d s a
  | SetSignedList l => Store.set_signed_list env d s l
  | SetSignedListPending l => Store.set_signed_list_pending env d s l
  | SetPublishedList l => Store.set_published_list env d s l
  | SetListMigrated => Store.set_list_migrated env d s
  | SetMigratedList l pending => Store.set_migrated_list env d s l pending
  | ClearListPending => Store.clear_list_pending env d s
  | SetDeviceCertificate c => Store.set_device_certificate env d s c
  | SetTrust trust => Store.set_trust env d s trust
  | SetDroppedRow row reason => Store.set_dropped_row env d s row reason
  | SetPendingPairing state => Store.set_pending_pairing env d s state
  | ClearPendingPairing => Store.clear_pending_pairing env d s
  | BeginRevoke pending l => Store.begin_revoke env d s pending l
  | ClearPendingRevoke => Store.clear_pending_revoke env d s
  | BeginReset => Store.begin_reset env d s
  | FinishReset n k => Store.finish_reset env d s n k
  end.

(** An operation is one commit, or it has nothing to do. *)
Lemma store_step_commits env d s o :
  store_step env d s o = (d, s, Ok tt) \/
  exists change, store_step env d s o = Store.commit env d s change.
Proof.
  destruct o; simpl;
    unfold Store.set_account, Store.set_peer_session, Store.set_session,
      Store.remove_peer_session, Store.remove_peer_sessions, Store.set_inbound,
      Store.set_replay, Store.set_master_key, Store.set_signed_list,
      Store.set_signed_list_pending, Store.set_published_list, Store.set_list_migrated,
      Store.set_migrated_list, Store.clear_list_pending, Store.set_device_certificate,
      Store.set_trust, Store.set_dropped_row, Store.set_pending_pairing,
      Store.clear_pending_pairing, Store.begin_revoke, Store.clear_pending_revoke,
      Store.begin_reset, Store.finish_reset;
    repeat case_match; first [by left | by right; eexists].
Qed.

Context {HC : Sha256Laws} {HT : StateTextLaws} {HA : AeadLaws}.

(** The nonce has its length and the temporary file is another file. *)
Definition env_ok (path : string) (env : io_env) : Prop :=
  str_len (nonce env) = NONCE_LEN /\ temp (write env) <> path.

(** The file holds what the memory holds: no file for a store that never
    wrote. *)
Definition in_step (d : disk) (s : Store.t) : Prop :=
  match d !! Store.path s with
  | None => Store.data s = StateData.initial
  | Some raw => unseal (Store.key s) raw = Ok (Store.data s, false)
  end.

Definition same_store (s s' : Store.t) : Prop :=
  Store.path s' = Store.path s /\ Store.key s' = Store.key s /\
  Store.writer s' = Store.writer s.

Lemma commit_spec env d s change :
  Store.writer s = write_atomic -> env_ok (Store.path s) env ->
  let '(d', s', r) := Store.commit env d s change in
  same_store s s' /\
  (forall other, other <> Store.path s -> other <> temp (write env) ->
     d' !! other = d !! other) /\
  match r with
  | Ok _ => Store.data s' = change (Store.data s) /\
      exists raw, d' !! Store.path s = Some raw /\
        unseal (Store.key s) raw = Ok (change (Store.data s), false)
  | Err _ => s' = s /\ d' !! Store.path s = d !! Store.path s
  end.
Proof using HA HC HT.
  intros Hw [Hn Hp]. unfold Store.commit.
  destruct (seal (Store.key s) (nonce env) (change (Store.data s))) as [raw|e] eqn:Hs;
    [|done].
  rewrite Hw. pose proof (write_atomic_spec (write env) d (Store.path s) raw Hp) as Hwa.
  destruct (write_atomic (write env) d (Store.path s) raw) as [d' [u|e]].
  - destruct Hwa as [Hat Hother]. split; [done|]. split; [done|]. simpl. split; [done|].
    exists raw. split; [done|]. by eapply unseal_sealed.
  - destruct Hwa as [Hat Hother]. by split_and!.
Qed.

(** Operations with what each meets, in order. *)
Fixpoint store_run (d : disk) (s : Store.t) (ops : list (io_env * store_op))
    : disk * Store.t * list (result unit E2eStoreError.t) :=
  match ops with
  | [] => (d, s, [])
  | (env, o) :: ops =>
      let '(d, s, r) := store_step env d s o in
      let '(d, s, rs) := store_run d s ops in (d, s, r :: rs)
  end.

Lemma store_step_in_step env d s o :
  Store.writer s = write_atomic -> env_ok (Store.path s) env -> in_step d s ->
  let '(d', s', r) := store_step env d s o in
  same_store s s' /\ in_step d' s' /\
  (forall e, r = Err e -> s' = s /\ d' !! Store.path s = d !! Store.path s).
Proof using HA HC HT.
  intros Hw He Hin.
  destruct (store_step_commits env d s o) as [->|[change ->]]; [done|].
  pose proof (commit_spec env d s change Hw He) as H.
  destruct (Store.commit env d s change) as [[d' s'] r].
  destruct H as (Hsame & _ & H). split; [done|].
  destruct Hsame as (Hpath & Hkey & _). unfold in_step in *. rewrite Hpath, Hkey.
  destruct r as [u|e].
  - destruct H as (Hd & raw & Hraw & Hu). rewrite Hraw, Hd. done.
  - destruct H as [-> ->]. split; [done|]. auto.
Qed.

(** C10. The file always holds what the memory holds: after any operations,
    each meeting any failure of the disk (a temporary file that cannot be
    made, a write cut short, a refused rename), a later opening with the same
    key gives back exactly the state in memory. *)
Theorem store_durable (d : disk) (s : Store.t) (ops : list (io_env * store_op))
    (env : Store.open_env)
    (Hw : Store.writer s = write_atomic)
    (Henv : Forall (fun e => env_ok (Store.path s) e.1) ops)
    (Hin : in_step d s)
    (Hopen : Store.directory env = Ok tt /\ Store.lock_file env = Ok tt /\
             Store.lock env = None /\ Store.provider env = Ok (Store.key s) /\
             Store.stat env = None /\ Store.reading env = None) :
  let '(d', s', _) := store_run d s ops in
  Store.open env d' (Store.path s) = (d', Ok s').
Proof using HA HC HT.
  assert (forall ops d s, Store.writer s = write_atomic ->
    Forall (fun e => env_ok (Store.path s) e.1) ops -> in_step d s ->
    let '(d', s', _) := store_run d s ops in same_store s s' /\ in_step d' s') as Hrun.
  { clear ops d s Hw Henv Hin Hopen.
    induction ops as [|[e o] ops IH]; intros d s Hw Henv Hin; [done|]. simpl.
    inversion Henv as [|? ? He Hes]; subst.
    pose proof (store_step_in_step e d s o Hw He Hin) as Hstep.
    destruct (store_step e d s o) as [[d1 s1] r]. destruct Hstep as (Hsame & Hin1 & _).
    destruct Hsame as (Hp & Hk & Hwr).
    specialize (IH d1 s1 (eq_trans Hwr Hw)). rewrite Hp in IH. specialize (IH Hes Hin1).
    destruct (store_run d1 s1 ops) as [[d2 s2] rs]. destruct IH as [(? & ? & ?) ?].
    split; [|done]. unfold same_store. split_and!; congruence. }
  specialize (Hrun ops d s Hw Henv Hin).
  destruct (store_run d s ops) as [[d' s'] rs].
  destruct Hrun as [(Hp & Hk & Hwr) Hin'].
  destruct Hopen as (H1 & H2 & H3 & H4 & H0 & H5).
  unfold Store.open, Store.open_with_writer. rewrite H1, H2, H3, H4. simpl.
  unfold in_step in Hin'. rewrite Hp, Hk in Hin'.
  destruct s' as [p k data w]. simpl in *. subst p k w. rewrite Hw.
  destruct (d' !! Store.path s) as [raw|] eqn:Hraw;
    [|rewrite (path_exists_none _ _ _ Hraw); by subst].
  rewrite (path_exists_true _ _ _ _ Hraw H0). cbn [negb]. unfold read_file. rewrite H5, Hraw. simpl. by rewrite Hin'.
Qed.

(** A failed operation changes nothing: neither the state in memory nor
    the file. *)
Theorem failed_operation_changes_nothing (env : io_env) (d d' : disk) (s s' : Store.t)
    (o : store_op) (e : E2eStoreError.t)
    (Hw : Store.writer s = write_atomic) (Henv : env_ok (Store.path s) env)
    (H : store_step env d s o = (d', s', Err e)) :
  s' = s /\ d' !! Store.path s = d !! Store.path s.
Proof using HA HC HT.
  destruct (store_step_commits env d s o) as [Hs|[change Hs]]; [congruence|].
  pose proof (commit_spec env d s change Hw Henv) as Hc. rewrite <-Hs, H in Hc.
  by destruct Hc as (_ & _ & Hc).
Qed.
End Operations.

(** ** Opening and migration *)

Section Opening.
Context {C : Crypto} {T : StateText} {A : Aead}.

Lemma staging_differs path : path +:+ STAGING_SUFFIX <> path.
Proof.
  intros H. apply (f_equal String.length) in H. rewrite str_length_app in H.
  unfold STAGING_SUFFIX in H. simpl in H. lia.
Qed.

(** A checked staging file holds the state, and the old file is untouched. *)
Lemma write_checked_spec env d s staging :
  Store.writer s = write_atomic -> staging <> Store.path s ->
  temp (write (Store.staging_write env)) <> Store.path s ->
  temp (write (Store.staging_write env)) <> staging ->
  let '(d', r) := Store.write_checked env d s staging in
  d' !! Store.path s = d !! Store.path s /\
  (r = Ok tt -> exists raw, d' !! staging = Some raw /\
     unseal (Store.key s) raw = Ok (Store.data s, false)).
Proof.
  intros Hw Hs Ht1 Ht2. unfold Store.write_checked.
  destruct (seal (Store.key s) _ (Store.data s)) as [raw|e]; [|done]. rewrite Hw.
  pose proof (write_atomic_spec (write (Store.staging_write env)) d staging raw Ht2) as H.
  destruct (write_atomic _ d staging raw) as [d' [u|e]].
  - destruct H as [Hat Hother]. split; [by apply Hother|]. intros H.
    apply rbind_ok in H as (raw' & Hr & H). apply map_err_ok in Hr.
    apply rbind_ok in H as ([back legacy] & Hu & H).
    destruct (negb legacy && bool_decide (back = Store.data s)) eqn:E; [|done].
    apply andb_prop in E as [E1%negb_true_iff E2%bool_decide_eq_true]. subst.
    unfold read_file in Hr. destruct (Store.staging_read env); [done|].
    apply ok_or_ok in Hr. eauto.
  - destruct H as [_ Hother]. split; [by apply Hother|done].
Qed.

(** C29. Opening never loses a state. A failed opening leaves the file as it
    was, whatever fails. A store that opens holds the state of the file, which
    is left as it was, or was a file of the first schema and is now a current
    file with the same state. The empty state comes only when the existence
    test finds no file, and then the disk is left as it was: a file that is
    there and does not read or open is an error. (The test of the code also
    finds no file when the test itself fails.) *)
Theorem open_never_loses (env : Store.open_env) (d : disk) (path : string)
    (Ht1 : temp (write (Store.staging_write env)) <> path)
    (Ht2 : temp (write (Store.staging_write env)) <> path +:+ STAGING_SUFFIX) :
  let '(d', r) := Store.open env d path in
  match r with
  | Err _ => d' !! path = d !! path
  | Ok s => Store.provider env = Ok (Store.key s) /\ Store.path s = path /\
      if path_exists d path (Store.stat env) then
        exists raw raw', d !! path = Some raw /\ d' !! path = Some raw' /\
          unseal (Store.key s) raw' = Ok (Store.data s, false) /\
          (raw' = raw \/ unseal (Store.key s) raw = Ok (Store.data s, true))
      else Store.data s = StateData.initial /\ d' = d
  end.
Proof.
  unfold Store.open, Store.open_with_writer.
  destruct (io (Store.directory env)); [|done].
  destruct (io (Store.lock_file env)); [|done].
  destruct (Store.lock env) as [[e|]|]; [done..|].
  destruct (Store.provider env) as [key|e]; [|done].
  pose proof (path_exists_cases d path (Store.stat env)) as Hexists.
  destruct (path_exists d path (Store.stat env)); simpl; [|done].
  destruct Hexists as (_ & raw & Hraw).
  unfold read_file. rewrite Hraw.
  destruct (Store.reading env) as [e|]; [simpl; auto|]. simpl.
  destruct (unseal key raw) as [[data legacy]|e] eqn:Hu; [|done].
  destruct legacy; [|simpl; eauto 10].
  set (s := Store.with_data (Store.mk path key StateData.initial write_atomic) data).
  unfold Store.migrate. change (Store.path s) with path.
  pose proof (write_checked_spec env d s (path +:+ STAGING_SUFFIX) eq_refl
    (staging_differs path) Ht1 Ht2) as Hc.
  destruct (Store.write_checked env d s (path +:+ STAGING_SUFFIX)) as [d1 checked].
  destruct Hc as [Hsame Hchecked]. change (Store.path s) with path in *.
  assert (forall d2 b, d2 !! path = d !! path ->
            remove_file d2 (path +:+ STAGING_SUFFIX) b !! path = d !! path) as Hrm.
  { intros d2 b Hd. unfold remove_file, disk in *. destruct b; [|done].
    rewrite lookup_delete_ne; [done|apply staging_differs]. }
  destruct checked as [[]|e].
  - specialize (Hchecked eq_refl). destruct Hchecked as (raw' & Hst & Hu').
    unfold rename_file, disk in *. rewrite Hst. destruct (Store.staging_rename env) as [e|]; simpl.
    + by rewrite Hrm.
    + split; [done|]. split; [done|]. exists raw, raw'. rewrite lookup_insert_eq. auto.
  - simpl. by rewrite Hrm.
Qed.
End Opening.

(** ** Reset and sessions *)

Section Reset.
Context {C : Crypto} {T : StateText} {A : Aead} {O : Olm}.

Lemma commit_ok env d s change d' s' u :
  Store.commit env d s change = (d', s', Ok u) -> Store.data s' = change (Store.data s).
Proof.
  unfold Store.commit. destruct (seal _ _ _); [|done].
  destruct (Store.writer s _ _ _ _) as [d1 [?|?]]; [|done]. by intros [= _ <- _].
Qed.

Lemma release_other s network nick network' nick' device curve :
  PeerTrust.is_revoked (PeerTrust.release_master s network nick) network' nick' device curve =
  PeerTrust.is_revoked s network' nick' device curve.
Proof.
  unfold PeerTrust.release_master, PeerTrust.is_revoked.
  destruct (PeerTrust.get s network nick) as [r|] eqn:Hr; [|done].
  unfold PeerTrust.get, PeerTrust.t in *.
  destruct (decide (peer_key network nick = peer_key network' nick')) as [He|He].
  - rewrite <-He, lookup_insert_eq, Hr. done.
  - by rewrite lookup_insert_ne.
Qed.

Lemma release_own s network nick :
  PeerTrust.master (PeerTrust.release_master s network nick) network nick = None.
Proof.
  unfold PeerTrust.release_master, PeerTrust.master.
  destruct (PeerTrust.get s network nick) as [r|] eqn:Hr; [by rewrite get_insert|by rewrite Hr].
Qed.

(** The end of a reset removes every private value and every pending mark,
    and the own master; it keeps what protects the user after it: no
    revocation of any peer, no replay id and no drop mark is lost, and the
    masters of the other peers stay. *)
Theorem finish_reset_exact (env : io_env) (d d' : disk) (s s' : Store.t)
    (network own_nick : string)
    (H : Store.finish_reset env d s network own_nick = (d', s', Ok tt)) :
  (Store.olm_identity s' = Ok None /\ Store.master_key s' = Ok None /\
   (forall id, Store.session_of s' id = Ok None)) /\
  (StateData.signed_list (Store.data s') = None /\
   StateData.device_certificate (Store.data s') = None /\
   StateData.pending_pairing (Store.data s') = None /\
   StateData.pending_revoke (Store.data s') = None /\
   StateData.own_revoked (Store.data s') = [] /\
   StateData.list_pending (Store.data s') = false /\
   StateData.reset_pending (Store.data s') = false) /\
  (StateData.replay (Store.data s') = StateData.replay (Store.data s) /\
   StateData.dropped_rows (Store.data s') = StateData.dropped_rows (Store.data s)) /\
  PeerTrust.master (StateData.trust (Store.data s')) network own_nick = None /\
  (forall n k device curve,
     PeerTrust.is_revoked (StateData.trust (Store.data s')) n k device curve =
     PeerTrust.is_revoked (StateData.trust (Store.data s)) n k device curve) /\
  (forall n k, peer_key n k <> peer_key network own_nick ->
     PeerTrust.master (StateData.trust (Store.data s')) n k =
     PeerTrust.master (StateData.trust (Store.data s)) n k).
Proof.
  apply commit_ok in H. unfold Store.olm_identity, Store.master_key, Store.session_of.
  rewrite H. unfold Store.reset_data. simpl. split_and!; try done.
  - apply release_own.
  - intros. apply release_other.
  - intros n k Hne. unfold PeerTrust.release_master, PeerTrust.master.
    destruct (PeerTrust.get _ network own_nick) as [r|]; [|done].
    unfold PeerTrust.get, PeerTrust.t in *. by rewrite lookup_insert_ne.
Qed.

Lemma is_stale_key network is_peer n k did :
  contains_char "000" network = false -> contains_char "000" n = false ->
  contains_char "000" k = false ->
  Store.is_stale network is_peer (peer_device_key n k did) =
  bool_decide (n = network) && is_peer k.
Proof.
  intros Hw Hn Hk. unfold Store.is_stale, peer_device_key.
  destruct (strip_prefix (network +:+ NUL) (n +:+ NUL +:+ k +:+ NUL +:+ did)) as [rest|] eqn:E.
  - apply strip_prefix_Some in E. unfold NUL in E. rewrite str_app_assoc in E.
    pose proof (split_once_sep "000" n (k +:+ String "000" "" +:+ did) Hn) as E1.
    rewrite E, (split_once_sep "000" network rest Hw) in E1. injection E1 as -> ->.
    rewrite bool_decide_true by done. 
    change (String "000" "" +:+ did) with (String "000" did). by rewrite split_char_app.
  - rewrite bool_decide_false; [done|]. intros ->.
    rewrite <-str_app_assoc in E.
    by rewrite (proj2 (strip_prefix_Some _ _ _) eq_refl) in E.
Qed.

Lemma foldl_delete (stale : list string) (m : gmap string string) id :
  foldl (fun m id => delete id m) m stale !! id =
  if decide (id ∈ stale) then None else m !! id.
Proof.
  revert m. induction stale as [|x stale IH]; intros m; cbn [foldl].
  - by rewrite decide_False by set_solver.
  - rewrite IH. destruct (decide (id ∈ stale)).
    + by rewrite decide_True by set_solver.
    + destruct (decide (id = x)) as [->|Hne].
      * rewrite lookup_delete_eq. by rewrite decide_True by set_solver.
      * rewrite lookup_delete_ne by done. by rewrite decide_False by set_solver.
Qed.

(** Forgetting the sessions of a peer forgets exactly the sessions of this
    network whose nick the caller accepts: every other session stays. Names
    hold no NUL. *)
Theorem remove_peer_sessions_exact (env : io_env) (d d' : disk) (s s' : Store.t)
    (network : string) (is_peer : string -> bool) (n k did : string)
    (Hw : contains_char "000" network = false) (Hn : contains_char "000" n = false)
    (Hk : contains_char "000" k = false)
    (H : Store.remove_peer_sessions env d s network is_peer = (d', s', Ok tt)) :
  StateData.sessions (Store.data s') !! peer_device_key n k did =
  if bool_decide (n = network) && is_peer k then None
  else StateData.sessions (Store.data s) !! peer_device_key n k did.
Proof.
  rewrite <-(is_stale_key network is_peer n k did) by done.
  set (id := peer_device_key n k did). unfold Store.remove_peer_sessions in H.
  set (stale := filter _ _) in H.
  assert (StateData.sessions (Store.data s') !! id =
          if decide (id ∈ stale) then None else StateData.sessions (Store.data s) !! id) as ->.
  { destruct stale as [|x stale].
    - injection H as _ <-. by rewrite decide_False by set_solver.
    - apply commit_ok in H. rewrite H. simpl. apply (foldl_delete (x :: stale)). }
  assert (id ∈ stale <-> Store.is_stale network is_peer id = true /\
            is_Some (StateData.sessions (Store.data s) !! id)) as Hst.
  { unfold stale. rewrite list_elem_of_filter, list_elem_of_fmap. split.
    - intros [? ([i text] & -> & Hin)]. apply elem_of_map_to_list in Hin. eauto.
    - intros [? [text Ht]]. split; [done|]. exists (id, text).
      by rewrite elem_of_map_to_list. }
  case_decide as Hd.
  - apply Hst in Hd as [-> _]. done.
  - destruct (Store.is_stale network is_peer id); [|done].
    destruct (StateData.sessions (Store.data s) !! id) eqn:E; [|done].
    exfalso. apply Hd, Hst. eauto.
Qed.
End Reset.

(** ** Instances *)

(** An account is a number: the seed of its keys and the length of its
    pickle. *)
Definition count_text (key text : string) : option N :=
  rest ← strip_prefix key text;
  if decide (rest = str_repeat "a" (String.length rest)) then Some (str_len rest) else None.

#[export] Instance concrete_olm : Olm := {|
  account := N;
  session := string;
  account_pickle key n := key +:+ str_repeat "a" (N.to_nat n);
  account_from_encrypted := count_text;
  session_pickle key x := key +:+ x;
  session_from_encrypted key text := strip_prefix key text;
  identity_ed25519 := sample_key;
  identity_curve25519 n := sample_key (n + 100);
  sign_text := sample_sign;
|}.

#[export] Instance concrete_olm_laws : OlmLaws.
Proof.
  split; [|intros; by apply strip_prefix_Some]. intros key n.
  unfold account_from_encrypted, account_pickle, concrete_olm, count_text.
  rewrite (proj2 (strip_prefix_Some _ _ _) eq_refl). simpl.
  rewrite str_repeat_length, decide_True by done. unfold str_len.
  rewrite str_repeat_length. f_equal. apply N2Nat.id.
Qed.

Definition row_state : StateData.t :=
  StateData.set_dropped {["row-1" := "late"]} StateData.initial.
Definition reset_state : StateData.t := StateData.set_reset true row_state.
Definition two_sessions : StateData.t :=
  StateData.set_sessions
    {[peer_device_key "azzurra" "luna" "d1" := "p1"; peer_device_key "azzurra" "sole" "d2" := "p2"]}
    StateData.initial.
Definition one_session : StateData.t :=
  StateData.set_sessions {[peer_device_key "azzurra" "sole" "d2" := "p2"]} StateData.initial.
Definition trusted_state : StateData.t := StateData.set_trust two_devices StateData.initial.

Definition known_states : list StateData.t :=
  [StateData.initial; row_state; reset_state; StateData.set_pairing (Some "p") row_state;
   two_sessions; one_session; trusted_state;
   Store.reset_data "azzurra" "luna" trusted_state].

#[local] Instance concrete_state_text : StateText := {|
  state_to_vec d := ok_or (table_encode known_states d) "no text for this state";
  state_from_slice := table_decode known_states;
|}.

#[local] Instance concrete_state_text_laws : StateTextLaws.
Proof. split. intros d text H. apply ok_or_ok in H. by apply table_round. Qed.

(** ** Runs *)

Definition sample_path : string := "/data/e2e.state".
Definition sample_env (w : write_outcome) : io_env :=
  {| nonce := str_repeat "n" 24;
     write := {| temp := "/data/.tmp-1"; writing := w; renaming := None; removing := true |} |}.
Definition sample_store (d : StateData.t) : Store.t :=
  Store.mk sample_path (str_repeat "k" 32) d write_atomic.

Definition sample_opening : Store.open_env :=
  {| Store.directory := Ok tt; Store.lock_file := Ok tt; Store.lock := None;
     Store.provider := Ok (str_repeat "k" 32); Store.stat := None; Store.reading := None;
     Store.staging_write := sample_env WriteOk; Store.staging_read := None;
     Store.staging_rename := None; Store.staging_remove := true |}.

Lemma seal_roundtrip_witness :
  exists raw, seal (str_repeat "k" 32) (str_repeat "n" 24) row_state = Ok raw /\
    unseal (str_repeat "k" 32) raw = Ok (row_state, false) /\
    forall other, key_check other <> key_check (str_repeat "k" 32) ->
      unseal other raw = Err E2eStoreError.WrongKey.
Proof.
  destruct (seal (str_repeat "k" 32) (str_repeat "n" 24) row_state) as [raw|e] eqn:E.
  - exists raw. split; [reflexivity|].
    apply (seal_roundtrip (str_repeat "k" 32) (str_repeat "n" 24) raw row_state);
      [vm_compute; reflexivity|exact E].
  - exfalso. vm_compute in E. discriminate E.
Defined.

(** A mark, a pairing state whose write is cut short, and a reset mark. *)
Definition sample_ops : list (io_env * store_op) :=
  [(sample_env WriteOk, SetDroppedRow "row-1" "late");
   (sample_env (WriteFails "half" "No space left on device"), SetPendingPairing "p");
   (sample_env WriteOk, BeginReset)].

Lemma store_durable_witness :
  let '(d', s', _) := store_run ∅ (sample_store StateData.initial) sample_ops in
  Store.open sample_opening d' sample_path = (d', Ok s').
Proof.
  apply (store_durable ∅ (sample_store StateData.initial) sample_ops sample_opening).
  - reflexivity.
  - repeat constructor; discriminate.
  - vm_compute. reflexivity.
  - repeat split; vm_compute; reflexivity.
Defined.

Example sample_run_results :
  (store_run ∅ (sample_store StateData.initial) sample_ops).2 =
  [Ok tt; Err (E2eStoreError.Io "No space left on device"); Ok tt].
Proof. vm_compute. reflexivity. Qed.

Lemma failed_operation_changes_nothing_witness :
  let env := sample_env (WriteFails "half" "No space left on device") in
  let s := sample_store row_state in
  let d' := (store_step env ∅ s (SetPendingPairing "p")).1.1 in
  let s' := (store_step env ∅ s (SetPendingPairing "p")).1.2 in
  s' = s /\ d' !! sample_path = (∅ : disk) !! sample_path.
Proof.
  cbv zeta.
  destruct (store_step (sample_env (WriteFails "half" "No space left on device")) ∅
    (sample_store row_state) (SetPendingPairing "p")) as [[d' s'] r] eqn:E.
  apply (failed_operation_changes_nothing
    (sample_env (WriteFails "half" "No space left on device")) ∅ d' (sample_store row_state) s'
    (SetPendingPairing "p") (E2eStoreError.Io "No space left on device")).
  - reflexivity.
  - split; [reflexivity|discriminate].
  - assert (r = Err (E2eStoreError.Io "No space left on device")) as ->; [|exact E].
    change r with (d', s', r).2. rewrite <-E. vm_compute. reflexivity.
Defined.

(** A file of the first schema. *)
Definition legacy_file : string :=
  MAGIC_V1 +:+ str_repeat "n" 24 +:+
  aead_tag (str_repeat "k" 32) (str_repeat "n" 24) MAGIC_V1 +:+ entry_name 1.

Lemma unseal_exact_witness :
  unseal (str_repeat "k" 32) legacy_file = Ok (row_state, true) /\
  exists nonce sealed plain,
    legacy_file = header (str_repeat "k" 32) true +:+ nonce +:+ sealed /\
    str_len nonce = NONCE_LEN /\
    aead_decrypt (str_repeat "k" 32) nonce (header (str_repeat "k" 32) true) sealed = Some plain /\
    state_from_slice plain = Some row_state.
Proof.
  split; [vm_compute; reflexivity|].
  apply (unseal_exact (str_repeat "k" 32) legacy_file row_state true).
  vm_compute. reflexivity.
Defined.

Lemma open_never_loses_witness :
  let d : disk := {[sample_path := legacy_file]} in
  let '(d', r) := Store.open sample_opening d sample_path in
  exists s, r = Ok s /\ exists raw', d' !! sample_path = Some raw' /\
    unseal (Store.key s) raw' = Ok (Store.data s, false).
Proof.
  pose proof (open_never_loses sample_opening {[sample_path := legacy_file]} sample_path) as H.
  assert (is_ok (Store.open sample_opening {[sample_path := legacy_file]} sample_path).2 = true)
    as Hok by (vm_compute; reflexivity).
  cbv zeta. destruct (Store.open sample_opening {[sample_path := legacy_file]} sample_path)
    as [d' [s|e]]; [|discriminate Hok].
  exists s. split; [reflexivity|].
  destruct H as (_ & _ & H); [vm_compute; discriminate..|].
  assert (path_exists {[sample_path := legacy_file]} sample_path (Store.stat sample_opening) = true)
    as Hex by (vm_compute; reflexivity).
  rewrite Hex in H. destruct H as (raw & raw' & _ & Hraw' & Hu & _). exists raw'.
  split; [exact Hraw'|exact Hu].
Defined.

(** The same file under a failed existence test: the state is empty. *)
Example failed_test_opens_empty :
  let env := Store.Build_open_env (Store.directory sample_opening) (Store.lock_file sample_opening)
    (Store.lock sample_opening) (Store.provider sample_opening) (Some "Input/output error")
    (Store.reading sample_opening) (Store.staging_write sample_opening)
    (Store.staging_read sample_opening) (Store.staging_rename sample_opening)
    (Store.staging_remove sample_opening) in
  Store.data <$> result_ok (Store.open env {[sample_path := legacy_file]} sample_path).2 =
  Some StateData.initial.
Proof. vm_compute. reflexivity. Qed.

Example legacy_file_opens :
  Store.data <$> result_ok (Store.open sample_opening {[sample_path := legacy_file]} sample_path).2 =
  Some row_state.
Proof. vm_compute. reflexivity. Qed.

Lemma finish_reset_exact_witness :
  exists d' s',
    Store.finish_reset (sample_env WriteOk) ∅ (sample_store trusted_state) "azzurra" "luna" =
      (d', s', Ok tt) /\
    Store.olm_identity s' = Ok None /\
    PeerTrust.master (StateData.trust (Store.data s')) "azzurra" "luna" = None.
Proof.
  destruct (Store.finish_reset (sample_env WriteOk) ∅ (sample_store trusted_state)
    "azzurra" "luna") as [[d' s'] r] eqn:E.
  assert (r = Ok tt) as ->.
  { change r with (d', s', r).2. rewrite <-E. vm_compute. reflexivity. }
  exists d', s'. split; [reflexivity|].
  destruct (finish_reset_exact _ _ _ _ _ _ _ E) as ((Ha & _) & _ & _ & Hm & _).
  split; [exact Ha|exact Hm].
Defined.

Lemma remove_peer_sessions_exact_witness :
  exists s',
    (Store.remove_peer_sessions (sample_env WriteOk) ∅ (sample_store two_sessions) "azzurra"
       (fun nick => bool_decide (nick = "luna"))).1.2 = s' /\
    StateData.sessions (Store.data s') !! peer_device_key "azzurra" "sole" "d2" = Some "p2".
Proof.
  destruct (Store.remove_peer_sessions (sample_env WriteOk) ∅ (sample_store two_sessions)
    "azzurra" (fun nick => bool_decide (nick = "luna"))) as [[d' s'] r] eqn:E.
  assert (r = Ok tt) as ->.
  { change r with (d', s', r).2. rewrite <-E. vm_compute. reflexivity. }
  exists s'. split; [reflexivity|].
  rewrite (remove_peer_sessions_exact (sample_env WriteOk) ∅ d' (sample_store two_sessions) s'
    "azzurra" (fun nick => bool_decide (nick = "luna")) "azzurra" "sole" "d2");
    [vm_compute; reflexivity|reflexivity..|exact E].
Defined.
