(* ===== verification/Versions.v ===== *)
(** * Protocol versions (crates/cordiale-core/src/protocol.rs and the version
    gates of crates/cordiale-core/src/e2e_protocol.rs)

    A gate compares the version of the server with a floor; an unknown
    version passes no gate. *)

From S2P Require Import Prelude.
From stdpp Require Import options.

Definition MIN_SUPPORTED_PROTOCOL_VERSION : N := 1.
Definition CLIENT_PROTOCOL_VERSION : N := 59.
Definition TIME_CURSOR_MIN_PROTOCOL_VERSION : N := 40.
Definition CREDENTIAL_RESTART_MIN_PROTOCOL_VERSION : N := 51.
Definition OWN_FLAG_MIN_PROTOCOL : N := 50.
Definition CONSENT_MIN_PROTOCOL : N := 53.
Definition NO_SUCH_NICK_MIN_PROTOCOL : N := 54.
Definition PAIRING_MIN_PROTOCOL : N := 48.
Definition PAIRING_OFFER_MIN_PROTOCOL : N := 55.

(** [is_some_and(|version| version >= floor)]. *)
Definition at_least (floor : N) (server_protocol : option N) : bool :=
  match server_protocol with Some version => (floor <=? version)%N | None => false end.

Definition supports_time_cursors : option N -> bool :=
  at_least TIME_CURSOR_MIN_PROTOCOL_VERSION.
Definition restarts_credential_sessions : option N -> bool :=
  at_least CREDENTIAL_RESTART_MIN_PROTOCOL_VERSION.
Definition own_flag_allowed : option N -> bool := at_least OWN_FLAG_MIN_PROTOCOL.
Definition pairing_offer_available : option N -> bool := at_least PAIRING_OFFER_MIN_PROTOCOL.

Record ServerCompatibility := {
  protocol_version : N;
  min_protocol_version : N;
}.

Definition supported_by_cordiale (compat : ServerCompatibility) : bool :=
  (MIN_SUPPORTED_PROTOCOL_VERSION <=? protocol_version compat)%N.

Lemma at_least_spec floor sp :
  at_least floor sp = true <-> exists version, sp = Some version /\ (floor <= version)%N.
Proof.
  unfold at_least. destruct sp; [|naive_solver].
  rewrite N.leb_le. naive_solver.
Qed.

(** A gate that a server passes stays open on every later server. *)
Lemma at_least_mono floor floor' v v' :
  (floor' <= floor)%N -> (v <= v')%N ->
  at_least floor (Some v) = true -> at_least floor' (Some v') = true.
Proof. unfold at_least. rewrite !N.leb_le. lia. Qed.
