(* ===== verification/DeviceRoutes.v ===== *)
(** * Bodies and answers of the per-device routes
    (crates/cordiale-core/src/e2e_device_routes.rs)

    The requests, the readers of the answers, and what an accepted answer is. *)

From S2P Require Import Prelude.
From S2P Require Import RustStr.
From S2P Require Import Interfaces.
From S2P Require Import Concrete.
From S2P Require Import Wire.
From S2P Require Import Versions.
From stdpp Require Import options.

Definition COPY_PAYLOAD_MAX_BYTES : N := SEND_PAYLOAD_MAX_BYTES.

(** ** Field readers *)

Section Fields.
Context {J : Json}.

Definition check_compact_json (text : string) : result unit WireError :=
  if is_empty text || contains_char " " text then Err BadPayload else
  let? v := parse_payload text in
  match as_object_map v with Some _ => Ok tt | None => Err BadPayload end.

Definition read_id (v : value) : result N WireError :=
  match as_u64 v with
  | Some id => if (0 <? id)%N then Ok id else Err BadId
  | None => Err BadFieldType
  end.

Definition required_id (map : gmap string value) (key : string) : result N WireError :=
  let? v := ok_or (map !! key) MissingField in read_id v.

(** No character of the text is white space or a control character. *)
Definition plain_text (text : string) : bool :=
  negb (existsb (fun ch => is_whitespace ch || is_control ch) (utf8_chars text)).

Definition required_msgid (map : gmap string value) : result string WireError :=
  let? msgid := required_str map "msgid" in
  if is_empty msgid || negb (plain_text msgid) then Err BadMsgid else Ok msgid.
End Fields.

(** ** Requests *)

Module ClaimRequest.
Record t := mk { from_did : string }.

Definition new `{Crypto} (from_did : string) : result t WireError :=
  if negb (is_did_shape from_did) then Err BadDid else Ok (mk from_did).
End ClaimRequest.

Module ClaimResponse.
Record t := mk { keys : string }.

Definition from_value `{J : Json} (v : value) : result t WireError :=
  let? map := as_object v in
  let? keys := required_str map "keys" in
  let? _ := check_compact_json keys in
  Ok (mk keys).
End ClaimResponse.

Inductive CopyVerb := CopyPkMsg | CopyMsg.

Module CopyRequest.
Record t := mk { from_did : string; verb : CopyVerb; payload : string }.

Definition new `{C : Crypto, J : Json} (from_did : string) (verb : CopyVerb)
    (payload : string) : result t WireError :=
  if negb (is_did_shape from_did) then Err BadDid else
  if (COPY_PAYLOAD_MAX_BYTES <? str_len payload)%N then Err BadPayload else
  let? _ := check_compact_json payload in
  Ok (mk from_did verb payload).
End CopyRequest.

Module CopyAccepted.
Record t := mk { id : N; msgid : string }.

Definition from_value `{J : Json} (v : value) : result t WireError :=
  let? map := as_object v in
  let? id := required_id map "id" in
  let? msgid := required_msgid map in
  Ok (mk id msgid).
End CopyAccepted.

Module InboxAckRequest.
Record t := mk { ids : list N }.

Definition new (ids : list N) : result t WireError :=
  if (lenN ids =? 0)%N || (INBOX_PAGE_MAX <? lenN ids)%N then Err BadIdCount
  else if contains ids 0%N then Err BadId
  else Ok (mk ids).
End InboxAckRequest.

(** ** Rows of the inbox *)

Module InboxVerb.
Inductive t := Keys | PkMsg | Msg | Nack.

#[global] Instance eq_dec : EqDecision t.
Proof. solve_decision. Defined.

Definition parse (text : string) : result t WireError :=
  if decide (text = "keys") then Ok Keys
  else if decide (text = "pkmsg") then Ok PkMsg
  else if decide (text = "msg") then Ok Msg
  else if decide (text = "nack") then Ok Nack
  else Err BadVerb.
End InboxVerb.

Module InboxRow.
Record t := mk {
  id : N;
  network : string;
  from : string;
  from_did : string;
  to_did : string;
  verb : InboxVerb.t;
  msgid : string;
  payload : string;
  own : bool;
}.

Section Read.
Context {C : Crypto} {J : Json}.

Definition read_own (map : gmap string value) (server_protocol : option N)
    : result bool WireError :=
  match map !! "own" with
  | None => Ok false
  | Some v =>
      if negb (own_flag_allowed server_protocol) then Err UnknownField
      else ok_or (as_bool v) BadFieldType
  end.

Definition wildcard_sender (from_did : string) (verb : InboxVerb.t)
    (server_protocol : option N) : bool :=
  bool_decide (from_did = WILDCARD)
  && (bool_decide (verb = InboxVerb.Keys)
      || (bool_decide (verb = InboxVerb.Nack) && at_least 52 server_protocol)).

Definition from_value (v : value) (server_protocol : option N) : result t WireError :=
  let? map := as_object v in
  let? kind := required_str map "kind" in
  if negb (bool_decide (kind = "e2e_message")) then Err BadFieldType else
  let? own := read_own map server_protocol in
  let? verb := rbind (required_str map "verb") InboxVerb.parse in
  let? from_did := required_str map "from_did" in
  if negb (is_did_shape from_did) && negb (wildcard_sender from_did verb server_protocol)
  then Err BadDid else
  let? to_did := required_str map "to_did" in
  if negb (is_did_shape to_did) then Err BadDid else
  let? payload := required_str map "payload" in
  let? _ := check_compact_json payload in
  let? id := required_id map "id" in
  let? network := required_str map "network" in
  let? from := required_str map "from" in
  let? msgid := required_msgid map in
  Ok (mk id network from from_did to_did verb msgid payload own).

Definition page_from_value (v : value) (server_protocol : option N)
    : result (list t) WireError :=
  let? map := as_object v in
  let? messages := ok_or (map !! "messages") MissingField in
  let? rows := ok_or (as_array messages) BadFieldType in
  collect_result (fun row => from_value row server_protocol) rows.
End Read.
End InboxRow.

(** ** The incoming events *)

Section Incoming.
Context {C : Crypto} {J : Json}.

Definition incoming_to (map : gmap string value) : result string WireError :=
  let? to := required_str map "to" in
  if negb (bool_decide (to = WILDCARD)) && negb (is_did_shape to) then Err BadDid else Ok to.

Definition incoming_from_did (map : gmap string value) : result string WireError :=
  let? from_did := required_str map "from_did" in
  if negb (is_did_shape from_did) then Err BadDid else Ok from_did.
End Incoming.

Module IncomingEvent.
Record t := mk {
  network : string; from : string; from_did : string; to : string; msgid : string;
}.

Definition from_value `{C : Crypto, J : Json} (v : value) : result t WireError :=
  let? map := as_object v in
  let? kind := required_str map "kind" in
  if negb (bool_decide (kind = "e2e_incoming")) then Err BadFieldType else
  let? from := required_str map "from" in
  if is_empty from then Err MissingField else
  let? network := required_str map "network" in
  let? from_did := incoming_from_did map in
  let? to := incoming_to map in
  let? msgid := required_msgid map in
  Ok (mk network from from_did to msgid).

Definition is_for (e : t) (own_did : string) : bool :=
  bool_decide (to e = WILDCARD) || bool_decide (to e = own_did).
End IncomingEvent.

Module IncomingLostEvent.
Record t := mk { network : string; from_did : string; to : string; msgid : string }.

Definition from_value `{C : Crypto, J : Json} (v : value) : result t WireError :=
  let? map := as_object v in
  let? kind := required_str map "kind" in
  if negb (bool_decide (kind = "e2e_incoming_lost")) then Err BadFieldType else
  let? network := required_str map "network" in
  let? from_did := incoming_from_did map in
  let? to := incoming_to map in
  let? msgid := required_msgid map in
  Ok (mk network from_did to msgid).

Definition is_for (e : t) (own_did : string) : bool :=
  bool_decide (to e = WILDCARD) || bool_decide (to e = own_did).
End IncomingLostEvent.

(** What an accepted row promises to the engine. *)
Record row_ok `{Crypto} (sp : option N) (r : InboxRow.t) : Prop := {
  row_id : (0 < InboxRow.id r)%N;
  (** The sender is a device, or [*] where the protocol has it. *)
  row_from_did :
    is_did_shape (InboxRow.from_did r) = true \/
    InboxRow.from_did r = WILDCARD /\
    (InboxRow.verb r = InboxVerb.Keys \/
     InboxRow.verb r = InboxVerb.Nack /\ exists version, sp = Some version /\ (52 <= version)%N);
  row_to_did : is_did_shape (InboxRow.to_did r) = true;
  row_msgid : InboxRow.msgid r <> "" /\ plain_text (InboxRow.msgid r) = true;
  (** A copy of an own message comes only from a server that has them. *)
  row_own : InboxRow.own r = true -> exists version, sp = Some version /\ (50 <= version)%N;
}.

Section Rows.
Context {C : Crypto} {J : Json}.

Lemma required_id_pos map key id : required_id map key = Ok id -> (0 < id)%N.
Proof.
  unfold required_id, read_id. intros H. inv_result.
  destruct (as_u64 a); [|done]. destruct (N.ltb_spec 0 n); inv_result; by subst.
Qed.

Lemma required_msgid_ok map msgid :
  required_msgid map = Ok msgid -> msgid <> "" /\ plain_text msgid = true.
Proof.
  unfold required_msgid. intros H. inv_result.
  destruct (is_empty a || negb (plain_text a)) eqn:E; inv_result.
  apply orb_false_iff in E as [E1 E2].
  split; [by apply is_empty_false|by apply negb_false_iff].
Qed.

Lemma read_own_true map sp :
  InboxRow.read_own map sp = Ok true -> own_flag_allowed sp = true.
Proof.
  unfold InboxRow.read_own. destruct (map !! "own"); [|done].
  by destruct (own_flag_allowed sp).
Qed.

Lemma wildcard_sender_spec from_did verb sp :
  InboxRow.wildcard_sender from_did verb sp = true ->
  from_did = WILDCARD /\
  (verb = InboxVerb.Keys \/
   verb = InboxVerb.Nack /\ exists version, sp = Some version /\ (52 <= version)%N).
Proof.
  unfold InboxRow.wildcard_sender. intros [H1 H2]%andb_prop.
  apply bool_decide_eq_true in H1. split; [done|].
  apply orb_prop in H2 as [H2|[H2 H3]%andb_prop]; apply bool_decide_eq_true in H2; [by left|].
  right. split; [done|]. by apply at_least_spec.
Qed.

Lemma row_accepted v sp row : InboxRow.from_value v sp = Ok row -> row_ok sp row.
Proof.
  unfold InboxRow.from_value. intros H. inv_checks. constructor; simpl.
  - by eapply required_id_pos.
  - apply andb_false_iff in Hcheck0 as [E|E]; apply negb_false_iff in E; [by left|].
    right. by apply wildcard_sender_spec.
  - by apply negb_false_iff.
  - by eapply required_msgid_ok.
  - intros ->. by apply at_least_spec, (read_own_true a).
Qed.

(** C40. A page of the inbox is accepted as a whole or not at all: an accepted
    page has one row for each element of [messages], in order, and every row
    has a positive id, device ids where ids are due (the wildcard sender only
    on KEYS, and on NACK from protocol 52), a non-empty message id without
    white space, and the mark of an own copy only from protocol 50. *)
Theorem inbox_page_accepted (v : value) (sp : option N) (rows : list InboxRow.t)
    (H : InboxRow.page_from_value v sp = Ok rows) :
  exists messages items, json_get v "messages" = Some messages /\
    as_array messages = Some items /\
    Forall2 (fun item row => InboxRow.from_value item sp = Ok row) items rows /\
    Forall (row_ok sp) rows.
Proof.
  unfold InboxRow.page_from_value in H. inv_result.
  apply collect_result_ok in H. exists a0, a1. split_and!; [|done|done|].
  - unfold json_get. unfold as_object in Hstep. apply ok_or_ok in Hstep. by rewrite Hstep.
  - clear -H. induction H as [|item row items rows Hrow _ IH]; [constructor|].
    constructor; [by eapply row_accepted|done].
Qed.
End Rows.

(** A page with one row that a peer device could not read. *)
Definition sample_did : string := did_from_raw_key (str_repeat "k" 32).

Definition sample_page : json :=
  JObj [("messages", JArr [JObj
    [("kind", JStr "e2e_message"); ("verb", JStr "nack"); ("from_did", JStr "*");
     ("to_did", JStr sample_did); ("payload", JStr "{}"); ("id", JNum 7);
     ("network", JStr "azzurra"); ("from", JStr "luna"); ("msgid", JStr "m1")]])].

Definition sample_row : InboxRow.t :=
  InboxRow.mk 7 "azzurra" "luna" "*" sample_did InboxVerb.Nack "m1" "{}" false.

Lemma inbox_page_accepted_witness :
  InboxRow.page_from_value (J := concrete_json) sample_page (Some 52%N) = Ok [sample_row] /\
  exists messages items, json_get (H := concrete_json) sample_page "messages" = Some messages /\
    as_array messages = Some items /\
    Forall2 (fun item row => InboxRow.from_value item (Some 52%N) = Ok row)
      items [sample_row] /\
    Forall (row_ok (Some 52%N)) [sample_row].
Proof.
  split; [vm_compute; reflexivity|].
  apply (inbox_page_accepted (J := concrete_json) sample_page (Some 52%N) [sample_row]).
  vm_compute. reflexivity.
Defined.
