(* ===== verification/Pacing.v ===== *)
(** * Pacing and send status (crates/cordiale-core/src/e2e_pacing.rs)

    The clock is an argument, as in the code: [now] is a [Duration] since a
    fixed start, in nanoseconds here. A change of state is a new state; an
    operation returns the state and its result. *)

From S2P Require Import Prelude.
From S2P Require Import RustStr.
From S2P Require Import Interfaces.
From S2P Require Import Isupport.
From S2P Require Import Wire.
From S2P Require Import DeviceRoutes.
From stdpp Require Import options.

(** ** Durations *)

Definition NANOS_PER_SEC : N := 1000000000.
Definition secs (n : N) : N := n * NANOS_PER_SEC.

(** [Duration::MAX]. *)
Definition DURATION_MAX : N := secs U64_MAX + (NANOS_PER_SEC - 1).

(** [Duration + Duration] panics past [Duration::MAX]. *)
Definition duration_add (a b : N) : panics N := checked_add DURATION_MAX a b.

Definition KEYS_ANSWER_INTERVAL : N := secs 15.
Definition FAKE_LAG_BANK : N := secs 22.
Definition KEYREQ_INTERVAL : N := secs 30.

Module md3_pacing.
Definition REKEY_INTERVAL : N := secs 60.
Definition OUTGOING_QUEUE_TTL : N := secs 90.
Definition OUTGOING_QUEUE_MAX : N := 16.
Definition ONE_TIME_KEY_INTERVAL : N := secs 60.
Definition ONE_TIME_KEY_GLOBAL_LIMIT : N := 30.
Definition ONE_TIME_KEY_WINDOW : N := secs 3600.
Definition SENT_MEMORY : N := secs 1800.
Definition SENT_MAX : N := 1200.
Definition LISTREQ_INTERVAL : N := secs 60.
Definition MAX_SENDS : N := 2.
Definition REASSEMBLY_TIMEOUT : N := secs 60.
End md3_pacing.

Definition ONE_TIME_KEY_INTERVAL : N := md3_pacing.ONE_TIME_KEY_INTERVAL.
Definition SEND_SAFETY_MARGIN : N := secs 2.

Definition nick_key (nick : string) (casemapping : CaseMapping.t) : string :=
  CaseMapping.fold casemapping nick.

(** ** Limits *)

Module IntervalLimiter.
Record t := mk {
  interval : N;
  casemapping : option CaseMapping.t;
  last : gmap string N;
}.

Definition new (interval : N) : t := mk interval None ∅.

Definition sync_casemapping (s : t) (cm : CaseMapping.t) : t :=
  if decide (casemapping s = Some cm) then s else mk (interval s) (Some cm) ∅.

Definition try_acquire (s : t) (nick : string) (cm : CaseMapping.t) (now : N) : t * bool :=
  let s := sync_casemapping s cm in
  let key := nick_key nick cm in
  let insert := mk (interval s) (casemapping s) (<[key := now]> (last s)) in
  match last s !! key with
  | Some last => if (now - last <? interval s)%N then (s, false) else (insert, true)
  | None => (insert, true)
  end.

Definition forget (s : t) (nick : string) (cm : CaseMapping.t) : t :=
  let s := sync_casemapping s cm in
  mk (interval s) (casemapping s) (delete (nick_key nick cm) (last s)).
End IntervalLimiter.

Definition keys_answer_limiter : IntervalLimiter.t :=
  IntervalLimiter.new KEYS_ANSWER_INTERVAL.

Inductive KeyChoice := OneTime | Fallback.

#[global] Instance KeyChoice_eq_dec : EqDecision KeyChoice.
Proof. solve_decision. Defined.

Module WindowLimiter.
Record t := mk { limit : N; window : N; events : list N }.

Definition new (limit window : N) : t := mk limit window [].

(** The [while] loop over the front of the queue. *)
Fixpoint drop_expired (window now : N) (events : list N) : list N :=
  match events with
  | first :: rest =>
      if (window <=? now - first)%N then drop_expired window now rest else events
  | [] => []
  end.

Definition is_ready (s : t) (now : N) : t * bool :=
  let events := drop_expired (window s) now (events s) in
  (mk (limit s) (window s) events, (lenN events <? limit s)%N).

Definition try_acquire (s : t) (now : N) : t * bool :=
  let '(s, ready) := is_ready s now in
  if negb ready then (s, false)
  else (mk (limit s) (window s) (events s ++ [now]), true).
End WindowLimiter.

Module OneTimeKeyPacer.
Record t := mk { limiter : IntervalLimiter.t; global : WindowLimiter.t }.

Definition new : t :=
  mk (IntervalLimiter.new ONE_TIME_KEY_INTERVAL)
     (WindowLimiter.new md3_pacing.ONE_TIME_KEY_GLOBAL_LIMIT
        md3_pacing.ONE_TIME_KEY_WINDOW).

(** The three conditions of the [&&] are evaluated in their order, each one
    only after the earlier ones. *)
Definition choose (s : t) (nick : string) (cm : CaseMapping.t) (now : N) : t * KeyChoice :=
  let limiter := IntervalLimiter.sync_casemapping (limiter s) cm in
  let '(global, ready) := WindowLimiter.is_ready (global s) now in
  if negb ready then (mk limiter global, Fallback) else
  let '(limiter, free) := IntervalLimiter.try_acquire limiter nick cm now in
  if negb free then (mk limiter global, Fallback) else
  let '(global, acquired) := WindowLimiter.try_acquire global now in
  (mk limiter global, if acquired then OneTime else Fallback).
End OneTimeKeyPacer.

(** ** Reassembly and KEYREQ *)

Module ReassemblyGate.
Record t := mk {
  timeout : N;
  casemapping : option CaseMapping.t;
  last_fragment : gmap string (gmap string N);
}.

Definition new (timeout : N) : t := mk timeout None ∅.

Definition sync_casemapping (s : t) (cm : CaseMapping.t) : t :=
  if decide (casemapping s = Some cm) then s else mk (timeout s) (Some cm) ∅.

Definition note_fragment (s : t) (nick msgid : string) (cm : CaseMapping.t) (now : N) : t :=
  let s := sync_casemapping s cm in
  let key := nick_key nick cm in
  let messages := default ∅ (last_fragment s !! key) in
  let messages := filter (fun kv => now - kv.2 < timeout s)%N messages in
  mk (timeout s) (casemapping s)
     (<[key := <[msgid := now]> messages]> (last_fragment s)).

Definition finish (s : t) (nick msgid : string) (cm : CaseMapping.t) : t :=
  let s := sync_casemapping s cm in
  let key := nick_key nick cm in
  match last_fragment s !! key with
  | Some messages =>
      let messages := delete msgid messages in
      mk (timeout s) (casemapping s)
         (if decide (messages = ∅) then delete key (last_fragment s)
          else <[key := messages]> (last_fragment s))
  | None => s
  end.

Definition forget (s : t) (nick : string) (cm : CaseMapping.t) : t :=
  let s := sync_casemapping s cm in
  mk (timeout s) (casemapping s) (delete (nick_key nick cm) (last_fragment s)).

Definition is_active (s : t) (nick : string) (cm : CaseMapping.t) (now : N) : t * bool :=
  let s := sync_casemapping s cm in
  (s, match last_fragment s !! nick_key nick cm with
      | Some messages =>
          existsb (fun kv => (now - kv.2 <? timeout s)%N) (map_to_list messages)
      | None => false
      end).

Definition may_send_keyreq (s : t) (nick : string) (cm : CaseMapping.t) (now : N)
    : t * bool :=
  let '(s, active) := is_active s nick cm now in (s, negb active).
End ReassemblyGate.

Inductive KeyReqRefusal := Reassembling | Interval.

#[global] Instance KeyReqRefusal_eq_dec : EqDecision KeyReqRefusal.
Proof. solve_decision. Defined.

Module KeyReqPacer.
Record t := mk { limiter : IntervalLimiter.t; gate : ReassemblyGate.t }.

Definition new (reassembly_timeout : N) : t :=
  mk (IntervalLimiter.new KEYREQ_INTERVAL) (ReassemblyGate.new reassembly_timeout).

Definition sync_casemapping (s : t) (cm : CaseMapping.t) : t :=
  mk (IntervalLimiter.sync_casemapping (limiter s) cm)
     (ReassemblyGate.sync_casemapping (gate s) cm).

Definition note_fragment (s : t) (nick msgid : string) (cm : CaseMapping.t) (now : N) : t :=
  let s := sync_casemapping s cm in
  mk (limiter s) (ReassemblyGate.note_fragment (gate s) nick msgid cm now).

Definition finish (s : t) (nick msgid : string) (cm : CaseMapping.t) : t :=
  let s := sync_casemapping s cm in
  mk (limiter s) (ReassemblyGate.finish (gate s) nick msgid cm).

Definition try_send (s : t) (nick : string) (cm : CaseMapping.t) (now : N)
    : t * result unit KeyReqRefusal :=
  let s := sync_casemapping s cm in
  let '(gate, may) := ReassemblyGate.may_send_keyreq (gate s) nick cm now in
  if negb may then (mk (limiter s) gate, Err Reassembling) else
  let '(limiter, free) := IntervalLimiter.try_acquire (limiter s) nick cm now in
  (mk limiter gate, if free then Ok tt else Err Interval).

Definition forget (s : t) (nick : string) (cm : CaseMapping.t) : t :=
  let s := sync_casemapping s cm in
  mk (IntervalLimiter.forget (limiter s) nick cm)
     (ReassemblyGate.forget (gate s) nick cm).
End KeyReqPacer.

(** ** Answers of the send door *)

Inductive SendDecision := Go | TooLate.

#[global] Instance SendDecision_eq_dec : EqDecision SendDecision.
Proof. solve_decision. Defined.

Definition check_send_deadline (now deadline : N) : panics SendDecision :=
  arrival ← duration_add now SEND_SAFETY_MARGIN;
  Some (if (arrival <? deadline)%N then Go else TooLate).

Inductive SendFailure := FailTooLate | FailBadRequest.

#[global] Instance SendFailure_eq_dec : EqDecision SendFailure.
Proof. solve_decision. Defined.

Inductive SendResponse :=
| Accepted
| Failed (failure : SendFailure)
| Unexpected (status : N).

#[global] Instance SendResponse_eq_dec : EqDecision SendResponse.
Proof. solve_decision. Defined.

Record SendAnswer := { response : SendResponse; answer_msgid : option string }.

Definition parse_send_accepted `{J : Json} (body : value) : result string WireError :=
  let? map := as_object body in required_msgid map.

Definition classify_send_response (status : N) (error : option string) : SendResponse :=
  if (status =? 202)%N then Accepted
  else if (status =? 422)%N && bool_decide (error = Some "too_late") then Failed FailTooLate
  else if (status =? 400)%N && bool_decide (error = Some "bad_request")
       then Failed FailBadRequest
  else Unexpected status.

Module DropReason.
Inductive t := Late | SendFailed | SessionEnded | Unreadable | NoSuchNick.

#[global] Instance eq_dec : EqDecision t.
Proof. solve_decision. Defined.

Definition from_wire (text : string) : option t :=
  if decide (text = "late") then Some Late
  else if decide (text = "send_failed") then Some SendFailed
  else if decide (text = "session_ended") then Some SessionEnded
  else if decide (text = "unreadable") then Some Unreadable
  else if decide (text = "no_such_nick") then Some NoSuchNick
  else None.

Definition from_server_wire (text : string) : option t :=
  if decide (text = "late") then Some Late
  else if decide (text = "send_failed") then Some SendFailed
  else if decide (text = "session_ended") then Some SessionEnded
  else None.

Definition wire_name (r : t) : string :=
  match r with
  | Late => "late"
  | SendFailed => "send_failed"
  | SessionEnded => "session_ended"
  | Unreadable => "unreadable"
  | NoSuchNick => "no_such_nick"
  end.
End DropReason.

(** ** Status of the sends *)

Module SendStatus.
Inductive t :=
| Pending
| Accepted
| Failed (failure : SendFailure)
| Dropped (reason : DropReason.t).

#[global] Instance eq_dec : EqDecision t.
Proof. solve_decision. Defined.

(** [matches!(status, Pending | Accepted)]. *)
Definition is_live (s : t) : bool :=
  match s with Pending | Accepted => true | _ => false end.
End SendStatus.

(** The status that an answer sets, if it sets one. *)
Definition status_of_response (r : SendResponse) : option SendStatus.t :=
  match r with
  | Accepted => Some SendStatus.Accepted
  | Failed failure => Some (SendStatus.Failed failure)
  | Unexpected _ => None
  end.

Module SendTracker.
Definition t : Type := gmap string SendStatus.t.

Definition new : t := ∅.

Definition start (s : t) (id : string) : t :=
  match s !! id with Some _ => s | None => <[id := SendStatus.Pending]> s end.

Definition status (s : t) (id : string) : option SendStatus.t := s !! id.

Definition remove (s : t) (id : string) : t * option SendStatus.t :=
  (delete id s, s !! id).

Definition apply_response (s : t) (id : string) (r : SendResponse) : t * bool :=
  match status_of_response r with
  | None => (s, false)
  | Some next =>
      match s !! id with
      | Some SendStatus.Pending => (<[id := next]> s, true)
      | _ => (s, false)
      end
  end.

Definition apply_dropped (s : t) (id : string) (reason : DropReason.t) : t * bool :=
  match s !! id with
  | Some (SendStatus.Pending | SendStatus.Accepted) =>
      (<[id := SendStatus.Dropped reason]> s, true)
  | _ => (s, false)
  end.
End SendTracker.

Definition SEND_DROPPED_KIND : string := "e2e_send_dropped".

Module SendKey.
Record t := mk { network : string; target : string; msgid : string }.

#[global] Instance eq_dec : EqDecision t.
Proof. solve_decision. Defined.

#[global] Instance countable : Countable t.
Proof.
  refine (inj_countable' (fun k => (network k, target k, msgid k))
            (fun '(n, tg, m) => mk n tg m) _).
  by intros [].
Defined.
End SendKey.

Module SendDropped.
Record t := mk { key : SendKey.t; reason : DropReason.t }.

#[global] Instance eq_dec : EqDecision t.
Proof. solve_decision. Defined.

Definition from_value `{J : Json} (v : value) : result t WireError :=
  let? map := as_object v in
  let? network := required_str map "network" in
  let? target := required_str map "target" in
  let? msgid := required_str map "msgid" in
  if is_empty msgid then Err MissingField else
  let? text := required_str map "reason" in
  let? reason := ok_or (DropReason.from_server_wire text) BadFieldType in
  Ok (mk (SendKey.mk network target msgid) reason).

Definition from_payload `{J : Json} (payload : value) : option t :=
  kind ← json_get payload "kind" ≫= as_str;
  if negb (bool_decide (kind = SEND_DROPPED_KIND)) then None
  else result_ok (from_value payload).
End SendDropped.

Module SendBook.
Definition t : Type := gmap SendKey.t SendStatus.t.

Definition new : t := ∅.

Definition start (s : t) (key : SendKey.t) : t :=
  match s !! key with Some _ => s | None => <[key := SendStatus.Pending]> s end.

Definition status (s : t) (key : SendKey.t) : option SendStatus.t := s !! key.

Definition remove (s : t) (key : SendKey.t) : t * option SendStatus.t :=
  (delete key s, s !! key).

Definition apply_response (s : t) (key : SendKey.t) (r : SendResponse) : t * bool :=
  match status_of_response r with
  | None => (s, false)
  | Some next =>
      match s !! key with
      | Some SendStatus.Pending => (<[key := next]> s, true)
      | _ => (s, false)
      end
  end.

Definition apply_dropped (s : t) (event : SendDropped.t) : t * bool :=
  match s !! SendDropped.key event with
  | Some (SendStatus.Pending | SendStatus.Accepted) =>
      (<[SendDropped.key event := SendStatus.Dropped (SendDropped.reason event)]> s, true)
  | _ => (s, false)
  end.

Definition drop_local (s : t) (key : SendKey.t) (reason : DropReason.t) : t * bool :=
  apply_dropped s (SendDropped.mk key reason).

(** The loop visits every entry once; the order of a [HashMap] is not
    specified, here it is the one of [map_to_list]. *)
Definition end_session (s : t) : t * list SendDropped.t :=
  ((fun status => if SendStatus.is_live status
                  then SendStatus.Dropped DropReason.SessionEnded else status) <$> s,
   omap (fun '(key, status) =>
           if SendStatus.is_live status
           then Some (SendDropped.mk key DropReason.SessionEnded) else None)
        (map_to_list s)).

Definition apply_payload `{J : Json} (s : t) (payload : value)
    : t * option SendDropped.t :=
  match SendDropped.from_payload payload with
  | None => (s, None)
  | Some event =>
      let '(s, changed) := apply_dropped s event in
      (s, if changed then Some event else None)
  end.

Definition apply_dropped_event `{J : Json} (s : t) (payload : value)
    : t * result bool WireError :=
  match SendDropped.from_value payload with
  | Err e => (s, Err e)
  | Ok event => let '(s, changed) := apply_dropped s event in (s, Ok changed)
  end.
End SendBook.

(** ** Messages that wait for keys *)

Module QueuedSend.
Record t := mk { key : SendKey.t; deadline : N }.

#[global] Instance eq_dec : EqDecision t.
Proof. solve_decision. Defined.
End QueuedSend.

Module OutgoingQueue.
Definition t : Type := list QueuedSend.t.

Definition new : t := [].

Definition len (s : t) : N := lenN s.

Definition is_for (target : string) (cm : CaseMapping.t) (item : QueuedSend.t) : bool :=
  bool_decide (nick_key (SendKey.target (QueuedSend.key item)) cm = nick_key target cm).

Definition len_for (s : t) (target : string) (cm : CaseMapping.t) : N :=
  lenN (List.filter (is_for target cm) s).

Definition push (s : t) (key : SendKey.t) (cm : CaseMapping.t) (now : N)
    : panics (t * bool) :=
  if (md3_pacing.OUTGOING_QUEUE_MAX <=? len_for s (SendKey.target key) cm)%N
  then Some (s, false)
  else deadline ← duration_add now md3_pacing.OUTGOING_QUEUE_TTL;
       Some (s ++ [QueuedSend.mk key deadline], true).

(** [retain] with the drops collected on the way. *)
Fixpoint expire (s : t) (now : N) : panics (t * list SendDropped.t) :=
  match s with
  | [] => Some ([], [])
  | item :: s =>
      decision ← check_send_deadline now (QueuedSend.deadline item);
      '(kept, late) ← expire s now;
      Some (if decide (decision = TooLate)
            then (kept, SendDropped.mk (QueuedSend.key item) DropReason.Late :: late)
            else (item :: kept, late))
  end.

(** [ready] is a closure that may change its own state [S]. *)
Fixpoint take_loop {S} (ready : S -> QueuedSend.t -> S * bool) (st : S) (s : t)
    : S * list QueuedSend.t * t :=
  match s with
  | [] => (st, [], [])
  | item :: s =>
      let '(st, go) := ready st item in
      let '(st, taken, kept) := take_loop ready st s in
      if go : bool then (st, item :: taken, kept) else (st, taken, item :: kept)
  end.

Definition take_matching {S} (s : t) (now : N) (ready : S -> QueuedSend.t -> S * bool)
    (st : S) : panics (t * S * list QueuedSend.t * list SendDropped.t) :=
  '(live, late) ← expire s now;
  let '(st, taken, kept) := take_loop ready st live in
  Some (kept, st, taken, late).

Definition take_ready (s : t) (now : N)
    : panics (t * list QueuedSend.t * list SendDropped.t) :=
  '(s, _, taken, late) ← take_matching s now (fun st _ => (st, true)) tt;
  Some (s, taken, late).

Definition targets (s : t) : list string :=
  foldl (fun targets item =>
           let target := SendKey.target (QueuedSend.key item) in
           if contains targets target then targets else targets ++ [target]) [] s.

Definition remove (s : t) (key : SendKey.t) : t * bool :=
  let kept := filter (fun item => QueuedSend.key item <> key) s in
  (kept, negb (lenN kept =? lenN s)%N).

Definition restore (s : t) (item : QueuedSend.t) : t := item :: s.

Definition end_session (s : t) : t * list SendDropped.t :=
  ([], (fun item => SendDropped.mk (QueuedSend.key item) DropReason.SessionEnded) <$> s).
End OutgoingQueue.
