(* ===== verification/PacingFacts.v ===== *)
(** * Theorems on pacing and send status

    Each limiter is compared with a specification that keeps the whole past
    and decides from it. The clock never runs backwards in a run: [monotone]. *)

From S2P Require Import Prelude.
From S2P Require Import RustStr.
From S2P Require Import Interfaces.
From S2P Require Import Concrete.
From S2P Require Import Isupport.
From S2P Require Import Wire.
From S2P Require Import DeviceRoutes.
From S2P Require Import Pacing.
From stdpp Require Import options.

#[local] Arguments WindowLimiter.is_ready : simpl never.
#[local] Arguments WindowLimiter.try_acquire : simpl never.
#[local] Arguments IntervalLimiter.try_acquire : simpl never.
#[local] Arguments IntervalLimiter.sync_casemapping : simpl never.
#[local] Arguments ReassemblyGate.sync_casemapping : simpl never.

(** ** Histories *)

(** The times of the events do not decrease and start at [clock]. *)
Fixpoint monotone {E} (time : E -> option N) (clock : N) (es : list E) : Prop :=
  match es with
  | [] => True
  | e :: es =>
      match time e with
      | Some now => (clock <= now)%N /\ monotone time now es
      | None => monotone time clock es
      end
  end.

Section History.
Context {E K : Type} (cm_of : E -> CaseMapping.t) (effect : E -> K -> option (option N)).

(** The time stored for a key by a past, newest event first: an event of
    another case mapping ends the search, an event that sets or clears the
    key answers it. *)
Fixpoint lookup_past (past : list E) (cm : CaseMapping.t) (key : K) : option N :=
  match past with
  | [] => None
  | e :: past =>
      if decide (cm_of e = cm) then
        match effect e key with
        | Some r => r
        | None => lookup_past past cm key
        end
      else None
  end.
End History.

(** ** The limiter of one nickname *)

Module LimiterSpec.
Inductive op :=
| Acquire (nick : string) (cm : CaseMapping.t) (now : N)
| Forget (nick : string) (cm : CaseMapping.t).

Definition time (o : op) : option N :=
  match o with Acquire _ _ now => Some now | Forget _ _ => None end.

Definition step (s : IntervalLimiter.t) (o : op) : IntervalLimiter.t * bool :=
  match o with
  | Acquire nick cm now => IntervalLimiter.try_acquire s nick cm now
  | Forget nick cm => (IntervalLimiter.forget s nick cm, false)
  end.

Definition cm_of (e : op * bool) : CaseMapping.t :=
  match e.1 with Acquire _ cm _ | Forget _ cm => cm end.

(** A granted event sets its nickname, [Forget] clears it, a refused event
    does nothing. *)
Definition effect (e : op * bool) (key : string) : option (option N) :=
  match e with
  | (Acquire nick cm now, true) => if decide (nick_key nick cm = key) then Some (Some now) else None
  | (Acquire _ _ _, false) => None
  | (Forget nick cm, _) => if decide (nick_key nick cm = key) then Some None else None
  end.

Definition free (interval : N) (last : option N) (now : N) : bool :=
  match last with Some t => (interval <=? now - t)%N | None => true end.

Definition decision (interval : N) (past : list (op * bool)) (o : op) : bool :=
  match o with
  | Acquire nick cm now =>
      free interval (lookup_past cm_of effect past cm (nick_key nick cm)) now
  | Forget _ _ => false
  end.

(** The specification keeps every event with its outcome. *)
Definition spec (interval : N) (past : list (op * bool)) (o : op)
    : list (op * bool) * bool :=
  let granted := decision interval past o in ((o, granted) :: past, granted).
End LimiterSpec.

(** What a limiter stores, read with a case mapping. *)
Definition stored (s : IntervalLimiter.t) (cm : CaseMapping.t) (key : string) : option N :=
  IntervalLimiter.last (IntervalLimiter.sync_casemapping s cm) !! key.

Lemma stored_sync s cm cm' key :
  stored (IntervalLimiter.sync_casemapping s cm) cm' key =
  if decide (cm = cm') then stored s cm key else None.
Proof.
  unfold stored, IntervalLimiter.sync_casemapping.
  repeat case_decide; simpl in *; simplify_eq; rewrite ?lookup_empty; try done; congruence.
Qed.

Lemma stored_sync_same s cm key :
  stored (IntervalLimiter.sync_casemapping s cm) cm key = stored s cm key.
Proof. by rewrite stored_sync, decide_True. Qed.

Lemma sync_interval s cm :
  IntervalLimiter.interval (IntervalLimiter.sync_casemapping s cm) =
  IntervalLimiter.interval s.
Proof. unfold IntervalLimiter.sync_casemapping. by case_decide. Qed.

Lemma sync_twice s cm :
  IntervalLimiter.sync_casemapping (IntervalLimiter.sync_casemapping s cm) cm =
  IntervalLimiter.sync_casemapping s cm.
Proof. unfold IntervalLimiter.sync_casemapping. by repeat case_decide. Qed.

(** One request: its outcome and what it leaves stored. *)
Lemma try_acquire_outcome s nick cm now :
  let '(s', granted) := IntervalLimiter.try_acquire s nick cm now in
  IntervalLimiter.interval s' = IntervalLimiter.interval s /\
  granted = LimiterSpec.free (IntervalLimiter.interval s) (stored s cm (nick_key nick cm)) now /\
  forall cm' key, stored s' cm' key =
    if decide (cm = cm') then
      if granted && bool_decide (nick_key nick cm = key) then Some now else stored s cm key
    else None.
Proof.
  unfold IntervalLimiter.try_acquire, LimiterSpec.free.
  fold (stored s cm (nick_key nick cm)). rewrite !sync_interval.
  assert (forall s0, IntervalLimiter.casemapping s0 = Some cm -> forall cm' key,
            stored s0 cm' key = if decide (cm = cm') then IntervalLimiter.last s0 !! key else None)
    as Hst.
  { intros s0 Hs0 cm' key. unfold stored, IntervalLimiter.sync_casemapping. rewrite Hs0.
    repeat case_decide; simplify_eq/=; by rewrite ?lookup_empty. }
  assert (IntervalLimiter.casemapping (IntervalLimiter.sync_casemapping s cm) = Some cm) as Hcm
    by (unfold IntervalLimiter.sync_casemapping; by case_decide).
  destruct (stored s cm (nick_key nick cm)) as [t|].
  - rewrite (N.leb_antisym (now - t)%N). destruct (now - t <? _)%N; simpl.
    + split_and!; [apply sync_interval|done|]. intros. by rewrite Hst.
    + split_and!; [done..|]. intros. rewrite Hst by done. simpl. case_decide; [|done].
      case_bool_decide; subst; [apply lookup_insert_eq|by rewrite lookup_insert_ne].
  - split_and!; [done..|]. intros. rewrite Hst by done. simpl. case_decide; [|done].
    case_bool_decide; subst; [apply lookup_insert_eq|by rewrite lookup_insert_ne].
Qed.

Lemma forget_stored s nick cm cm' key :
  stored (IntervalLimiter.forget s nick cm) cm' key =
  if decide (cm = cm') then
    if decide (nick_key nick cm = key) then None else stored s cm key
  else None.
Proof.
  unfold IntervalLimiter.forget, stored, IntervalLimiter.sync_casemapping at 1.
  assert (IntervalLimiter.casemapping (IntervalLimiter.sync_casemapping s cm) = Some cm) as ->
    by (unfold IntervalLimiter.sync_casemapping; by case_decide).
  simpl. repeat case_decide; simplify_eq/=; rewrite ?lookup_empty; try done.
  - apply lookup_delete_eq.
  - by rewrite lookup_delete_ne.
Qed.

Definition limiter_agrees (interval : N) (s : IntervalLimiter.t)
    (past : list (LimiterSpec.op * bool)) : Prop :=
  IntervalLimiter.interval s = interval /\
  forall cm key, stored s cm key =
    lookup_past LimiterSpec.cm_of LimiterSpec.effect past cm key.

Lemma limiter_step_agrees interval s past o :
  limiter_agrees interval s past ->
  (LimiterSpec.step s o).2 = (LimiterSpec.spec interval past o).2 /\
  limiter_agrees interval (LimiterSpec.step s o).1 (LimiterSpec.spec interval past o).1.
Proof.
  intros [<- Hst]. unfold LimiterSpec.spec. destruct o as [nick cm now|nick cm]; simpl.
  - pose proof (try_acquire_outcome s nick cm now) as H.
    destruct (IntervalLimiter.try_acquire s nick cm now) as [s' granted].
    destruct H as (Hi & Hg & Hs'). simpl. rewrite <-Hst. split; [done|].
    split; [done|]. intros cm' key. rewrite Hs', <-Hg. simpl. rewrite <-Hst.
    unfold LimiterSpec.cm_of. simpl. destruct (decide (cm = cm')) as [<-|]; [|done]. destruct granted; [|done]. simpl.
    case_bool_decide; case_decide; congruence.
  - split; [done|]. split; [by rewrite <-(sync_interval s cm)|].
    intros cm' key. rewrite forget_stored. simpl. rewrite <-Hst.
    unfold LimiterSpec.cm_of. simpl. destruct (decide (cm = cm')) as [<-|]; [|done].
    by case_decide.
Qed.

(** The limiter of one nickname decides as if it kept the whole past: a
    request is granted exactly when the last granted one for the same folded
    nickname, since the case mapping last changed and since the nickname was
    last forgotten, is at least one interval old. *)
Theorem interval_limiter_history (interval : N) (ops : list LimiterSpec.op) :
  (run LimiterSpec.step (IntervalLimiter.new interval) ops).2 =
  (run (LimiterSpec.spec interval) [] ops).2.
Proof.
  apply (run_simulation _ _ (limiter_agrees interval) (fun _ _ _ => True)); [|split; [done|]|done].
  - intros s past o os HR _. destruct (limiter_step_agrees interval s past o HR). done.
  - intros cm key. unfold stored, IntervalLimiter.sync_casemapping. simpl. apply lookup_empty.
Qed.

(** ** The window *)

(** The events of the last [window], of the times in a list. *)
Definition recent (window now : N) (times : list N) : list N :=
  filter (fun t => now - t < window)%N times.

(** The events in an interval of the clock. *)
Definition during (start window : N) (times : list N) : list N :=
  filter (fun t => start <= t /\ t < start + window)%N times.

Lemma recent_expired window now times :
  Forall (fun t => window <= now - t)%N times -> recent window now times = [].
Proof.
  intros H. apply filter_none. eapply Forall_impl; [exact H|]. simpl. lia.
Qed.

(** The front of a sorted queue holds its expired events. *)
Lemma drop_expired_spec window now times :
  StronglySorted N.le times ->
  WindowLimiter.drop_expired window now times = recent window now times /\
  exists old, times = old ++ recent window now times /\
    Forall (fun t => window <= now - t)%N old.
Proof.
  unfold recent. induction 1 as [|t times Hs IH Ht]; simpl; [by split; [|exists []]|].
  destruct (N.leb_spec window (now - t)).
  - rewrite filter_cons_False by lia. destruct IH as (-> & old & Heq & Hold).
    split; [done|]. exists (t :: old). simpl. rewrite <-Heq. split; [done|]. by constructor.
  - assert (filter (fun u => now - u < window)%N (t :: times) = t :: times) as ->.
    { apply filter_all. constructor; [done|].
      eapply Forall_impl; [exact Ht|]. simpl. lia. }
    split; [done|]. by exists [].
Qed.

(** The queue of a limiter is what its window still needs of all grants. *)
Record window_agrees (s : WindowLimiter.t) (granted : list N) (clock : N) : Prop := {
  wa_sorted : StronglySorted N.le granted;
  wa_clock : Forall (fun t => t <= clock)%N granted;
  wa_old : exists old, granted = old ++ WindowLimiter.events s /\
    Forall (fun t => WindowLimiter.window s <= clock - t)%N old;
}.

Lemma sorted_app_r (l l' : list N) :
  StronglySorted N.le (l ++ l') -> StronglySorted N.le l'.
Proof. induction l; simpl; [done|]. inversion 1; auto. Qed.

Lemma sorted_snoc (l : list N) x :
  StronglySorted N.le l -> Forall (fun t => t <= x)%N l -> StronglySorted N.le (l ++ [x]).
Proof.
  intros Hs. revert x. induction Hs as [|y l Hs IH Hy]; intros x Hx; simpl.
  - repeat constructor.
  - inversion Hx; subst. constructor; [by apply IH|].
    apply Forall_app. split; [done|]. by repeat constructor.
Qed.

Lemma window_ready_agrees s granted clock now :
  window_agrees s granted clock -> (clock <= now)%N ->
  let '(s', ready) := WindowLimiter.is_ready s now in
  window_agrees s' granted now /\
  ready = (lenN (recent (WindowLimiter.window s) now granted) <? WindowLimiter.limit s)%N /\
  WindowLimiter.window s' = WindowLimiter.window s /\
  WindowLimiter.limit s' = WindowLimiter.limit s.
Proof.
  intros [Hs Hc (old & -> & Hold)] Hnow. unfold WindowLimiter.is_ready.
  destruct (drop_expired_spec (WindowLimiter.window s) now (WindowLimiter.events s))
    as (-> & mid & Hmid & Hexp); [by eapply sorted_app_r|].
  assert (Forall (fun t => WindowLimiter.window s <= now - t)%N old) as Hold'
    by (eapply Forall_impl; [exact Hold|]; simpl; lia).
  split_and!; [|simpl|done..].
  - constructor; simpl; [done|by eapply Forall_impl; [exact Hc|]; simpl; lia|].
    exists (old ++ mid). split; [by rewrite <-(assoc_L (++)), <-Hmid|]. by apply Forall_app.
  - unfold recent. rewrite filter_app.
    fold (recent (WindowLimiter.window s) now old). by rewrite recent_expired.
Qed.

Lemma window_acquire_agrees s granted clock now :
  window_agrees s granted clock -> (clock <= now)%N ->
  let '(s', acquired) := WindowLimiter.try_acquire s now in
  window_agrees s' (if acquired then granted ++ [now] else granted) now /\
  acquired = (lenN (recent (WindowLimiter.window s) now granted) <? WindowLimiter.limit s)%N /\
  WindowLimiter.window s' = WindowLimiter.window s /\
  WindowLimiter.limit s' = WindowLimiter.limit s.
Proof.
  intros HR Hnow. pose proof (window_ready_agrees s granted clock now HR Hnow) as H.
  unfold WindowLimiter.try_acquire. destruct (WindowLimiter.is_ready s now) as [s' ready].
  destruct H as ([Hs Hc (old & -> & Hold)] & Hr & Hw & Hl).
  destruct ready; simpl; split_and!; try done; constructor; simpl; eauto.
  - by apply sorted_snoc.
  - apply Forall_app. split; [done|]. by repeat constructor.
  - exists old. split; [by rewrite (assoc_L (++))|done].
Qed.

(** A grant that the window allows keeps every interval of its length within
    the limit. *)
Lemma during_snoc window limit granted now :
  (forall start, (lenN (during start window granted) <= limit)%N) ->
  (lenN (recent window now granted) < limit)%N ->
  Forall (fun t => t <= now)%N granted ->
  forall start, (lenN (during start window (granted ++ [now])) <= limit)%N.
Proof.
  intros Hb Hr Hc start. unfold during. rewrite filter_app, lenN_app.
  fold (during start window granted).
  rewrite filter_cons, filter_nil. case_decide as Hin.
  - cbn [lenN length]. unfold lenN at 2. simpl.
    assert (lenN (during start window granted) <= lenN (recent window now granted))%N; [|lia].
    unfold lenN, during, recent. clear Hb Hr.
    induction Hc as [|t l Ht _ IH]; [done|]. rewrite !filter_cons.
    repeat case_decide; simpl; lia.
  - specialize (Hb start). unfold lenN at 2. simpl. lia.
Qed.

(** ** One-time keys *)

Module OneTimeSpec.
Record request := mk { nick : string; cm : CaseMapping.t; now : N }.

Definition time (r : request) : option N := Some (now r).

Definition step (s : OneTimeKeyPacer.t) (r : request) : OneTimeKeyPacer.t * KeyChoice :=
  OneTimeKeyPacer.choose s (nick r) (cm r) (now r).

Definition cm_of (e : request * KeyChoice) : CaseMapping.t := cm e.1.

Definition effect (e : request * KeyChoice) (key : string) : option (option N) :=
  if decide (e.2 = OneTime /\ nick_key (nick e.1) (cm e.1) = key)
  then Some (Some (now e.1)) else None.

(** The times of the one-time keys of a list of outcomes. *)
Definition granted (past : list (request * KeyChoice)) : list N :=
  omap (fun e => if decide (e.2 = OneTime) then Some (now e.1) else None) past.

(** A one-time key needs both limits: fewer than 30 one-time keys in the last
    hour, and none for this nickname in the last minute. *)
Definition decision (past : list (request * KeyChoice)) (r : request) : KeyChoice :=
  if (lenN (recent md3_pacing.ONE_TIME_KEY_WINDOW (now r) (granted past)) <?
      md3_pacing.ONE_TIME_KEY_GLOBAL_LIMIT)%N
     && LimiterSpec.free ONE_TIME_KEY_INTERVAL
          (lookup_past cm_of effect past (cm r) (nick_key (nick r) (cm r))) (now r)
  then OneTime else Fallback.

Definition spec (past : list (request * KeyChoice)) (r : request)
    : list (request * KeyChoice) * KeyChoice :=
  let choice := decision past r in ((r, choice) :: past, choice).
End OneTimeSpec.
#[local] Arguments OneTimeSpec.granted : simpl never.

Record pacer_agrees (s : OneTimeKeyPacer.t)
    (past : list (OneTimeSpec.request * KeyChoice)) (clock : N) : Prop := {
  pa_interval : IntervalLimiter.interval (OneTimeKeyPacer.limiter s) = ONE_TIME_KEY_INTERVAL;
  pa_stored cm key : stored (OneTimeKeyPacer.limiter s) cm key =
    lookup_past OneTimeSpec.cm_of OneTimeSpec.effect past cm key;
  pa_limit : WindowLimiter.limit (OneTimeKeyPacer.global s) =
    md3_pacing.ONE_TIME_KEY_GLOBAL_LIMIT;
  pa_window : WindowLimiter.window (OneTimeKeyPacer.global s) =
    md3_pacing.ONE_TIME_KEY_WINDOW;
  pa_global : window_agrees (OneTimeKeyPacer.global s)
    (reverse (OneTimeSpec.granted past)) clock;
}.

Lemma recent_reverse window now times :
  lenN (recent window now (reverse times)) = lenN (recent window now times).
Proof. unfold lenN, recent. by rewrite filter_reverse, length_reverse. Qed.

Lemma granted_cons e past :
  OneTimeSpec.granted (e :: past) =
  (if decide (e.2 = OneTime) then [OneTimeSpec.now e.1] else []) ++ OneTimeSpec.granted past.
Proof. unfold OneTimeSpec.granted. rewrite omap_cons. by case_decide. Qed.

Lemma ready_twice s now :
  (WindowLimiter.is_ready s now).2 = true ->
  WindowLimiter.is_ready (WindowLimiter.is_ready s now).1 now = WindowLimiter.is_ready s now.
Proof.
  unfold WindowLimiter.is_ready. simpl. intros _.
  assert (forall l, WindowLimiter.drop_expired (WindowLimiter.window s) now
            (WindowLimiter.drop_expired (WindowLimiter.window s) now l) =
          WindowLimiter.drop_expired (WindowLimiter.window s) now l) as ->; [|done].
  induction l as [|t l IH]; [done|]. simpl.
  destruct (_ <=? _)%N eqn:E; [done|]. simpl. by rewrite E.
Qed.

Lemma choose_agrees s past clock r :
  pacer_agrees s past clock -> (clock <= OneTimeSpec.now r)%N ->
  (OneTimeSpec.step s r).2 = (OneTimeSpec.spec past r).2 /\
  pacer_agrees (OneTimeSpec.step s r).1 (OneTimeSpec.spec past r).1 (OneTimeSpec.now r).
Proof.
  destruct r as [nick cm now]. simpl. intros [Hi Hst Hl Hw Hg] Hnow.
  unfold OneTimeSpec.spec, OneTimeSpec.step, OneTimeSpec.decision, OneTimeKeyPacer.choose.
  cbn [OneTimeSpec.nick OneTimeSpec.cm OneTimeSpec.now]. rewrite <-Hst, <-Hi, <-Hl, <-Hw, <-recent_reverse.
  pose proof (window_ready_agrees _ _ _ _ Hg Hnow) as Hready.
  pose proof (ready_twice (OneTimeKeyPacer.global s) now) as Htwice.
  destruct (WindowLimiter.is_ready _ now) as [global ready]. simpl in Htwice.
  destruct Hready as (Hg' & <- & Hw' & Hl').
  pose proof (try_acquire_outcome
    (IntervalLimiter.sync_casemapping (OneTimeKeyPacer.limiter s) cm) nick cm now) as Hacq.
  destruct (IntervalLimiter.try_acquire _ nick cm now) as [limiter free].
  rewrite sync_interval in Hacq. destruct Hacq as (Hi' & Hfree & Hst').
  rewrite stored_sync_same in Hfree. rewrite <-Hfree.
  destruct ready; simpl; [destruct free; simpl|].
  - unfold WindowLimiter.try_acquire. rewrite Htwice by done. simpl. split; [done|].
    constructor; simpl; rewrite ?Hi', ?Hl', ?Hw'; try done.
    + intros cm' key. rewrite Hst', stored_sync_same. unfold OneTimeSpec.effect. simpl. rewrite <-Hst.
      unfold OneTimeSpec.cm_of. simpl. destruct (decide (cm = cm')) as [<-|]; [|done].
      case_bool_decide; case_decide; naive_solver.
    + rewrite granted_cons. simpl. rewrite reverse_cons.
      destruct Hg' as [Hs Hc (old & Heq & Hold)]. constructor.
      * by apply sorted_snoc.
      * apply Forall_app. split; [done|]. by repeat constructor.
      * exists old. simpl. rewrite <-Hw'. split; [by rewrite Heq, (assoc_L (++))|done].
  - split; [done|]. constructor; simpl; rewrite ?Hi', ?Hl', ?Hw'; try done.
    intros cm' key. rewrite Hst', stored_sync_same. unfold OneTimeSpec.effect. simpl. rewrite <-Hst.
    unfold OneTimeSpec.cm_of. simpl. destruct (decide (cm = cm')) as [<-|]; done.
  - split; [done|]. constructor; simpl; rewrite ?sync_interval, ?Hl', ?Hw'; try done.
    intros cm' key. rewrite stored_sync. unfold OneTimeSpec.effect. simpl. rewrite <-Hst.
    unfold OneTimeSpec.cm_of. simpl. destruct (decide (cm = cm')) as [<-|]; done.
Qed.

Lemma pacer_new_agrees clock : pacer_agrees OneTimeKeyPacer.new [] clock.
Proof.
  constructor; try done.
  constructor; [constructor|constructor|]. by exists [].
Qed.

(** The choice between a one-time key and the fallback is the one of a
    pacer that keeps the whole past: fewer than 30 one-time keys in the last
    hour to all nicknames, and none in the last minute to this nickname since
    the case mapping last changed. A request that got the fallback uses no
    limit. *)
Theorem one_time_key_history (requests : list OneTimeSpec.request) (clock : N)
    (Hclock : monotone OneTimeSpec.time clock requests) :
  (run OneTimeSpec.step OneTimeKeyPacer.new requests).2 =
  (run OneTimeSpec.spec [] requests).2.
Proof.
  apply (run_simulation _ _ (fun _ _ => True)
    (fun s past es => exists clock, pacer_agrees s past clock /\
                        monotone OneTimeSpec.time clock es)).
  - intros s past r rs _ (c & HR & Hc & Hm).
    destruct (choose_agrees s past c r HR Hc) as [Ho HR']. eauto 10.
  - done.
  - exists clock. split; [apply pacer_new_agrees|done].
Qed.

Definition hourly_ok (past : list (OneTimeSpec.request * KeyChoice)) : Prop :=
  forall start, (lenN (during start md3_pacing.ONE_TIME_KEY_WINDOW
                  (OneTimeSpec.granted past)) <= md3_pacing.ONE_TIME_KEY_GLOBAL_LIMIT)%N.

Lemma during_reverse start window times :
  lenN (during start window (reverse times)) = lenN (during start window times).
Proof. unfold lenN, during. by rewrite filter_reverse, length_reverse. Qed.

Lemma during_app start window a b :
  lenN (during start window (a ++ b)) =
  (lenN (during start window a) + lenN (during start window b))%N.
Proof. unfold during. by rewrite filter_app, lenN_app. Qed.

Lemma spec_hourly s past clock r :
  pacer_agrees s past clock -> (clock <= OneTimeSpec.now r)%N ->
  hourly_ok past -> hourly_ok (OneTimeSpec.spec past r).1.
Proof.
  intros [_ _ _ _ [_ Hc _]] Hnow Hb. unfold OneTimeSpec.spec. cbn [fst].
  intros start. rewrite granted_cons. cbn [fst snd].
  case_decide as Hd; [|apply Hb].
  unfold OneTimeSpec.decision in Hd.
  destruct (_ <? _)%N eqn:Hlt; [|done]. apply N.ltb_lt in Hlt. clear Hd.
  rewrite during_app, N.add_comm, <-during_reverse, <-during_app.
  apply during_snoc; [|by rewrite recent_reverse|].
  - intros st. rewrite during_reverse. apply Hb.
  - eapply Forall_impl; [exact Hc|]. simpl. lia.
Qed.

Lemma run_hourly requests s past clock :
  pacer_agrees s past clock -> monotone OneTimeSpec.time clock requests ->
  hourly_ok past ->
  hourly_ok (reverse (zip requests (run OneTimeSpec.step s requests).2) ++ past).
Proof.
  revert s past clock. induction requests as [|r requests IH];
    intros s past clock HR Hm Hb; [done|].
  destruct Hm as [Hc Hm]. destruct (choose_agrees s past clock r HR Hc) as [Ho HR'].
  pose proof (spec_hourly s past clock r HR Hc Hb) as Hb'. simpl.
  destruct (OneTimeSpec.step s r) as [s' o] eqn:E1. simpl in *.
  specialize (IH s' _ _ HR' Hm Hb').
  destruct (run OneTimeSpec.step s' requests) as [s'' os]. simpl in *.
  rewrite reverse_cons, <-(assoc_L (++)). unfold OneTimeSpec.spec in IH. simpl in IH.
  subst o. exact IH.
Qed.

(** No interval of one hour holds more than 30 one-time keys, whatever the
    requests, the nicknames and the changes of the case mapping. *)
Theorem one_time_key_hourly_bound (requests : list OneTimeSpec.request) (clock start : N)
    (Hclock : monotone OneTimeSpec.time clock requests) :
  (lenN (during start md3_pacing.ONE_TIME_KEY_WINDOW
     (OneTimeSpec.granted
        (zip requests (run OneTimeSpec.step OneTimeKeyPacer.new requests).2))) <= 30)%N.
Proof.
  pose proof (run_hourly requests OneTimeKeyPacer.new [] clock (pacer_new_agrees clock) Hclock)
    as H. rewrite app_nil_r in H.
  assert (forall l, OneTimeSpec.granted (reverse l) = reverse (OneTimeSpec.granted l)) as Hrev.
  { intros l. unfold OneTimeSpec.granted. induction l as [|e l IH]; [done|].
    rewrite reverse_cons, omap_app, IH, (omap_cons _ e l), reverse_app. f_equal.
    rewrite omap_cons. by case_decide. }
  specialize (H ltac:(intros st; unfold lenN; simpl; lia) start).
  by rewrite Hrev, during_reverse in H.
Qed.

(** Two nicknames, and a second request in the same minute. *)
Definition sample_requests : list OneTimeSpec.request :=
  [OneTimeSpec.mk "Luna[]" CaseMapping.Rfc1459 (secs 10);
   OneTimeSpec.mk "luna{}" CaseMapping.Rfc1459 (secs 69);
   OneTimeSpec.mk "sole" CaseMapping.Rfc1459 (secs 69);
   OneTimeSpec.mk "luna{}" CaseMapping.Rfc1459 (secs 70)].

Lemma one_time_key_history_witness :
  (run OneTimeSpec.step OneTimeKeyPacer.new sample_requests).2 =
  (run OneTimeSpec.spec [] sample_requests).2.
Proof.
  apply (one_time_key_history _ 0). simpl. repeat split; vm_compute; discriminate.
Defined.

Lemma one_time_key_hourly_bound_witness :
  (lenN (during (secs 5) md3_pacing.ONE_TIME_KEY_WINDOW
     (OneTimeSpec.granted
        (zip sample_requests
           (run OneTimeSpec.step OneTimeKeyPacer.new sample_requests).2))) <= 30)%N.
Proof.
  apply (one_time_key_hourly_bound _ 0). simpl. repeat split; vm_compute; discriminate.
Defined.

Example one_time_key_outcomes :
  (run OneTimeSpec.step OneTimeKeyPacer.new sample_requests).2 =
  [OneTime; Fallback; OneTime; OneTime].
Proof. vm_compute. reflexivity. Qed.

(** ** KEYREQ *)

Module KeyReqSpec.
Inductive op :=
| NoteFragment (nick msgid : string) (cm : CaseMapping.t) (now : N)
| Finish (nick msgid : string) (cm : CaseMapping.t)
| TrySend (nick : string) (cm : CaseMapping.t) (now : N)
| Forget (nick : string) (cm : CaseMapping.t).

Definition time (o : op) : option N :=
  match o with
  | NoteFragment _ _ _ now | TrySend _ _ now => Some now
  | Finish _ _ _ | Forget _ _ => None
  end.

(** The outcome of a request; the other operations have none. *)
Definition outcome : Type := option (result unit KeyReqRefusal).

Definition step (s : KeyReqPacer.t) (o : op) : KeyReqPacer.t * outcome :=
  match o with
  | NoteFragment nick msgid cm now => (KeyReqPacer.note_fragment s nick msgid cm now, None)
  | Finish nick msgid cm => (KeyReqPacer.finish s nick msgid cm, None)
  | TrySend nick cm now =>
      let '(s, r) := KeyReqPacer.try_send s nick cm now in (s, Some r)
  | Forget nick cm => (KeyReqPacer.forget s nick cm, None)
  end.

Definition cm_of (e : op * outcome) : CaseMapping.t :=
  match e.1 with
  | NoteFragment _ _ cm _ | Finish _ _ cm | TrySend _ cm _ | Forget _ cm => cm
  end.

(** The last request that went out to a nickname. *)
Definition sent (e : op * outcome) (key : string) : option (option N) :=
  match e with
  | (TrySend nick cm now, Some (Ok _)) =>
      if decide (nick_key nick cm = key) then Some (Some now) else None
  | (Forget nick cm, _) => if decide (nick_key nick cm = key) then Some None else None
  | _ => None
  end.

(** The last fragment of one message of a nickname. *)
Definition fragment (e : op * outcome) (k : string * string) : option (option N) :=
  match e.1 with
  | NoteFragment nick msgid cm now =>
      if decide ((nick_key nick cm, msgid) = k) then Some (Some now) else None
  | Finish nick msgid cm =>
      if decide ((nick_key nick cm, msgid) = k) then Some None else None
  | Forget nick cm => if decide (nick_key nick cm = k.1) then Some None else None
  | TrySend _ _ _ => None
  end.

Definition msgids (past : list (op * outcome)) : list string :=
  omap (fun e => match e.1 with NoteFragment _ msgid _ _ => Some msgid | _ => None end) past.

Definition reassembling (timeout : N) (past : list (op * outcome)) (cm : CaseMapping.t)
    (key : string) (now : N) : bool :=
  existsb (fun msgid =>
    match lookup_past cm_of fragment past cm (key, msgid) with
    | Some last => (now - last <? timeout)%N
    | None => false
    end) (msgids past).

Definition decision (timeout : N) (past : list (op * outcome)) (o : op) : outcome :=
  match o with
  | TrySend nick cm now =>
      let key := nick_key nick cm in
      Some (if reassembling timeout past cm key now then Err Reassembling
            else if LimiterSpec.free KEYREQ_INTERVAL (lookup_past cm_of sent past cm key) now
                 then Ok tt else Err Interval)
  | _ => None
  end.

Definition spec (timeout : N) (past : list (op * outcome)) (o : op)
    : list (op * outcome) * outcome :=
  let out := decision timeout past o in ((o, out) :: past, out).
End KeyReqSpec.

(** What a gate stores for one message, read with a case mapping. *)
Definition fragment_at (g : ReassemblyGate.t) (cm : CaseMapping.t) (k : string * string)
    : option N :=
  ReassemblyGate.last_fragment (ReassemblyGate.sync_casemapping g cm) !! k.1 ≫= (.!! k.2).

Lemma gate_sync_casemapping g cm :
  ReassemblyGate.casemapping (ReassemblyGate.sync_casemapping g cm) = Some cm.
Proof. unfold ReassemblyGate.sync_casemapping. by case_decide. Qed.

Lemma gate_sync_timeout g cm :
  ReassemblyGate.timeout (ReassemblyGate.sync_casemapping g cm) = ReassemblyGate.timeout g.
Proof. unfold ReassemblyGate.sync_casemapping. by case_decide. Qed.

Lemma gate_synced g cm cm' k :
  ReassemblyGate.casemapping g = Some cm ->
  fragment_at g cm' k =
  if decide (cm = cm') then ReassemblyGate.last_fragment g !! k.1 ≫= (.!! k.2) else None.
Proof.
  intros Hg. unfold fragment_at, ReassemblyGate.sync_casemapping. rewrite Hg.
  repeat case_decide; simplify_eq/=; by rewrite ?lookup_empty.
Qed.

Lemma fragment_sync g cm cm' k :
  fragment_at (ReassemblyGate.sync_casemapping g cm) cm' k =
  if decide (cm = cm') then fragment_at g cm k else None.
Proof. rewrite (gate_synced _ cm); [done|apply gate_sync_casemapping]. Qed.

Lemma fragment_sync_same g cm k :
  fragment_at (ReassemblyGate.sync_casemapping g cm) cm k = fragment_at g cm k.
Proof. by rewrite fragment_sync, decide_True. Qed.

Lemma fragment_note g nick msgid cm now cm' k :
  fragment_at (ReassemblyGate.note_fragment g nick msgid cm now) cm' k =
  if decide (cm = cm') then
    if decide ((nick_key nick cm, msgid) = k) then Some now
    else if decide (nick_key nick cm = k.1) then
      t ← fragment_at g cm k;
      if (now - t <? ReassemblyGate.timeout g)%N then Some t else None
    else fragment_at g cm k
  else None.
Proof.
  destruct k as [key m]. rewrite (gate_synced _ cm); [|apply gate_sync_casemapping].
  destruct (decide (cm = cm')); [|done]. unfold fragment_at. simpl.
  rewrite gate_sync_timeout.
  destruct (decide (nick_key nick cm = key)) as [<-|Hk].
  - rewrite lookup_insert_eq. simpl. destruct (decide (msgid = m)) as [<-|Hm].
    + by rewrite lookup_insert_eq, decide_True.
    + rewrite lookup_insert_ne by done. rewrite decide_False by congruence.
      rewrite map_lookup_filter.
      destruct (_ !! nick_key nick cm) as [messages|]; simpl; [|done].
      destruct (messages !! m) as [t|]; [|done]. simpl.
      destruct (N.ltb_spec (now - t) (ReassemblyGate.timeout g)).
      * by rewrite option_guard_True.
      * by rewrite option_guard_False by lia.
  - rewrite lookup_insert_ne by done. by rewrite decide_False by congruence.
Qed.

Lemma fragment_finish g nick msgid cm cm' k :
  fragment_at (ReassemblyGate.finish g nick msgid cm) cm' k =
  if decide (cm = cm') then
    if decide ((nick_key nick cm, msgid) = k) then None else fragment_at g cm k
  else None.
Proof.
  destruct k as [key m].
  assert (ReassemblyGate.casemapping (ReassemblyGate.finish g nick msgid cm) = Some cm) as Hcm.
  { unfold ReassemblyGate.finish. case_match; apply gate_sync_casemapping. }
  rewrite (gate_synced _ _ _ _ Hcm). destruct (decide (cm = cm')); [|done]. clear Hcm.
  unfold ReassemblyGate.finish, fragment_at. simpl.
  destruct (ReassemblyGate.last_fragment _ !! nick_key nick cm) as [messages|] eqn:E; simpl.
  - destruct (decide (nick_key nick cm = key)) as [<-|Hk].
    + rewrite E. simpl. destruct (decide (delete msgid messages = ∅)) as [He|He].
      * rewrite lookup_delete_eq. simpl. destruct (decide (msgid = m)) as [<-|Hm].
        { by rewrite decide_True. }
        rewrite decide_False by congruence.
        rewrite <-(lookup_delete_ne messages msgid m) by done. by rewrite He, lookup_empty.
      * rewrite lookup_insert_eq. simpl. destruct (decide (msgid = m)) as [<-|Hm].
        { by rewrite decide_True, lookup_delete_eq. }
        by rewrite decide_False, lookup_delete_ne by congruence.
    + destruct (decide ((nick_key nick cm, msgid) = (key, m))); [congruence|].
      case_decide; by rewrite ?lookup_delete_ne, ?lookup_insert_ne.
  - case_decide; simplify_eq; [by rewrite E|done].
Qed.

Lemma fragment_forget g nick cm cm' k :
  fragment_at (ReassemblyGate.forget g nick cm) cm' k =
  if decide (cm = cm') then
    if decide (nick_key nick cm = k.1) then None else fragment_at g cm k
  else None.
Proof.
  rewrite (gate_synced _ cm); [|apply gate_sync_casemapping].
  destruct (decide (cm = cm')); [|done]. unfold fragment_at. simpl.
  destruct (decide (nick_key nick cm = k.1)) as [<-|Hk].
  - by rewrite lookup_delete_eq.
  - by rewrite lookup_delete_ne.
Qed.

Lemma is_active_spec g nick cm now :
  (ReassemblyGate.is_active g nick cm now).2 = true <->
  exists m t, fragment_at g cm (nick_key nick cm, m) = Some t /\
    (now - t < ReassemblyGate.timeout g)%N.
Proof.
  unfold ReassemblyGate.is_active, fragment_at. simpl. rewrite gate_sync_timeout.
  destruct (_ !! nick_key nick cm) as [messages|]; simpl; [|naive_solver].
  rewrite existsb_exists. split.
  - intros ([m t] & Hin & Ht). apply N.ltb_lt in Ht. exists m, t. split; [|done].
    by apply elem_of_map_to_list, list_elem_of_In.
  - intros (m & t & Hm & Ht). exists (m, t). split; [|by apply N.ltb_lt].
    by apply list_elem_of_In, elem_of_map_to_list.
Qed.

Record keyreq_agrees (timeout : N) (s : KeyReqPacer.t)
    (past : list (KeyReqSpec.op * KeyReqSpec.outcome)) (clock : N) : Prop := {
  ka_interval : IntervalLimiter.interval (KeyReqPacer.limiter s) = KEYREQ_INTERVAL;
  ka_stored cm key : stored (KeyReqPacer.limiter s) cm key =
    lookup_past KeyReqSpec.cm_of KeyReqSpec.sent past cm key;
  ka_timeout : ReassemblyGate.timeout (KeyReqPacer.gate s) = timeout;
  (** A message that the gate has lost was too old already. *)
  ka_fragment cm k :
    let kept := fragment_at (KeyReqPacer.gate s) cm k in
    let full := lookup_past KeyReqSpec.cm_of KeyReqSpec.fragment past cm k in
    kept = full \/ (kept = None /\ exists t, full = Some t /\ (timeout <= clock - t)%N);
}.

Lemma fragment_in_msgids past cm key m t :
  lookup_past KeyReqSpec.cm_of KeyReqSpec.fragment past cm (key, m) = Some t ->
  m ∈ KeyReqSpec.msgids past.
Proof.
  induction past as [|[o out] past IH]; [done|]. unfold KeyReqSpec.msgids.
  rewrite omap_cons. cbn [lookup_past]. intros H. apply elem_of_app.
  destruct (decide (KeyReqSpec.cm_of (o, out) = cm)); [|done].
  unfold KeyReqSpec.fragment in H. destruct o; simpl in H |- *; repeat case_decide;
    simplify_eq; subst; first [by left; apply list_elem_of_singleton|right; auto].
Qed.

(** The gate answers as the past does. *)
Lemma active_agrees timeout s past clock nick cm now :
  keyreq_agrees timeout s past clock -> (clock <= now)%N ->
  (ReassemblyGate.is_active (KeyReqPacer.gate s) nick cm now).2 =
  KeyReqSpec.reassembling timeout past cm (nick_key nick cm) now.
Proof.
  intros [_ _ Ht Hf] Hnow. apply eq_true_iff_eq. rewrite is_active_spec.
  unfold KeyReqSpec.reassembling. rewrite existsb_exists, Ht. split.
  - intros (m & t & Hm & Hlt). destruct (Hf cm (nick_key nick cm, m)) as [Heq|[Hn _]];
      [|congruence]. rewrite Hm in Heq. exists m. rewrite <-Heq. split; [|by apply N.ltb_lt].
    apply list_elem_of_In. by eapply fragment_in_msgids.
  - intros (m & _ & Hm). destruct (lookup_past _ _ past cm _) as [t|] eqn:E; [|done].
    apply N.ltb_lt in Hm. exists m, t. split; [|done].
    destruct (Hf cm (nick_key nick cm, m)) as [Heq|(_ & t' & Heq & Hle)]; [congruence|].
    rewrite E in Heq. simplify_eq. lia.
Qed.

Lemma fragment_later timeout s past clock now cm k :
  keyreq_agrees timeout s past clock -> (clock <= now)%N ->
  let kept := fragment_at (KeyReqPacer.gate s) cm k in
  let full := lookup_past KeyReqSpec.cm_of KeyReqSpec.fragment past cm k in
  kept = full \/ (kept = None /\ exists t, full = Some t /\ (timeout <= now - t)%N).
Proof.
  intros [_ _ _ Hf] Hnow. destruct (Hf cm k) as [?|(? & t & ? & ?)]; [by left|].
  right. split; [done|]. exists t. split; [done|lia].
Qed.

(** The clock of an operation: the last time the clock was read. *)
Definition clock_after (clock : N) (o : KeyReqSpec.op) : N :=
  default clock (KeyReqSpec.time o).

Lemma keyreq_note_agrees timeout s past clock nick msgid cm now :
  keyreq_agrees timeout s past clock -> (clock <= now)%N ->
  keyreq_agrees timeout (KeyReqPacer.note_fragment s nick msgid cm now)
    ((KeyReqSpec.NoteFragment nick msgid cm now, None) :: past) now.
Proof.
  intros HR Hc.
  constructor; simpl.
  - rewrite sync_interval. apply HR.
  - intros cm' key. rewrite stored_sync, (ka_stored _ _ _ _ HR).
    unfold KeyReqSpec.cm_of. simpl. by destruct (decide (cm = cm')) as [<-|].
  - rewrite !gate_sync_timeout. apply HR.
  - intros cm' k. rewrite fragment_note, fragment_sync_same, gate_sync_timeout.
    rewrite (ka_timeout _ _ _ _ HR).
    cbn [KeyReqSpec.cm_of KeyReqSpec.fragment fst snd].
    destruct (decide (cm = cm')) as [<-|]; [|by left].
    destruct (decide ((nick_key nick cm, msgid) = k)); [by left|].
    destruct (fragment_later _ _ _ _ _ cm k HR Hc) as [->|(-> & t & -> & Ht)].
    + destruct (decide (nick_key nick cm = k.1)); [|by left].
      destruct (lookup_past _ _ _ _ _) as [t|]; [simpl|by left].
      destruct (N.ltb_spec (now - t) timeout); [by left|eauto].
    + case_decide; eauto.
Qed.

Lemma keyreq_finish_agrees timeout s past clock nick msgid cm :
  keyreq_agrees timeout s past clock ->
  keyreq_agrees timeout (KeyReqPacer.finish s nick msgid cm)
    ((KeyReqSpec.Finish nick msgid cm, None) :: past) clock.
Proof.
  intros HR. constructor; simpl.
  - rewrite sync_interval. apply HR.
  - intros cm' key. rewrite stored_sync, (ka_stored _ _ _ _ HR).
    unfold KeyReqSpec.cm_of. simpl. by destruct (decide (cm = cm')) as [<-|].
  - unfold ReassemblyGate.finish. case_match; simpl; rewrite !gate_sync_timeout; apply HR.
  - intros cm' k. rewrite fragment_finish, fragment_sync_same.
    cbn [KeyReqSpec.cm_of KeyReqSpec.fragment fst snd].
    destruct (decide (cm = cm')) as [<-|]; [|by left].
    destruct (decide ((nick_key nick cm, msgid) = k)); [by left|]. apply HR.
Qed.

Lemma keyreq_forget_agrees timeout s past clock nick cm :
  keyreq_agrees timeout s past clock ->
  keyreq_agrees timeout (KeyReqPacer.forget s nick cm)
    ((KeyReqSpec.Forget nick cm, None) :: past) clock.
Proof.
  intros HR. constructor; simpl.
  - rewrite !sync_interval. apply HR.
  - intros cm' key. rewrite forget_stored, stored_sync_same.
    rewrite (ka_stored _ _ _ _ HR).
    unfold KeyReqSpec.cm_of. simpl. destruct (decide (cm = cm')) as [<-|]; [|done].
    by case_decide.
  - rewrite !gate_sync_timeout. apply HR.
  - intros cm' k. rewrite fragment_forget, fragment_sync_same.
    cbn [KeyReqSpec.cm_of KeyReqSpec.fragment fst snd].
    destruct (decide (cm = cm')) as [<-|]; [|by left].
    destruct (decide (nick_key nick cm = k.1)); [by left|]. apply HR.
Qed.

(** What a request leaves, whatever its outcome. *)
Lemma keyreq_after_send timeout s past clock nick cm now limiter out :
  keyreq_agrees timeout s past clock -> (clock <= now)%N ->
  IntervalLimiter.interval limiter = KEYREQ_INTERVAL ->
  (forall cm' key, stored limiter cm' key =
     if decide (cm = cm') then
       if bool_decide (out = Ok tt) && bool_decide (nick_key nick cm = key)
       then Some now else stored (KeyReqPacer.limiter s) cm key
     else None) ->
  keyreq_agrees timeout
    (KeyReqPacer.mk limiter (ReassemblyGate.sync_casemapping (KeyReqPacer.gate s) cm))
    ((KeyReqSpec.TrySend nick cm now, Some out) :: past) now.
Proof.
  intros HR Hc Hi Hst. constructor; simpl.
  - done.
  - intros cm' key. rewrite Hst, (ka_stored _ _ _ _ HR). unfold KeyReqSpec.cm_of. simpl.
    destruct (decide (cm = cm')) as [<-|]; [|done].
    destruct out as [[]|[]]; simpl; [|done..].
    clear Hst. case_bool_decide; [by rewrite decide_True|by rewrite decide_False].
  - rewrite gate_sync_timeout. apply HR.
  - intros cm' k. rewrite fragment_sync. cbn [KeyReqSpec.cm_of KeyReqSpec.fragment fst snd].
    destruct (decide (cm = cm')) as [<-|]; [|by left].
    apply (fragment_later _ _ _ _ _ cm k HR Hc).
Qed.

Lemma is_active_sync g nick cm now :
  ReassemblyGate.is_active (ReassemblyGate.sync_casemapping g cm) nick cm now =
  ReassemblyGate.is_active g nick cm now.
Proof.
  assert (ReassemblyGate.sync_casemapping (ReassemblyGate.sync_casemapping g cm) cm =
          ReassemblyGate.sync_casemapping g cm) as H
    by (unfold ReassemblyGate.sync_casemapping; by repeat case_decide).
  unfold ReassemblyGate.is_active. by rewrite H.
Qed.

Lemma keyreq_send_agrees timeout s past clock nick cm now :
  keyreq_agrees timeout s past clock -> (clock <= now)%N ->
  let o := KeyReqSpec.TrySend nick cm now in
  (KeyReqSpec.step s o).2 = KeyReqSpec.decision timeout past o /\
  keyreq_agrees timeout (KeyReqSpec.step s o).1
    ((o, KeyReqSpec.decision timeout past o) :: past) now.
Proof.
  intros HR Hc. cbv zeta. cbn [KeyReqSpec.step KeyReqSpec.decision].
  rewrite <-(active_agrees timeout s past clock nick cm now HR Hc).
  unfold KeyReqPacer.try_send, ReassemblyGate.may_send_keyreq.
  cbn [KeyReqPacer.sync_casemapping KeyReqPacer.gate KeyReqPacer.limiter].
  rewrite is_active_sync.
  assert ((ReassemblyGate.is_active (KeyReqPacer.gate s) nick cm now).1 =
          ReassemblyGate.sync_casemapping (KeyReqPacer.gate s) cm) as Hgate by done.
  destruct (ReassemblyGate.is_active (KeyReqPacer.gate s) nick cm now) as [gate active].
  simpl in Hgate. subst gate. cbn [snd]. destruct active; cbn [negb].
  - split; [done|]. apply (keyreq_after_send timeout s past clock); try done.
    + rewrite sync_interval. apply HR.
    + intros cm' key. rewrite stored_sync. by case_decide.
  - pose proof (try_acquire_outcome
      (IntervalLimiter.sync_casemapping (KeyReqPacer.limiter s) cm) nick cm now) as Hacq.
    destruct (IntervalLimiter.try_acquire _ nick cm now) as [limiter free].
    rewrite sync_interval, stored_sync_same, (ka_stored _ _ _ _ HR), (ka_interval _ _ _ _ HR)
      in Hacq. destruct Hacq as (Hi & -> & Hst).
    split; [done|]. cbn [fst].
    apply (keyreq_after_send timeout s past clock); try done.
    intros cm' key. rewrite Hst, stored_sync_same. by destruct (LimiterSpec.free _ _ _).
Qed.

(** C24. The KEYREQ pacer decides as if it kept the whole past: a request is
    held back exactly while some message of the nickname has a last fragment
    younger than the timeout (not finished and not forgotten since), then
    exactly while the last request that went out is younger than 30 seconds;
    a request that was held back changes nothing. *)
Theorem keyreq_pacer_history (timeout clock : N) (ops : list KeyReqSpec.op)
    (Hclock : monotone KeyReqSpec.time clock ops) :
  (run KeyReqSpec.step (KeyReqPacer.new timeout) ops).2 =
  (run (KeyReqSpec.spec timeout) [] ops).2.
Proof.
  apply (run_simulation _ _ (fun _ _ => True)
    (fun s past es => exists clock, keyreq_agrees timeout s past clock /\
                        monotone KeyReqSpec.time clock es)); [|done|].
  - intros s past o os _ (c & HR & Hm). unfold KeyReqSpec.spec. cbn [fst snd].
    destruct o as [nick msgid cm now|nick msgid cm|nick cm now|nick cm]; simpl in Hm.
    + destruct Hm as [Hc Hm]. split_and!; [done..|]. exists now.
      split; [by apply (keyreq_note_agrees _ _ _ c)|done].
    + split_and!; [done..|]. exists c. split; [by apply keyreq_finish_agrees|done].
    + destruct Hm as [Hc Hm].
      destruct (keyreq_send_agrees timeout s past c nick cm now HR Hc) as [Ho HR']. eauto 10.
    + split_and!; [done..|]. exists c. split; [by apply keyreq_forget_agrees|done].
  - exists clock. split; [|done]. constructor; try done; simpl; intros.
    left. unfold fragment_at, ReassemblyGate.sync_casemapping. simpl. by rewrite lookup_empty.
Qed.

(** A request, a fragment that holds back the next one, and its end. *)
Definition sample_keyreq : list KeyReqSpec.op :=
  [KeyReqSpec.TrySend "luna" CaseMapping.Ascii (secs 1);
   KeyReqSpec.NoteFragment "Luna" "m1" CaseMapping.Ascii (secs 3);
   KeyReqSpec.TrySend "LUNA" CaseMapping.Ascii (secs 40);
   KeyReqSpec.Finish "luna" "m1" CaseMapping.Ascii;
   KeyReqSpec.TrySend "LUNA" CaseMapping.Ascii (secs 40);
   KeyReqSpec.TrySend "luna" CaseMapping.Ascii (secs 41)].

Lemma keyreq_pacer_history_witness :
  (run KeyReqSpec.step (KeyReqPacer.new md3_pacing.REASSEMBLY_TIMEOUT) sample_keyreq).2 =
  (run (KeyReqSpec.spec md3_pacing.REASSEMBLY_TIMEOUT) [] sample_keyreq).2.
Proof.
  apply (keyreq_pacer_history _ 0). simpl. repeat split; vm_compute; discriminate.
Defined.

Example keyreq_outcomes :
  (run KeyReqSpec.step (KeyReqPacer.new md3_pacing.REASSEMBLY_TIMEOUT) sample_keyreq).2 =
  [Some (Ok tt); None; Some (Err Reassembling); None; Some (Ok tt); Some (Err Interval)].
Proof. vm_compute. reflexivity. Qed.
