(* ===== verification/SendFacts.v ===== *)
(** * Theorems on the send book and the outgoing queue *)

From S2P Require Import Prelude.
From S2P Require Import RustStr.
From S2P Require Import Interfaces.
From S2P Require Import Concrete.
From S2P Require Import Isupport.
From S2P Require Import Wire.
From S2P Require Import Pacing.
From stdpp Require Import options.

(** ** The send book *)

Module BookSpec.
Section Ops.
Context {J : Json}.

Inductive op :=
| Start (key : SendKey.t)
| Remove (key : SendKey.t)
| Response (key : SendKey.t) (r : SendResponse)
| Dropped (event : SendDropped.t)
| DropLocal (key : SendKey.t) (reason : DropReason.t)
| EndSession
| Payload (payload : value)
| DroppedEvent (payload : value).

Definition step (s : SendBook.t) (o : op) : SendBook.t :=
  match o with
  | Start key => SendBook.start s key
  | Remove key => (SendBook.remove s key).1
  | Response key r => (SendBook.apply_response s key r).1
  | Dropped event => (SendBook.apply_dropped s event).1
  | DropLocal key reason => (SendBook.drop_local s key reason).1
  | EndSession => (SendBook.end_session s).1
  | Payload payload => (SendBook.apply_payload s payload).1
  | DroppedEvent payload => (SendBook.apply_dropped_event s payload).1
  end.

(** A drop moves a live send, and only a live one. *)
Definition drop (reason : DropReason.t) (st : option SendStatus.t) : option SendStatus.t :=
  match st with
  | Some st => Some (if SendStatus.is_live st then SendStatus.Dropped reason else st)
  | None => None
  end.

(** The event that an operation brings, if it brings one. *)
Definition event_of (o : op) : option SendDropped.t :=
  match o with
  | Dropped event => Some event
  | DropLocal key reason => Some (SendDropped.mk key reason)
  | Payload payload => SendDropped.from_payload payload
  | DroppedEvent payload => result_ok (SendDropped.from_value payload)
  | _ => None
  end.

(** The life of one send, seen from its key alone. *)
Definition life (k : SendKey.t) (st : option SendStatus.t) (o : op) : option SendStatus.t :=
  match o with
  | Start key => if decide (key = k) then Some (default SendStatus.Pending st) else st
  | Remove key => if decide (key = k) then None else st
  | Response key r =>
      if decide (key = k /\ st = Some SendStatus.Pending) then
        match status_of_response r with Some next => Some next | None => st end
      else st
  | EndSession => drop DropReason.SessionEnded st
  | _ =>
      match event_of o with
      | Some event =>
          if decide (SendDropped.key event = k) then drop (SendDropped.reason event) st else st
      | None => st
      end
  end.

Definition removes (k : SendKey.t) (o : op) : bool :=
  match o with Remove key => bool_decide (key = k) | _ => false end.
End Ops.
End BookSpec.

Section Book.
Context {J : Json}.

Lemma apply_dropped_life s event k :
  (SendBook.apply_dropped s event).1 !! k =
  if decide (SendDropped.key event = k)
  then BookSpec.drop (SendDropped.reason event) (s !! k) else s !! k.
Proof.
  unfold SendBook.apply_dropped, SendBook.t in *.
  destruct (decide (SendDropped.key event = k)) as [<-|Hk].
  - destruct (s !! SendDropped.key event) as [[]|] eqn:E; simpl;
      by rewrite ?lookup_insert_eq, ?E.
  - destruct (s !! SendDropped.key event) as [[]|] eqn:E; simpl; try done;
      by rewrite lookup_insert_ne.
Qed.

Lemma apply_payload_state s payload :
  (SendBook.apply_payload s payload).1 =
  match SendDropped.from_payload payload with
  | Some event => (SendBook.apply_dropped s event).1
  | None => s
  end.
Proof.
  unfold SendBook.apply_payload. destruct (SendDropped.from_payload payload) as [e|]; [|done].
  by destruct (SendBook.apply_dropped s e).
Qed.

Lemma apply_dropped_event_state s payload :
  (SendBook.apply_dropped_event s payload).1 =
  match result_ok (SendDropped.from_value payload) with
  | Some event => (SendBook.apply_dropped s event).1
  | None => s
  end.
Proof.
  unfold SendBook.apply_dropped_event.
  destruct (SendDropped.from_value payload) as [e|e]; simpl; [|done].
  by destruct (SendBook.apply_dropped s e).
Qed.

Lemma step_life s o k : BookSpec.step s o !! k = BookSpec.life k (s !! k) o.
Proof.
  destruct o as [key|key|key r|event|key reason| |payload|payload]; simpl;
    unfold SendBook.t in *.
  - unfold SendBook.start, SendBook.t. destruct (decide (key = k)) as [<-|Hk].
    + destruct (s !! key) eqn:E; simpl; by rewrite ?lookup_insert_eq, ?E.
    + destruct (s !! key); by rewrite ?lookup_insert_ne.
  - destruct (decide (key = k)) as [<-|Hk]; by rewrite ?lookup_delete_eq, ?lookup_delete_ne.
  - unfold SendBook.apply_response, SendBook.t. destruct (decide (key = k)) as [<-|Hk].
    + destruct (status_of_response r) as [next|]; simpl; [|by case_decide].
      destruct (s !! key) as [[]|] eqn:E; simpl; rewrite ?lookup_insert_eq, ?E; try done;
        case_decide; intuition congruence.
    + rewrite decide_False by (intros [? ?]; congruence).
      destruct (status_of_response r) as [next|]; simpl; [|done].
      destruct (s !! key) as [[]|] eqn:E; simpl; by rewrite ?lookup_insert_ne.
  - apply apply_dropped_life.
  - apply apply_dropped_life.
  - rewrite lookup_fmap. by destruct (s !! k).
  - rewrite apply_payload_state. destruct (SendDropped.from_payload payload); [|done].
    apply apply_dropped_life.
  - rewrite apply_dropped_event_state.
    destruct (result_ok (SendDropped.from_value payload)); [|done]. apply apply_dropped_life.
Qed.

(** The status of a send after any operations is the one that its own key
    saw: an answer, a drop event or a removal of another key never touches it,
    a known send is never registered again, and a malformed payload changes
    nothing. *)
Theorem send_book_by_key (ops : list BookSpec.op) (s : SendBook.t) (k : SendKey.t) :
  SendBook.status (foldl BookSpec.step s ops) k =
  foldl (BookSpec.life k) (SendBook.status s k) ops.
Proof.
  unfold SendBook.status. revert s. induction ops as [|o ops IH]; intros s; [done|].
  simpl. by rewrite IH, step_life.
Qed.

Lemma life_final k st o :
  SendStatus.is_live st = false -> BookSpec.removes k o = false ->
  BookSpec.life k (Some st) o = Some st.
Proof.
  intros Hst Ho.
  assert (forall reason, BookSpec.drop reason (Some st) = Some st) as Hdrop
    by (intros; simpl; by rewrite Hst).
  assert (forall event, (if decide (SendDropped.key event = k)
             then BookSpec.drop (SendDropped.reason event) (Some st) else Some st) = Some st)
    as Hevent by (intros; case_decide; [apply Hdrop|done]).
  destruct o as [key|key|key r|event|key reason| |payload|payload];
    cbn [BookSpec.life BookSpec.event_of].
  - by case_decide.
  - apply bool_decide_eq_false in Ho. by rewrite decide_False.
  - case_decide as Hd; [|done]. destruct Hd as [_ [= ->]]. done.
  - apply Hevent.
  - apply (Hevent (SendDropped.mk key reason)).
  - apply Hdrop.
  - destruct (SendDropped.from_payload payload); [apply Hevent|done].
  - destruct (result_ok _); [apply Hevent|done].
Qed.

(** A final status (failed or dropped) is changed only once: whatever
    follows, except its removal, leaves it as it is. *)
Theorem send_book_final (ops : list BookSpec.op) (s : SendBook.t) (k : SendKey.t)
    (st : SendStatus.t)
    (Hst : SendBook.status s k = Some st)
    (Hfinal : SendStatus.is_live st = false)
    (Hops : forallb (fun o => negb (BookSpec.removes k o)) ops = true) :
  SendBook.status (foldl BookSpec.step s ops) k = Some st.
Proof.
  unfold SendBook.status in *. revert s Hst.
  induction ops as [|o ops IH]; intros s Hst; [done|]. simpl in *.
  apply andb_prop in Hops as [Ho Hops]. apply negb_true_iff in Ho.
  apply IH; [done|]. by rewrite step_life, Hst, life_final.
Qed.

(** The end of a session returns each send that was pending or accepted,
    once, and no other, and leaves no send in one of these states. *)
Theorem end_session_exact (s : SendBook.t) :
  let '(s', ended) := SendBook.end_session s in
  NoDup ended /\
  (forall k r, SendDropped.mk k r ∈ ended <->
     r = DropReason.SessionEnded /\
     exists st, SendBook.status s k = Some st /\ SendStatus.is_live st = true) /\
  (forall k st, SendBook.status s' k = Some st -> SendStatus.is_live st = false).
Proof.
  unfold SendBook.end_session, SendBook.status, SendBook.t in *. split_and!.
  - pose proof (NoDup_fst_map_to_list s) as Hnd.
    induction (map_to_list s) as [|[k st] l IH]; [constructor|].
    simpl in Hnd. apply NoDup_cons in Hnd as [Hk Hnd].
    rewrite omap_cons. destruct (SendStatus.is_live st); simpl; [|by apply IH].
    apply NoDup_cons. split; [|by apply IH].
    intros Hin. apply Hk. apply list_elem_of_omap in Hin as ([k' st'] & Hin & Heq).
    destruct (SendStatus.is_live st'); simplify_eq.
    apply list_elem_of_fmap. by exists (k, st').
  - intros k r. rewrite list_elem_of_omap. split.
    + intros ([k' st'] & Hin & Heq). apply elem_of_map_to_list in Hin.
      destruct (SendStatus.is_live st') eqn:E; simplify_eq. eauto.
    + intros (-> & st & Hst & Hl). exists (k, st). rewrite elem_of_map_to_list, Hl. done.
  - intros k st. rewrite lookup_fmap. destruct (s !! k) as [st'|]; simpl; [|done].
    destruct (SendStatus.is_live st') eqn:E; intros [= <-]; done.
Qed.
End Book.

Definition sample_send (msgid : string) : SendKey.t := SendKey.mk "azzurra" "luna" msgid.

Lemma send_book_final_witness :
  SendBook.status
    (foldl BookSpec.step
       {[sample_send "m1" := SendStatus.Dropped DropReason.Late]}
       [BookSpec.Start (sample_send "m1"); BookSpec.Response (sample_send "m1") Accepted;
        BookSpec.EndSession; BookSpec.Remove (sample_send "m2")])
    (sample_send "m1") = Some (SendStatus.Dropped DropReason.Late).
Proof.
  apply (send_book_final _ _ _ (SendStatus.Dropped DropReason.Late)); vm_compute; reflexivity.
Defined.

(** ** Wire names of the reasons *)

(** The wire name of a reason is read back as that reason and nothing else
    is read as it; a push of the server can carry only the first three. *)
Theorem drop_reason_roundtrip (text : string) (r : DropReason.t) :
  (DropReason.from_wire text = Some r <-> text = DropReason.wire_name r) /\
  (DropReason.from_server_wire text = Some r <->
     text = DropReason.wire_name r /\
     r ∈ [DropReason.Late; DropReason.SendFailed; DropReason.SessionEnded]).
Proof.
  unfold DropReason.from_wire, DropReason.from_server_wire.
  split; split.
  - repeat case_decide; intros [= <-]; assumption.
  - intros ->. by destruct r.
  - repeat case_decide; intros [= <-]; (split; [assumption|]); set_solver.
  - intros [-> Hr]. destruct r; [done..| |]; exfalso; set_solver.
Qed.

(** ** The outgoing queue *)

(** A message is late when it cannot arrive before its deadline minus the
    margin. *)
Definition late (now : N) (item : QueuedSend.t) : bool :=
  (QueuedSend.deadline item <=? now + SEND_SAFETY_MARGIN)%N.

Definition late_drop (item : QueuedSend.t) : SendDropped.t :=
  SendDropped.mk (QueuedSend.key item) DropReason.Late.

Lemma check_send_deadline_spec now deadline :
  (now + SEND_SAFETY_MARGIN <= DURATION_MAX)%N ->
  check_send_deadline now deadline =
  Some (if (deadline <=? now + SEND_SAFETY_MARGIN)%N then TooLate else Go).
Proof.
  intros Hnow. unfold check_send_deadline, duration_add.
  rewrite (proj2 (checked_add_Some _ _ _ _)) by done. simpl.
  destruct (N.ltb_spec (now + SEND_SAFETY_MARGIN) deadline),
    (N.leb_spec deadline (now + SEND_SAFETY_MARGIN)); try done; lia.
Qed.

Lemma expire_spec s now :
  (now + SEND_SAFETY_MARGIN <= DURATION_MAX)%N ->
  OutgoingQueue.expire s now =
  Some (List.filter (fun item => negb (late now item)) s,
        late_drop <$> List.filter (late now) s).
Proof.
  intros Hnow. induction s as [|item s IH]; [done|]. cbn [OutgoingQueue.expire].
  rewrite check_send_deadline_spec, IH by done. 
  cbn [List.filter mbind option_bind]. fold (late now item). by destruct (late now item).
Qed.

Lemma take_loop_perm {St} (ready : St -> QueuedSend.t -> St * bool) st s :
  let '(_, taken, kept) := OutgoingQueue.take_loop ready st s in taken ++ kept ≡ₚ s.
Proof.
  revert st. induction s as [|item s IH]; intros st; simpl; [done|].
  destruct (ready st item) as [st1 go]. specialize (IH st1).
  destruct (OutgoingQueue.take_loop ready st1 s) as [[st2 taken] kept].
  destruct go; simpl; [by rewrite IH|]. by rewrite <-Permutation_middle, IH.
Qed.

Lemma take_loop_pure (p : QueuedSend.t -> bool) s :
  OutgoingQueue.take_loop (fun st item => (st, p item)) tt s =
  (tt, List.filter p s, List.filter (fun item => negb (p item)) s).
Proof.
  induction s as [|item s IH]; simpl; [done|]. rewrite IH. by destruct (p item).
Qed.

(** Taking messages splits the queue in three, each part in the order of
    arrival: the late ones are dropped, of the others the ready ones are
    taken and the rest stays. The clock must be two seconds below the largest
    duration, or the addition panics. *)
Theorem take_matching_exact (s : OutgoingQueue.t) (now : N) (p : QueuedSend.t -> bool)
    (Hnow : (now + SEND_SAFETY_MARGIN <= DURATION_MAX)%N) :
  OutgoingQueue.take_matching s now (fun st item => (st, p item)) tt =
  Some (List.filter (fun item => negb (late now item) && negb (p item)) s, tt,
        List.filter (fun item => negb (late now item) && p item) s,
        late_drop <$> List.filter (late now) s).
Proof.
  unfold OutgoingQueue.take_matching. rewrite expire_spec by done. simpl.
  rewrite take_loop_pure.
  assert (forall q, List.filter q (List.filter (fun item => negb (late now item)) s) =
            List.filter (fun item => negb (late now item) && q item) s) as Hf.
  { intros q. induction s as [|item s IH]; simpl; [done|].
    destruct (late now item); simpl; [done|]. destruct (q item); simpl; by rewrite IH. }
  by rewrite !Hf.
Qed.

Definition sample_item (msgid : string) (deadline : N) : QueuedSend.t :=
  QueuedSend.mk (sample_send msgid) (secs deadline).

Lemma take_matching_exact_witness :
  OutgoingQueue.take_matching
    [sample_item "a" 90; sample_item "b" 12; sample_item "c" 91] (secs 10)
    (fun st item => (st, bool_decide (SendKey.msgid (QueuedSend.key item) = "c"))) tt =
  Some ([sample_item "a" 90], tt, [sample_item "c" 91],
        [SendDropped.mk (sample_send "b") DropReason.Late]).
Proof.
  refine (eq_trans (take_matching_exact _ (secs 10)
    (fun item => bool_decide (SendKey.msgid (QueuedSend.key item) = "c")) _) _).
  - vm_compute. discriminate.
  - vm_compute. reflexivity.
Defined.

Module QueueSpec.
Section Ops.
Context {St : Type}.

Inductive op :=
| Push (key : SendKey.t) (cm : CaseMapping.t) (now : N)
| Expire (now : N)
| Take (now : N) (ready : St -> QueuedSend.t -> St * bool) (st : St)
| Remove (key : SendKey.t)
| Restore (item : QueuedSend.t)
| EndSession.

Definition time (o : op) : N :=
  match o with Push _ _ now | Expire now | Take now _ _ => now | _ => 0 end.

Definition keys (s : OutgoingQueue.t) : list SendKey.t := QueuedSend.key <$> s.
Definition drops (l : list SendDropped.t) : list SendKey.t := SendDropped.key <$> l.

(** One operation, with the messages that came in and those that went out.
    [remove] returns only whether it found the key: the messages that go out
    are those of the key. *)
Definition step (s : OutgoingQueue.t) (o : op)
    : panics (OutgoingQueue.t * list SendKey.t * list SendKey.t) :=
  match o with
  | Push key cm now =>
      '(s, pushed) ← OutgoingQueue.push s key cm now;
      Some (s, if pushed : bool then [key] else [], [])
  | Expire now => '(s, late) ← OutgoingQueue.expire s now; Some (s, [], drops late)
  | Take now ready st =>
      '(s, _, taken, late) ← OutgoingQueue.take_matching s now ready st;
      Some (s, [], keys taken ++ drops late)
  | Remove key =>
      let '(s', removed) := OutgoingQueue.remove s key in
      Some (s', [], if removed then filter (fun k => k = key) (keys s) else [])
  | Restore item => Some (OutgoingQueue.restore s item, [QueuedSend.key item], [])
  | EndSession => let '(s, ended) := OutgoingQueue.end_session s in Some (s, [], drops ended)
  end.

Fixpoint run (s : OutgoingQueue.t) (ops : list op)
    : panics (OutgoingQueue.t * list SendKey.t * list SendKey.t) :=
  match ops with
  | [] => Some (s, [], [])
  | o :: ops =>
      '(s, came, went) ← step s o;
      '(s, came', went') ← run s ops;
      Some (s, came ++ came', went ++ went')
  end.
End Ops.
End QueueSpec.
#[global] Arguments QueueSpec.op St : clear implicits.

Lemma keys_partition (p : QueuedSend.t -> bool) s :
  QueueSpec.keys (List.filter (fun item => negb (p item)) s) ++
  QueueSpec.keys (List.filter p s) ≡ₚ QueueSpec.keys s.
Proof.
  unfold QueueSpec.keys. induction s as [|item s IH]; simpl; [done|].
  destruct (p item); simpl; [|by rewrite IH]. by rewrite <-Permutation_middle, IH.
Qed.

Lemma drops_late s : QueueSpec.drops (late_drop <$> s) = QueueSpec.keys s.
Proof. unfold QueueSpec.drops, QueueSpec.keys. by rewrite <-list_fmap_compose. Qed.

Lemma remove_keys s key :
  let '(s', removed) := OutgoingQueue.remove s key in
  QueueSpec.keys s' ++
    (if removed then filter (fun k => k = key) (QueueSpec.keys s) else []) ≡ₚ QueueSpec.keys s.
Proof.
  unfold OutgoingQueue.remove.
  assert (forall s, QueueSpec.keys (filter (fun item => QueuedSend.key item <> key) s) ++
    filter (fun k => k = key) (QueueSpec.keys s) ≡ₚ QueueSpec.keys s) as Hperm.
  { clear s. unfold QueueSpec.keys. induction s as [|item s IH]; [done|].
    rewrite fmap_cons. destruct (decide (QueuedSend.key item = key)) as [He|He].
    - rewrite (filter_cons_False (fun item => QueuedSend.key item <> key)) by tauto.
      rewrite filter_cons_True by done.
      by rewrite <-Permutation_middle, IH.
    - rewrite (filter_cons_True (fun item => QueuedSend.key item <> key)) by done.
      rewrite (filter_cons_False (fun k => k = key)) by done. simpl. by rewrite IH. }
  destruct (lenN _ =? lenN s)%N eqn:E; simpl; [|apply Hperm].
  apply N.eqb_eq in E. rewrite app_nil_r. specialize (Hperm s).
  apply Permutation_length in Hperm as Hl. rewrite length_app in Hl.
  unfold QueueSpec.keys in Hl at 1 3. rewrite !length_fmap in Hl.
  unfold lenN in E. assert (length (filter (fun k => k = key) (QueueSpec.keys s)) = 0) as H0 by lia.
  apply nil_length_inv in H0. by rewrite H0, app_nil_r in Hperm.
Qed.

Lemma queue_step_conserves {St} (s : OutgoingQueue.t) (o : QueueSpec.op St) :
  (QueueSpec.time o + md3_pacing.OUTGOING_QUEUE_TTL <= DURATION_MAX)%N ->
  exists s' came went, QueueSpec.step s o = Some (s', came, went) /\
    QueueSpec.keys s' ++ went ≡ₚ QueueSpec.keys s ++ came.
Proof.
  intros Ht. assert (QueueSpec.time o + SEND_SAFETY_MARGIN <= DURATION_MAX)%N as Hm.
  { unfold md3_pacing.OUTGOING_QUEUE_TTL, SEND_SAFETY_MARGIN, secs, NANOS_PER_SEC in *. lia. }
  destruct o as [key cm now|now|now ready st|key|item|]; cbn [QueueSpec.step QueueSpec.time] in *.
  - unfold OutgoingQueue.push. case_match; simpl; [by eexists _, [], []|].
    unfold duration_add. rewrite (proj2 (checked_add_Some _ _ _ _)) by done. simpl.
    eexists _, [key], []. split; [done|].
    unfold QueueSpec.keys. by rewrite fmap_app, app_nil_r.
  - rewrite expire_spec by done. simpl. eexists _, [], _. split; [done|].
    by rewrite drops_late, keys_partition, app_nil_r.
  - unfold OutgoingQueue.take_matching. rewrite expire_spec by done. simpl.
    pose proof (take_loop_perm ready st (List.filter (fun item => negb (late now item)) s)) as Hp.
    destruct (OutgoingQueue.take_loop _ _ _) as [[st' taken] kept]. simpl.
    eexists _, [], _. split; [done|]. rewrite drops_late, app_nil_r.
    rewrite <-(keys_partition (late now) s). apply (fmap_Permutation QueuedSend.key) in Hp.
    unfold QueueSpec.keys. rewrite <-Hp, fmap_app. solve_Permutation.
  - pose proof (remove_keys s key) as Hp. destruct (OutgoingQueue.remove s key) as [s' removed].
    eexists _, [], _. split; [done|]. by rewrite app_nil_r.
  - eexists _, [_], []. split; [done|]. unfold QueueSpec.keys. simpl.
    rewrite app_nil_r. apply Permutation_cons_append.
  - eexists _, [], _. split; [done|]. unfold QueueSpec.drops, QueueSpec.keys. simpl.
    by rewrite <-list_fmap_compose, app_nil_r.
Qed.

(** No message is lost and none is doubled: after any operations the queue
    holds, and the operations gave back (taken, dropped as late, ended with
    the session, removed), exactly the messages that were in the queue and
    those that came in; and no operation panics while the clock is 90 seconds
    below the largest duration. *)
Theorem queue_conserves {St} (ops : list (QueueSpec.op St)) (s : OutgoingQueue.t)
    (Htimes : Forall (fun o => QueueSpec.time o + md3_pacing.OUTGOING_QUEUE_TTL
                               <= DURATION_MAX)%N ops) :
  exists s' came went, QueueSpec.run s ops = Some (s', came, went) /\
    QueueSpec.keys s' ++ went ≡ₚ QueueSpec.keys s ++ came.
Proof.
  revert s. induction Htimes as [|o ops Ho _ IH]; intros s; [by eexists _, [], []|].
  destruct (queue_step_conserves s o Ho) as (s1 & c1 & w1 & E1 & P1).
  destruct (IH s1) as (s2 & c2 & w2 & E2 & P2). simpl. rewrite E1. simpl. rewrite E2. simpl.
  eexists _, _, _. split; [done|].
  rewrite (Permutation_app_comm w1 w2), (assoc_L (++)), P2.
  rewrite <-(assoc_L (++)), (Permutation_app_comm c2 w1), (assoc_L (++)), P1.
  by rewrite <-(assoc_L (++)).
Qed.

Lemma queue_conserves_witness :
  exists s' came went,
    QueueSpec.run []
      [QueueSpec.Push (sample_send "a") CaseMapping.Rfc1459 (secs 1);
       QueueSpec.Push (sample_send "b") CaseMapping.Rfc1459 (secs 60);
       QueueSpec.Expire (secs 89);
       QueueSpec.Take (secs 90) (fun (n : nat) _ => (S n, n =? 0)) 0] = Some (s', came, went)
    /\ QueueSpec.keys s' ++ went ≡ₚ QueueSpec.keys [] ++ came.
Proof.
  apply queue_conserves. repeat constructor; vm_compute; discriminate.
Defined.

(** At most 16 messages wait for one nickname. *)
Definition within_cap (cm : CaseMapping.t) (s : OutgoingQueue.t) : Prop :=
  forall target, (OutgoingQueue.len_for s target cm <= md3_pacing.OUTGOING_QUEUE_MAX)%N.

Lemma len_for_filter p s target cm :
  (OutgoingQueue.len_for (List.filter p s) target cm <= OutgoingQueue.len_for s target cm)%N.
Proof.
  unfold OutgoingQueue.len_for, lenN. induction s as [|item s IH]; simpl; [done|].
  destruct (p item); simpl; destruct (OutgoingQueue.is_for target cm item); simpl; lia.
Qed.

Lemma len_for_app s s' target cm :
  OutgoingQueue.len_for (s ++ s') target cm =
  (OutgoingQueue.len_for s target cm + OutgoingQueue.len_for s' target cm)%N.
Proof. unfold OutgoingQueue.len_for. by rewrite List.filter_app, lenN_app. Qed.

(** A push keeps at most 16 messages waiting for each nickname of the case
    mapping, whatever spelling the targets use; it refuses exactly when 16
    wait already, and then changes nothing. *)
Theorem push_within_cap (s : OutgoingQueue.t) (key : SendKey.t) (cm : CaseMapping.t) (now : N)
    (Hnow : (now + md3_pacing.OUTGOING_QUEUE_TTL <= DURATION_MAX)%N)
    (Hcap : within_cap cm s) :
  exists s' pushed, OutgoingQueue.push s key cm now = Some (s', pushed) /\
    within_cap cm s' /\
    (pushed = false <-> OutgoingQueue.len_for s (SendKey.target key) cm = 16%N) /\
    s' = (if pushed
          then s ++ [QueuedSend.mk key (now + md3_pacing.OUTGOING_QUEUE_TTL)] else s).
Proof.
  unfold OutgoingQueue.push. pose proof (Hcap (SendKey.target key)) as Hk.
  unfold md3_pacing.OUTGOING_QUEUE_MAX in *.
  destruct (N.leb_spec 16 (OutgoingQueue.len_for s (SendKey.target key) cm)).
  - exists s, false. split_and!; [done|done| |done]. split; [lia|done].
  - unfold duration_add. rewrite (proj2 (checked_add_Some _ _ _ _)) by done. simpl.
    eexists _, true. split_and!; [done| | |done].
    + intros target. rewrite len_for_app. specialize (Hcap target).
      unfold OutgoingQueue.len_for at 2. simpl.
      unfold OutgoingQueue.is_for at 1. simpl. case_bool_decide as He.
      * assert (OutgoingQueue.len_for s target cm =
                OutgoingQueue.len_for s (SendKey.target key) cm) as ->.
        { unfold OutgoingQueue.len_for, OutgoingQueue.is_for. by rewrite He. }
        unfold lenN, md3_pacing.OUTGOING_QUEUE_MAX. simpl. lia.
      * unfold lenN. simpl. lia.
    + split; [done|lia].
Qed.

Lemma push_within_cap_witness :
  exists s' pushed,
    OutgoingQueue.push (repeat (sample_item "a" 90) 16) (SendKey.mk "azzurra" "LUNA" "m")
      CaseMapping.Rfc1459 (secs 5) = Some (s', pushed) /\
    within_cap CaseMapping.Rfc1459 s' /\
    (pushed = false <->
       OutgoingQueue.len_for (repeat (sample_item "a" 90) 16) "LUNA" CaseMapping.Rfc1459 = 16%N)
    /\ s' = (if pushed
          then repeat (sample_item "a" 90) 16 ++
               [QueuedSend.mk (SendKey.mk "azzurra" "LUNA" "m")
                  (secs 5 + md3_pacing.OUTGOING_QUEUE_TTL)]
          else repeat (sample_item "a" 90) 16).
Proof.
  apply (push_within_cap (repeat (sample_item "a" 90) 16) (SendKey.mk "azzurra" "LUNA" "m")).
  - vm_compute. discriminate.
  - intros target. unfold OutgoingQueue.len_for, OutgoingQueue.is_for, lenN. simpl.
    case_bool_decide; vm_compute; discriminate.
Defined.
