(* ===== verification/Pairing.v ===== *)
(** * Pairing data (crates/cordiale-core/src/e2e_pairing.rs)

    The answers and events of the pairing relay, the pairing code, the offer
    with its end time, and the errors of a refused call. The reading of a time
    works on [i64]; years have four digits, so no step but the last one of
    [is_current] can leave the width. *)

From S2P Require Import Prelude.
From S2P Require Import RustStr.
From S2P Require Import Interfaces.
From S2P Require Import Wire.
From stdpp Require Import options.

Inductive PairingRole := Creator | Joiner.

#[global] Instance PairingRole_eq_dec : EqDecision PairingRole.
Proof. solve_decision. Defined.

Module Rendezvous.
Record t := mk { id : string; role : PairingRole; expires_at : string }.
End Rendezvous.

Module RelayMessage.
Record t := mk { seq : N; from : PairingRole; payload : string }.
End RelayMessage.

Inductive ClosedReason := Closed | Expired | Replaced.

#[global] Instance ClosedReason_eq_dec : EqDecision ClosedReason.
Proof. solve_decision. Defined.

(** The derived reader of a role: the name of a variant, or an object that
    gives it with [null]. *)
Definition role_of_name (name : string) : option PairingRole :=
  if decide (name = "creator") then Some Creator
  else if decide (name = "joiner") then Some Joiner else None.

Definition role_from_value `{J : Json} (v : value) : option PairingRole :=
  match as_str v with
  | Some name => role_of_name name
  | None =>
      map ← as_object_map v;
      match map_to_list map with
      | [(name, field)] => if is_null field then role_of_name name else None
      | _ => None
      end
  end.

Module PairingPush.
Inductive t :=
| Message (rendezvous_id : string) (seq : N) (from : PairingRole)
| Closed (rendezvous_id : string) (reason : ClosedReason).

#[global] Instance eq_dec : EqDecision t.
Proof. solve_decision. Defined.

Definition reason_of (name : string) : option ClosedReason :=
  if decide (name = "closed") then Some Pairing.Closed
  else if decide (name = "expired") then Some Expired
  else if decide (name = "replaced") then Some Replaced else None.

Definition from_value `{J : Json} (v : value) : option t :=
  rendezvous_id ← json_get v "rendezvous_id" ≫= as_str;
  kind ← json_get v "kind" ≫= as_str;
  if decide (kind = "e2e_pairing_message") then
    seq ← json_get v "seq" ≫= as_u64;
    from ← json_get v "from" ≫= role_from_value;
    Some (Message rendezvous_id seq from)
  else if decide (kind = "e2e_pairing_closed") then
    reason ← json_get v "reason" ≫= as_str;
    reason ← reason_of reason;
    Some (Closed rendezvous_id reason)
  else None.
End PairingPush.

Module PairingError.
Inductive t :=
| BadLink | BadId | AlreadyJoined | OwnRendezvous | NotJoined | NotAParty
| Forbidden | NotFound | Rejected | RateLimited
| Unexpected (status : N).

#[global] Instance eq_dec : EqDecision t.
Proof. solve_decision. Defined.
End PairingError.

Definition relay_error (status : N) (code : option string) : PairingError.t :=
  let says (text : string) := bool_decide (code = Some text) in
  if (status =? 409)%N && says "pairing_already_joined" then PairingError.AlreadyJoined
  else if (status =? 409)%N && says "pairing_own_rendezvous" then PairingError.OwnRendezvous
  else if (status =? 409)%N && says "pairing_not_joined" then PairingError.NotJoined
  else if (status =? 403)%N && says "pairing_not_a_party" then PairingError.NotAParty
  else if (status =? 403)%N then PairingError.Forbidden
  else if (status =? 404)%N then PairingError.NotFound
  else if (status =? 413)%N || (status =? 422)%N then PairingError.Rejected
  else if (status =? 429)%N then PairingError.RateLimited
  else PairingError.Unexpected status.

Definition is_rendezvous_id (text : string) : bool :=
  (str_len text =? 22)%N
  && all_chars (fun b => is_ascii_alphanumeric b || ascii_eqb b "-" || ascii_eqb b "_") text.

(** ** The pairing code *)

Module PairingLink.
Record t := mk { rendezvous_id : string; ephemeral_key : string }.

#[global] Instance eq_dec : EqDecision t.
Proof. solve_decision. Defined.

(** [find_map] over the parts of the fragment. *)
Fixpoint find_pair (parts : list string) : option string :=
  match parts with
  | [] => None
  | part :: parts =>
      match strip_prefix "pair=" part with
      | Some code => Some code
      | None => find_pair parts
      end
  end.

Section Link.
Context {C : Crypto}.

Definition new (rendezvous_id ephemeral_key : string) : result t PairingError.t :=
  if negb (is_rendezvous_id rendezvous_id) then Err PairingError.BadId else
  let? _ := map_err (fun _ => PairingError.BadLink) (decode_key ephemeral_key) in
  Ok (mk rendezvous_id ephemeral_key).

Definition parse (text : string) : result t PairingError.t :=
  let text := trim text in
  let fragment := match split_once "#" text with
                  | Some (_, fragment) => fragment
                  | None => text
                  end in
  let code := default fragment (find_pair (split_char "&" fragment)) in
  let? (id, key) := ok_or (split_once "." code) PairingError.BadLink in
  new id key.

Definition code (l : t) : string := rendezvous_id l +:+ "." +:+ ephemeral_key l.
End Link.
End PairingLink.

(** The cleared buffer and the link. *)
Definition take_pairing_link `{C : Crypto} (input : string)
    : string * result PairingLink.t PairingError.t :=
  ("", PairingLink.parse input).

(** ** The end time of an offer *)

(** [number(from, to)]. *)
Definition time_number (whole : string) (from to : nat) : option Z :=
  let part := str_slice from to whole in
  if all_chars is_ascii_digit part then parse_i64 part else None.

(** Days since 1970-01-01 in the proleptic Gregorian calendar. *)
Definition days_since_epoch (year month day : Z) : Z :=
  let year := if (month <=? 2)%Z then (year - 1)%Z else year in
  let era := (year / 400)%Z in
  let year_of_era := (year - era * 400)%Z in
  let month_from_march := ((month + 9) `rem` 12)%Z in
  let day_of_year := ((153 * month_from_march + 2) `quot` 5 + day - 1)%Z in
  let day_of_era :=
    (year_of_era * 365 + year_of_era `quot` 4 - year_of_era `quot` 100 + day_of_year)%Z in
  (era * 146097 + day_of_era - 719468)%Z.

Definition parse_utc_seconds (text : string) : option Z :=
  text ← match strip_suffix "Z" text with
         | Some text => Some text
         | None => strip_suffix "+00:00" text
         end;
  whole ← match split_once "." text with
          | Some (whole, fraction) =>
              if is_empty fraction || negb (all_chars is_ascii_digit fraction)
              then None else Some whole
          | None => Some text
          end;
  let has (i : nat) (c : ascii) := bool_decide (byte_at i whole = Some c) in
  if negb (String.length whole =? 19) || negb (has 4 "-"%char) || negb (has 7 "-"%char)
     || negb (has 10 "T"%char) || negb (has 13 ":"%char) || negb (has 16 ":"%char)
  then None else
  year ← time_number whole 0 4;
  month ← time_number whole 5 7;
  day ← time_number whole 8 10;
  hour ← time_number whole 11 13;
  minute ← time_number whole 14 16;
  second ← time_number whole 17 19;
  if negb ((1 <=? month)%Z && (month <=? 12)%Z) || negb ((1 <=? day)%Z && (day <=? 31)%Z)
     || (23 <? hour)%Z || (59 <? minute)%Z || (59 <? second)%Z
  then None
  else Some (days_since_epoch year month day * 86400 + hour * 3600 + minute * 60 + second)%Z.

Module PairingOffer.
Record t := mk { link : PairingLink.t; expires_at : Z }.

Section Offer.
Context {C : Crypto} {J : Json}.

Definition from_fields (v : value) : option t :=
  rendezvous_id ← json_get v "rendezvous_id" ≫= as_str;
  curve ← json_get v "curve" ≫= as_str;
  link ← result_ok (PairingLink.new rendezvous_id curve);
  expires_at ← json_get v "expires_at" ≫= as_str;
  expires_at ← parse_utc_seconds expires_at;
  Some (mk link expires_at).

Definition from_value (v : value) : option t :=
  kind ← json_get v "kind" ≫= as_str;
  if decide (kind <> "e2e_pairing_offered") then None else from_fields v.

Definition from_answer (v : value) : option t := json_get v "offer" ≫= from_fields.
End Offer.

Definition rendezvous_id (o : t) : string := PairingLink.rendezvous_id (link o).
Definition curve (o : t) : string := PairingLink.ephemeral_key (link o).

(** [self.expires_at - now] is on [i64], and wraps in a release build. *)
Definition is_current (o : t) (now : Z) : bool :=
  (now <? expires_at o)%Z
  && (wrap_i64 (expires_at o - now) <=? Z.of_N PAIRING_LIFETIME_SECS)%Z.
End PairingOffer.
