(* ===== verification/PairingFacts.v ===== *)
(** * Theorems on the pairing code and the end time of an offer *)

From S2P Require Import Prelude.
From S2P Require Import RustStr.
From S2P Require Import Interfaces.
From S2P Require Import Concrete.
From S2P Require Import Wire.
From S2P Require Import WireFacts.
From S2P Require Import Pairing.
From Stdlib Require Import DecimalString DecimalN.
From stdpp Require Import options.

(** ** The calendar

    The reference: years of 365 or 366 days, months of their own lengths. *)
Definition is_leap (year : Z) : bool :=
  (year mod 4 =? 0)%Z && (negb (year mod 100 =? 0)%Z || (year mod 400 =? 0)%Z).
Definition year_length (year : Z) : Z := if is_leap year then 366 else 365.
Definition month_lengths (year : Z) : list Z :=
  [31; if is_leap year then 29 else 28; 31; 30; 31; 30; 31; 31; 30; 31; 30; 31]%Z.

Definition sum (l : list Z) : Z := foldr Z.add 0%Z l.

(** Days from 0000-01-01 to the first day of year [n]. *)
Fixpoint days_before_year (n : nat) : Z :=
  match n with
  | 0 => 0
  | S n => days_before_year n + year_length (Z.of_nat n)
  end.

Definition calendar_days (year month day : Z) : Z :=
  (days_before_year (Z.to_nat year) + sum (take (Z.to_nat (month - 1)) (month_lengths year))
   + (day - 1) - days_before_year 1970)%Z.

(** The twelve first days of months of the years from [year] on. *)
Fixpoint years_agree (fuel : nat) (year before epoch : Z) : bool :=
  match fuel with
  | 0 => true
  | S fuel =>
      forallb (fun m => days_since_epoch year (Z.of_nat m) 1 =?
        before + sum (take (m - 1) (month_lengths year)) - epoch)%Z (seq 1 12)
      && years_agree fuel (year + 1) (before + year_length year) epoch
  end.

Lemma years_agree_spec fuel start epoch n m :
  years_agree fuel (Z.of_nat start) (days_before_year start) epoch = true ->
  start <= n < start + fuel -> 1 <= m <= 12 ->
  days_since_epoch (Z.of_nat n) (Z.of_nat m) 1 =
  (days_before_year n + sum (take (m - 1) (month_lengths (Z.of_nat n))) - epoch)%Z.
Proof.
  revert start. induction fuel as [|fuel IH]; intros start H Hn Hm; [lia|].
  cbn [years_agree] in H. apply andb_true_iff in H as [Hf H].
  destruct (decide (n = start)) as [->|].
  - rewrite forallb_forall in Hf. apply Z.eqb_eq, Hf. apply in_seq. lia.
  - apply (IH (S start)); [|lia|done].
    replace (Z.of_nat (S start)) with (Z.of_nat start + 1)%Z by lia. exact H.
Qed.

Lemma all_years_agree : years_agree (N.to_nat 10000) 0 0 (days_before_year 1970) = true.
Proof. vm_compute. reflexivity. Qed.

Lemma days_linear year month day :
  days_since_epoch year month day = (days_since_epoch year month 1 + (day - 1))%Z.
Proof. unfold days_since_epoch. destruct (month <=? 2)%Z; lia. Qed.

Lemma calendar_exact (year month day : Z) :
  (0 <= year <= 9999)%Z -> (1 <= month <= 12)%Z ->
  days_since_epoch year month day = calendar_days year month day.
Proof.
  intros Hy Hm. rewrite days_linear. unfold calendar_days.
  pose proof (years_agree_spec (N.to_nat 10000) 0 (days_before_year 1970) (Z.to_nat year)
                (Z.to_nat month) all_years_agree) as H.
  rewrite !Z2Nat.id in H by lia. rewrite H by lia.
  replace (Z.to_nat (month - 1)) with (Z.to_nat month - 1) by lia. lia.
Qed.

(** ** Reading a time *)

Lemma uint_zeros k s u :
  NilEmpty.uint_of_string s = Some u ->
  exists v, NilEmpty.uint_of_string (str_repeat "0" k +:+ s) = Some v /\ N.of_uint v = N.of_uint u.
Proof.
  intros Hs. induction k as [|k (v & Hv & He)]; [by exists u|].
  cbn [str_repeat]. rewrite str_app_cons. simpl. rewrite Hv. by exists (Decimal.D0 v).
Qed.

Lemma zeros_digits k : all_chars is_ascii_digit (str_repeat "0" k) = true.
Proof. induction k as [|k IH]; [done|exact IH]. Qed.

Lemma padded_digits width n : all_chars is_ascii_digit (pad_zeros width (N_display n)) = true.
Proof. unfold pad_zeros. by rewrite all_chars_app, zeros_digits, display_digits. Qed.

Lemma padded_length width n :
  (n < 10 ^ N.of_nat width)%N -> 0 < width ->
  String.length (pad_zeros width (N_display n)) = width.
Proof.
  intros Hn Hw. unfold pad_zeros. rewrite str_length_app, str_repeat_length.
  pose proof (display_length n width Hn Hw). lia.
Qed.

Lemma digits_parse_i64 s :
  all_chars is_ascii_digit s = true -> s <> "" ->
  parse_i64 s = u ← NilEmpty.uint_of_string s;
                let z := Z.of_N (N.of_uint u) in if in_i64 z then Some z else None.
Proof.
  intros Hd Hne. unfold parse_i64.
  destruct s as [|[[] [] [] [] [] [] [] []] s]; try done; simpl in Hd |- *; by rewrite ?Hd.
Qed.

Lemma padded_parse width n :
  (Z.of_N n <= I64_MAX)%Z -> parse_i64 (pad_zeros width (N_display n)) = Some (Z.of_N n).
Proof.
  intros Hn. rewrite digits_parse_i64.
  - unfold pad_zeros.
    destruct (uint_zeros (width - String.length (N_display n)) _ _ (display_uint n))
      as (v & -> & He). simpl. rewrite He, DecimalN.Unsigned.of_to.
    unfold in_i64. rewrite !(proj2 (Z.leb_le _ _)); [done|done|unfold I64_MIN; lia].
  - apply padded_digits.
  - unfold pad_zeros. intros H. apply (f_equal String.length) in H. rewrite str_length_app in H.
    pose proof (display_nonempty n). destruct (N_display n); [done|]. simpl in H. lia.
Qed.

Lemma strip_suffix_app suffix s : strip_suffix suffix (s +:+ suffix) = Some s.
Proof.
  unfold strip_suffix. rewrite str_length_app.
  replace (String.length s + String.length suffix - String.length suffix)
    with (String.length s) by lia.
  rewrite str_drop_app, str_take_app, (proj2 (Nat.leb_le _ _)) by lia.
  by rewrite bool_decide_true.
Qed.

Lemma strip_suffix_other c c' s : c <> c' ->
  strip_suffix (String c "") (s +:+ String c' "") = None.
Proof.
  intros Hne. unfold strip_suffix. rewrite str_length_app. simpl String.length.
  replace (String.length s + 1 - 1) with (String.length s) by lia.
  rewrite str_drop_app, bool_decide_false by congruence. by rewrite andb_false_r.
Qed.

(** The text of a time with its six numbers. *)
Definition time_text (year month day hour minute second : string) : string :=
  year +:+ "-" +:+ month +:+ "-" +:+ day +:+ "T" +:+ hour +:+ ":" +:+ minute +:+ ":" +:+ second.

Lemma time_text_fields y m d h mi s :
  String.length y = 4 -> Forall (fun t => String.length t = 2) [m; d; h; mi; s] ->
  let whole := time_text y m d h mi s in
  String.length whole = 19 /\
  byte_at 4 whole = Some "-"%char /\ byte_at 7 whole = Some "-"%char /\
  byte_at 10 whole = Some "T"%char /\ byte_at 13 whole = Some ":"%char /\
  byte_at 16 whole = Some ":"%char /\
  str_slice 0 4 whole = y /\ str_slice 5 7 whole = m /\ str_slice 8 10 whole = d /\
  str_slice 11 13 whole = h /\ str_slice 14 16 whole = mi /\ str_slice 17 19 whole = s.
Proof.
  intros Hy H.
  repeat match goal with H : Forall _ (_ :: _) |- _ => apply Forall_cons in H as [? H] end.
  destruct y as [|? [|? [|? [|? [|]]]]]; try done.
  destruct m as [|? [|? [|]]]; try done. destruct d as [|? [|? [|]]]; try done.
  destruct h as [|? [|? [|]]]; try done. destruct mi as [|? [|? [|]]]; try done.
  destruct s as [|? [|? [|]]]; try done.
Qed.

Lemma time_numbers y m d h mi s :
  (y < 10000)%N -> Forall (fun n => n < 100)%N [m; d; h; mi; s] ->
  let pad2 n := pad_zeros 2 (N_display n) in
  let whole := time_text (pad_zeros 4 (N_display y)) (pad2 m) (pad2 d) (pad2 h) (pad2 mi) (pad2 s) in
  String.length whole = 19 /\
  byte_at 4 whole = Some "-"%char /\ byte_at 7 whole = Some "-"%char /\
  byte_at 10 whole = Some "T"%char /\ byte_at 13 whole = Some ":"%char /\
  byte_at 16 whole = Some ":"%char /\
  time_number whole 0 4 = Some (Z.of_N y) /\ time_number whole 5 7 = Some (Z.of_N m) /\
  time_number whole 8 10 = Some (Z.of_N d) /\ time_number whole 11 13 = Some (Z.of_N h) /\
  time_number whole 14 16 = Some (Z.of_N mi) /\ time_number whole 17 19 = Some (Z.of_N s).
Proof.
  intros Hy Hs pad2 whole.
  assert (forall n, (n < 100)%N -> String.length (pad2 n) = 2) as Hlen.
  { intros n Hn. apply padded_length; [exact Hn|lia]. }
  assert (forall w n, (n < 10000)%N ->
    (if all_chars is_ascii_digit (pad_zeros w (N_display n))
     then parse_i64 (pad_zeros w (N_display n)) else None) = Some (Z.of_N n)) as Hnum.
  { intros w n Hn. rewrite padded_digits. apply padded_parse. unfold I64_MAX. lia. }
  repeat match goal with H : Forall _ (_ :: _) |- _ => apply Forall_cons in H as [? H] end.
  destruct (time_text_fields (pad_zeros 4 (N_display y)) (pad2 m) (pad2 d) (pad2 h) (pad2 mi)
              (pad2 s)) as (E0 & E1 & E2 & E3 & E4 & E5 & F1 & F2 & F3 & F4 & F5 & F6).
  { apply padded_length; [exact Hy|lia]. }
  { repeat constructor; by apply Hlen. }
  unfold whole, time_number. rewrite F1, F2, F3, F4, F5, F6.
  split_and!; try done; apply Hnum; lia.
Qed.

(** A fraction of a second, with its dot, or nothing. *)
Definition is_fraction (text : string) : Prop :=
  text = "" \/ exists digits, text = "." +:+ digits /\ digits <> "" /\
    all_chars is_ascii_digit digits = true.

Lemma time_text_no_dot y m d h mi s :
  Forall (fun t => all_chars is_ascii_digit t = true) [y; m; d; h; mi; s] ->
  contains_char "." (time_text y m d h mi s) = false.
Proof.
  intros H.
  repeat match goal with H : Forall _ (_ :: _) |- _ => apply Forall_cons in H as [? H] end.
  unfold time_text. rewrite !contains_char_app.
  repeat match goal with
  | H : all_chars is_ascii_digit ?t = true |- _ =>
      rewrite (all_chars_excludes is_ascii_digit "." t eq_refl H); clear H
  end. reflexivity.
Qed.

(** The end time of an offer is read as the calendar says: a UTC time of
    the years 0 to 9999, with or without a fraction and with either suffix,
    gives the seconds since 1970-01-01 of the Gregorian calendar with its leap
    years and its month lengths. *)
Theorem utc_seconds_exact (year month day hour minute second : N) (fraction suffix : string)
    (Hyear : (year <= 9999)%N) (Hmonth : (1 <= month <= 12)%N) (Hday : (1 <= day <= 31)%N)
    (Htime : (hour <= 23 /\ minute <= 59 /\ second <= 59)%N)
    (Hfraction : is_fraction fraction) (Hsuffix : suffix ∈ ["Z"; "+00:00"]) :
  let pad2 n := pad_zeros 2 (N_display n) in
  parse_utc_seconds
    ((time_text (pad_zeros 4 (N_display year)) (pad2 month) (pad2 day) (pad2 hour) (pad2 minute)
        (pad2 second) +:+ fraction) +:+ suffix) =
  Some (calendar_days (Z.of_N year) (Z.of_N month) (Z.of_N day) * 86400 +
        Z.of_N hour * 3600 + Z.of_N minute * 60 + Z.of_N second)%Z.
Proof.
  intros pad2.
  destruct (time_numbers year month day hour minute second)
    as (E0 & E1 & E2 & E3 & E4 & E5 & F1 & F2 & F3 & F4 & F5 & F6);
    [lia|repeat constructor; lia|].
  assert (contains_char "." (time_text (pad_zeros 4 (N_display year)) (pad2 month) (pad2 day)
    (pad2 hour) (pad2 minute) (pad2 second)) = false) as Hdot.
  { apply time_text_no_dot. repeat constructor; apply padded_digits. }
  fold (pad2 month) (pad2 day) (pad2 hour) (pad2 minute) (pad2 second) in *.
  set (whole := time_text _ _ _ _ _ _) in *. clearbody whole.
  unfold parse_utc_seconds.
  assert (match strip_suffix "Z" ((whole +:+ fraction) +:+ suffix) with
          | Some text => Some text
          | None => strip_suffix "+00:00" ((whole +:+ fraction) +:+ suffix)
          end = Some (whole +:+ fraction)) as ->.
  { apply elem_of_cons in Hsuffix as [->|[->|Hn]%elem_of_cons].
    - by rewrite strip_suffix_app.
    - pose proof (strip_suffix_other "Z" "0" ((whole +:+ fraction) +:+ "+00:0")) as Ho.
      rewrite str_app_assoc in Ho. change ("+00:0" +:+ String "0" "") with "+00:00" in Ho.
      rewrite Ho by done. apply strip_suffix_app.
    - by apply not_elem_of_nil in Hn. }
  simpl mbind.
  assert (match split_once "." (whole +:+ fraction) with
          | Some (whole, fraction) =>
              if is_empty fraction || negb (all_chars is_ascii_digit fraction)
              then None else Some whole
          | None => Some (whole +:+ fraction)
          end = Some whole) as ->.
  { destruct Hfraction as [->|(digits & -> & Hne & Hd)].
    - rewrite str_app_nil_r. by rewrite (proj2 (split_once_None _ _) Hdot).
    - rewrite split_once_sep by done. rewrite (proj2 (is_empty_false _) Hne), Hd. done. }
  simpl mbind.
  rewrite E0, E1, E2, E3, E4, E5, F1, F2, F3, F4, F5, F6.
  rewrite !bool_decide_true by done. cbn -[days_since_epoch Z.mul Z.add].
  rewrite calendar_exact by lia.
  rewrite !(proj2 (Z.leb_le _ _)), !(proj2 (Z.ltb_ge _ _)) by lia. done.
Qed.

Lemma utc_seconds_exact_witness :
  parse_utc_seconds "2024-02-29T23:59:59.250+00:00" =
  Some (calendar_days 2024 2 29 * 86400 + 23 * 3600 + 59 * 60 + 59)%Z /\
  calendar_days 2024 2 29 = 19782%Z.
Proof.
  split; [|vm_compute; reflexivity].
  apply (utc_seconds_exact 2024 2 29 23 59 59 ".250" "+00:00");
    try (split_and?; vm_compute; discriminate).
  - right. exists "250". split_and!; [reflexivity|discriminate|reflexivity].
  - right. left.
Defined.

(** ** The pairing code *)

(** The visible characters of ASCII. *)
Definition is_graphic (c : ascii) : bool := in_range "!" "~" c.

Lemma graphic_char c :
  is_graphic c = true -> is_continuation c = false /\ is_whitespace (String c "") = false.
Proof. destruct c as [[] [] [] [] [] [] [] []]; vm_compute; intros; try done; by split. Qed.

(** The characters of a visible text, one for each byte. *)
Fixpoint one_byte_each (s : string) : list string :=
  match s with "" => [] | String c s => String c "" :: one_byte_each s end.

Lemma graphic_chars s : all_chars is_graphic s = true -> utf8_chars s = one_byte_each s.
Proof.
  induction s as [|c s IH]; [done|]. cbn [all_chars]. intros [Hc Hs]%andb_true_iff.
  cbn [utf8_chars one_byte_each]. rewrite IH by done. destruct s as [|c' s]; [done|].
  cbn [all_chars] in Hs. apply andb_true_iff in Hs as [Hc' _].
  apply graphic_char in Hc' as [Hc' _]. cbn [one_byte_each]. by rewrite Hc'.
Qed.

Lemma one_byte_concat s : str_concat (one_byte_each s) = s.
Proof.
  unfold str_concat. induction s as [|c s IH]; [done|]. cbn [one_byte_each String.concat].
  destruct (one_byte_each s) as [|x l] eqn:E; [|by rewrite IH].
  destruct s; [done|discriminate E].
Qed.

Lemma skip_none chars :
  Forall (fun ch => is_whitespace ch = false) chars -> skip_white_space chars = chars.
Proof. destruct 1 as [|ch chars Hch _]; [done|]. simpl. by rewrite Hch. Qed.

Lemma trim_graphic s : all_chars is_graphic s = true -> trim s = s.
Proof.
  intros Hs. unfold trim. rewrite graphic_chars by done.
  assert (Forall (fun ch => is_whitespace ch = false) (one_byte_each s)) as Hf.
  { clear -Hs. induction s as [|c s IH]; [by constructor|].
    cbn [all_chars] in Hs. apply andb_true_iff in Hs as [Hc Hs].
    constructor; [by apply graphic_char|by apply IH]. }
  rewrite (skip_none _ Hf), skip_none.
  - by rewrite rev_involutive, one_byte_concat.
  - apply Forall_forall. intros ch Hch. rewrite Forall_forall in Hf. apply Hf.
    apply list_elem_of_In, in_rev, list_elem_of_In. exact Hch.
Qed.

Section Link.
Context {C : Crypto}.

Lemma link_new_ok id key l :
  PairingLink.new id key = Ok l <->
  is_rendezvous_id id = true /\ (exists raw, decode_key key = Ok raw) /\
  l = PairingLink.mk id key.
Proof.
  unfold PairingLink.new. destruct (is_rendezvous_id id); simpl; [|naive_solver].
  destruct (decode_key key); simpl; naive_solver.
Qed.

Lemma id_char_graphic c :
  is_ascii_alphanumeric c || ascii_eqb c "-" || ascii_eqb c "_" = true -> is_graphic c = true.
Proof. destruct c as [[] [] [] [] [] [] [] []]; vm_compute; congruence. Qed.

Lemma key_char_graphic c : is_std_b64_char c = true -> is_graphic c = true.
Proof. destruct c as [[] [] [] [] [] [] [] []]; vm_compute; congruence. Qed.

Lemma id_without c id :
  is_ascii_alphanumeric c || ascii_eqb c "-" || ascii_eqb c "_" = false ->
  is_rendezvous_id id = true -> contains_char c id = false.
Proof.
  intros Hc [_ Hid]%andb_true_iff. revert Hid. by apply all_chars_excludes.
Qed.

(** The code of a link, in a text that may hold an address in front. *)
Lemma code_shape id key l c :
  PairingLink.new id key = Ok l ->
  is_ascii_alphanumeric c || ascii_eqb c "-" || ascii_eqb c "_" = false ->
  is_std_b64_char c = false -> c <> "."%char ->
  contains_char c (PairingLink.code l) = false.
Proof.
  intros (Hid & (raw & Hkey) & ->)%link_new_ok Hc1 Hc2 Hc3. unfold PairingLink.code. simpl.
  rewrite !contains_char_app, (id_without c id Hc1 Hid), (key_without c key raw Hc2 Hkey).
  rewrite contains_char_cons, (proj2 (ascii_eqb_false _ _) Hc3). done.
Qed.

Lemma code_graphic id key l :
  PairingLink.new id key = Ok l -> all_chars is_graphic (PairingLink.code l) = true.
Proof.
  intros (Hid & (raw & Hkey) & ->)%link_new_ok. unfold PairingLink.code. simpl.
  apply andb_true_iff in Hid as [_ Hid]. apply decode_key_chars in Hkey as (Hkey & _).
  rewrite !all_chars_app, (all_chars_impl _ _ _ id_char_graphic Hid),
    (all_chars_impl _ _ _ key_char_graphic Hkey). done.
Qed.

Lemma read_code id key l :
  PairingLink.new id key = Ok l ->
  (let? (id, key) := ok_or (split_once "." (PairingLink.code l)) PairingError.BadLink in
   PairingLink.new id key) = Ok l.
Proof.
  intros Hl. pose proof Hl as (Hid & _ & ->)%link_new_ok. unfold PairingLink.code. simpl.
  rewrite split_once_sep by (by apply id_without). exact Hl.
Qed.

Lemma find_pair_code code :
  contains_char "&" code = false ->
  PairingLink.find_pair (split_char "&" ("pair=" +:+ code)) = Some code.
Proof.
  intros Hamp. rewrite split_char_none by done. cbn [PairingLink.find_pair].
  by rewrite (proj2 (strip_prefix_Some "pair=" ("pair=" +:+ code) code) eq_refl).
Qed.

Lemma parse_sound text l :
  PairingLink.parse text = Ok l ->
  PairingLink.new (PairingLink.rendezvous_id l) (PairingLink.ephemeral_key l) = Ok l.
Proof.
  unfold PairingLink.parse. intros H. inv_result. destruct a as [id key].
  pose proof H as (_ & _ & ->)%link_new_ok. exact H.
Qed.

(** A pairing code is read back from every form a user may paste: the bare
    code, the code after [pair=], and the address that ends in [#pair=] and the
    code. What is read is always a link that could have been made: an id of
    the shape of the relay and a canonical public key. *)
Theorem pairing_code_roundtrip (id key address : string) (l : PairingLink.t)
    (Hl : PairingLink.new id key = Ok l)
    (Haddress : all_chars is_graphic address = true /\ contains_char "#" address = false) :
  PairingLink.parse (PairingLink.code l) = Ok l /\
  PairingLink.parse ("pair=" +:+ PairingLink.code l) = Ok l /\
  PairingLink.parse (address +:+ "#pair=" +:+ PairingLink.code l) = Ok l /\
  (forall text l', PairingLink.parse text = Ok l' ->
     PairingLink.new (PairingLink.rendezvous_id l') (PairingLink.ephemeral_key l') = Ok l').
Proof.
  pose proof (code_graphic _ _ _ Hl) as Hg.
  pose proof (code_shape _ _ _ "#" Hl eq_refl eq_refl ltac:(done)) as Hhash.
  pose proof (code_shape _ _ _ "&" Hl eq_refl eq_refl ltac:(done)) as Hamp.
  pose proof (code_shape _ _ _ "=" Hl eq_refl eq_refl ltac:(done)) as Heq.
  pose proof (read_code _ _ _ Hl) as Hread.
  destruct Haddress as [Ha1 Ha2].
  set (code := PairingLink.code l) in *. clearbody code.
  split_and!; [| | |exact parse_sound].
  - unfold PairingLink.parse. rewrite trim_graphic by done.
    rewrite (proj2 (split_once_None _ _) Hhash), split_char_none by done.
    cbn [PairingLink.find_pair].
    destruct (strip_prefix "pair=" code) as [rest|] eqn:E; [|exact Hread].
    apply strip_prefix_Some in E as ->. discriminate Heq.
  - unfold PairingLink.parse.
    rewrite trim_graphic by (by rewrite all_chars_app, Hg).
    assert (contains_char "#" ("pair=" +:+ code) = false) as Hhash'
      by (by rewrite contains_char_app, Hhash).
    rewrite (proj2 (split_once_None _ _) Hhash').
    rewrite find_pair_code by done. exact Hread.
  - unfold PairingLink.parse.
    rewrite trim_graphic by (by rewrite !all_chars_app, Ha1, Hg).
    change ("#pair=" +:+ code) with (String "#" ("pair=" +:+ code)).
    rewrite split_once_app by done. rewrite find_pair_code by done. exact Hread.
Qed.
End Link.

Definition sample_id : string := "AbCdEfGhIjKlMnOpQrStUv".

Lemma pairing_code_roundtrip_witness :
  let l := PairingLink.mk sample_id (sample_key 7) in
  PairingLink.parse (PairingLink.code l) = Ok l /\
  PairingLink.parse ("https://example.org/" +:+ "#pair=" +:+ PairingLink.code l) = Ok l.
Proof.
  destruct (pairing_code_roundtrip sample_id (sample_key 7) "https://example.org/"
              (PairingLink.mk sample_id (sample_key 7))) as (H1 & _ & H2 & _).
  - vm_compute. reflexivity.
  - split; reflexivity.
  - split; assumption.
Defined.

(** An offer is current exactly while its end is ahead by at most the
    lifetime of a rendezvous, for every clock that is not further in the past
    of the end than [i64] can count. *)
Theorem offer_current_exact (o : PairingOffer.t) (now : Z)
    (Hnow : (PairingOffer.expires_at o - now <= I64_MAX)%Z) :
  PairingOffer.is_current o now = true <->
  (now < PairingOffer.expires_at o <= now + 300)%Z.
Proof.
  unfold PairingOffer.is_current. rewrite andb_true_iff, Z.ltb_lt, Z.leb_le.
  change (Z.of_N PAIRING_LIFETIME_SECS) with 300%Z.
  split; intros [H1 H2]; rewrite wrap_i64_in in *; try lia;
    unfold in_i64; rewrite andb_true_iff, !Z.leb_le; unfold I64_MIN; lia.
Qed.
