(* ===== verification/Protocol.v ===== *)
(** * Operations of the end-to-end protocol (crates/cordiale-core/src/e2e_protocol.rs)

    The routes of the per-device operations and of the pairing relay, their
    version gates, and the paths with an id filled in. *)

From S2P Require Import Prelude.
From S2P Require Import RustStr.
From S2P Require Import Interfaces.
From S2P Require Import Concrete.
From S2P Require Import Wire.
From S2P Require Import Versions.
From S2P Require Import Pacing.
From S2P Require Import Pairing.
From stdpp Require Import options.

Inductive E2eMethod := Get | Post | Put | Delete.

#[global] Instance E2eMethod_eq_dec : EqDecision E2eMethod.
Proof. solve_decision. Defined.

Module E2eRequestOperation.
Inductive t := List | Create | Accept | Refuse | Dismiss.

Definition available (o : t) (server_protocol : option N) : bool :=
  at_least CONSENT_MIN_PROTOCOL server_protocol.

Definition method (o : t) : E2eMethod :=
  match o with List => Get | Create | Accept | Refuse => Post | Dismiss => Delete end.

Definition suffix (o : t) : string :=
  match o with List | Create | Dismiss => "" | Accept => "accept" | Refuse => "refuse" end.

Definition needs_id (o : t) : bool :=
  match o with Accept | Refuse | Dismiss => true | List | Create => false end.
End E2eRequestOperation.

Definition DID : string := ":did".

Module E2eOperation.
Inductive t :=
| SendMessage | KeysAnswer | DeviceRegister | DeviceList | DeviceDrop | ListPut | ListFetch
| IdentityDelete | InboxFetch | InboxAck | KeysPublish | KeysFetch | Claim | Copy.

#[global] Instance eq_dec : EqDecision t.
Proof. solve_decision. Defined.

Definition ALL : list t :=
  [SendMessage; KeysAnswer; DeviceRegister; DeviceList; DeviceDrop; ListPut; ListFetch;
   IdentityDelete; InboxFetch; InboxAck; KeysPublish; KeysFetch; Claim; Copy].

Definition min_protocol (o : t) : N := match o with Claim | Copy => 50 | _ => 49 end.

Definition route (o : t) : E2eMethod * string :=
  match o with
  | SendMessage | KeysAnswer => (Post, "/e2e/messages")
  | DeviceRegister => (Post, "/e2e/devices")
  | DeviceList => (Get, "/e2e/devices")
  | DeviceDrop => (Delete, "/e2e/devices/:did")
  | ListPut => (Put, "/e2e/list")
  | ListFetch => (Get, "/e2e/list")
  | IdentityDelete => (Delete, "/e2e/keys")
  | InboxFetch => (Get, "/e2e/devices/:did/inbox")
  | InboxAck => (Post, "/e2e/devices/:did/inbox/ack")
  | KeysPublish => (Post, "/e2e/devices/:did/keys")
  | KeysFetch => (Get, "/e2e/devices/:did/keys")
  | Claim => (Post, "/e2e/devices/:did/claim")
  | Copy => (Post, "/e2e/devices/:did/copies")
  end.

Definition needs_did (o : t) : bool := contains_str DID (route o).2.

Definition path `{C : Crypto} (o : t) (did : option string) : result string WireError :=
  let template := (route o).2 in
  if negb (needs_did o) then Ok template else
  match did with
  | Some did => if is_did_shape did then Ok (str_replace DID did template) else Err BadDid
  | None => Err BadDid
  end.

Definition available (o : t) (server_protocol : option N) : bool :=
  at_least (min_protocol o) server_protocol.

Definition client_interval (o : t) : option N :=
  match o with KeysAnswer => Some KEYS_ANSWER_INTERVAL | _ => None end.
End E2eOperation.

Module PairingOperation.
Inductive t := Create | Join | Post | Fetch | Close | Offer.

#[global] Instance eq_dec : EqDecision t.
Proof. solve_decision. Defined.

Definition ALL : list t := [Create; Join; Post; Fetch; Close; Offer].

Definition route (o : t) : E2eMethod * string :=
  match o with
  | Create => (Protocol.Post, "/e2e/pairings")
  | Join => (Protocol.Post, "/e2e/pairings/:id/join")
  | Post => (Protocol.Post, "/e2e/pairings/:id/messages")
  | Fetch => (Get, "/e2e/pairings/:id/messages")
  | Close => (Delete, "/e2e/pairings/:id")
  | Offer => (Get, "/e2e/pairings/offer")
  end.

Definition path (o : t) (rendezvous_id : option string) : result string WireError :=
  let template := (route o).2 in
  if negb (contains_str ":id" template) then Ok template else
  match rendezvous_id with
  | Some id => if is_rendezvous_id id then Ok (str_replace ":id" id template) else Err BadId
  | None => Err BadId
  end.

Definition available (o : t) (server_protocol : option N) : bool :=
  match o with
  | Offer => pairing_offer_available server_protocol
  | _ => at_least PAIRING_MIN_PROTOCOL server_protocol
  end.
End PairingOperation.

(** ** Theorems *)

(** The segments of a path below the root. *)
Definition segments (path : string) : list string := split_char "/" path.

(** What a path may hold: nothing that ends a segment, a path or an address. *)
Definition is_path_safe (c : ascii) : bool :=
  is_ascii_alphanumeric c || ascii_eqb c "-" || ascii_eqb c "_".

Definition fill (name id : string) (segment : string) : string :=
  if decide (segment = name) then id else segment.

Lemma safe_segment id : all_chars is_path_safe id = true -> contains_char "/" id = false.
Proof. by apply all_chars_excludes. Qed.

Lemma segments_slash s t :
  contains_char "/" s = false -> segments (s +:+ String "/" t) = s :: segments t.
Proof. apply split_char_app. Qed.

Lemma did_safe `{C : Crypto} did : is_did_shape did = true -> all_chars is_path_safe did = true.
Proof.
  unfold is_did_shape. rewrite !andb_true_iff. intros ((_ & H) & _).
  eapply all_chars_impl; [|exact H]. done.
Qed.

Lemma id_safe id : is_rendezvous_id id = true -> all_chars is_path_safe id = true.
Proof. by intros [_ ?]%andb_true_iff. Qed.

Lemma fill_other name id l : Forall (fun x => x <> name) l -> fill name id <$> l = l.
Proof.
  induction 1 as [|x l Hx _ IH]; [done|]. rewrite fmap_cons, IH. unfold fill.
  by rewrite decide_False.
Qed.

Lemma split_char_nonempty c s : split_char c s <> [].
Proof.
  destruct s as [|a s]; simpl; [done|]. destruct (ascii_eqb a c); [done|].
  by destruct (split_char c s).
Qed.

(** The segments after a name is replaced, in front of the end or of a slash. *)
Lemma replaced_segments pre name id rest :
  contains_char "/" id = false -> contains_char "/" name = false ->
  rest = "" \/ (exists t, rest = String "/" t) ->
  Forall (fun x => x <> name) (segments pre) ->
  Forall (fun x => x <> name) (tail (segments rest)) ->
  segments (pre +:+ String "/" (id +:+ rest)) =
  fill name id <$> segments (pre +:+ String "/" (name +:+ rest)).
Proof.
  intros Hid Hname Hrest Hpre Htail.
  assert (forall x y, segments (x +:+ String "/" y) = segments x ++ segments y) as Hsplit.
  { intros x y. induction x as [|c x IH]; [done|]. rewrite str_app_cons.
    unfold segments in *. cbn [split_char]. destruct (ascii_eqb c "/"); [by rewrite IH|].
    rewrite IH. destruct (split_char "/" x) as [|z l] eqn:E; [|done].
    exfalso. by apply (split_char_nonempty "/" x). }
  assert (forall x, contains_char "/" x = false ->
    segments (x +:+ rest) = x :: tail (segments rest)) as Hx.
  { intros x Hx. destruct Hrest as [->|[t ->]].
    - rewrite str_app_nil_r. by apply split_char_none.
    - rewrite segments_slash by done. done. }
  rewrite !Hsplit, fmap_app, (Hx id Hid), (Hx name Hname). f_equal.
  - symmetry. apply fill_other. exact Hpre.
  - rewrite fmap_cons. unfold fill at 1. rewrite decide_True by done. f_equal.
    symmetry. by apply fill_other.
Qed.

(** The side conditions of [replaced_segments] on concrete texts. *)
Ltac solve_segments :=
  first [ assumption | reflexivity | by left | (right; eexists; reflexivity)
        | repeat constructor; discriminate ].

(** A concrete route that has no segment of this name. *)
Ltac no_name :=
  let H := fresh "Hname" in
  intros H; exfalso; apply (bool_decide_eq_true_2 _) in H; vm_compute in H; discriminate H.

(** An id never changes the shape of a request: the path of an operation
    exists exactly when the id it needs has its shape, and its segments are
    the ones of the route with the id in the place of its name. The id holds
    only letters, digits, [-] and [_]. *)
Theorem paths_keep_shape `{C : Crypto} (o : E2eOperation.t) (p : PairingOperation.t)
    (id : option string) (path : string) :
  (E2eOperation.path o id = Ok path ->
     segments path = fill ":did" (default "" id) <$> segments (E2eOperation.route o).2 /\
     (":did" ∈ segments (E2eOperation.route o).2 -> exists did, id = Some did /\
        is_did_shape did = true /\ all_chars is_path_safe did = true)) /\
  (PairingOperation.path p id = Ok path ->
     segments path = fill ":id" (default "" id) <$> segments (PairingOperation.route p).2 /\
     (":id" ∈ segments (PairingOperation.route p).2 -> exists rid, id = Some rid /\
        is_rendezvous_id rid = true /\ all_chars is_path_safe rid = true)).
Proof.
  split.
  - unfold E2eOperation.path. intros H. destruct (E2eOperation.needs_did o) eqn:En; cbn [negb] in H.
    + destruct id as [did|]; [|done]. destruct (is_did_shape did) eqn:Ed; [|done].
      injection H as <-. pose proof (did_safe did Ed) as Hsafe.
      split; [|intros _; by exists did].
      pose proof (safe_segment did Hsafe) as Hs. cbn [default].
      destruct o; try discriminate En.
      * apply (replaced_segments "/e2e/devices" ":did" did ""); solve_segments.
      * apply (replaced_segments "/e2e/devices" ":did" did "/inbox"); solve_segments.
      * apply (replaced_segments "/e2e/devices" ":did" did "/inbox/ack"); solve_segments.
      * apply (replaced_segments "/e2e/devices" ":did" did "/keys"); solve_segments.
      * apply (replaced_segments "/e2e/devices" ":did" did "/keys"); solve_segments.
      * apply (replaced_segments "/e2e/devices" ":did" did "/claim"); solve_segments.
      * apply (replaced_segments "/e2e/devices" ":did" did "/copies"); solve_segments.
    + injection H as <-. destruct o; try discriminate En; split; try reflexivity; no_name.
  - unfold PairingOperation.path. intros H.
    destruct (contains_str ":id" (PairingOperation.route p).2) eqn:En; cbn [negb] in H.
    + destruct id as [rid|]; [|done]. destruct (is_rendezvous_id rid) eqn:Ed; [|done].
      injection H as <-. pose proof (id_safe rid Ed) as Hsafe.
      split; [|intros _; by exists rid].
      pose proof (safe_segment rid Hsafe) as Hs. cbn [default].
      destruct p; try discriminate En.
      * apply (replaced_segments "/e2e/pairings" ":id" rid "/join"); solve_segments.
      * apply (replaced_segments "/e2e/pairings" ":id" rid "/messages"); solve_segments.
      * apply (replaced_segments "/e2e/pairings" ":id" rid "/messages"); solve_segments.
      * apply (replaced_segments "/e2e/pairings" ":id" rid ""); solve_segments.
    + injection H as <-. destruct p; try discriminate En; split; try reflexivity; no_name.
Qed.
