(* ===== verification/PairingFlow.v ===== *)
(** * The pairing session (crates/cordiale-core/src/e2e_pairing_flow.rs)

    One pairing as one device sees it: what it takes from the relay, what the
    user confirms, and what it seals. A session is pure state, as in the code:
    no call is made here. An operation that changes the session returns it with
    the result, also where the code returns an error.

    The ECIES channel and the text form of the messages are parameters. The
    secrets of a session are its [waiting] key and its [channel]. *)

From S2P Require Import Prelude.
From S2P Require Import RustStr.
From S2P Require Import Interfaces.
From S2P Require Import Wire.
From S2P Require Import Device.
From S2P Require Import Manage.
From S2P Require Import Pairing.
From stdpp Require Import options.

Definition WIRE_VERSION : N := 1.
Definition REFUSAL_REASONS : list string := ["full"; "paired"; "list-changed"; "failed"].
Definition CHANNEL_OVERHEAD : N := 16.

Inductive EndReason :=
| EndCancelled
| EndTimeout
| EndClosed (reason : ClosedReason)
| EndWrongCode
| EndBadChannel
| EndBadMessage
| EndFailed.

#[global] Instance EndReason_eq_dec : EqDecision EndReason.
Proof. solve_decision. Defined.

Module FlowError.
Inductive t :=
| Link (e : PairingError.t)
| NotActive | WrongRole | NoChannel | WrongCode | NotConfirmed | TooLarge | BadChannel
| BadMessage | BadGrant | ListFull | NoIdentity | NotOffered | Refused | Store.

#[global] Instance eq_dec : EqDecision t.
Proof. solve_decision. Defined.
End FlowError.

(** ** Data *)

Module JoinerDevice.
Record t := mk { ed25519 : string; curve25519 : string }.

#[global] Instance eq_dec : EqDecision t.
Proof. solve_decision. Defined.
End JoinerDevice.

Module Grant.
Record t := mk {
  master : string;
  certificate : VersionedDeviceCertificate.t;
  list : SignedList.t;
}.

#[global] Instance eq_dec : EqDecision t.
Proof. solve_decision. Defined.
End Grant.

Module WireNetwork.
Record t := mk { network : string; master : string }.

#[global] Instance eq_dec : EqDecision t.
Proof. solve_decision. Defined.
End WireNetwork.

Module WireId.
Record t := mk { curve25519 : string; ed25519 : string; sig : string }.

#[global] Instance eq_dec : EqDecision t.
Proof. solve_decision. Defined.
End WireId.

Module WireJoined.
Record t := mk { network : string; id : WireId.t }.

#[global] Instance eq_dec : EqDecision t.
Proof. solve_decision. Defined.
End WireJoined.

Module WireReason.
Record t := mk { network : string; reason : string }.

#[global] Instance eq_dec : EqDecision t.
Proof. solve_decision. Defined.
End WireReason.

Module WireList.
Record t := mk { ver : N; devices : list string; sig : string }.

#[global] Instance eq_dec : EqDecision t.
Proof. solve_decision. Defined.
End WireList.

Module WireSigned.
Record t := mk { network : string; cert : string; list : WireList.t }.

#[global] Instance eq_dec : EqDecision t.
Proof. solve_decision. Defined.
End WireSigned.

(** The enum [Wire] of the source. *)
Module Message.
Inductive t :=
| Hello (v : N)
| Offer (v : N) (networks : list WireNetwork.t) (full : list string)
| Join (v : N) (devices : list WireJoined.t) (skipped : list WireReason.t)
| Signed (v : N) (devices : list WireSigned.t) (refused : list WireReason.t)
| Done (v : N) (paired : list string).

#[global] Instance eq_dec : EqDecision t.
Proof. solve_decision. Defined.
End Message.

Definition reasons_ok (l : list WireReason.t) : bool :=
  forallb (fun item => negb (is_empty (WireReason.network item))
                       && contains REFUSAL_REASONS (WireReason.reason item)) l.

(** ** Parameters *)

(** [vodozemac::ecies], with the info text of a pairing: the public key of an
    ephemeral key in text, the two ways to open a channel, the check code in
    two digits, and sealed messages. A channel counts its messages. *)
Class EciesChannel := {
  ecies : Type;
  established : Type;
  sealed_message : Type;
  public_key : ecies -> string;
  (** [InitialMessage::decode] and [establish_inbound_channel]. *)
  establish_inbound : ecies -> string -> option (established * string);
  (** [Curve25519PublicKey::from_base64]: the bytes of the key. *)
  curve25519_from_base64 : string -> option string;
  (** [establish_outbound_channel] to a key with a plaintext, and
      [InitialMessage::encode]. *)
  establish_outbound : ecies -> string -> string -> option (established * string);
  check_digit : established -> N;
  (** [Message::decode]. *)
  message_decode : string -> option sealed_message;
  channel_decrypt : established -> sealed_message -> established * option string;
  channel_encrypt : established -> string -> established * string;
}.

(** [serde_json] on a message; [None] is a failure. *)
Class PairingText := {
  wire_to_vec : Message.t -> option string;
  wire_from_slice : string -> option Message.t;
}.

Section Messages.
Context {C : Crypto} {W : PairingText}.

Definition checked (m : Message.t) : option Message.t :=
  let key_ok key := is_ok (decode_key key) in
  let sig_ok sig := is_ok (decode_signature sig) in
  let '(v, ok) :=
    match m with
    | Message.Hello v => (v, true)
    | Message.Offer v networks full =>
        (v, forallb (fun item => negb (is_empty (WireNetwork.network item))
                                 && key_ok (WireNetwork.master item)) networks
            && forallb (fun network => negb (is_empty network)) full)
    | Message.Join v devices skipped =>
        (v, forallb (fun item => negb (is_empty (WireJoined.network item))
                                 && key_ok (WireId.ed25519 (WireJoined.id item))
                                 && key_ok (WireId.curve25519 (WireJoined.id item))
                                 && sig_ok (WireId.sig (WireJoined.id item))) devices
            && reasons_ok skipped)
    | Message.Signed v devices refused =>
        (v, forallb (fun item => negb (is_empty (WireSigned.network item))
                                 && sig_ok (WireSigned.cert item)
                                 && sig_ok (WireList.sig (WireSigned.list item))
                                 && forallb key_ok (WireList.devices (WireSigned.list item)))
              devices
            && reasons_ok refused)
    | Message.Done v paired => (v, forallb (fun network => negb (is_empty network)) paired)
    end in
  if (v =? WIRE_VERSION)%N && ok then Some m else None.

Definition read_wire (bytes : string) : option Message.t := wire_from_slice bytes ≫= checked.
End Messages.

Module Outgoing.
Record t := mk { payload : string; count : N; total_bytes : N }.
End Outgoing.

Inductive FlowEvent := CodeReady | Offered | Joined | Signed (grant : Grant.t) | Paired.

Inductive PairingStatus :=
| StatusWaiting
| StatusCode (code : string)
| StatusAwaitingPeer
| StatusDone
| StatusEnded (reason : EndReason).

Inductive Stage := Open | Keyed | StageDone | Ended (reason : EndReason).

#[global] Instance Stage_eq_dec : EqDecision Stage.
Proof. solve_decision. Defined.

(** ** The session *)

Module PairingSession.
Section Session.
Context {E : EciesChannel}.

Record t := mk {
  role : PairingRole;
  rendezvous_id : string;
  network : string;
  eligible : list string;
  started_at : Z;
  stage : Stage;
  waiting : option ecies;
  channel : option established;
  own_device : option JoinerDevice.t;
  peer_device : option JoinerDevice.t;
  peer_id_sig : option string;
  master : option string;
  skipped : list WireReason.t;
  offer_sent : bool;
  join_sent : bool;
  code : option N;
  own_confirmed : bool;
  last_seq : N;
  relay_count : N;
  relay_bytes : N;
}.

(** Assignments to single fields. *)
Definition with_network (x0 : string) (s : t) : t :=
  mk (role s) (rendezvous_id s) x0 (eligible s) (started_at s) (stage s) (waiting s)
    (channel s) (own_device s) (peer_device s) (peer_id_sig s) (master s) (skipped s)
    (offer_sent s) (join_sent s) (code s) (own_confirmed s) (last_seq s) (relay_count s)
    (relay_bytes s).
Definition with_stage (x0 : Stage) (s : t) : t :=
  mk (role s) (rendezvous_id s) (network s) (eligible s) (started_at s) x0 (waiting s)
    (channel s) (own_device s) (peer_device s) (peer_id_sig s) (master s) (skipped s)
    (offer_sent s) (join_sent s) (code s) (own_confirmed s) (last_seq s) (relay_count s)
    (relay_bytes s).
Definition with_waiting (x0 : option ecies) (s : t) : t :=
  mk (role s) (rendezvous_id s) (network s) (eligible s) (started_at s) (stage s) x0
    (channel s) (own_device s) (peer_device s) (peer_id_sig s) (master s) (skipped s)
    (offer_sent s) (join_sent s) (code s) (own_confirmed s) (last_seq s) (relay_count s)
    (relay_bytes s).
Definition with_channel (x0 : option established) (s : t) : t :=
  mk (role s) (rendezvous_id s) (network s) (eligible s) (started_at s) (stage s)
    (waiting s) x0 (own_device s) (peer_device s) (peer_id_sig s) (master s) (skipped s)
    (offer_sent s) (join_sent s) (code s) (own_confirmed s) (last_seq s) (relay_count s)
    (relay_bytes s).
Definition with_own_device (x0 : option JoinerDevice.t) (s : t) : t :=
  mk (role s) (rendezvous_id s) (network s) (eligible s) (started_at s) (stage s)
    (waiting s) (channel s) x0 (peer_device s) (peer_id_sig s) (master s) (skipped s)
    (offer_sent s) (join_sent s) (code s) (own_confirmed s) (last_seq s) (relay_count s)
    (relay_bytes s).
Definition with_peer (x0 : option JoinerDevice.t) (x1 : option string) (s : t) : t :=
  mk (role s) (rendezvous_id s) (network s) (eligible s) (started_at s) (stage s)
    (waiting s) (channel s) (own_device s) x0 x1 (master s) (skipped s) (offer_sent s)
    (join_sent s) (code s) (own_confirmed s) (last_seq s) (relay_count s) (relay_bytes s).
Definition with_master (x0 : option string) (s : t) : t :=
  mk (role s) (rendezvous_id s) (network s) (eligible s) (started_at s) (stage s)
    (waiting s) (channel s) (own_device s) (peer_device s) (peer_id_sig s) x0 (skipped s)
    (offer_sent s) (join_sent s) (code s) (own_confirmed s) (last_seq s) (relay_count s)
    (relay_bytes s).
Definition with_skipped (x0 : list WireReason.t) (s : t) : t :=
  mk (role s) (rendezvous_id s) (network s) (eligible s) (started_at s) (stage s)
    (waiting s) (channel s) (own_device s) (peer_device s) (peer_id_sig s) (master s) x0
    (offer_sent s) (join_sent s) (code s) (own_confirmed s) (last_seq s) (relay_count s)
    (relay_bytes s).
Definition with_offer_sent (x0 : bool) (s : t) : t :=
  mk (role s) (rendezvous_id s) (network s) (eligible s) (started_at s) (stage s)
    (waiting s) (channel s) (own_device s) (peer_device s) (peer_id_sig s) (master s)
    (skipped s) x0 (join_sent s) (code s) (own_confirmed s) (last_seq s) (relay_count s)
    (relay_bytes s).
Definition with_join_sent (x0 : bool) (s : t) : t :=
  mk (role s) (rendezvous_id s) (network s) (eligible s) (started_at s) (stage s)
    (waiting s) (channel s) (own_device s) (peer_device s) (peer_id_sig s) (master s)
    (skipped s) (offer_sent s) x0 (code s) (own_confirmed s) (last_seq s) (relay_count s)
    (relay_bytes s).
Definition with_code (x0 : option N) (s : t) : t :=
  mk (role s) (rendezvous_id s) (network s) (eligible s) (started_at s) (stage s)
    (waiting s) (channel s) (own_device s) (peer_device s) (peer_id_sig s) (master s)
    (skipped s) (offer_sent s) (join_sent s) x0 (own_confirmed s) (last_seq s)
    (relay_count s) (relay_bytes s).
Definition with_own_confirmed (x0 : bool) (s : t) : t :=
  mk (role s) (rendezvous_id s) (network s) (eligible s) (started_at s) (stage s)
    (waiting s) (channel s) (own_device s) (peer_device s) (peer_id_sig s) (master s)
    (skipped s) (offer_sent s) (join_sent s) (code s) x0 (last_seq s) (relay_count s)
    (relay_bytes s).
Definition with_last_seq (x0 : N) (s : t) : t :=
  mk (role s) (rendezvous_id s) (network s) (eligible s) (started_at s) (stage s)
    (waiting s) (channel s) (own_device s) (peer_device s) (peer_id_sig s) (master s)
    (skipped s) (offer_sent s) (join_sent s) (code s) (own_confirmed s) x0 (relay_count s)
    (relay_bytes s).
Definition with_relay (x0 : N) (x1 : N) (s : t) : t :=
  mk (role s) (rendezvous_id s) (network s) (eligible s) (started_at s) (stage s)
    (waiting s) (channel s) (own_device s) (peer_device s) (peer_id_sig s) (master s)
    (skipped s) (offer_sent s) (join_sent s) (code s) (own_confirmed s) (last_seq s) x0 x1.

Definition new (role : PairingRole) (rendezvous_id network : string) (now : Z) : t :=
  mk role rendezvous_id network [] now Open None None None None None None [] false false None
    false 0 0 0.

Definition is_active (s : t) : bool :=
  match stage s with Open | Keyed => true | StageDone | Ended _ => false end.

(** [end]. *)
Definition end_ (reason : EndReason) (s : t) : t :=
  let s := if is_active s then with_stage (Ended reason) s else s in
  with_channel None (with_waiting None s).

Definition fail {A} (s : t) (reason : EndReason) (error : FlowError.t) : t * result A FlowError.t :=
  (end_ reason s, Err error).

Definition cancel (s : t) : t := end_ EndCancelled s.

Definition saturating_sub_i64 (a b : Z) : Z := Z.max I64_MIN (Z.min I64_MAX (a - b)).

Definition expire (s : t) (now : Z) : t * bool :=
  if is_active s
     && (Z.of_N PAIRING_LIFETIME_SECS <=? saturating_sub_i64 now (started_at s))%Z
  then (end_ EndTimeout s, true) else (s, false).

Definition on_closed (reason : ClosedReason) (s : t) : t := end_ (EndClosed reason) s.

Definition finish (s : t) : t :=
  let s := if is_active s then with_stage StageDone s else s in
  with_channel None (with_waiting None s).

Definition bind_device (device : JoinerDevice.t) (s : t) : t := with_own_device (Some device) s.

Definition status (s : t) : PairingStatus :=
  match stage s with
  | Open => StatusWaiting
  | Keyed =>
      match code s, own_confirmed s with
      | Some code, false => StatusCode (pad_zeros 2 (N_display code))
      | _, _ => StatusAwaitingPeer
      end
  | StageDone => StatusDone
  | Ended reason => StatusEnded reason
  end.

Definition join_ready (s : t) : bool :=
  bool_decide (role s = Joiner) && bool_decide (stage s = Keyed) && own_confirmed s
  && bool_decide (is_Some (master s)) && negb (join_sent s).

Definition confirmed_device (s : t) : option JoinerDevice.t :=
  if bool_decide (role s = Creator) && bool_decide (stage s = Keyed) && own_confirmed s
     && offer_sent s
  then peer_device s else None.

Context {C : Crypto} {W : PairingText}.

Definition create_with (key : ecies) (rendezvous : Rendezvous.t) (network : string) (now : Z)
    : result (t * PairingLink.t) FlowError.t :=
  if decide (Rendezvous.role rendezvous <> Creator) then Err FlowError.WrongRole else
  let? link := map_err FlowError.Link
                 (PairingLink.new (Rendezvous.id rendezvous) (public_key key)) in
  Ok (with_waiting (Some key) (new Creator (Rendezvous.id rendezvous) network now), link).

Definition join_any (key : ecies) (link : PairingLink.t) (rendezvous : Rendezvous.t)
    (network : string) (eligible : list string) (device : JoinerDevice.t) (now : Z)
    : result (t * Outgoing.t) FlowError.t :=
  if decide (Rendezvous.role rendezvous <> Joiner) then Err FlowError.WrongRole else
  if decide (PairingLink.rendezvous_id link <> Rendezvous.id rendezvous)
  then Err (FlowError.Link PairingError.BadId) else
  let? their := ok_or (curve25519_from_base64 (PairingLink.ephemeral_key link))
                  (FlowError.Link PairingError.BadLink) in
  let? hello := ok_or (wire_to_vec (Message.Hello WIRE_VERSION)) FlowError.BadMessage in
  let? (channel, message) :=
    ok_or (establish_outbound key their hello) FlowError.BadChannel in
  let payload := b64url_encode message in
  if negb (pairing_message_fits 0 0 (str_len payload)) then Err FlowError.TooLarge else
  Ok (mk Joiner (Rendezvous.id rendezvous) network eligible now Keyed None (Some channel)
        (Some device) None None None [] false false (Some (check_digit channel)) false
        0 1 (str_len payload),
      Outgoing.mk payload 0 0).

Definition join (key : ecies) (link : PairingLink.t) (rendezvous : Rendezvous.t)
    (network : string) (device : JoinerDevice.t) (now : Z)
    : result (t * Outgoing.t) FlowError.t :=
  join_any key link rendezvous network [] device now.

(** [set_master]; the assignment of the field has the name [with_master]. *)
Definition set_master (s : t) (master : string) : t * result unit FlowError.t :=
  match decode_key master with
  | Err _ => (s, Err FlowError.NoIdentity)
  | Ok _ => (with_master (Some master) s, Ok tt)
  end.

(** *** Reading *)

Definition take_hello (s : t) (payload : string) : t * result (option FlowEvent) FlowError.t :=
  match waiting s with
  | None => fail s EndBadChannel FlowError.BadChannel
  | Some key =>
      let s := with_waiting None s in
      let initial :=
        text ← b64url_decode payload;
        if utf8_valid text then establish_inbound key text else None in
      match initial with
      | None => fail s EndBadChannel FlowError.BadChannel
      | Some (channel, message) =>
          match read_wire message with
          | Some (Message.Hello _) =>
              (with_stage Keyed
                 (with_channel (Some channel) (with_code (Some (check_digit channel)) s)),
               Ok (Some CodeReady))
          | _ => fail s EndBadChannel FlowError.BadChannel
          end
      end
  end.

(** [find] by the network of an item. *)
Definition chosen_network (s : t) (networks : list WireNetwork.t) : string :=
  match List.find (fun item => bool_decide (WireNetwork.network item = network s)) networks with
  | Some item => WireNetwork.network item
  | None =>
      match List.find (fun item => contains (eligible s) (WireNetwork.network item)) networks with
      | Some item => WireNetwork.network item
      | None => network s
      end
  end.

(** The loop over the offered networks: the last one of this network gives the
    master, the others are left out. *)
Definition split_offer (network : string) (networks : list WireNetwork.t)
    : option string * list WireReason.t :=
  foldl (fun '(master, skipped) item =>
    if decide (WireNetwork.network item = network)
    then (Some (WireNetwork.master item), skipped)
    else (master, skipped ++ [WireReason.mk (WireNetwork.network item) "failed"]))
    (None, []) networks.

Definition take_offer (s : t) (networks : list WireNetwork.t)
    : t * result (option FlowEvent) FlowError.t :=
  match master s with
  | Some _ => fail s EndBadMessage FlowError.BadMessage
  | None =>
      let s := with_network (chosen_network s networks) s in
      let '(master, skipped) := split_offer (network s) networks in
      match master with
      | None => fail s EndFailed FlowError.NotOffered
      | Some master => (with_skipped skipped (with_master (Some master) s), Ok (Some Offered))
      end
  end.

Definition take_join (s : t) (devices : list WireJoined.t)
    : t * result (option FlowEvent) FlowError.t :=
  match List.find (fun item => bool_decide (WireJoined.network item = network s)) devices with
  | None => fail s EndFailed FlowError.Refused
  | Some entry =>
      if negb (offer_sent s) || bool_decide (is_Some (peer_device s))
      then fail s EndBadMessage FlowError.BadMessage
      else
        let id := WireJoined.id entry in
        (with_peer (Some (JoinerDevice.mk (WireId.ed25519 id) (WireId.curve25519 id)))
           (Some (WireId.sig id)) s,
         Ok (Some Joined))
  end.

Definition take_signed (s : t) (devices : list WireSigned.t)
    : t * result (option FlowEvent) FlowError.t :=
  match List.find (fun item => bool_decide (WireSigned.network item = network s)) devices,
        master s, own_device s with
  | Some entry, Some master, Some own =>
      let l := WireSigned.list entry in
      (s, Ok (Some (Signed (Grant.mk master
             (VersionedDeviceCertificate.mk (WireList.ver l) (JoinerDevice.ed25519 own) master
                (WireSigned.cert entry))
             (SignedList.mk (WireList.ver l) (WireList.devices l) (WireList.sig l))))))
  | _, _, _ => fail s EndFailed FlowError.Refused
  end.

Definition take_sealed (s : t) (payload : string) : t * result (option FlowEvent) FlowError.t :=
  match message_decode payload with
  | None => fail s EndBadMessage FlowError.BadMessage
  | Some message =>
      match channel s with
      | None => fail s EndBadChannel FlowError.BadChannel
      | Some channel =>
          let '(channel, opened) := channel_decrypt channel message in
          let s := with_channel (Some channel) s in
          match opened with
          | None => fail s EndBadChannel FlowError.BadChannel
          | Some plain =>
              match role s, read_wire plain with
              | Joiner, Some (Message.Offer _ networks _) => take_offer s networks
              | Creator, Some (Message.Join _ devices _) => take_join s devices
              | Joiner, Some (Message.Signed _ devices _) => take_signed s devices
              | Creator, Some (Message.Done _ paired) =>
                  if offer_sent s && contains paired (network s) then (s, Ok (Some Paired))
                  else fail s EndFailed FlowError.BadMessage
              | _, _ => fail s EndBadMessage FlowError.BadMessage
              end
          end
      end
  end.

Definition take_in (s : t) (payload : string) : t * result (option FlowEvent) FlowError.t :=
  match stage s with
  | Open => take_hello s payload
  | Keyed => take_sealed s payload
  | StageDone | Ended _ => (s, Ok None)
  end.

(** One message of the sorted list, [None] for one that is skipped. *)
Definition accept_one (s : t) (message : RelayMessage.t)
    : t * result (option FlowEvent) FlowError.t :=
  if (RelayMessage.seq message <=? last_seq s)%N then (s, Ok None) else
  let s := with_last_seq (RelayMessage.seq message) s in
  if decide (RelayMessage.from message = role s) then (s, Ok None) else
  let payload := RelayMessage.payload message in
  if (PAIRING_MESSAGE_MAX_BYTES <? str_len payload)%N
  then fail s EndBadMessage FlowError.BadMessage
  else take_in (with_relay (relay_count s + 1)
                  (saturating_add USIZE_MAX (relay_bytes s) (str_len payload)) s) payload.

Fixpoint accept_loop (s : t) (messages : list RelayMessage.t)
    : t * result (list FlowEvent) FlowError.t :=
  match messages with
  | [] => (s, Ok [])
  | message :: messages =>
      let '(s, taken) := accept_one s message in
      match taken with
      | Err e => (s, Err e)
      | Ok event =>
          let '(s, events) := accept_loop s messages in
          (s, rmap (fun events => option_list event ++ events) events)
      end
  end.

Definition accept (s : t) (messages : list RelayMessage.t)
    : t * result (list FlowEvent) FlowError.t :=
  if negb (is_active s) then (s, Err FlowError.NotActive) else
  accept_loop s (sort_by_key (fun message => Z.of_N (RelayMessage.seq message)) messages).

(** *** Sealing *)

(** [(n + CHANNEL_OVERHEAD).div_ceil(3) * 4 + 4]. *)
Definition payload_bound (len : N) : N := ((len + CHANNEL_OVERHEAD + 2) / 3 * 4 + 4)%N.

Definition seal (s : t) (wire : Message.t) : t * result Outgoing.t FlowError.t :=
  match wire_to_vec wire with
  | None => (s, Err FlowError.BadMessage)
  | Some plain =>
      if negb (pairing_message_fits (relay_count s) (relay_bytes s)
                 (payload_bound (str_len plain)))
      then (s, Err FlowError.TooLarge) else
      match channel s with
      | None => (s, Err FlowError.NoChannel)
      | Some channel =>
          let '(channel, payload) := channel_encrypt channel plain in
          (with_relay (relay_count s + 1)
             (saturating_add USIZE_MAX (relay_bytes s) (str_len payload))
             (with_channel (Some channel) s),
           Ok (Outgoing.mk payload (relay_count s) (relay_bytes s)))
      end
  end.

(** [?] after a step that gives an outgoing message. *)
Definition then_mark (sealed : t * result Outgoing.t FlowError.t) (mark : t -> t)
    : t * result Outgoing.t FlowError.t :=
  match sealed with
  | (s, Ok outgoing) => (mark s, Ok outgoing)
  | (s, Err e) => (s, Err e)
  end.

Definition confirm (s : t) (typed : string) : t * result (option Outgoing.t) FlowError.t :=
  if negb (is_active s) then (s, Err FlowError.NotActive) else
  match code s with
  | None => (s, Err FlowError.NoChannel)
  | Some code =>
      if decide (parse_unsigned 255 (trim typed) <> Some code)
      then fail s EndWrongCode FlowError.WrongCode else
      if own_confirmed s then (s, Ok None) else
      if decide (role s = Joiner) then (with_own_confirmed true s, Ok None) else
      match master s with
      | None => (s, Err FlowError.NoIdentity)
      | Some master =>
          let '(s, sealed) :=
            then_mark
              (seal s (Message.Offer WIRE_VERSION [WireNetwork.mk (network s) master] []))
              (fun s => with_offer_sent true (with_own_confirmed true s)) in
          (s, rmap Some sealed)
      end
  end.

Definition seal_join (s : t) (id_signature : string) : t * result Outgoing.t FlowError.t :=
  if negb (join_ready s) then (s, Err FlowError.NotConfirmed) else
  match own_device s with
  | None => (s, Err FlowError.NoIdentity)
  | Some device =>
      let wire :=
        Message.Join WIRE_VERSION
          [WireJoined.mk (network s)
             (WireId.mk (JoinerDevice.curve25519 device) (JoinerDevice.ed25519 device)
                id_signature)] (skipped s) in
      then_mark (seal (with_skipped [] s) wire) (with_join_sent true)
  end.

Definition peer_id_signature_valid (s : t) : bool :=
  match peer_device s, peer_id_sig s, master s with
  | Some device, Some signature, Some master =>
      is_ok (verify_signature (JoinerDevice.ed25519 device) signature
               (device_id_signed_text (JoinerDevice.curve25519 device) master))
  | _, _, _ => false
  end.

Definition seal_signed (s : t) (grant : Grant.t) : t * result Outgoing.t FlowError.t :=
  if decide (confirmed_device s = None) then (s, Err FlowError.NotConfirmed) else
  seal s (Message.Signed WIRE_VERSION
    [WireSigned.mk (network s)
       (VersionedDeviceCertificate.signature (Grant.certificate grant))
       (WireList.mk (SignedList.version (Grant.list grant)) (SignedList.keys (Grant.list grant))
          (SignedList.signature (Grant.list grant)))] []).

Definition seal_refusal (s : t) (reason : string) : t * result Outgoing.t FlowError.t :=
  if bool_decide (confirmed_device s = None) || negb (contains REFUSAL_REASONS reason)
  then (s, Err FlowError.NotConfirmed) else
  then_mark (seal s (Message.Signed WIRE_VERSION [] [WireReason.mk (network s) reason]))
    (end_ EndFailed).

Definition seal_done (s : t) : t * result Outgoing.t FlowError.t :=
  if negb (bool_decide (role s = Joiner)) || negb (join_sent s)
  then (s, Err FlowError.NotConfirmed) else
  seal s (Message.Done WIRE_VERSION [network s]).
End Session.
#[global] Arguments t : clear implicits.
#[global] Arguments t {E}.
End PairingSession.
