(* ===== verification/PairingFlowFacts.v ===== *)
(** * Theorems on the pairing session *)

From S2P Require Import Prelude.
From S2P Require Import RustStr.
From S2P Require Import Interfaces.
From S2P Require Import Wire.
From S2P Require Import Device.
From S2P Require Import Manage.
From S2P Require Import Pairing.
From S2P Require Import PairingFlow.
From stdpp Require Import options.

Section Flow.
Context {E : EciesChannel} {C : Crypto} {W : PairingText}.
Import PairingSession.

(** ** Steps of a session *)

Inductive flow_op :=
| Accept (messages : list RelayMessage.t)
| Confirm (typed : string)
| SetMaster (master : string)
| BindDevice (device : JoinerDevice.t)
| SealJoin (id_signature : string)
| SealSigned (grant : Grant.t)
| SealRefusal (reason : string)
| SealDone
| Cancel
| Expire (now : Z)
| OnClosed (reason : ClosedReason)
| Abort
| Finish.

(** What a step gives to its caller. *)
Inductive flow_out :=
| Nothing
| Refusal (e : FlowError.t)
| Sealed (o : Outgoing.t)
| Events (l : list FlowEvent).

Definition out_of {A} (f : A -> flow_out) (r : result A FlowError.t) : flow_out :=
  match r with Ok a => f a | Err e => Refusal e end.

Definition sealed_out (p : t * result Outgoing.t FlowError.t) : t * flow_out :=
  (p.1, out_of Sealed p.2).

Definition flow_step (s : t) (o : flow_op) : t * flow_out :=
  match o with
  | Accept messages => let '(s, r) := accept s messages in (s, out_of Events r)
  | Confirm typed =>
      let '(s, r) := confirm s typed in
      (s, out_of (fun o => match o with Some o => Sealed o | None => Nothing end) r)
  | SetMaster master => let '(s, r) := set_master s master in (s, out_of (fun _ => Nothing) r)
  | BindDevice device => (bind_device device s, Nothing)
  | SealJoin id_signature => sealed_out (seal_join s id_signature)
  | SealSigned grant => sealed_out (seal_signed s grant)
  | SealRefusal reason => sealed_out (seal_refusal s reason)
  | SealDone => sealed_out (seal_done s)
  | Cancel => (cancel s, Nothing)
  | Expire now => ((expire s now).1, Nothing)
  | OnClosed reason => (on_closed reason s, Nothing)
  | Abort => (end_ EndFailed s, Nothing)
  | Finish => (finish s, Nothing)
  end.

Definition after (s : t) (ops : list flow_op) : t := (run flow_step s ops).1.

Lemma after_snoc s ops o : after s (ops ++ [o]) = (flow_step (after s ops) o).1.
Proof. unfold after. rewrite run_app. simpl. by destruct (flow_step _ o). Qed.

(** ** The order of the messages of the relay *)

Lemma accept_one_old s m :
  (RelayMessage.seq m <= last_seq s)%N -> accept_one s m = (s, Ok None).
Proof. intros H. unfold accept_one. by rewrite (proj2 (N.leb_le _ _)). Qed.

(** Fields of a session after its end. *)
Lemma end_fields reason s :
  is_active (end_ reason s) = false /\ waiting (end_ reason s) = None /\
  channel (end_ reason s) = None /\ last_seq (end_ reason s) = last_seq s /\
  role (end_ reason s) = role s /\
  (is_active s = true -> stage (end_ reason s) = Ended reason) /\
  (is_active s = false -> stage (end_ reason s) = stage s).
Proof.
  unfold end_. destruct (is_active s) eqn:Ha; split_and!; try done.
Qed.
(** What taking in a message never undoes. *)
Record kept (s s' : t) : Prop := {
  kept_role : role s' = role s;
  kept_rendezvous : rendezvous_id s' = rendezvous_id s;
  kept_confirmed : own_confirmed s' = own_confirmed s;
  kept_offer_sent : offer_sent s' = offer_sent s;
  kept_join_sent : join_sent s' = join_sent s;
  kept_keyed : stage s <> Open -> stage s' <> Open;
  kept_code : forall c, stage s <> Open -> code s = Some c -> code s' = Some c;
  kept_master : forall m, master s = Some m -> master s' = Some m;
  kept_peer : forall d, peer_device s = Some d -> peer_device s' = Some d;
  kept_peer_new : peer_device s' = peer_device s \/
    offer_sent s = true /\ role s = Creator /\ peer_device s = None;
  kept_quiet : (is_active s = false -> waiting s = None /\ channel s = None) ->
    is_active s' = false -> waiting s' = None /\ channel s' = None;
  kept_ended : is_active s = false -> stage s' = stage s;
  kept_seq : (last_seq s <= last_seq s')%N;
}.

#[export] Instance kept_preorder : PreOrder kept.
Proof.
  split.
  - intros s. constructor; auto with lia.
  - intros s1 s2 s3 [] []. constructor; try congruence; eauto; try lia.
    + destruct kept_peer_new0 as [H|H]; [|by right].
      destruct kept_peer_new1 as [H'|H']; [left; congruence|right]. naive_solver congruence.
    + intros Ha. assert (is_active s2 = false) as Ha2.
      { unfold is_active in *. by rewrite kept_ended0. }
      rewrite kept_ended1 by done. auto.
Qed.

Lemma kept_end reason s : kept s (end_ reason s).
Proof.
  unfold end_. destruct (is_active s) eqn:Ha; constructor; cbn; auto; try lia; congruence.
Qed.

Lemma not_yet_joined (b : bool) {A} (o : option A) :
  negb b || bool_decide (is_Some o) = false -> b = true /\ o = None.
Proof.
  rewrite orb_false_iff, negb_false_iff. intros [? H]. apply bool_decide_eq_false in H.
  split; [done|]. by apply eq_None_not_Some.
Qed.

(** A change that leaves the session active and undoes nothing. *)
Ltac kept_step :=
  repeat match goal with H : (_ <=? _)%N = false |- _ => apply N.leb_gt in H end;
  constructor; cbn in *; unfold is_active in *; cbn in *; intros;
  try solve [ reflexivity | lia | congruence | assumption
            | by left | right; repeat split; congruence ].

Lemma take_in_kept s payload : is_active s = true -> kept s (take_in s payload).1.
Proof.
  intros Ha.
  unfold take_in, take_hello, take_sealed, take_offer, take_join, take_signed, fail.
  repeat (case_match; simplify_eq/=; try reflexivity; try apply kept_end);
    try (etransitivity; [|apply kept_end]);
    try (match goal with H : negb _ || bool_decide _ = false |- _ => apply not_yet_joined in H as [] end);
    kept_step.
Qed.

Lemma accept_one_kept s m : is_active s = true -> kept s (accept_one s m).1.
Proof.
  intros Ha. unfold accept_one, fail. repeat case_match; try reflexivity.
  - kept_step.
  - etransitivity; [|apply kept_end]. kept_step.
  - etransitivity; [|by apply take_in_kept]. kept_step.
Qed.

(** A message that is taken in leaves the session active. *)
Lemma take_in_active s payload event :
  is_active s = true -> (take_in s payload).2 = Ok event -> is_active (take_in s payload).1 = true.
Proof.
  intros Ha.
  unfold take_in, take_hello, take_sealed, take_offer, take_join, take_signed, fail.
  repeat (case_match; simplify_eq/=; try done).
Qed.

Lemma accept_one_active s m event :
  is_active s = true -> (accept_one s m).2 = Ok event -> is_active (accept_one s m).1 = true.
Proof.
  intros Ha. unfold accept_one, fail. repeat case_match; try done. by apply take_in_active.
Qed.

Lemma accept_loop_kept s l : is_active s = true -> kept s (accept_loop s l).1.
Proof.
  revert s. induction l as [|m l IH]; intros s Ha; [reflexivity|]. simpl.
  pose proof (accept_one_kept s m Ha) as Hk. pose proof (accept_one_active s m) as Hact.
  destruct (accept_one s m) as [s1 taken]. simpl in Hk. destruct taken as [event|e]; [|done].
  specialize (IH s1 (Hact event Ha eq_refl)).
  destruct (accept_loop s1 l) as [s2 r]. simpl in *. by etransitivity.
Qed.

Lemma accept_kept s l : kept s (accept s l).1.
Proof.
  unfold accept. destruct (is_active s) eqn:Ha; [|reflexivity]. by apply accept_loop_kept.
Qed.
(** The session after one seal. *)
Lemma seal_cases s wire :
  (exists e, seal s wire = (s, Err e)) \/
  exists ch ch' plain payload, channel s = Some ch /\ wire_to_vec wire = Some plain /\
    channel_encrypt ch plain = (ch', payload) /\
    pairing_message_fits (relay_count s) (relay_bytes s) (payload_bound (str_len plain)) = true /\
    seal s wire =
      (with_relay (relay_count s + 1)
         (saturating_add USIZE_MAX (relay_bytes s) (str_len payload))
         (with_channel (Some ch') s),
       Ok (Outgoing.mk payload (relay_count s) (relay_bytes s))).
Proof.
  unfold seal. destruct (wire_to_vec wire) as [plain|] eqn:Ep; [|left; eauto].
  destruct (pairing_message_fits _ _ _) eqn:Ef; cbn [negb]; [|left; eauto].
  destruct (channel s) as [ch|] eqn:Ec; [|left; eauto].
  destruct (channel_encrypt ch plain) as [ch' payload] eqn:Ee. right. eauto 10.
Qed.

(** What one step may change, and by which operation. *)
Record stepped (o : flow_op) (s s' : t) : Prop := {
  stepped_role : role s' = role s;
  stepped_confirmed : own_confirmed s' = own_confirmed s \/
    exists typed c, o = Confirm typed /\ is_active s = true /\ code s = Some c /\
      parse_unsigned 255 (trim typed) = Some c /\ own_confirmed s' = true;
  stepped_offer : offer_sent s' = offer_sent s \/
    offer_sent s' = true /\ own_confirmed s' = true /\ role s = Creator;
  stepped_peer : peer_device s' = peer_device s \/
    exists l, o = Accept l /\ offer_sent s = true /\ role s = Creator /\ peer_device s = None;
  stepped_ended : is_active s = false -> stage s' = stage s;
  stepped_quiet : (is_active s = false -> waiting s = None /\ channel s = None) ->
    is_active s' = false -> waiting s' = None /\ channel s' = None;
}.

Lemma stepped_same o s : stepped o s s.
Proof. constructor; auto. Qed.

Lemma stepped_kept messages s s' : kept s s' -> stepped (Accept messages) s s'.
Proof.
  intros []. constructor; auto. destruct kept_peer_new0; [by left|right]. naive_solver.
Qed.

(** An end after a step is a step. *)
Lemma stepped_end o s s1 reason : stepped o s s1 -> stepped o s (end_ reason s1).
Proof.
  intros []. unfold end_. destruct (is_active s1) eqn:Ha; constructor; cbn; auto.
  intros Hs. specialize (stepped_ended0 Hs). exfalso. unfold is_active in *.
  rewrite stepped_ended0 in Ha. congruence.
Qed.

Lemma stepped_finish s : stepped Finish s (finish s).
Proof. unfold finish. destruct (is_active s) eqn:Ha; constructor; cbn; auto; congruence. Qed.

(** One seal. A session that is not active has no channel, so it seals nothing. *)
Lemma stepped_seal o s wire : stepped o s (seal s wire).1.
Proof.
  destruct (seal_cases s wire) as [[e ->]|(ch & ch' & plain & payload & Hc & _ & _ & _ & ->)];
    cbn; [apply stepped_same|].
  constructor; cbn; auto. intros Hq Ha. destruct (Hq Ha) as [_ H]. congruence.
Qed.

Lemma stepped_step s o : stepped o s (flow_step s o).1.
Proof.
  destruct o as [messages|typed|key|device|id_signature|grant|reason| | |now|reason| |]; simpl.
  - pose proof (accept_kept s messages) as H. destruct (accept s messages). by apply stepped_kept.
  - unfold confirm, fail. destruct (is_active s) eqn:Ha; [|apply stepped_same]. cbn [negb].
    destruct (code s) as [c|] eqn:Ec; [|apply stepped_same].
    destruct (decide _) as [|Hp%dec_stable]; [by apply stepped_end, stepped_same|].
    destruct (own_confirmed s) eqn:Eo; [apply stepped_same|].
    destruct (decide (role s = Joiner)); [|destruct (master s) as [master|]; [|apply stepped_same]].
    + constructor; cbn; auto. right; eauto 10.
    + destruct (seal_cases s (Message.Offer WIRE_VERSION [WireNetwork.mk (network s) master] []))
        as [[e ->]|(ch & ch' & plain & payload & Hc & _ & _ & _ & ->)]; cbn; [apply stepped_same|].
      constructor; cbn; auto; [right; eauto 10|right; destruct (role s); done|
        unfold is_active in *; cbn; congruence].
  - unfold set_master. destruct (decode_key key); [|apply stepped_same]. constructor; cbn; auto.
  - constructor; cbn; auto.
  - unfold seal_join. destruct (join_ready s) eqn:Ej; [|apply stepped_same]. cbn [negb].
    destruct (own_device s) as [device|]; [|apply stepped_same].
    pose proof (stepped_seal (SealJoin id_signature) (with_skipped [] s)
      (Message.Join WIRE_VERSION [WireJoined.mk (network s) (WireId.mk
         (JoinerDevice.curve25519 device) (JoinerDevice.ed25519 device) id_signature)]
         (skipped s))) as Hs.
    destruct (seal _ _) as [s1 r]. cbn in Hs. destruct Hs. destruct r; constructor; auto.
  - unfold seal_signed. destruct (decide _); [apply stepped_same|].
    apply (stepped_seal (SealSigned grant)).
  - unfold seal_refusal. destruct (_ || _); [apply stepped_same|].
    pose proof (stepped_seal (SealRefusal reason) s
      (Message.Signed WIRE_VERSION [] [WireReason.mk (network s) reason])) as Hs.
    destruct (seal _ _) as [s1 [o|e]]; cbn in *; [by apply stepped_end|done].
  - unfold seal_done. destruct (_ || _); [apply stepped_same|]. apply (stepped_seal SealDone).
  - by apply stepped_end, stepped_same.
  - unfold expire. destruct (_ && _); [by apply stepped_end, stepped_same|apply stepped_same].
  - by apply stepped_end, stepped_same.
  - by apply stepped_end, stepped_same.
  - apply stepped_finish.
Qed.

(** ** Both sides confirm *)

Lemma create_fields key rendezvous network now s link :
  create_with key rendezvous network now = Ok (s, link) ->
  role s = Creator /\ is_active s = true /\ own_confirmed s = false /\ offer_sent s = false /\
  peer_device s = None.
Proof.
  unfold create_with. destruct (decide _); [done|]. intros H. inv_result. done.
Qed.

Lemma after_invariant s0 (P : t -> Prop) ops :
  P s0 -> (forall s o, stepped o s (flow_step s o).1 -> P s -> P (flow_step s o).1) ->
  P (after s0 ops).
Proof.
  intros H0 Hs. unfold after. apply run_invariant; [done|]. intros s o. apply Hs, stepped_step.
Qed.

Lemma after_app s ops ops' : after s (ops ++ ops') = after (after s ops) ops'.
Proof. unfold after. apply run_app. Qed.

(** The holder sends its offer only when its user confirmed. *)
Lemma offer_confirmed s0 ops :
  (offer_sent s0 = true -> own_confirmed s0 = true) ->
  offer_sent (after s0 ops) = true -> own_confirmed (after s0 ops) = true.
Proof.
  intros H0. apply (after_invariant s0 (fun s => offer_sent s = true -> own_confirmed s = true));
    [done|]. intros s o [] Hs Ho.
  destruct stepped_confirmed0 as [Hc|(typed & c & _ & _ & _ & _ & Hc)]; [|done].
  destruct stepped_offer0 as [He|(_ & He & _)]; [|done]. rewrite Hc. apply Hs. congruence.
Qed.

Lemma peer_stays s0 ops d :
  peer_device s0 = Some d -> peer_device (after s0 ops) = Some d.
Proof.
  intros H0. apply (after_invariant s0 (fun s => peer_device s = Some d)); [done|].
  intros s o [] Hs. destruct stepped_peer0 as [->|(_ & _ & _ & _ & Hn)]; [done|congruence].
Qed.

(** A holder that seals a grant has a confirmed joiner. *)
Lemma seal_signed_confirmed s grant s' o :
  seal_signed s grant = (s', Ok o) -> exists d, confirmed_device s = Some d.
Proof.
  unfold seal_signed. destruct (decide _); [done|]. destruct (confirmed_device s); [eauto|done].
Qed.

(** The holder signs only after both sides confirmed: when a run of a
    created session ends in a sealed grant, its user typed the check code of
    the channel before, and after that (with the offer sent) a message of the
    joiner brought the one device that the grant step answers. A second device
    never takes its place. *)
Theorem holder_signs_after_both (key : ecies) (rendezvous : Rendezvous.t) (network : string)
    (now : Z) (s0 s' : t) (link : PairingLink.t) (ops : list flow_op) (grant : Grant.t)
    (o : Outgoing.t)
    (Hcreate : create_with key rendezvous network now = Ok (s0, link))
    (Hseal : seal_signed (after s0 ops) grant = (s', Ok o)) :
  exists pre typed mid messages post c d,
    ops = (pre ++ Confirm typed :: mid) ++ Accept messages :: post /\
    code (after s0 pre) = Some c /\ parse_unsigned 255 (trim typed) = Some c /\
    offer_sent (after s0 (pre ++ Confirm typed :: mid)) = true /\
    peer_device (after s0 (pre ++ Confirm typed :: mid)) = None /\
    peer_device (after s0 ((pre ++ Confirm typed :: mid) ++ [Accept messages])) = Some d /\
    confirmed_device (after s0 ops) = Some d.
Proof.
  apply create_fields in Hcreate as (Hrole & _ & Hc0 & Ho0 & Hp0).
  apply seal_signed_confirmed in Hseal as [d Hd].
  assert (peer_device (after s0 ops) = Some d) as Hpeer.
  { unfold confirmed_device in Hd. by destruct (_ && _). }
  destruct (run_flip flow_step (fun s => bool_decide (is_Some (peer_device s))) s0 ops)
    as (first & e & post & -> & Hf1 & Hf2).
  { rewrite Hp0. apply bool_decide_eq_false. by intros [? ?]. }
  { apply bool_decide_eq_true. by exists d. }
  apply bool_decide_eq_false, eq_None_not_Some in Hf1.
  destruct (stepped_step (after s0 first) e) as [_ _ _ Hj _ _].
  destruct Hj as [He|(messages & -> & Hoff & _ & _)].
  { apply bool_decide_eq_true in Hf2. change (run flow_step s0 first).1 with (after s0 first) in *.
    rewrite He, Hf1 in Hf2. by destruct Hf2. }
  destruct (run_flip flow_step own_confirmed s0 first Hc0) as (pre & e & mid & -> & Hg1 & Hg2).
  { apply (offer_confirmed s0 first); [congruence|done]. }
  destruct (stepped_step (after s0 pre) e) as [_ Hc _ _ _ _].
  destruct Hc as [He|(typed & c & -> & _ & Hcode & Hparse & _)].
  { change (run flow_step s0 pre).1 with (after s0 pre) in *. congruence. }
  exists pre, typed, mid, messages, post, c, d. split_and!; try done.
  rewrite after_snoc. apply bool_decide_eq_true in Hf2 as [d' Hd'].
  change (run flow_step s0 (pre ++ Confirm typed :: mid)).1
    with (after s0 (pre ++ Confirm typed :: mid)) in Hd'.
  pose proof (peer_stays _ post _ Hd') as Hstay.
  rewrite <-after_snoc, <-after_app, <-app_assoc in Hstay. cbn [app] in Hstay.
  rewrite Hpeer in Hstay. by simplify_eq.
Qed.

(** ** The end *)

(** A session that a device started, as creator or as joiner. *)
Definition started (s : t) : Prop :=
  (exists key rendezvous network now link,
     create_with key rendezvous network now = Ok (s, link)) \/
  (exists key link rendezvous network eligible device now hello,
     join_any key link rendezvous network eligible device now = Ok (s, hello)).

Lemma started_active s : started s -> is_active s = true.
Proof.
  intros [(key & rendezvous & network & now & link & H)|
          (key & link & rendezvous & network & eligible & device & now & hello & H)].
  - by apply create_fields in H as (_ & Ha & _).
  - unfold join_any in H. repeat (case_decide; [done|]).
    apply rbind_ok in H as (their & _ & H). apply rbind_ok in H as (hello' & _ & H).
    apply rbind_ok in H as ([ch message] & _ & H). destruct (negb _); by simplify_eq/=.
Qed.

Lemma after_quiet s ops :
  (is_active s = false -> waiting s = None /\ channel s = None) ->
  is_active (after s ops) = false ->
  waiting (after s ops) = None /\ channel (after s ops) = None.
Proof.
  intros H0. apply (after_invariant s
    (fun s => is_active s = false -> waiting s = None /\ channel s = None)); [done|].
  intros s1 o [] Hs. auto.
Qed.

Lemma closed_seals_nothing s wire o : channel s = None -> (seal s wire).2 <> Ok o.
Proof. intros Hc. unfold seal. repeat case_match; naive_solver. Qed.

Lemma inactive_not_ready s : is_active s = false -> join_ready s = false /\ confirmed_device s = None.
Proof.
  intros Ha. unfold join_ready, confirmed_device. rewrite (bool_decide_false (stage s = Keyed)).
  - by rewrite !andb_false_r, !andb_false_l.
  - unfold is_active in Ha. by destruct (stage s).
Qed.

Lemma inactive_step_seals_nothing s op o :
  is_active s = false -> channel s = None -> (flow_step s op).2 <> Sealed o.
Proof.
  intros Ha Hc. destruct (inactive_not_ready s Ha) as [Hj Hd].
  destruct op; simpl; try done.
  - unfold accept. by rewrite Ha.
  - unfold confirm. by rewrite Ha.
  - unfold set_master. destruct (decode_key _); done.
  - unfold seal_join. by rewrite Hj.
  - unfold seal_signed. by rewrite Hd.
  - unfold seal_refusal. by rewrite Hd.
  - unfold seal_done. destruct (_ || _); [done|].
    pose proof (closed_seals_nothing s (Message.Done WIRE_VERSION [network s])) as Hn.
    unfold sealed_out. destruct (seal _ _) as [? [o'|]]; [|done]. cbn in *. intros [= ->].
    by apply (Hn o).
Qed.

(** What follows the end of a session that keeps no key. *)
Lemma ended_after s more :
  is_active s = false -> waiting s = None -> channel s = None ->
  stage (after s more) = stage s /\ (forall o, Sealed o ∉ (run flow_step s more).2).
Proof.
  revert s. induction more as [|op more IH]; intros s Ha Hw Hc.
  - split; [done|]. intros o H. by apply not_elem_of_nil in H.
  - destruct (stepped_step s op) as [_ _ _ _ Hst Hq].
    assert (is_active (flow_step s op).1 = false) as Ha1.
    { unfold is_active in *. by rewrite Hst. }
    destruct (Hq (fun _ => conj Hw Hc) Ha1) as [Hw1 Hc1].
    pose proof (inactive_step_seals_nothing s op) as Hn.
    destruct (IH _ Ha1 Hw1 Hc1) as [IH1 IH2].
    unfold after in *. simpl. destruct (flow_step s op) as [s1 out]. cbn [fst snd] in *.
    destruct (run flow_step s1 more) as [s2 outs]. cbn [fst snd] in *.
    split; [rewrite IH1; by apply Hst|].
    intros o [H|H]%elem_of_cons; [by apply (Hn o)|by apply (IH2 o)].
Qed.

(** An ended pairing stays ended and keeps no secret: whatever ended it,
    the waiting key and the channel are gone, no later event or step of the
    user changes how it ended, and nothing more is ever sealed for the peer. *)
Theorem ended_session_final (s0 : t) (ops more : list flow_op)
    (Hs : started s0) (Hended : is_active (after s0 ops) = false) :
  let s := after s0 ops in
  waiting s = None /\ channel s = None /\
  stage (after s more) = stage s /\
  (forall o, Sealed o ∉ (run flow_step s more).2).
Proof.
  intros s. apply started_active in Hs.
  destruct (after_quiet s0 ops) as [Hw Hch]; [congruence|done|]. fold s in Hw, Hch, Hended.
  destruct (ended_after s more) as [Hst Hn]; auto.
Qed.

(** ** Messages of the relay in any order *)

Lemma accept_one_seq s m : (last_seq s <= last_seq (accept_one s m).1)%N.
Proof.
  unfold accept_one, take_in, take_hello, take_sealed, take_offer, take_join, take_signed, fail,
    end_.
  repeat (case_match; simplify_eq/=);
    repeat match goal with H : (_ <=? _)%N = false |- _ => apply N.leb_gt in H end; lia.
Qed.

Lemma accept_one_takes s m event :
  (accept_one s m).2 = Ok event -> (RelayMessage.seq m <= last_seq (accept_one s m).1)%N.
Proof.
  unfold accept_one, take_in, take_hello, take_sealed, take_offer, take_join, take_signed, fail.
  repeat (case_match; simplify_eq/=); intros;
    repeat match goal with H : (_ <=? _)%N = true |- _ => apply N.leb_le in H end;
    simplify_eq/=; lia.
Qed.

(** A loop skips what the session took in before. *)
Lemma accept_loop_skips n s l :
  (n <= last_seq s)%N ->
  accept_loop s l = accept_loop s (filter (fun m => n < RelayMessage.seq m)%N l).
Proof.
  revert s. induction l as [|m l IH]; intros s Hn; [done|].
  rewrite filter_cons. destruct (decide (n < RelayMessage.seq m)%N) as [|Hold].
  - simpl. pose proof (accept_one_seq s m) as Hm. destruct (accept_one s m) as [s1 [event|e]];
      [|done]. cbn in Hm. rewrite (IH s1) by lia. done.
  - simpl. rewrite accept_one_old by lia. rewrite <-IH by done.
    destruct (accept_loop s l) as [s2 [events|e]]; done.
Qed.

Lemma accept_loop_takes s l events :
  (accept_loop s l).2 = Ok events ->
  (last_seq s <= last_seq (accept_loop s l).1)%N /\
  Forall (fun m => RelayMessage.seq m <= last_seq (accept_loop s l).1)%N l.
Proof.
  revert s events. induction l as [|m l IH]; intros s events; [split; [simpl; lia|constructor]|].
  simpl. pose proof (accept_one_seq s m) as Hle. pose proof (accept_one_takes s m) as Ht.
  destruct (accept_one s m) as [s1 [event|e]]; [|done]. cbn in Hle, Ht.
  specialize (Ht event eq_refl). specialize (IH s1).
  destruct (accept_loop s1 l) as [s2 [events'|e]]; [|done]. cbn in *. intros _.
  destruct (IH events' eq_refl) as [H1 H2]. split; [lia|]. constructor; [lia|done].
Qed.

Lemma accept_loop_active s l events :
  is_active s = true -> (accept_loop s l).2 = Ok events -> is_active (accept_loop s l).1 = true.
Proof.
  revert s events. induction l as [|m l IH]; intros s events Ha; [done|]. simpl.
  pose proof (accept_one_active s m) as Hact. destruct (accept_one s m) as [s1 [event|e]]; [|done].
  specialize (IH s1). destruct (accept_loop s1 l) as [s2 [events'|e]]; [|done]. cbn in *.
  intros _. by apply (IH events'); [apply (Hact event)|].
Qed.

(** An event that a role can take. *)
Definition event_for (role : PairingRole) (e : FlowEvent) : Prop :=
  match e with Signed _ => role = Joiner | _ => True end.

Lemma accept_one_for_role s m event :
  (accept_one s m).2 = Ok (Some event) -> event_for (role s) event.
Proof.
  unfold accept_one, take_in, take_hello, take_sealed, take_offer, take_join, take_signed, fail.
  repeat (case_match; simplify_eq/=; try done); intros; simplify_eq/=; try done; congruence.
Qed.

Lemma accept_for_role s l events :
  (accept s l).2 = Ok events -> Forall (event_for (role s)) events.
Proof.
  unfold accept. destruct (is_active s) eqn:Ha; [|done]. cbn [negb].
  generalize (sort_by_key (fun message => Z.of_N (RelayMessage.seq message)) l). clear l.
  intros l. revert s events Ha. induction l as [|m l IH]; intros s events Ha; simpl.
  - intros [= <-]. constructor.
  - pose proof (accept_one_for_role s m) as Hone. pose proof (accept_one_active s m) as Hact.
    pose proof (kept_role _ _ (accept_one_kept s m Ha)) as Hr.
    destruct (accept_one s m) as [s1 [event|e]]; [|done]. cbn in *.
    specialize (IH s1). destruct (accept_loop s1 l) as [s2 [events'|e]]; [|done]. cbn in *.
    intros [= <-]. rewrite Hr in IH. apply Forall_app. split; [|by apply IH; [apply (Hact event)|]].
    destruct event as [event|]; simpl; [|constructor]. repeat constructor. by apply Hone.
Qed.

(** The relay may answer in any order and more than once: the messages
    count by their sequence only, those that the session took in before are
    skipped, and a list that was taken in gives nothing when it comes again. *)
Theorem accept_any_order (s : t) (messages : list RelayMessage.t) :
  (forall other, messages ≡ₚ other -> NoDup (RelayMessage.seq <$> messages) ->
     accept s other = accept s messages) /\
  accept s messages = accept s (filter (fun m => last_seq s < RelayMessage.seq m)%N messages) /\
  (forall s' events, accept s messages = (s', Ok events) -> accept s' messages = (s', Ok [])).
Proof.
  set (key := fun message => Z.of_N (RelayMessage.seq message)).
  assert (forall s1 l, is_active s1 = true ->
    accept s1 l = accept_loop s1 (sort_by_key key l)) as Hacc.
  { intros s1 l Ha. unfold accept. by rewrite Ha. }
  assert (forall s1 l, accept s1 l =
    accept s1 (filter (fun m => last_seq s1 < RelayMessage.seq m)%N l)) as Hskip.
  { intros s1 l. unfold accept. destruct (negb _); [done|].
    rewrite <-filter_sort. by apply accept_loop_skips. }
  split_and!; [| apply Hskip |].
  - intros other Hp Hnd. unfold accept. destruct (negb _); [done|]. f_equal.
    symmetry. apply (sorted_unique key); [by rewrite !sort_perm| |apply sort_sorted..].
    rewrite sort_perm. unfold key.
    rewrite (list_fmap_compose RelayMessage.seq Z.of_N). by apply (NoDup_fmap_2 _ _).
  - intros s' events H. destruct (is_active s) eqn:Ha; [|by unfold accept in H; rewrite Ha in H].
    rewrite Hacc in H by done. pose proof (f_equal snd H) as H2. pose proof (f_equal fst H) as H1.
    cbn [fst snd] in *. subst s'.
    destruct (accept_loop_takes s _ _ H2) as [_ Hall].
    pose proof (accept_loop_active s _ _ Ha H2) as Ha'.
    rewrite Hskip, filter_none.
    + unfold accept. by rewrite Ha'.
    + rewrite sort_perm in Hall. eapply Forall_impl; [exact Hall|]. cbn. intros; lia.
Qed.

(** ** The limits of the relay *)

(** [Message::encode] is base64 of the ciphertext, which is the plaintext and
    the tag of the channel. *)
Class EciesLaws : Prop := {
  encrypted_length ch plain :
    (str_len (channel_encrypt ch plain).2 <= payload_bound (str_len plain))%N;
}.

Lemma fits_smaller count total n n' :
  (n' <= n)%N -> pairing_message_fits count total n = true ->
  pairing_message_fits count total n' = true.
Proof.
  unfold pairing_message_fits, checked_add. rewrite !andb_true_iff, !N.leb_le, !N.ltb_lt.
  intros Hn [[H1 H2] H3]. split; [split; [lia|done]|].
  destruct (N.leb_spec (total + n) USIZE_MAX); [|done].
  rewrite (proj2 (N.leb_le _ _)) by lia. apply N.leb_le. apply N.leb_le in H3. lia.
Qed.

Lemma seal_fits {HE : EciesLaws} s wire s' o :
  seal s wire = (s', Ok o) ->
  Outgoing.count o = relay_count s /\ Outgoing.total_bytes o = relay_bytes s /\
  pairing_message_fits (Outgoing.count o) (Outgoing.total_bytes o)
    (str_len (Outgoing.payload o)) = true /\
  relay_count s' = (relay_count s + 1)%N /\
  relay_bytes s' = (relay_bytes s + str_len (Outgoing.payload o))%N.
Proof.
  intros H. destruct (seal_cases s wire)
    as [[e He]|(ch & ch' & plain & payload & _ & _ & Henc & Hfit & He)]; [congruence|].
  rewrite He in H. simplify_eq/=. pose proof (encrypted_length ch plain) as Hl.
  rewrite Henc in Hl. cbn in Hl. pose proof (fits_smaller _ _ _ _ Hl Hfit) as Hf.
  split_and!; try done. unfold saturating_add.
  unfold pairing_message_fits, checked_add in Hf. apply andb_true_iff in Hf as [_ Hf].
  destruct (N.leb_spec (relay_bytes s + str_len payload) USIZE_MAX); [|done]. lia.
Qed.

Lemma marked_seal (sealed : t * result Outgoing.t FlowError.t) mark s' o :
  then_mark sealed mark = (s', Ok o) -> exists s1, sealed = (s1, Ok o) /\ s' = mark s1.
Proof. destruct sealed as [s1 [?|?]]; simpl; intros; simplify_eq; eauto. Qed.

(** Nothing leaves for the relay that the relay would refuse: every sealed
    message fits the limits of one message, of the number of messages and of
    the bytes of a rendezvous, with the totals of all the messages that this
    device took in or sealed before; and these totals count the message. *)
Theorem sealed_within_limits {HE : EciesLaws} (s s' : t) (op : flow_op) (o : Outgoing.t)
    (H : flow_step s op = (s', Sealed o)) :
  Outgoing.count o = relay_count s /\ Outgoing.total_bytes o = relay_bytes s /\
  pairing_message_fits (Outgoing.count o) (Outgoing.total_bytes o)
    (str_len (Outgoing.payload o)) = true /\
  relay_count s' = (relay_count s + 1)%N /\
  relay_bytes s' = (relay_bytes s + str_len (Outgoing.payload o))%N.
Proof.
  destruct op; simpl in H; try done.
  - by destruct (accept s messages) as [? [?|?]].
  - unfold confirm, fail in H. repeat case_match; simplify_eq/=.
    match goal with Hm : then_mark _ _ = (_, ?r) |- _ => destruct r; simplify_eq/=;
      apply marked_seal in Hm as (s1 & Hm & ->); by apply seal_fits in Hm end.
  - unfold set_master in H. by destruct (decode_key _).
  - unfold sealed_out, seal_join in H. repeat case_match; simplify_eq/=.
    destruct (then_mark _ _) as [s1 [o'|]] eqn:Es; simplify_eq/=.
    apply marked_seal in Es as (s2 & Es & ->). by apply seal_fits in Es.
  - unfold sealed_out, seal_signed in H. case_decide; simplify_eq/=.
    destruct (seal _ _) as [s1 [o'|]] eqn:Es; simplify_eq/=. by apply seal_fits in Es.
  - unfold sealed_out, seal_refusal in H. case_match; simplify_eq/=.
    destruct (then_mark _ _) as [s1 [o'|]] eqn:Es; simplify_eq/=.
    apply marked_seal in Es as (s2 & Es & ->). apply seal_fits in Es.
    unfold end_. by destruct (is_active s2).
  - unfold sealed_out, seal_done in H. case_match; simplify_eq/=.
    destruct (seal _ _) as [s1 [o'|]] eqn:Es; simplify_eq/=. by apply seal_fits in Es.
Qed.
End Flow.
