(* ===== verification/PairingGrant.v ===== *)
(** * Grants and the stored parts of a pairing
    (crates/cordiale-core/src/e2e_pairing_flow.rs)

    The device of a store, the grant that a holder signs, the one that a
    joiner checks and saves, and the record of an open pairing. *)

From S2P Require Import Prelude.
From S2P Require Import RustStr.
From S2P Require Import Interfaces.
From S2P Require Import Wire.
From S2P Require Import Device.
From S2P Require Import Manage.
From S2P Require Import ListMigration.
From S2P Require Import Trust.
From S2P Require Import Peer.
From S2P Require Import Files.
From S2P Require Import History.
From S2P Require Import State.
From S2P Require Import Pairing.
From S2P Require Import PairingFlow.
From stdpp Require Import options.

Definition RECORD_VERSION : N := 1.

(** [map_err] of a flow to one error. *)
Definition flow {A X} (e : FlowError.t) (r : result A X) : result A FlowError.t :=
  map_err (fun _ => e) r.

Module PendingRecord.
Record t := mk { v : N; creator : bool; rendezvous_id : string; started_at : Z }.

#[global] Instance eq_dec : EqDecision t.
Proof. solve_decision. Defined.
End PendingRecord.

Module StalePairing.
Record t := mk { role : PairingRole; rendezvous_id : string }.

#[global] Instance eq_dec : EqDecision t.
Proof. solve_decision. Defined.
End StalePairing.

(** [serde_json] on the record; [None] is a failure. *)
Class PendingText := {
  pending_to_string : PendingRecord.t -> option string;
  pending_from_str : string -> option PendingRecord.t;
}.

Class PendingTextLaws `{PendingText} : Prop := {
  pending_round r text : pending_to_string r = Some text -> pending_from_str text = Some r;
}.

Section Grants.
Context {C : Crypto} {T : StateText} {A : Aead} {O : Olm}.

Definition device_of (a : account) : JoinerDevice.t :=
  JoinerDevice.mk (identity_ed25519 a) (identity_curve25519 a).

(** [JoinerDevice::from_store]; [fresh] is the account that [Account::new]
    would make. *)
Definition from_store (env : io_env) (d : disk) (s : Store.t) (fresh : account)
    : disk * Store.t * result JoinerDevice.t FlowError.t :=
  match Store.olm_identity s with
  | Err _ => (d, s, Err FlowError.Store)
  | Ok (Some a) => (d, s, Ok (device_of a))
  | Ok None =>
      let '(d, s, stored) := Store.set_account env d s fresh in
      (d, s, flow FlowError.Store (rmap (fun _ => device_of fresh) stored))
  end.

(** The keys of the new list. *)
Definition granted_keys (current : list string) (device : string)
    : result (list string) FlowError.t :=
  if existsb (fun key => bool_decide (key = device)) current then Ok current
  else if (MAX_ENROLLED_DEVICES <=? lenN current)%N then Err FlowError.ListFull
  else Ok (current ++ [device]).

Definition build_grant (master : Account) (current : SignedList.t) (device_ed25519 : string)
    : result Grant.t FlowError.t :=
  let? _ := flow FlowError.BadMessage (decode_key device_ed25519) in
  let master_key := account_ed25519 master in
  let? _ := flow FlowError.NoIdentity
              (verify_signed_list (SignedList.version current) (SignedList.keys current)
                 master_key (SignedList.signature current)) in
  let? version :=
    ok_or (version ← checked_add U32_MAX (SignedList.version current) 1;
           if (version <=? MAX_VERSION)%N then Some version else None) FlowError.ListFull in
  let? keys := granted_keys (SignedList.keys current) device_ed25519 in
  let? _ := flow FlowError.ListFull (check_list_devices keys) in
  let? signature := flow FlowError.BadGrant
                      (build_signed_list_signature version keys (account_sign master)) in
  let? certificate := flow FlowError.BadGrant
                        (build_device_certificate version device_ed25519 master_key
                           (account_sign master)) in
  Ok (Grant.mk master_key certificate
        (SignedList.mk version (merge_sort String.le keys) signature)).

(** The checks of [apply_grant] before it writes. *)
Definition check_grant (s : Store.t) (own_ed25519 : string) (grant : Grant.t)
    : result unit FlowError.t :=
  let l := Grant.list grant in
  let certificate := Grant.certificate grant in
  let? _ := flow FlowError.BadGrant
              (verify_signed_list (SignedList.version l) (SignedList.keys l)
                 (Grant.master grant) (SignedList.signature l)) in
  let? _ := flow FlowError.BadGrant (check_list_devices (SignedList.keys l)) in
  if negb (existsb (fun key => bool_decide (key = own_ed25519)) (SignedList.keys l)
           && bool_decide (VersionedDeviceCertificate.device_ed25519 certificate = own_ed25519)
           && bool_decide (VersionedDeviceCertificate.master_ed25519 certificate =
                           Grant.master grant)
           && (VersionedDeviceCertificate.first_list_version certificate =?
               SignedList.version l)%N)
  then Err FlowError.BadGrant else
  let? _ := flow FlowError.BadGrant (verify_device_certificate certificate [Grant.master grant]) in
  let? own_master := flow FlowError.Store (Store.master_key s) in
  match own_master with
  | Some own_master =>
      if bool_decide (identity_ed25519 own_master <> Grant.master grant)
      then Err FlowError.BadGrant else Ok tt
  | None => Ok tt
  end.

(** The two writes have an environment each. *)
Definition apply_grant (env env' : io_env) (d : disk) (s : Store.t) (own_ed25519 : string)
    (grant : Grant.t) : disk * Store.t * result unit FlowError.t :=
  match check_grant s own_ed25519 grant with
  | Err e => (d, s, Err e)
  | Ok _ =>
      let '(d, s, listed) := Store.set_signed_list env d s (Grant.list grant) in
      match listed with
      | Err _ => (d, s, Err FlowError.Store)
      | Ok _ =>
          let '(d, s, certified) :=
            Store.set_device_certificate env' d s (Grant.certificate grant) in
          (d, s, flow FlowError.Store certified)
      end
  end.

Context {E : EciesChannel} {P : PendingText}.

Definition save_pending (env : io_env) (d : disk) (s : Store.t) (session : PairingSession.t)
    : disk * Store.t * result unit FlowError.t :=
  let record :=
    PendingRecord.mk RECORD_VERSION (bool_decide (PairingSession.role session = Creator))
      (PairingSession.rendezvous_id session) (PairingSession.started_at session) in
  match pending_to_string record with
  | None => (d, s, Err FlowError.Store)
  | Some text =>
      let '(d, s, r) := Store.set_pending_pairing env d s text in (d, s, flow FlowError.Store r)
  end.

Definition clear_pending (env : io_env) (d : disk) (s : Store.t)
    : disk * Store.t * result unit FlowError.t :=
  let '(d, s, r) := Store.clear_pending_pairing env d s in (d, s, flow FlowError.Store r).

Definition stale_of (record : PendingRecord.t) : option StalePairing.t :=
  if (PendingRecord.v record =? RECORD_VERSION)%N
  then Some (StalePairing.mk (if PendingRecord.creator record then Creator else Joiner)
               (PendingRecord.rendezvous_id record))
  else None.

Definition take_stale_pairing (env : io_env) (d : disk) (s : Store.t)
    : disk * Store.t * result (option StalePairing.t) FlowError.t :=
  match StateData.pending_pairing (Store.data s) with
  | None => (d, s, Ok None)
  | Some text =>
      let record := pending_from_str text ≫= stale_of in
      let '(d, s, cleared) := clear_pending env d s in
      (d, s, rmap (fun _ => record) cleared)
  end.
End Grants.
