(* ===== verification/PairingGrantFacts.v ===== *)
(** * Theorems on grants and on the record of an open pairing

    The theorems, and a concrete channel and a concrete pairing to run them on. *)

From S2P Require Import Prelude.
From S2P Require Import RustStr.
From S2P Require Import Interfaces.
From S2P Require Import Concrete.
From S2P Require Import Wire.
From S2P Require Import WireFacts.
From S2P Require Import Device.
From S2P Require Import Manage.
From S2P Require Import ListMigration.
From S2P Require Import DeviceFacts.
From S2P Require Import Trust.
From S2P Require Import Peer.
From S2P Require Import TrustFacts.
From S2P Require Import Files.
From S2P Require Import History.
From S2P Require Import HistoryFacts.
From S2P Require Import State.
From S2P Require Import StateFacts.
From S2P Require Import Pairing.
From S2P Require Import PairingFacts.
From S2P Require Import PairingFlow.
From S2P Require Import PairingFlowFacts.
From S2P Require Import PairingGrant.
From stdpp Require Import options.

Lemma flow_ok {A X} (e : FlowError.t) (r : result A X) a : flow e r = Ok a <-> r = Ok a.
Proof. apply map_err_ok. Qed.

Section Grants.
Context {C : Crypto} {T : StateText} {A : Aead} {O : Olm}.

Lemma existsb_in (k : string) l :
  existsb (fun key => bool_decide (key = k)) l = true <-> k ∈ l.
Proof.
  rewrite existsb_exists. split.
  - intros (x & Hx & ->%bool_decide_eq_true). by apply list_elem_of_In.
  - intros Hk. exists k. split; [by apply list_elem_of_In|by apply bool_decide_eq_true].
Qed.

Lemma granted_keys_ok current device keys :
  granted_keys current device = Ok keys ->
  device ∈ keys /\ (forall k, k ∈ current -> k ∈ keys) /\
  (forall k, k ∈ keys -> k ∈ current \/ k = device) /\
  (device ∉ current -> (lenN keys <= MAX_ENROLLED_DEVICES)%N).
Proof.
  unfold granted_keys. destruct (existsb _ _) eqn:Ee.
  - intros [= <-]. apply existsb_in in Ee. naive_solver.
  - destruct (N.leb_spec MAX_ENROLLED_DEVICES (lenN current)) as [|Hlt]; [done|].
    intros [= <-]. split_and!; [set_solver..|].
    intros _. rewrite lenN_app. unfold lenN at 2. simpl. lia.
Qed.

(** A grant is what the joiner accepts: the new list is one version up, it
    holds the new device, every device of the old list and nothing else, and
    at most three when a device was added; the list and the certificate verify
    under the master, and every store without another master takes them. *)
Theorem grant_accepted (master : Account) (current : SignedList.t) (device : string)
    (g : Grant.t) (s : Store.t)
    (Hm : signs_well master)
    (Hbuilt : build_grant master current device = Ok g)
    (Hown : Store.master_key s = Ok None \/
            exists a, Store.master_key s = Ok (Some a) /\
              identity_ed25519 a = account_ed25519 master) :
  let l := Grant.list g in
  SignedList.version l = (SignedList.version current + 1)%N /\
  device ∈ SignedList.keys l /\
  (forall k, k ∈ SignedList.keys current -> k ∈ SignedList.keys l) /\
  (forall k, k ∈ SignedList.keys l -> k ∈ SignedList.keys current \/ k = device) /\
  (device ∉ SignedList.keys current -> (lenN (SignedList.keys l) <= 3)%N) /\
  Grant.master g = account_ed25519 master /\
  check_grant s device g = Ok tt.
Proof.
  unfold build_grant in Hbuilt.
  apply rbind_ok in Hbuilt as (_ & _ & Hbuilt). apply rbind_ok in Hbuilt as (_ & _ & Hbuilt).
  apply rbind_ok in Hbuilt as (version & Hv & Hbuilt).
  apply rbind_ok in Hbuilt as (keys & Hk & Hbuilt).
  apply rbind_ok in Hbuilt as ([] & Hc & Hbuilt).
  apply rbind_ok in Hbuilt as (signature & Hs & Hbuilt).
  apply rbind_ok in Hbuilt as (certificate & Hcert & Hbuilt). injection Hbuilt as <-. simpl.
  apply flow_ok in Hc, Hs, Hcert. apply granted_keys_ok in Hk as (Hin & Hold & Hnew & Hlen).
  assert (version = (SignedList.version current + 1)%N) as Hversion.
  { apply ok_or_ok, bind_Some in Hv as (v & Hv & Hmax). apply checked_add_Some in Hv as [_ ->].
    destruct (_ <=? _)%N; by simplify_eq. }
  assert (merge_sort String.le keys ≡ₚ keys) as Hp by apply merge_sort_Permutation.
  apply certificate_built in Hcert as (Ec1 & Ec2 & Ec3 & Ec4); [|done].
  split_and!; [done|by rewrite Hp| | | |done|].
  - intros k Hk. rewrite Hp. by apply Hold.
  - intros k Hk. rewrite Hp in Hk. by apply Hnew.
  - intros Hnot. specialize (Hlen Hnot). unfold lenN in *. by rewrite Hp.
  - unfold check_grant. simpl.
    rewrite (signed_list_built master _ _ _ Hm Hs) by (by symmetry). simpl.
    rewrite (check_list_devices_perm keys) by done. simpl.
    rewrite (proj2 (existsb_in _ _)) by (by rewrite Hp).
    rewrite Ec1, Ec2, Ec3, N.eqb_refl, !bool_decide_true by done. simpl.
    rewrite Ec4. simpl. destruct Hown as [->|(a & -> & Ha)]; simpl; [done|].
    by rewrite Ha, bool_decide_false by naive_solver.
Qed.

(** A joiner keeps only a grant that is for it: what is saved is a list of
    the offered master that names the own key, and a certificate of that
    master for the own key and the version of the list; a device with another
    master of its own takes none. A grant that fails a check changes nothing. *)
Theorem apply_grant_sound (env env' : io_env) (d d' : disk) (s s' : Store.t) (own : string)
    (g : Grant.t) (r : result unit FlowError.t)
    (H : apply_grant env env' d s own g = (d', s', r)) :
  match check_grant s own g with
  | Err e => r = Err e /\ s' = s /\ d' = d
  | Ok _ =>
      verify_signed_list (SignedList.version (Grant.list g)) (SignedList.keys (Grant.list g))
        (Grant.master g) (SignedList.signature (Grant.list g)) = Ok tt /\
      own ∈ SignedList.keys (Grant.list g) /\
      VersionedDeviceCertificate.device_ed25519 (Grant.certificate g) = own /\
      VersionedDeviceCertificate.master_ed25519 (Grant.certificate g) = Grant.master g /\
      VersionedDeviceCertificate.first_list_version (Grant.certificate g) =
        SignedList.version (Grant.list g) /\
      verify_device_certificate (Grant.certificate g) [Grant.master g] = Ok tt /\
      (forall a, Store.master_key s = Ok (Some a) -> identity_ed25519 a = Grant.master g) /\
      (r = Ok tt ->
         StateData.signed_list (Store.data s') = Some (Grant.list g) /\
         StateData.device_certificate (Store.data s') = Some (Grant.certificate g) /\
         StateData.trust (Store.data s') = StateData.trust (Store.data s))
  end.
Proof.
  unfold apply_grant in H. destruct (check_grant s own g) as [[]|e] eqn:Hc; [|naive_solver].
  unfold check_grant in Hc.
  apply rbind_ok in Hc as ([] & Hl & Hc). apply rbind_ok in Hc as ([] & _ & Hc).
  destruct (negb _) eqn:Hn; [done|]. apply negb_false_iff in Hn.
  rewrite !andb_true_iff, existsb_in, !bool_decide_eq_true, N.eqb_eq in Hn.
  destruct Hn as (((Hin & Hd) & Hmaster) & Hversion).
  apply rbind_ok in Hc as ([] & Hcert & Hc). apply rbind_ok in Hc as (own_master & Hown & Hc).
  apply flow_ok in Hl, Hcert, Hown.
  split_and!; try done.
  - intros a Ha. rewrite Ha in Hown. injection Hown as <-.
    destruct (bool_decide _) eqn:Hb; [done|]. apply bool_decide_eq_false in Hb.
    by apply dec_stable.
  - intros ->. destruct (Store.set_signed_list env d s (Grant.list g)) as [[d1 s1] [u|]] eqn:E1;
      [|done].
    destruct (Store.set_device_certificate env' d1 s1 (Grant.certificate g)) as [[d2 s2] r2] eqn:E2.
    injection H as <- <- Hr. apply flow_ok in Hr. subst r2.
    apply commit_ok in E1, E2. rewrite E2, E1. done.
Qed.

(** ** The record of an open pairing *)

Context {E : EciesChannel} {P : PendingText} {HP : PendingTextLaws}.

(** A restart knows the pairing that was open: the record that a session
    saved is read back with its role and its rendezvous, so the rendezvous can
    be closed, and the slot is empty afterwards, so it is found only once. *)
Theorem stale_pairing_found (env env' : io_env) (d d1 d2 : disk) (s s1 s2 : Store.t)
    (session : PairingSession.t) (found : option StalePairing.t)
    (Hsave : save_pending env d s session = (d1, s1, Ok tt))
    (Htake : take_stale_pairing env' d1 s1 = (d2, s2, Ok found)) :
  found = Some (StalePairing.mk (PairingSession.role session)
                  (PairingSession.rendezvous_id session)) /\
  StateData.pending_pairing (Store.data s2) = None /\
  (forall env'' d3, take_stale_pairing env'' d3 s2 = (d3, s2, Ok None)).
Proof using HP.
  unfold save_pending in Hsave.
  destruct (pending_to_string _) as [text|] eqn:Et; [|done].
  destruct (Store.set_pending_pairing env d s text) as [[d' s'] r] eqn:E1.
  injection Hsave as -> -> Hr. apply flow_ok in Hr. subst r.
  unfold Store.set_pending_pairing in E1. apply commit_ok in E1.
  unfold take_stale_pairing in Htake. rewrite E1 in Htake. simpl in Htake.
  unfold clear_pending, Store.clear_pending_pairing in Htake. rewrite E1 in Htake.
  simpl in Htake. destruct (Store.commit _ _ _ _) as [[d3 s3] r] eqn:E2.
  simpl in Htake. injection Htake as -> -> Hr. apply rmap_ok in Hr as (u & Hr & <-).
  apply flow_ok in Hr. subst r. apply commit_ok in E2.
  assert (StateData.pending_pairing (Store.data s2) = None) as Hnone by by rewrite E2.
  split_and!; [|done|].
  - rewrite (pending_round _ _ Et). simpl. unfold stale_of. simpl.
    by destruct (PairingSession.role session).
  - intros env'' d4. unfold take_stale_pairing. by rewrite Hnone.
Qed.
End Grants.

(** ** Instances *)

#[local] Instance concrete_channel : EciesChannel := {|
  ecies := N;
  established := N;
  sealed_message := string;
  public_key := sample_key;
  establish_inbound _ text := Some (0%N, text);
  curve25519_from_base64 := b64_decode;
  establish_outbound _ _ plain := Some (0%N, plain);
  check_digit _ := 42%N;
  message_decode := strip_prefix "m";
  channel_decrypt n text := (n + 1, Some text)%N;
  channel_encrypt n plain := (n + 1, "m" +:+ plain)%N;
|}.

Definition seed (n : N) : @ecies concrete_channel := n.

#[local] Instance concrete_ecies_laws : EciesLaws.
Proof.
  split. intros ch plain. cbn [channel_encrypt concrete_channel snd].
  rewrite str_len_app. change (str_len "m") with 1%N. unfold PairingSession.payload_bound, CHANNEL_OVERHEAD.
  pose proof (N.div_mod (str_len plain + 16 + 2) 3).
  pose proof (N.mod_lt (str_len plain + 16 + 2) 3). lia.
Qed.

Definition joiner_device : JoinerDevice.t := JoinerDevice.mk (sample_key 6) (sample_key 106).

Definition current_list : SignedList.t := sample_list 4 [5]%N.

Definition sample_grant : Grant.t :=
  match build_grant (sample_account 1) current_list (sample_key 6) with
  | Ok g => g
  | Err _ => Grant.mk "" (VersionedDeviceCertificate.mk 0 "" "" "") (SignedList.mk 0 [] "")
  end.

Definition join_message : Message.t :=
  Message.Join 1
    [WireJoined.mk "azzurra"
       (WireId.mk (sample_key 106) (sample_key 6)
          (sample_sign 6 (device_id_signed_text (sample_key 106) (sample_key 1))))] [].

Definition signed_message : Message.t :=
  Message.Signed 1
    [WireSigned.mk "azzurra" (VersionedDeviceCertificate.signature (Grant.certificate sample_grant))
       (WireList.mk 5 (SignedList.keys (Grant.list sample_grant))
          (SignedList.signature (Grant.list sample_grant)))] [].

Definition known_messages : list Message.t :=
  [Message.Hello 1; Message.Offer 1 [WireNetwork.mk "azzurra" (sample_key 1)] []; join_message;
   signed_message; Message.Done 1 ["azzurra"]].

#[local] Instance concrete_pairing_text : PairingText := {|
  wire_to_vec := table_encode known_messages;
  wire_from_slice := table_decode known_messages;
|}.

Definition sample_rendezvous : Rendezvous.t := Rendezvous.mk sample_id Creator "2026-01-01T00:05:00Z".

Definition holder : PairingSession.t :=
  PairingSession.with_waiting (Some (seed 7)) (PairingSession.new Creator sample_id "azzurra" 1000).

Definition sealed_text (m : Message.t) : string :=
  "m" +:+ default "" (wire_to_vec m).

(** The holder: the hello of the joiner, the code, an echo of the own offer and
    the keys of the joiner. *)
Definition holder_ops : list flow_op :=
  [Accept [RelayMessage.mk 1 Joiner (b64url_encode (default "" (wire_to_vec (Message.Hello 1))))];
   SetMaster (sample_key 1);
   Confirm " 42 ";
   Accept [RelayMessage.mk 3 Joiner (sealed_text join_message);
           RelayMessage.mk 2 Creator (sealed_text (Message.Done 1 ["azzurra"]))]].

Lemma holder_signs_after_both_witness :
  exists pre typed mid messages post c d,
    holder_ops = (pre ++ Confirm typed :: mid) ++ Accept messages :: post /\
    PairingSession.code (after holder pre) = Some c /\
    parse_unsigned 255 (trim typed) = Some c /\
    PairingSession.offer_sent (after holder (pre ++ Confirm typed :: mid)) = true /\
    PairingSession.peer_device (after holder (pre ++ Confirm typed :: mid)) = None /\
    PairingSession.peer_device (after holder ((pre ++ Confirm typed :: mid) ++ [Accept messages])) =
      Some d /\
    PairingSession.confirmed_device (after holder holder_ops) = Some d.
Proof.
  destruct (PairingSession.seal_signed (after holder holder_ops) sample_grant) as [s' [o|e]] eqn:E.
  - apply (holder_signs_after_both (seed 7) sample_rendezvous "azzurra" 1000 holder s'
             (PairingLink.mk sample_id (sample_key 7)) holder_ops sample_grant o);
      [by_vm|exact E].
  - exfalso. apply (f_equal (fun p => match snd p with Ok _ => true | Err _ => false end)) in E.
    vm_compute in E. discriminate E.
Defined.

Example holder_run :
  PairingSession.confirmed_device (after holder holder_ops) = Some joiner_device /\
  PairingSession.peer_id_signature_valid (after holder holder_ops) = true /\
  PairingSession.status (after holder (take 1 holder_ops)) = StatusCode "42".
Proof. repeat split; by_vm. Qed.

Lemma ended_session_final_witness :
  let s := after holder (holder_ops ++ [Confirm "41"]) in
  PairingSession.stage s = Ended EndWrongCode /\
  PairingSession.channel s = None /\
  PairingSession.stage (after s [Cancel; SealDone; Accept []]) = Ended EndWrongCode.
Proof.
  assert (PairingSession.stage (after holder (holder_ops ++ [Confirm "41"])) = Ended EndWrongCode)
    as Hst by by_vm.
  destruct (ended_session_final holder (holder_ops ++ [Confirm "41"])
              [Cancel; SealDone; Accept []]) as (_ & Hc & Hs & _).
  - left. exists (seed 7), sample_rendezvous, "azzurra", 1000%Z, (PairingLink.mk sample_id (sample_key 7)).
    by_vm.
  - by_vm.
  - cbv zeta. split_and!; [exact Hst|exact Hc|]. rewrite Hs. exact Hst.
Defined.

Lemma sealed_within_limits_witness :
  match flow_step (after holder (take 2 holder_ops)) (Confirm "42") with
  | (s', Sealed o) =>
      pairing_message_fits (Outgoing.count o) (Outgoing.total_bytes o)
        (str_len (Outgoing.payload o)) = true
  | _ => False
  end.
Proof.
  destruct (flow_step (after holder (take 2 holder_ops)) (Confirm "42")) as [s' out] eqn:E.
  destruct out as [| |o|].
  1, 2, 4: exfalso; apply (f_equal (fun p => match snd p with Sealed _ => true | _ => false end)) in E;
    vm_compute in E; discriminate E.
  destruct (sealed_within_limits _ s' (Confirm "42") o E) as (_ & _ & H & _). exact H.
Defined.

(** ** The grant and the store *)

Definition listed_state : StateData.t :=
  StateData.set_list (Some (Grant.list sample_grant)) false false StateData.initial.
Definition granted_state : StateData.t :=
  StateData.set_certificate (Some (Grant.certificate sample_grant)) listed_state.
Definition pairing_states : list StateData.t :=
  [StateData.initial; listed_state; granted_state; StateData.set_pairing (Some "s") StateData.initial].

#[local] Instance pairing_state_text : StateText := {|
  state_to_vec d := ok_or (table_encode pairing_states d) "no text for this state";
  state_from_slice := table_decode pairing_states;
|}.

Lemma grant_accepted_witness :
  SignedList.version (Grant.list sample_grant) = 5%N /\
  sample_key 6 ∈ SignedList.keys (Grant.list sample_grant) /\
  check_grant (sample_store StateData.initial) (sample_key 6) sample_grant = Ok tt.
Proof.
  destruct (grant_accepted (sample_account 1) current_list (sample_key 6) sample_grant
              (sample_store StateData.initial)) as (H1 & H2 & _ & _ & _ & _ & H3).
  - apply sample_account_signs. reflexivity.
  - by_vm.
  - left. by_vm.
  - split_and!; [|exact H2|exact H3]. rewrite H1. reflexivity.
Defined.

Lemma apply_grant_sound_witness :
  let '(d', s', r) := apply_grant (sample_env WriteOk) (sample_env WriteOk) ∅
                        (sample_store StateData.initial) (sample_key 6) sample_grant in
  r = Ok tt /\ StateData.signed_list (Store.data s') = Some (Grant.list sample_grant) /\
  StateData.device_certificate (Store.data s') = Some (Grant.certificate sample_grant).
Proof.
  destruct (apply_grant (sample_env WriteOk) (sample_env WriteOk) ∅
              (sample_store StateData.initial) (sample_key 6) sample_grant) as [[d' s'] r] eqn:E.
  pose proof (apply_grant_sound _ _ _ _ _ _ _ _ _ E) as H.
  assert (check_grant (sample_store StateData.initial) (sample_key 6) sample_grant = Ok tt) as Hc
    by by_vm.
  rewrite Hc in H. destruct H as (_ & _ & _ & _ & _ & _ & _ & H).
  assert (r = Ok tt) as Hr by (apply (f_equal snd) in E; cbn [snd] in E; rewrite <- E; by_vm).
  destruct (H Hr) as (H1 & H2 & _). split_and!; assumption.
Defined.

#[local] Instance concrete_pending_text : PendingText := {|
  pending_to_string := table_encode [PendingRecord.mk 1 true sample_id 1000];
  pending_from_str := table_decode [PendingRecord.mk 1 true sample_id 1000];
|}.

#[local] Instance concrete_pending_laws : PendingTextLaws.
Proof. split. intros r text H. by apply table_round. Qed.

Lemma stale_pairing_found_witness :
  let '(d1, s1, _) := save_pending (sample_env WriteOk) ∅ (sample_store StateData.initial) holder in
  let '(_, s2, found) := take_stale_pairing (sample_env WriteOk) d1 s1 in
  found = Ok (Some (StalePairing.mk Creator sample_id)) /\
  StateData.pending_pairing (Store.data s2) = None.
Proof.
  destruct (save_pending (sample_env WriteOk) ∅ (sample_store StateData.initial) holder)
    as [[d1 s1] r1] eqn:E1.
  destruct (take_stale_pairing (sample_env WriteOk) d1 s1) as [[d2 s2] found] eqn:E2.
  assert (r1 = Ok tt) as -> by (apply (f_equal snd) in E1; cbn [snd] in E1; rewrite <- E1; by_vm).
  destruct found as [found|e].
  - destruct (stale_pairing_found _ _ _ _ _ _ _ _ holder found E1 E2) as (H1 & H2 & _).
    split; [f_equal; exact H1|exact H2].
  - exfalso. apply (f_equal fst) in E1. cbn [fst] in E1. injection E1 as <- <-.
    apply (f_equal (fun p => match snd p with Ok _ => true | Err _ => false end)) in E2.
    vm_compute in E2. discriminate E2.
Defined.
