(* ===== verification/Backoff.v ===== *)
(** * Waits (crates/cordiale-core/src/backoff.rs)

    The growth of the wait between two connections and the wait that a server
    asks for. A time of the system clock is its nanoseconds since 1970. The
    spread of a wait by a random [f64] is not modelled. *)

From S2P Require Import Prelude.
From S2P Require Import RustStr.
From S2P Require Import Interfaces.
From S2P Require Import Pacing.
From stdpp Require Import options.

Definition BASE_DELAY : N := secs 1.
Definition MAX_DELAY : N := secs 60.
Definition STABLE_AFTER : N := secs 30.
Definition MAX_RETRY_AFTER : N := secs 300.
Definition MAX_DOUBLINGS : N := 6.

(** [Duration::saturating_mul] and [min]. *)
Definition nominal_delay (failures : N) : N :=
  N.min (saturating_mul DURATION_MAX BASE_DELAY (N.shiftl 1 (N.min failures MAX_DOUBLINGS)))
    MAX_DELAY.

Module Backoff.
(** The count of failures in a row. *)
Record t := mk { failures : N }.

(** The part of [next_delay] that changes the count: the failures that choose
    the nominal wait, and the new count. *)
Definition next_failures (up_for : N) (b : t) : N * t :=
  let failures := if (STABLE_AFTER <=? up_for)%N then 0%N else failures b in
  (failures, mk (saturating_add U32_MAX failures 1)).
End Backoff.

(** ** [str::split_whitespace] *)

Fixpoint words_from (chars : list string) (word : string) : list string :=
  match chars with
  | [] => if is_empty word then [] else [word]
  | ch :: chars =>
      if is_whitespace ch
      then (if is_empty word then [] else [word]) ++ words_from chars ""
      else words_from chars (word +:+ ch)
  end.

Definition split_whitespace (s : string) : list string := words_from (utf8_chars s) "".

(** ** The date of an HTTP header *)

Definition MONTHS : list string :=
  ["Jan"; "Feb"; "Mar"; "Apr"; "May"; "Jun"; "Jul"; "Aug"; "Sep"; "Oct"; "Nov"; "Dec"].

Definition month_position (name : string) : option N :=
  match list_find (fun m => m = name) MONTHS with
  | Some (i, _) => Some (N.of_nat i)
  | None => None
  end.

(** The arithmetic of an [i64], which wraps around in a release build. *)
Definition days_from_civil (year : Z) (month day : N) : Z :=
  let year := if (month <=? 2)%N then wrap_i64 (year - 1) else year in
  let era := (year / 400)%Z in
  let year_of_era := (year mod 400)%Z in
  let shifted_month := ((Z.of_N month + 9) `rem` 12)%Z in
  let day_of_year := ((153 * shifted_month + 2) `quot` 5 + Z.of_N day - 1)%Z in
  let day_of_era :=
    (year_of_era * 365 + year_of_era `quot` 4 - year_of_era `quot` 100 + day_of_year)%Z in
  wrap_i64 (wrap_i64 (wrap_i64 (era * 146097) + day_of_era) - 719468).

(** The value of the date in seconds. *)
Definition parse_http_date (value : string) : option N :=
  match split_whitespace value with
  | _weekday :: day :: month_name :: year :: clock :: zone :: rest =>
      day ← parse_unsigned U32_MAX day;
      month ← month_position month_name;
      let month := (month + 1)%N in
      year ← parse_i64 year;
      if negb (bool_decide (zone = "GMT")) || negb (bool_decide (rest = [])) then None else
      match split_char ":" clock with
      | hour :: minute :: second :: fields =>
          hour ← parse_i64 hour;
          minute ← parse_i64 minute;
          second ← parse_i64 second;
          if negb (bool_decide (fields = []))
             || negb ((1 <=? day) && (day <=? 31))%N
             || negb ((0 <=? hour) && (hour <? 24))%Z
             || negb ((0 <=? minute) && (minute <? 60))%Z
             || negb ((0 <=? second) && (second <=? 60))%Z
          then None else
          let seconds :=
            wrap_i64 (wrap_i64 (days_from_civil year month day * 86400)
                      + hour * 3600 + minute * 60 + second) in
          if (0 <=? seconds)%Z then Some (Z.to_N seconds) else None
      | _ => None
      end
  | _ => None
  end.

(** The wait of a [Retry-After] value, counted from [now]. *)
Definition parse_retry_after (value : string) (now : Z) : option N :=
  let value := trim value in
  if negb (is_empty value) && all_chars is_ascii_digit value
  then secs <$> parse_unsigned U64_MAX value
  else when ← parse_http_date value;
       Some (Z.to_N (Z.of_N (secs when) - now)).

Definition rate_limit_wait `{J : Json} (header : option string) (body : option value) (now : Z)
    : option N :=
  match header ≫= fun value => parse_retry_after value now with
  | Some wait => Some wait
  | None =>
      body ← body;
      millis ← json_get body "retry_after_ms";
      millis ← as_u64 millis;
      Some (millis * 1000000)%N
  end.

Definition display_seconds (wait : N) : N :=
  let millis := (wait / 1000000)%N in
  N.max ((millis + 999) / 1000 mod 2 ^ 64) 1.
