(* ===== verification/Refusal.v ===== *)
(** * Typed refusals of the E2E routes (crates/cordiale-core/src/e2e_refusal.rs)

    The table of the known refusals, the reading of an answer by it, and the
    error of a route. *)

From S2P Require Import Prelude.
From S2P Require Import RustStr.
From S2P Require Import Interfaces.
From S2P Require Import Wire.
From S2P Require Import Backoff.
From stdpp Require Import options.

Module E2eRefusal.
Inductive t :=
| BadRequest | InvalidLine | UnknownDevice | TooLarge | TooLate | RateLimited | NotFound
| UpstreamUnreachable | SessionTimeout | DbUnavailable | ListedDevice | TooManyDevices
| MasterMismatch | StaleList | SameDevice | KeylessDevice | KeyTaken | RemovedDevice
| InboxFull | PairingAlreadyJoined | PairingOwnRendezvous | PairingNotJoined | PairingFull
| PairingNotAParty | RequestState | RequestsFull
| Unknown (status : N) (token : option string).

#[global] Instance eq_dec : EqDecision t.
Proof. solve_decision. Defined.

Definition KNOWN : list (t * string * N) := [
  (BadRequest, "bad_request", 400%N);
  (InvalidLine, "invalid_line", 400%N);
  (UnknownDevice, "unknown_device", 422%N);
  (TooLarge, "too_large", 413%N);
  (TooLate, "too_late", 422%N);
  (RateLimited, "rate_limited", 429%N);
  (NotFound, "not_found", 404%N);
  (UpstreamUnreachable, "upstream_unreachable", 502%N);
  (SessionTimeout, "session_timeout", 504%N);
  (DbUnavailable, "db_unavailable", 503%N);
  (ListedDevice, "listed_device", 409%N);
  (TooManyDevices, "too_many_devices", 409%N);
  (MasterMismatch, "master_mismatch", 409%N);
  (StaleList, "stale_list", 409%N);
  (SameDevice, "same_device", 409%N);
  (KeylessDevice, "keyless_device", 409%N);
  (KeyTaken, "key_taken", 409%N);
  (RemovedDevice, "removed_device", 409%N);
  (InboxFull, "inbox_full", 413%N);
  (PairingAlreadyJoined, "pairing_already_joined", 409%N);
  (PairingOwnRendezvous, "pairing_own_rendezvous", 409%N);
  (PairingNotJoined, "pairing_not_joined", 409%N);
  (PairingFull, "pairing_full", 413%N);
  (PairingNotAParty, "pairing_not_a_party", 403%N);
  (RequestState, "request_state", 409%N);
  (RequestsFull, "requests_full", 422%N) ].

Definition from_response (status : N) (token : option string) : t :=
  let known := token ≫= fun token =>
    find (fun row => bool_decide (row.1.2 = token) && bool_decide (row.2 = status)) KNOWN in
  match known with
  | Some (refusal, _, _) => refusal
  | None => Unknown status token
  end.

Definition entry (r : t) : option (t * string * N) :=
  find (fun row => bool_decide (row.1.1 = r)) KNOWN.

Definition status (r : t) : N :=
  match r with
  | Unknown status _ => status
  | _ => match entry r with Some (_, _, code) => code | None => 0%N end
  end.

Definition token (r : t) : option string :=
  match r with
  | Unknown _ token => token
  | _ => match entry r with Some (_, name, _) => Some name | None => None end
  end.

Definition is_known (r : t) : bool :=
  match r with Unknown _ _ => false | _ => true end.
End E2eRefusal.

Inductive ClaimRetry := Again | WaitForKeys.

#[global] Instance ClaimRetry_eq_dec : EqDecision ClaimRetry.
Proof. solve_decision. Defined.

Definition refusal_claim_retry (r : E2eRefusal.t) : option ClaimRetry :=
  match r with
  | E2eRefusal.KeyTaken => Some Again
  | E2eRefusal.KeylessDevice => Some WaitForKeys
  | _ => None
  end.

(** ** The errors of the client (crates/cordiale-core/src/client.rs) *)

(** An error of [reqwest] is the text it shows. *)
Module GrappaClientError.
Inductive t :=
| Http (e : string)
| InvalidUrl (e : string)
| Rejected (status : N) (code : option string) (retry_after : option N)
| TooLarge (limit : N).

#[global] Instance eq_dec : EqDecision t.
Proof. solve_decision. Defined.

Definition retry_after (e : t) : option N :=
  match e with Rejected _ _ wait => wait | _ => None end.
End GrappaClientError.

Module E2eRouteError.
Inductive t :=
| Refused (refusal : E2eRefusal.t) (retry_after : option N)
| Client (e : GrappaClientError.t)
| Unavailable
| Wire (e : WireError).

#[global] Instance eq_dec : EqDecision t.
Proof. solve_decision. Defined.

(** The two [From] instances. *)
Definition of_client (e : GrappaClientError.t) : t :=
  match e with
  | GrappaClientError.Rejected status code wait =>
      Refused (E2eRefusal.from_response status code) wait
  | other => Client other
  end.

Definition of_wire (e : WireError) : t := Wire e.

Definition claim_retry (e : t) : option ClaimRetry :=
  match e with Refused refusal _ => refusal_claim_retry refusal | _ => None end.

Definition retry_after (e : t) : option N :=
  match e with
  | Refused _ wait => wait
  | Client e => GrappaClientError.retry_after e
  | Unavailable | Wire _ => None
  end.
End E2eRouteError.

(** ** The table is one-to-one *)

Lemma known_rows row : row ∈ E2eRefusal.KNOWN ->
  E2eRefusal.from_response row.2 (Some row.1.2) = row.1.1 /\
  E2eRefusal.status row.1.1 = row.2 /\ E2eRefusal.token row.1.1 = Some row.1.2 /\
  E2eRefusal.is_known row.1.1 = true.
Proof.
  revert row. apply Forall_forall. unfold E2eRefusal.KNOWN.
  repeat constructor; vm_compute; reflexivity.
Qed.

Lemma known_row r : E2eRefusal.is_known r = true ->
  exists row, row ∈ E2eRefusal.KNOWN /\ row.1.1 = r.
Proof.
  intros H. destruct (E2eRefusal.entry r) as [row|] eqn:E.
  - exists row. apply find_some in E as [Hin Hr]. apply bool_decide_eq_true in Hr.
    split; [by apply list_elem_of_In|done].
  - exfalso. destruct r; vm_compute in E, H; discriminate.
Qed.

Lemma from_response_cases status token :
  (exists row, row ∈ E2eRefusal.KNOWN /\ row.2 = status /\ token = Some row.1.2 /\
     E2eRefusal.from_response status token = row.1.1) \/
  ((forall row, row ∈ E2eRefusal.KNOWN -> ~ (row.2 = status /\ token = Some row.1.2)) /\
     E2eRefusal.from_response status token = E2eRefusal.Unknown status token).
Proof.
  unfold E2eRefusal.from_response. destruct token as [token|]; cbn [mbind option_bind].
  - destruct (find _ _) as [[[r name] code]|] eqn:E.
    + left. apply find_some in E as [Hin Hb]. cbn in Hb.
      apply andb_true_iff in Hb as [H1 H2]. apply bool_decide_eq_true in H1, H2. subst.
      exists (r, token, status). split_and!; try done. by apply list_elem_of_In.
    + right. split; [|done]. intros row Hrow [<- Htok]. injection Htok as ->.
      apply list_elem_of_In in Hrow. pose proof (find_none _ _ E row Hrow) as Hb. cbn in Hb.
      by rewrite !bool_decide_true in Hb.
  - right. split; [|done]. by intros row _ [_ H].
Qed.

(** Reading an answer and giving back its status and token are inverse: no
    known refusal stands for two answers, a known one needs its documented
    status, and an unknown one keeps what the server said, so that no answer
    reads as another. *)
Theorem refusal_exact (status : N) (token : option string) (r : E2eRefusal.t) :
  let read := E2eRefusal.from_response status token in
  E2eRefusal.status read = status /\ E2eRefusal.token read = token /\
  (E2eRefusal.is_known r = true ->
     (read = r <-> status = E2eRefusal.status r /\ token = E2eRefusal.token r)) /\
  (E2eRefusal.is_known read = false <->
     forall row, row ∈ E2eRefusal.KNOWN -> ~ (row.2 = status /\ token = Some row.1.2)).
Proof.
  intros read. subst read.
  assert (forall r, E2eRefusal.is_known r = true ->
    E2eRefusal.from_response (E2eRefusal.status r) (E2eRefusal.token r) = r) as Hback.
  { intros r' (row & Hin & <-)%known_row. destruct (known_rows row Hin) as (H1 & H2 & H3 & _).
    by rewrite H2, H3. }
  destruct (from_response_cases status token) as [(row & Hin & <- & -> & ->)|[Hno ->]].
  - destruct (known_rows row Hin) as (H1 & H2 & H3 & H4). split_and!; try done.
    + intros Hr. split; [by intros <-|]. intros [E1 E2]. rewrite <- (Hback r Hr), <- E1, <- E2.
      done.
    + rewrite H4. split; [done|]. intros H. exfalso. by apply (H row Hin).
  - split_and!; try done. intros Hr. split; [by intros <-|].
    intros [-> ->]. pose proof (Hback r Hr) as Hb. destruct (known_row r Hr) as (row & Hin & <-).
    destruct (known_rows row Hin) as (H1 & H2 & H3 & _). exfalso. apply (Hno row Hin). by rewrite H2, H3.
Qed.
