(* ===== verification/IdentityRoutes.v ===== *)
(** * Bodies and answers of the identity routes
    (crates/cordiale-core/src/e2e_identity_routes.rs)

    A request is checked when it is built; the body that leaves is the record.
    Its JSON text, which serde derives, is not modelled. *)

From S2P Require Import Prelude.
From S2P Require Import RustStr.
From S2P Require Import Interfaces.
From S2P Require Import Wire.
From S2P Require Import Device.
From S2P Require Import Manage.
From stdpp Require Import options.

Section Fields.
Context {C : Crypto} {J : Json}.

Definition key_text (map : gmap string value) (name : string) : result string WireError :=
  let? text := required_str map name in
  let? _ := decode_key text in
  Ok text.

Definition signature_text (map : gmap string value) (name : string)
    : result string WireError :=
  let? text := required_str map name in
  let? _ := decode_signature text in
  Ok text.
End Fields.

Definition e2e_error (e : E2eError.t) : WireError :=
  match e with E2eError.Wire wire => wire | _ => BadSignature end.

Module DeviceIdRequest.
Record t := mk { ed25519 : string; curve25519 : string; sig : string }.

#[global] Instance eq_dec : EqDecision t.
Proof. solve_decision. Defined.

Definition new `{C : Crypto} (ed25519 curve25519 sig : string) : result t WireError :=
  let? _ := decode_key ed25519 in
  let? _ := decode_key curve25519 in
  let? _ := decode_signature sig in
  Ok (mk ed25519 curve25519 sig).
End DeviceIdRequest.

(** ** The time of the last activity *)

(** [digits(from, len)]: a slice of digits in range, as a number. *)
Definition iso_digits (text : string) (from len : nat) : option N :=
  if String.length text <? from + len then None else
  let part := str_slice from (from + len) text in
  if all_chars is_ascii_digit part then parse_unsigned U32_MAX part else None.

Definition iso_at (text : string) (index : nat) (wanted : ascii) : bool :=
  bool_decide (byte_at index text = Some wanted).

Fixpoint count_digits (s : string) : nat :=
  match s with
  | String c s => if is_ascii_digit c then S (count_digits s) else 0
  | "" => 0
  end.

Definition month_days (year month : N) : option N :=
  let leap := (year mod 4 =? 0)%N
              && (negb (year mod 100 =? 0)%N || (year mod 400 =? 0)%N) in
  if contains [1; 3; 5; 7; 8; 10; 12]%N month then Some 31%N
  else if contains [4; 6; 9; 11]%N month then Some 30%N
  else if (month =? 2)%N then Some (if leap then 29 else 28)%N
  else None.

(** The zone from [index] to the end of the text. *)
Definition iso_zone (text : string) (index : nat) : bool :=
  match byte_at index text with
  | None => false
  | Some c =>
      if ascii_eqb c "Z" || ascii_eqb c "z" then index + 1 =? String.length text
      else if ascii_eqb c "+" || ascii_eqb c "-" then
        match iso_digits text (index + 1) 2, iso_digits text (index + 4) 2 with
        | Some zone_hour, Some zone_minute =>
            iso_at text (index + 3) ":" && (zone_hour <=? 23)%N && (zone_minute <=? 59)%N
            && (index + 6 =? String.length text)
        | _, _ => false
        end
      else false
  end.

Definition is_iso_timestamp (text : string) : bool :=
  match iso_digits text 0 4, iso_digits text 5 2, iso_digits text 8 2,
        iso_digits text 11 2, iso_digits text 14 2, iso_digits text 17 2 with
  | Some year, Some month, Some day, Some hour, Some minute, Some second =>
      if negb (iso_at text 4 "-" && iso_at text 7 "-"
               && (iso_at text 10 "T" || iso_at text 10 "t")
               && iso_at text 13 ":" && iso_at text 16 ":") then false else
      match month_days year month with
      | None => false
      | Some days =>
          if (day =? 0)%N || (days <? day)%N || (23 <? hour)%N || (59 <? minute)%N
             || (60 <? second)%N then false else
          if iso_at text 19 "." then
            let fraction := count_digits (str_drop 20 text) in
            if fraction =? 0 then false else iso_zone text (20 + fraction)
          else iso_zone text 19
      end
  | _, _, _, _, _, _ => false
  end.

Module LastSeen.
Inductive t := NotSent | Never | At (text : string) | Unreadable.

#[global] Instance eq_dec : EqDecision t.
Proof. solve_decision. Defined.

Definition from_field `{J : Json} (field : option value) : t :=
  match field with
  | None => NotSent
  | Some v =>
      if is_null v then Never else
      match as_str v with
      | Some text => if is_iso_timestamp text then At text else Unreadable
      | None => Unreadable
      end
  end.
End LastSeen.

Module DeviceRecord.
Record t := mk {
  did : string;
  ed25519 : string;
  curve25519 : string;
  sig : string;
  last_seen : LastSeen.t;
  inserted_at : option string;
}.

#[global] Instance eq_dec : EqDecision t.
Proof. solve_decision. Defined.

Section Read.
Context {C : Crypto} {J : Json}.

Definition from_value (v : value) : result t WireError :=
  let? map := as_object v in
  let? ed25519 := key_text map "ed25519" in
  let? did := required_str map "did" in
  let? _ := if is_did_shape did
            then let? own := did_from_key_text ed25519 in
                 if bool_decide (own = did) then Ok tt else Err BadDid
            else Err BadDid in
  let? curve25519 := key_text map "curve25519" in
  let? sig := signature_text map "sig" in
  Ok (mk did ed25519 curve25519 sig (LastSeen.from_field (map !! "last_seen_at"))
        (text ← map !! "inserted_at" ≫= as_str;
         if is_iso_timestamp text then Some text else None)).

Definition list_from_value (v : value) : result (list t) WireError :=
  let? map := as_object v in
  let? devices := ok_or (map !! "devices") MissingField in
  let? devices := ok_or (as_array devices) BadFieldType in
  collect_result from_value devices.
End Read.

Definition matches (r : t) (request : DeviceIdRequest.t) : bool :=
  bool_decide (ed25519 r = DeviceIdRequest.ed25519 request)
  && bool_decide (curve25519 r = DeviceIdRequest.curve25519 request)
  && bool_decide (sig r = DeviceIdRequest.sig request).
End DeviceRecord.

(** ** The list *)

(** [windows(2).all(|pair| pair[0] < pair[1])]. *)
Fixpoint strictly_ascending (keys : list string) : bool :=
  match keys with
  | a :: (b :: _) as rest =>
      bool_decide (String.le a b) && negb (bool_decide (a = b)) && strictly_ascending rest
  | _ => true
  end.

Module ListRequest.
Record t := mk { master : string; ver : N; devices : list string; sig : string }.

#[global] Instance eq_dec : EqDecision t.
Proof. solve_decision. Defined.

Definition new `{C : Crypto} (master : string) (l : SignedList.t) : result t WireError :=
  let? _ := decode_key master in
  if negb (strictly_ascending (SignedList.keys l)) then Err BadDeviceCount else
  let? _ := check_list_devices (SignedList.keys l) in
  let? _ := map_err e2e_error
              (verify_signed_list (SignedList.version l) (SignedList.keys l) master
                 (SignedList.signature l)) in
  Ok (mk master (SignedList.version l) (SignedList.keys l) (SignedList.signature l)).
End ListRequest.

Module HeldList.
Record t := mk { master : string; list : SignedList.t }.

#[global] Instance eq_dec : EqDecision t.
Proof. solve_decision. Defined.

Definition from_value `{C : Crypto, J : Json} (v : value) : result t WireError :=
  let? map := as_object v in
  let? ver := ok_or (map !! "ver") MissingField in
  let? ver := ok_or (as_u64 ver) BadFieldType in
  let? version := if (ver <=? U32_MAX)%N && version_in_range ver then Ok ver
                  else Err BadVersion in
  let? devices := ok_or (map !! "devices") MissingField in
  let? devices := ok_or (as_array devices) BadFieldType in
  let? keys := collect_result (fun key =>
                 let? text := ok_or (as_str key) BadFieldType in
                 let? _ := decode_key text in
                 Ok text) devices in
  let? _ := check_list_devices keys in
  let? master := key_text map "master" in
  let? signature := signature_text map "sig" in
  Ok (mk master (SignedList.mk version keys signature)).
End HeldList.

(** ** The keys *)

Module SignedKey.
Record t := mk { key : string; sig : string }.

#[global] Instance eq_dec : EqDecision t.
Proof. solve_decision. Defined.

Definition new `{C : Crypto} (key sig : string) : result t WireError :=
  let? _ := decode_key key in
  let? _ := decode_signature sig in
  Ok (mk key sig).
End SignedKey.

Module KeysUploadRequest.
Record t := mk { one_time_keys : option (list SignedKey.t); fallback : option SignedKey.t }.

#[global] Instance eq_dec : EqDecision t.
Proof. solve_decision. Defined.

Definition new (one_time_keys : list SignedKey.t) (fallback : option SignedKey.t)
    : result t WireError :=
  if (ONE_TIME_KEYS_MAX <? lenN one_time_keys)%N then Err TooManyKeys else
  match one_time_keys, fallback with
  | [], None => Err BadPayload
  | [], Some _ => Ok (mk None fallback)
  | _, _ => Ok (mk (Some one_time_keys) fallback)
  end.
End KeysUploadRequest.

Module KeysHeld.
Record t := mk { one_time_keys : N; fallback : bool }.

#[global] Instance eq_dec : EqDecision t.
Proof. solve_decision. Defined.

Definition from_value `{J : Json} (v : value) : result t WireError :=
  let? map := as_object v in
  let? count := ok_or (map !! "one_time_keys") MissingField in
  let? count := ok_or (as_u64 count) BadFieldType in
  let? fallback := ok_or (map !! "fallback") MissingField in
  let? fallback := ok_or (as_bool fallback) BadFieldType in
  if (count <=? USIZE_MAX)%N then Ok (mk count fallback) else Err BadFieldType.
End KeysHeld.
