(* ===== verification/Account.v ===== *)
(** * The local accounts (crates/cordiale-core/src/e2e_account.rs)

    An account of the session library with the pair that owns it, and the
    accounts of this device. The keys of an account are a parameter; what the
    operating system draws at random is an argument. *)

From S2P Require Import Prelude.
From S2P Require Import RustStr.
From S2P Require Import State.
From stdpp Require Import options.

(** The keys of [vodozemac::olm::Account] that are handed out: the public
    texts that are not yet published, and the operations on them. *)
Class OlmKeys `{O : Olm} := {
  (** [Account::new], with what it draws. *)
  account_new : string -> account;
  (** [Account::generate_one_time_keys] and [generate_fallback_key]. *)
  generate_one_time : string -> N -> account -> account;
  generate_fallback : string -> account -> account;
  forget_fallback : account -> account;
  stored_one_time_count : account -> N;
  max_one_time : account -> N;
  (** The values of the maps [one_time_keys] and [fallback_key], as texts. *)
  one_time_texts : account -> list string;
  fallback_texts : account -> list string;
  mark_as_published : account -> account;
}.

(** The keys that are handed out are apart from the identity of the account. *)
Class OlmKeysLaws `{OlmKeys} : Prop := {
  identity_generate_one_time seed n a :
    identity_ed25519 (generate_one_time seed n a) = identity_ed25519 a /\
    identity_curve25519 (generate_one_time seed n a) = identity_curve25519 a;
  identity_generate_fallback seed a :
    identity_ed25519 (generate_fallback seed a) = identity_ed25519 a /\
    identity_curve25519 (generate_fallback seed a) = identity_curve25519 a;
  identity_forget_fallback a :
    identity_ed25519 (forget_fallback a) = identity_ed25519 a /\
    identity_curve25519 (forget_fallback a) = identity_curve25519 a;
  identity_mark_as_published a :
    identity_ed25519 (mark_as_published a) = identity_ed25519 a /\
    identity_curve25519 (mark_as_published a) = identity_curve25519 a;
  published_one_time a : one_time_texts (mark_as_published a) = [];
  published_fallback a : fallback_texts (mark_as_published a) = [];
}.

Module AccountError.
Inductive t := BadId | Exists | Missing.

#[global] Instance eq_dec : EqDecision t.
Proof. solve_decision. Defined.
End AccountError.

Module AccountId.
Record t := mk { network : string; device : string }.

#[global] Instance eq_dec : EqDecision t.
Proof. solve_decision. Defined.

#[global] Instance countable : Countable t.
Proof.
  refine (inj_countable' (fun i => (network i, device i)) (fun p => mk p.1 p.2) _).
  by intros [].
Defined.

Definition new (network device : string) : result t AccountError.t :=
  if is_empty network || is_empty device then Err AccountError.BadId else Ok (mk network device).
End AccountId.

Module LocalAccount.
Section Local.
Context `{K : OlmKeys}.

Record t := mk { id : AccountId.t; account : State.account }.

Definition create (seed : string) (id : AccountId.t) : t := mk id (account_new seed).

Definition from_account (id : AccountId.t) (a : State.account) : t := mk id a.

Definition with_account (l : t) (a : State.account) : t := mk (id l) a.

Definition sign (l : t) (message : string) : string := sign_text (account l) message.

Definition generate_one_time_keys (seed : string) (count : N) (l : t) : t :=
  if (0 <? count)%N then with_account l (generate_one_time seed count (account l)) else l.

Definition curve25519 (l : t) : string := identity_curve25519 (account l).
Definition ed25519 (l : t) : string := identity_ed25519 (account l).

(** The account and how many keys it made. *)
Definition replenish_one_time_keys (seed : string) (target : N) (l : t) : t * N :=
  let target := N.min target (max_one_time (account l)) in
  let missing := (target - stored_one_time_count (account l))%N in
  (if (0 <? missing)%N then with_account l (generate_one_time seed missing (account l)) else l,
   missing).

Definition one_time_key_count (l : t) : N := stored_one_time_count (account l).

Definition unpublished_one_time_keys (l : t) : list string :=
  merge_sort String.le (one_time_texts (account l)).

Definition rotate_fallback_key (seed : string) (l : t) : t :=
  with_account l (generate_fallback seed (forget_fallback (account l))).

Definition unpublished_fallback_key (l : t) : option string := head (fallback_texts (account l)).

Definition mark_published (l : t) : t := with_account l (mark_as_published (account l)).
End Local.
#[global] Arguments t {_}.
End LocalAccount.

Module AccountStore.
Section Accounts.
Context `{K : OlmKeys}.

Definition t : Type := gmap AccountId.t LocalAccount.t.

Definition create (seed : string) (id : AccountId.t) (s : t)
    : t * result LocalAccount.t AccountError.t :=
  match s !! id with
  | Some _ => (s, Err AccountError.Exists)
  | None => let l := LocalAccount.create seed id in (<[id := l]> s, Ok l)
  end.

Definition get (s : t) (id : AccountId.t) : result LocalAccount.t AccountError.t :=
  ok_or (s !! id) AccountError.Missing.

(** A change through [get_mut]. *)
Definition update (s : t) (id : AccountId.t) (change : LocalAccount.t -> LocalAccount.t)
    : t * result unit AccountError.t :=
  match s !! id with
  | Some l => (<[id := change l]> s, Ok tt)
  | None => (s, Err AccountError.Missing)
  end.

Definition remove (s : t) (id : AccountId.t) : t * option LocalAccount.t :=
  (delete id s, s !! id).

Definition len (s : t) : N := N.of_nat (size s).
Definition empty (s : t) : bool := bool_decide (s = ∅).
End Accounts.
End AccountStore.
