(* ===== verification/SendDoor.v ===== *)
(** * The send door and the consent requests (crates/cordiale-core/src/rest.rs)

    The request of the E2E send door with its checks, the consent requests of
    two peers, and the tests of a target (slash.rs). *)

From S2P Require Import Prelude.
From S2P Require Import RustStr.
From S2P Require Import Interfaces.
From S2P Require Import Wire.
From S2P Require Import DeviceRoutes.
From stdpp Require Import options.

(** ** Targets *)

(** The lock sign U+1F512 in UTF-8. *)
Definition QUERY_LOCK_LABEL : string := utf8_of [240; 159; 148; 146]%N.

Definition one_of (chars : list ascii) (c : ascii) : bool := contains chars c.

Definition is_channel (name : string) : bool :=
  match name with
  | String c _ => one_of ["#"; "&"; "!"; "+"]%char c
  | "" => false
  end.

Definition DEFAULT_PREFIXES : list ascii := ["~"; "&"; "@"; "%"; "+"]%char.

Fixpoint is_statusmsg_target (target : string) : bool :=
  match target with
  | "" => false
  | String c remainder =>
      if negb (one_of DEFAULT_PREFIXES c) then false
      else is_channel remainder || is_statusmsg_target remainder
  end.

Definition NEWLINE : ascii := "010".
Definition RETURN : ascii := "013".

(** A text with one of the characters that no target has. *)
Definition breaks_line (text : string) : bool :=
  any_char (one_of [RETURN; NEWLINE; "000"; " "]%char) text.

(** The test of [E2eSendRequest::new] and of [valid_e2e_peer_target]. *)
Definition valid_e2e_peer_target (target : string) : bool :=
  negb (is_empty target) && negb (contains_str QUERY_LOCK_LABEL target)
  && negb (is_channel target) && negb (is_statusmsg_target target)
  && negb (breaks_line target).

(** [str::lines().count()]: the last line counts when it is not empty. *)
Fixpoint lines_count (s : string) : N :=
  match s with
  | "" => 0
  | String c "" => 1
  | String c s => (if ascii_eqb c NEWLINE then 1 else 0) + lines_count s
  end.

(** ** The send door *)

Module E2eSendVerb.
Inductive t := KeyReq | PkMsg | Msg | Nack.

#[global] Instance eq_dec : EqDecision t.
Proof. solve_decision. Defined.

Definition parse (text : string) : result t WireError :=
  if decide (text = "keyreq") then Ok KeyReq
  else if decide (text = "pkmsg") then Ok PkMsg
  else if decide (text = "msg") then Ok Msg
  else if decide (text = "nack") then Ok Nack
  else Err BadVerb.

Definition frame_verb (v : t) : Verb.t :=
  match v with
  | KeyReq => Verb.KeyReq
  | PkMsg => Verb.PkMsg
  | Msg => Verb.Msg
  | Nack => Verb.Nack
  end.
End E2eSendVerb.

Module E2eSendPriority.
Inductive t := Control | Text | Reactive.

#[global] Instance eq_dec : EqDecision t.
Proof. solve_decision. Defined.
End E2eSendPriority.

(** The arms of the [match] on the text of a priority. *)
Definition priority_of (text : string) : result E2eSendPriority.t WireError :=
  if decide (text = "control") then Ok E2eSendPriority.Control
  else if decide (text = "text") then Ok E2eSendPriority.Text
  else if decide (text = "reactive") then Ok E2eSendPriority.Reactive
  else Err BadPriority.

Module E2eSendRequest.
Record t := mk {
  target : string;
  verb : E2eSendVerb.t;
  from : string;
  to : string;
  payload : string;
  priority : option E2eSendPriority.t;
  expires_at : option N;
}.

Definition FIELDS : list string :=
  ["target"; "verb"; "from"; "to"; "payload"; "priority"; "expires_at"].

Section Request.
Context {C : Crypto} {J : Json}.

Definition expiry_allowed (verb : E2eSendVerb.t) (priority : option E2eSendPriority.t)
    (deadline : N) : bool :=
  bool_decide (priority = Some E2eSendPriority.Control)
  && match verb with E2eSendVerb.Msg | E2eSendVerb.PkMsg => true | _ => false end
  && negb (deadline =? 0)%N && (deadline <=? Z.to_N I64_MAX)%N.

Definition new (target : string) (verb : E2eSendVerb.t) (from to payload : string)
    (priority : option E2eSendPriority.t) (expires_at : option N) : result t WireError :=
  if negb (valid_e2e_peer_target target) then Err BadTarget else
  let? _ := check_addresses (E2eSendVerb.frame_verb verb) from to in
  if (SEND_PAYLOAD_MAX_BYTES <? str_len payload)%N then Err PayloadTooLarge else
  if (SEND_PAYLOAD_MAX_LINES <? lines_count payload)%N then Err TooManyLines else
  let? _ := check_compact_json payload in
  match expires_at with
  | Some deadline =>
      if negb (expiry_allowed verb priority deadline) then Err BadExpiry
      else Ok (mk target verb from to payload priority expires_at)
  | None => Ok (mk target verb from to payload priority expires_at)
  end.

Definition read_priority (map : gmap string value)
    : result (option E2eSendPriority.t) WireError :=
  match map !! "priority" with
  | None => Ok None
  | Some v =>
      match as_str v with
      | Some text => rmap Some (priority_of text)
      | None => Err BadFieldType
      end
  end.

Definition read_expires_at (map : gmap string value) : result (option N) WireError :=
  match map !! "expires_at" with
  | None => Ok None
  | Some v =>
      match as_f64 v with
      | Some _ => rmap Some (ok_or (as_u64 v) BadExpiry)
      | None => Err BadFieldType
      end
  end.

Definition from_value (v : value) : result t WireError :=
  let? map := as_object v in
  let? _ := reject_unknown_fields map FIELDS in
  let? verb := rbind (required_str map "verb") E2eSendVerb.parse in
  let? priority := read_priority map in
  let? expires_at := read_expires_at map in
  let? target := required_str map "target" in
  let? from := required_str map "from" in
  let? to := required_str map "to" in
  let? payload := required_str map "payload" in
  new target verb from to payload priority expires_at.

Definition deadline_passed (r : t) (now_unix_secs : N) : bool :=
  match expires_at r with Some deadline => (deadline <=? now_unix_secs)%N | None => false end.
End Request.
End E2eSendRequest.

(** ** Consent requests *)

Definition E2E_CONSENT_PAYLOAD_MAX_BYTES : N := 1024.

Module E2eRequestState.
Inductive t := Incoming | Outgoing | Accepted | Refused | Expired.

#[global] Instance eq_dec : EqDecision t.
Proof. solve_decision. Defined.

Definition parse (text : string) : result t WireError :=
  if decide (text = "incoming") then Ok Incoming
  else if decide (text = "outgoing") then Ok Outgoing
  else if decide (text = "accepted") then Ok Accepted
  else if decide (text = "refused") then Ok Refused
  else if decide (text = "expired") then Ok Expired
  else Err BadFieldType.

Definition as_str (s : t) : string :=
  match s with
  | Incoming => "incoming"
  | Outgoing => "outgoing"
  | Accepted => "accepted"
  | Refused => "refused"
  | Expired => "expired"
  end.
End E2eRequestState.

Section Optional.
Context {J : Json}.

Definition optional_payload (map : gmap string value) (field : string)
    : result (option string) WireError :=
  match map !! field with
  | None => Ok None
  | Some v =>
      if is_null v then Ok None else
      match as_str v with
      | Some payload =>
          if (str_len payload <=? E2E_CONSENT_PAYLOAD_MAX_BYTES)%N then Ok (Some payload)
          else Err PayloadTooLarge
      | None => Err BadFieldType
      end
  end.

Definition optional_string (map : gmap string value) (field : string)
    : result (option string) WireError :=
  match map !! field with
  | None => Ok None
  | Some v => if is_null v then Ok None else rmap Some (ok_or (as_str v) BadFieldType)
  end.
End Optional.

Module E2eRequest.
Record t := mk {
  id : N;
  peer : string;
  state : E2eRequestState.t;
  payload : option string;
  at_ : string;
  expires_at : option string;
}.

Definition FIELDS : list string := ["id"; "peer"; "state"; "payload"; "at"; "expires_at"].

Definition from_value `{J : Json} (v : value) : result t WireError :=
  let? map := as_object v in
  let? _ := reject_unknown_fields map FIELDS in
  let? id := ok_or (id ← map !! "id" ≫= as_u64; if (0 <? id)%N then Some id else None)
               MissingField in
  let? peer := required_str map "peer" in
  if negb (valid_e2e_peer_target peer) then Err BadTarget else
  let? state := rbind (required_str map "state") E2eRequestState.parse in
  let? payload := optional_payload map "payload" in
  let? at_ := required_str map "at" in
  if is_empty at_ then Err MissingField else
  let? expires_at := optional_string map "expires_at" in
  Ok (mk id peer state payload at_ expires_at).
End E2eRequest.

Module E2eRequestList.
Record t := mk { requests : list E2eRequest.t }.

Definition from_value `{J : Json} (v : value) : result t WireError :=
  let? map := as_object v in
  let? _ := reject_unknown_fields map ["requests"] in
  let? values := ok_or (map !! "requests" ≫= as_array) MissingField in
  let? requests := collect_result E2eRequest.from_value values in
  Ok (mk requests).
End E2eRequestList.

Module E2eConsentLine.
Record t := mk { from : string; payload : string }.

Definition new `{C : Crypto, J : Json} (from payload : string) : result t WireError :=
  if negb (is_did_shape from) then Err BadDid else
  if (E2E_CONSENT_PAYLOAD_MAX_BYTES <? str_len payload)%N then Err PayloadTooLarge else
  let? _ := check_compact_json payload in
  Ok (mk from payload).
End E2eConsentLine.

Module E2eRequestCreate.
Record t := mk { target : string; from : string; payload : string }.

Definition new (target : string) (line : E2eConsentLine.t) : result t WireError :=
  if negb (valid_e2e_peer_target target) then Err BadTarget
  else Ok (mk target (E2eConsentLine.from line) (E2eConsentLine.payload line)).
End E2eRequestCreate.
