(* ===== verification/SelfCopy.v ===== *)
(** * Copies to the own devices (crates/cordiale-core/src/e2e_selfcopy.rs)

    The plan of the copies of one message, the limits of an inbox, the states
    of a delivery and the drain of an inbox. The cipher and the sink of a drain
    are objects with a state of their own. *)

From S2P Require Import Prelude.
From S2P Require Import RustStr.
From S2P Require Import Wire.
From stdpp Require Import options.

(** The trait [CopyCipher]; [cipher] is the state of the object. *)
Class CopyCipher := {
  cipher : Type;
  copy_encrypt : cipher -> string -> string -> cipher * option string;
  copy_decrypt : cipher -> string -> string -> cipher * option string;
}.

Module OutgoingCopy.
Record t := mk { target_did : string; item_id : string; ciphertext : string }.

#[global] Instance eq_dec : EqDecision t.
Proof. solve_decision. Defined.
End OutgoingCopy.

Module CopyPlan.
Record t := mk { copies : list OutgoingCopy.t; failed : list string }.

#[global] Instance eq_dec : EqDecision t.
Proof. solve_decision. Defined.
End CopyPlan.

Definition inbox_accepts (total_bytes sender_bytes next_len : N) : bool :=
  match checked_add USIZE_MAX next_len INBOX_ENTRY_COST_BYTES with
  | None => false
  | Some cost =>
      match checked_add USIZE_MAX total_bytes cost with
      | Some sum => (sum <=? INBOX_MAX_BYTES)%N
      | None => false
      end
      && match checked_add USIZE_MAX sender_bytes cost with
         | Some sum => (sum <=? INBOX_SENDER_MAX_BYTES)%N
         | None => false
         end
  end.

Definition is_expired (created_at now : N) : bool :=
  (saturating_add U64_MAX created_at INBOX_EXPIRY_SECS <=? now)%N.

(** ** The plan *)

Section Plan.
Context {H : CopyCipher}.
Context (own_did msgid plaintext : string).

(** One turn of the loop over the devices, with the set of those seen. *)
Definition plan_step (s : cipher * gset string * CopyPlan.t) (did : string)
    : cipher * gset string * CopyPlan.t :=
  let '(c, seen, plan) := s in
  if decide (did = own_did) then s else
  if decide (did ∈ seen) then s else
  let seen := {[did]} ∪ seen in
  let '(c, text) := copy_encrypt c did plaintext in
  match text with
  | Some ciphertext =>
      if inbox_accepts 0 0 (str_len ciphertext)
      then (c, seen,
            CopyPlan.mk (CopyPlan.copies plan ++
                           [OutgoingCopy.mk did (msgid +:+ "." +:+ did) ciphertext])
              (CopyPlan.failed plan))
      else (c, seen, CopyPlan.mk (CopyPlan.copies plan) (CopyPlan.failed plan ++ [did]))
  | None => (c, seen, CopyPlan.mk (CopyPlan.copies plan) (CopyPlan.failed plan ++ [did]))
  end.

Definition build_copies (c : cipher) (peer_dids : list string) : cipher * CopyPlan.t :=
  let '(c, _, plan) := foldl plan_step (c, ∅, CopyPlan.mk [] []) peer_dids in (c, plan).
End Plan.

(** ** Deliveries *)

Module CopyState.
Inductive t := Queued (created_at : N) | Delivered | Expired | Missing.

#[global] Instance eq_dec : EqDecision t.
Proof. solve_decision. Defined.
End CopyState.

Module DeliveryTracker.
Definition t := gmap (string * string) CopyState.t.

Definition queued (item_id target_did : string) (created_at : N) (s : t) : t :=
  <[(item_id, target_did) := CopyState.Queued created_at]> s.

Definition settle (item_id target_did : string) (next : CopyState.t) (s : t) : t :=
  match s !! (item_id, target_did) with
  | Some (CopyState.Queued _) => <[(item_id, target_did) := next]> s
  | _ => s
  end.

Definition acknowledged (item_id target_did : string) (s : t) : t :=
  settle item_id target_did CopyState.Delivered s.

Definition missing (item_id target_did : string) (s : t) : t :=
  settle item_id target_did CopyState.Missing s.

Definition expire (now : N) (s : t) : t :=
  (fun state =>
     match state with
     | CopyState.Queued created_at =>
         if is_expired created_at now then CopyState.Expired else state
     | _ => state
     end) <$> s.

Definition state (item_id target_did : string) (s : t) : option CopyState.t :=
  s !! (item_id, target_did).

Definition is_delivered (item_id target_did : string) (s : t) : bool :=
  bool_decide (state item_id target_did s = Some CopyState.Delivered).
End DeliveryTracker.

(** ** The drain *)

Module InboxItem.
Record t := mk { id : string; sender_did : string; created_at : N; ciphertext : string }.

#[global] Instance eq_dec : EqDecision t.
Proof. solve_decision. Defined.
End InboxItem.

Module DrainOutcome.
Inductive t := Stored | Duplicate | Expired | BeforePairing | Undecryptable | StoreFailed.

#[global] Instance eq_dec : EqDecision t.
Proof. solve_decision. Defined.

Definition acknowledge (o : t) : bool := negb (bool_decide (o = StoreFailed)).
End DrainOutcome.

Section Drain.
Context {H : CopyCipher} {K : Type}.
(** The sink, with its state: whether it wrote the item. *)
Context (sink : K -> InboxItem.t -> string -> K * bool).
Context (now paired_at : N).

Record drain := mk_drain { seen : gset string; drain_cipher : cipher; sunk : K }.

Definition drain_item (s : drain) (item : InboxItem.t) : drain * DrainOutcome.t :=
  if decide (InboxItem.id item ∈ seen s) then (s, DrainOutcome.Duplicate) else
  if is_expired (InboxItem.created_at item) now then (s, DrainOutcome.Expired) else
  if (InboxItem.created_at item <? paired_at)%N then (s, DrainOutcome.BeforePairing) else
  let '(c, plain) := copy_decrypt (drain_cipher s) (InboxItem.sender_did item)
                       (InboxItem.ciphertext item) in
  match plain with
  | None => (mk_drain (seen s) c (sunk s), DrainOutcome.Undecryptable)
  | Some plain =>
      let '(k, written) := sink (sunk s) item plain in
      if written : bool
      then (mk_drain ({[InboxItem.id item]} ∪ seen s) c k, DrainOutcome.Stored)
      else (mk_drain (seen s) c k, DrainOutcome.StoreFailed)
  end.

Definition drain_inbox (s : drain) (items : list InboxItem.t)
    : drain * list (string * DrainOutcome.t) :=
  run (fun s item => let '(s, o) := drain_item s item in (s, (InboxItem.id item, o))) s items.
End Drain.
#[global] Arguments drain {H} K.

(** ** Theorems *)

(** *** One copy for each sibling *)

Section PlanFacts.
Context {H : CopyCipher}.
Context (own_did msgid plaintext : string).

(** The devices that the plan names. *)
Definition planned (p : CopyPlan.t) : list string :=
  (OutgoingCopy.target_did <$> CopyPlan.copies p) ++ CopyPlan.failed p.

Record plan_ok (dids : list string) (seen : gset string) (p : CopyPlan.t) : Prop := {
  plan_seen : forall did, did ∈ planned p <-> did ∈ seen;
  plan_dids : forall did, did ∈ seen <-> did ∈ dids /\ did <> own_did;
  plan_once : NoDup (planned p);
  plan_fits : Forall (fun copy =>
    OutgoingCopy.item_id copy = msgid +:+ "." +:+ OutgoingCopy.target_did copy /\
    inbox_accepts 0 0 (str_len (OutgoingCopy.ciphertext copy)) = true) (CopyPlan.copies p);
}.

Lemma plan_step_ok dids c seen p did :
  plan_ok dids seen p ->
  let '(_, seen', p') := plan_step own_did msgid plaintext (c, seen, p) did in
  plan_ok (dids ++ [did]) seen' p'.
Proof.
  intros [Hseen Hdids Honce Hfits]. unfold plan_step.
  destruct (decide (did = own_did)) as [->|Hown].
  { split; auto. intros d. rewrite Hdids. set_solver. }
  destruct (decide (did ∈ seen)) as [Hin|Hnew].
  { split; auto. intros d. rewrite Hdids, elem_of_app, list_elem_of_singleton.
    apply Hdids in Hin as [Hin _]. naive_solver. }
  assert (did ∉ planned p) as Hnot by (by rewrite Hseen).
  assert (forall d, d ∈ {[did]} ∪ seen <-> d ∈ dids ++ [did] /\ d <> own_did) as Hd.
  { intros d. rewrite elem_of_union, Hdids. set_solver. }
  destruct (copy_encrypt c did plaintext) as [c' [text|]];
    [destruct (inbox_accepts 0 0 (str_len text)) eqn:Hfit|].
  - split; [|done| |].
    + intros d. unfold planned in *. cbn. rewrite fmap_app. cbn. set_solver.
    + unfold planned in *. cbn. rewrite fmap_app. cbn. rewrite <-app_assoc. cbn.
      apply NoDup_Permutation_proper with (x := did :: planned p).
      * unfold planned. by rewrite Permutation_middle.
      * by constructor.
    + cbn. apply Forall_app. by repeat constructor.
  - split; [|done| |done]; unfold planned in *; cbn; [intros d; set_solver|].
    rewrite app_assoc, Permutation_app_comm. by constructor.
  - split; [|done| |done]; unfold planned in *; cbn; [intros d; set_solver|].
    rewrite app_assoc, Permutation_app_comm. by constructor.
Qed.

(** Every sibling is in the plan once. Each device that the plan is for,
    without the own one, has exactly one copy or one failure, no other device
    has any, and each copy fits an empty inbox and has an id of its own. *)
Theorem plan_covers_siblings (c : cipher) (peer_dids : list string) :
  let '(_, plan) := build_copies own_did msgid plaintext c peer_dids in
  (forall did, did ∈ planned plan <-> did ∈ peer_dids /\ did <> own_did) /\
  NoDup (planned plan) /\ NoDup (OutgoingCopy.item_id <$> CopyPlan.copies plan) /\
  Forall (fun copy => inbox_accepts 0 0 (str_len (OutgoingCopy.ciphertext copy)) = true)
    (CopyPlan.copies plan).
Proof.
  unfold build_copies.
  enough (forall dids c seen p, plan_ok dids seen p ->
    let '(_, seen', p') := foldl (plan_step own_did msgid plaintext) (c, seen, p) peer_dids in
    plan_ok (dids ++ peer_dids) seen' p') as Hall.
  { specialize (Hall [] c ∅ (CopyPlan.mk [] [])).
    destruct (foldl _ _ _) as [[c' seen] plan]. destruct Hall as [Hseen Hdids Honce Hfits].
    { split; [set_solver|set_solver|constructor|constructor]. }
    split_and!; [intros did; by rewrite Hseen|done| |].
    - unfold planned in Honce. apply NoDup_app in Honce as [Honce _]. revert Honce Hfits.
      generalize (CopyPlan.copies plan) as l. induction l as [|copy l IH]; cbn; [constructor|].
      intros [Hn Hl]%NoDup_cons [[Hid _] Hr]%Forall_cons. constructor; [|auto].
      intros (other & Heq & Hin)%list_elem_of_fmap. apply Hn.
      rewrite Forall_forall in Hr. destruct (Hr other Hin) as [Hid' _].
      rewrite Hid, Hid' in Heq. apply (inj (String.append _)), (inj (String.append _)) in Heq. rewrite Heq.
      by apply list_elem_of_fmap_2.
    - eapply Forall_impl; [exact Hfits|]. by intros copy [_ ?]. }
  clear c. induction peer_dids as [|did dids' IH]; intros dids c seen p Hp; cbn [foldl].
  { by rewrite app_nil_r. }
  pose proof (plan_step_ok dids c seen p did Hp) as Hs.
  destruct (plan_step _ _ _ _ _) as [[c1 seen1] p1].
  specialize (IH _ c1 _ _ Hs). by rewrite <-app_assoc in IH.
Qed.
End PlanFacts.

(** *** A drain stores each item once *)

Section DrainFacts.
Context {H : CopyCipher} {K : Type} (sink : K -> InboxItem.t -> string -> K * bool).
Context (now paired_at : N).

Definition stored_ids (outs : list (string * DrainOutcome.t)) : list string :=
  (filter (fun out => out.2 = DrainOutcome.Stored) outs).*1.

Lemma drain_item_seen (s : drain K) item :
  let '(s', o) := drain_item sink now paired_at s item in
  match o with
  | DrainOutcome.Stored =>
      InboxItem.id item ∉ seen s /\ seen s' = {[InboxItem.id item]} ∪ seen s
  | DrainOutcome.Duplicate => InboxItem.id item ∈ seen s /\ seen s' = seen s
  | _ => InboxItem.id item ∉ seen s /\ seen s' = seen s
  end.
Proof.
  unfold drain_item. destruct (decide _); [done|]. destruct (is_expired _ _); [done|].
  destruct (_ <? _)%N; [done|]. destruct (copy_decrypt _ _ _) as [c [plain|]]; [|done].
  by destruct (sink _ _ _) as [k []].
Qed.

(** An item is stored once. Whatever the cipher and the sink do, a drain
    gives one outcome for each item in order; no id is stored twice or stored
    again when it was seen before; the ids seen after it are those seen before
    and those stored; and an item is a duplicate only when it was stored. So an
    item that the sink could not write is not seen, and the next drain reads
    it again. *)
Theorem drain_once (s : drain K) (items : list InboxItem.t) :
  let '(s', outs) := drain_inbox sink now paired_at s items in
  outs.*1 = InboxItem.id <$> items /\
  NoDup (stored_ids outs) /\ (forall id, id ∈ stored_ids outs -> id ∉ seen s) /\
  (forall id, id ∈ seen s' <-> id ∈ seen s \/ id ∈ stored_ids outs) /\
  (forall id, (id, DrainOutcome.Duplicate) ∈ outs -> id ∈ seen s \/ id ∈ stored_ids outs) /\
  (forall id, (id, DrainOutcome.StoreFailed) ∈ outs -> id ∉ stored_ids outs ->
     id ∉ seen s' /\ DrainOutcome.acknowledge DrainOutcome.StoreFailed = false).
Proof.
  enough (let '(s', outs) := drain_inbox sink now paired_at s items in
    outs.*1 = InboxItem.id <$> items /\
    NoDup (stored_ids outs) /\ (forall id, id ∈ stored_ids outs -> id ∉ seen s) /\
    (forall id, id ∈ seen s' <-> id ∈ seen s \/ id ∈ stored_ids outs) /\
    (forall id, (id, DrainOutcome.Duplicate) ∈ outs -> id ∈ seen s \/ id ∈ stored_ids outs) /\
    (forall id, (id, DrainOutcome.StoreFailed) ∈ outs -> id ∉ seen s)) as Hall.
  { destruct (drain_inbox _ _ _ _ _) as [s' outs]. destruct Hall as (H1 & H2 & H3 & H4 & H5 & H6).
    split_and!; auto. intros id Hf Hn. split; [|done]. rewrite H4. specialize (H6 id Hf). tauto. }
  unfold drain_inbox. revert s. induction items as [|item items IH]; intros s; cbn [run].
  { split_and!; [done|constructor|set_solver|set_solver|set_solver|set_solver]. }
  pose proof (drain_item_seen s item) as Hi.
  destruct (drain_item _ _ _ _ _) as [s1 o]. specialize (IH s1).
  destruct (run _ s1 items) as [s2 outs]. destruct IH as (H1 & H2 & H3 & H4 & H5 & H6).
  rewrite fmap_cons, H1. split; [done|].
  unfold stored_ids in *. rewrite filter_cons. cbn [snd].
  destruct (decide (o = DrainOutcome.Stored)) as [->|Ho].
  - destruct Hi as [Hn Hs]. cbn. split_and!.
    + constructor; [|done]. intros Hin. apply H3 in Hin. set_solver.
    + intros id [->|Hin]%elem_of_cons; [done|]. apply H3 in Hin. set_solver.
    + intros id. rewrite H4, Hs. set_solver.
    + intros id [?|Hin]%elem_of_cons; [done|]. apply H5 in Hin. rewrite Hs in Hin. set_solver.
    + intros id [?|Hin]%elem_of_cons; [done|]. apply H6 in Hin. rewrite Hs in Hin. set_solver.
  - assert (seen s1 = seen s /\ (o = DrainOutcome.Duplicate -> InboxItem.id item ∈ seen s) /\
      (o = DrainOutcome.StoreFailed -> InboxItem.id item ∉ seen s)) as (Hs & Hd & Hf)
      by (destruct o; naive_solver). rewrite Hs in *. split_and!; auto.
    + intros id [?|Hin]%elem_of_cons; [|by apply H5]. left. simplify_eq. auto.
    + intros id [?|Hin]%elem_of_cons; [|by apply H6]. simplify_eq. auto.
Qed.
End DrainFacts.

(** *** Deliveries *)

Inductive delivery_op :=
| Queue (item_id target_did : string) (created_at : N)
| Acknowledge (item_id target_did : string)
| Miss (item_id target_did : string)
| ExpireAt (now : N).

Definition delivery_step (s : DeliveryTracker.t) (o : delivery_op) : DeliveryTracker.t :=
  match o with
  | Queue id did created_at => DeliveryTracker.queued id did created_at s
  | Acknowledge id did => DeliveryTracker.acknowledged id did s
  | Miss id did => DeliveryTracker.missing id did s
  | ExpireAt now => DeliveryTracker.expire now s
  end.

(** The state of one copy after one operation. *)
Definition copy_after (id did : string) (state : option CopyState.t) (o : delivery_op)
    : option CopyState.t :=
  let settled next :=
    match state with Some (CopyState.Queued _) => Some next | _ => state end in
  match o with
  | Queue id' did' created_at =>
      if decide ((id', did') = (id, did)) then Some (CopyState.Queued created_at) else state
  | Acknowledge id' did' =>
      if decide ((id', did') = (id, did)) then settled CopyState.Delivered else state
  | Miss id' did' =>
      if decide ((id', did') = (id, did)) then settled CopyState.Missing else state
  | ExpireAt now =>
      match state with
      | Some (CopyState.Queued created_at) =>
          if (saturating_add U64_MAX created_at INBOX_EXPIRY_SECS <=? now)%N
          then Some CopyState.Expired else state
      | _ => state
      end
  end.

Lemma delivery_step_state (s : DeliveryTracker.t) (o : delivery_op) (id did : string) :
  DeliveryTracker.state id did (delivery_step s o) =
  copy_after id did (DeliveryTracker.state id did s) o.
Proof.
  unfold DeliveryTracker.state, DeliveryTracker.t in *.
  destruct o as [id' did' c|id' did'|id' did'|now];
    cbn [delivery_step copy_after];
    unfold DeliveryTracker.queued, DeliveryTracker.acknowledged, DeliveryTracker.missing,
      DeliveryTracker.settle, DeliveryTracker.expire, DeliveryTracker.t.
  - by destruct (decide _) as [->|Hne]; [rewrite lookup_insert_eq|rewrite lookup_insert_ne].
  - destruct (decide _) as [Heq|Hne]; [rewrite Heq|];
      [destruct (s !! (id, did)) as [[]|] eqn:E|destruct (s !! (id', did')) as [[]|]];
      by rewrite ?E, ?lookup_insert_eq, ?lookup_insert_ne.
  - destruct (decide _) as [Heq|Hne]; [rewrite Heq|];
      [destruct (s !! (id, did)) as [[]|] eqn:E|destruct (s !! (id', did')) as [[]|]];
      by rewrite ?E, ?lookup_insert_eq, ?lookup_insert_ne.
  - rewrite lookup_fmap. destruct (s !! (id, did)) as [[]|]; cbn; try done.
    unfold is_expired. by destruct (_ <=? _)%N.
Qed.

(** Each copy has its own state. After any operations the state of a copy is
    the one that its own events and the clock give, an acknowledgement alone
    makes it delivered, and a copy that is settled (delivered, expired or
    missing) stays so until it is queued again. *)
Theorem delivery_by_copy (ops : list delivery_op) (s : DeliveryTracker.t) (id did : string) :
  DeliveryTracker.state id did (foldl delivery_step s ops) =
    foldl (copy_after id did) (DeliveryTracker.state id did s) ops /\
  (DeliveryTracker.is_delivered id did (foldl delivery_step ∅ ops) = true ->
     Acknowledge id did ∈ ops) /\
  (forall state, DeliveryTracker.state id did s = Some state ->
     (forall created_at, state <> CopyState.Queued created_at) ->
     (forall created_at, Queue id did created_at ∉ ops) ->
     DeliveryTracker.state id did (foldl delivery_step s ops) = Some state).
Proof.
  assert (forall s, DeliveryTracker.state id did (foldl delivery_step s ops) =
    foldl (copy_after id did) (DeliveryTracker.state id did s) ops) as Hall.
  { clear s. induction ops as [|o ops IH]; intros s; [done|]. cbn [foldl].
    by rewrite IH, delivery_step_state. }
  split; [apply Hall|]. split.
  - unfold DeliveryTracker.is_delivered. rewrite bool_decide_eq_true, Hall.
    replace (DeliveryTracker.state id did ∅) with (@None CopyState.t) by done.
    enough (forall x, foldl (copy_after id did) x ops = Some CopyState.Delivered ->
      x = Some CopyState.Delivered \/ Acknowledge id did ∈ ops) as Hx
      by (intros Hd; by destruct (Hx _ Hd)).
    clear. induction ops as [|o ops IH]; intros x; cbn [foldl]; [by left|]. intros Hx.
    destruct (IH _ Hx) as [Ho|Hin]; [|right; by right]. destruct o; cbn in Ho; repeat case_match;
      repeat match goal with H : decide _ = left ?e |- _ => clear H end;
      simplify_eq; auto; right; by left.
  - intros state Hs Hq Hn. rewrite Hall, Hs. clear Hall Hs.
    induction ops as [|o ops IH]; cbn [foldl]; [done|].
    assert (copy_after id did (Some state) o = Some state) as ->.
    { destruct o; cbn; repeat case_match;
        repeat match goal with H : decide _ = left ?e |- _ => clear H end; simplify_eq; try done;
        try (by edestruct Hq); exfalso; eapply Hn; by left. }
    apply IH. intros c Hin. eapply Hn. by right.
Qed.
