(* ===== verification/Effects.v ===== *)
(** * Steps with effects

    The drivers of the crate are asynchronous functions that send requests,
    write the sealed store and draw random values. Here such a function is of
    type [eff M E A]: it takes what is outside the program, an [outside], and
    a [world] (the disk, the open store, the memory that the caller owns and
    the events so far) and gives a world and a result. What is outside answers
    by the events so far, so a theorem over every [outside] covers every
    server, every disk and every draw. *)

From S2P Require Import Prelude.
From S2P Require Import RustStr.
From S2P Require Import Interfaces.
From S2P Require Import Files.
From S2P Require Import History.
From S2P Require Import State.
From S2P Require Import DeviceRoutes.
From S2P Require Import Pacing.
From S2P Require Import IdentityRoutes.
From S2P Require Import Protocol.
From S2P Require Import SendDoor.
From stdpp Require Import options.

(** ** Requests *)

(** [reqwest::Url]: parsing, [path_segments_mut().extend] ([None] for an
    address that is no base) and [query_pairs_mut().append_pair]. *)
Class UrlLib := {
  url : Type;
  url_parse : string -> result url string;
  path_extend : url -> list string -> option url;
  append_pair : url -> string -> string -> url;
}.

(** The body of a request: the value that [RequestBuilder::json] takes. *)
Module Body.
Inductive t :=
| None
| EmptyObject
| Curve (curve : string)
| Payload (payload : string)
| DeviceId (r : DeviceIdRequest.t)
| List (r : ListRequest.t)
| Keys (r : KeysUploadRequest.t)
| Claim (r : ClaimRequest.t)
| Copy (r : CopyRequest.t)
| Ack (r : InboxAckRequest.t)
| Send (r : E2eSendRequest.t)
| Consent (line : E2eConsentLine.t)
| Create (r : E2eRequestCreate.t).
End Body.

Record request `{U : UrlLib} := {
  method : E2eMethod;
  address : url;
  bearer : string;
  body : Body.t;
}.

(** An answer: a failure of the transport, or a status with its
    [Retry-After] header and its body read as JSON. *)
Inductive http_answer `{J : Json} :=
| Failed (e : string)
| Answered (status : N) (retry_after : option string) (content : result value string).

Definition is_success (status : N) : bool := ((200 <=? status) && (status <? 300))%N.

Definition answered_well `{J : Json} (a : http_answer) : Prop :=
  match a with Answered status _ _ => is_success status = true | Failed _ => False end.

(** ** Worlds *)

Definition INSTANT_MAX : N := secs (2 ^ 63).

Section Effects.
Context {J : Json} {U : UrlLib}.

Inductive event :=
| Sent (q : request) (a : http_answer)
| Saved (d : StateData.t)
| NotSaved
| Kept (rows : list E2eMessage.t)
| NotKept
| Drew (seed : string)
| Read (time : N).

Record outside := {
  reply : list event -> request -> http_answer;
  io_of : list event -> io_env;
  random : list event -> string;
  (** [SystemTime::now], in nanoseconds since 1970. *)
  wall : list event -> Z;
  (** What a write of the history meets. *)
  appends : list event -> append_env;
  rewrites : list event -> rewrite_env;
  (** The time since the start of the program, as [MonotonicClock] reads it. *)
  clock : list event -> N;
}.

Record world (M : Type) := mk_world {
  files : disk;
  store : Store.t;
  mem : M;
  log : list event;
}.
#[global] Arguments mk_world {M}.
#[global] Arguments files {M}.
#[global] Arguments store {M}.
#[global] Arguments mem {M}.
#[global] Arguments log {M}.

Definition record {M} (w : world M) (e : event) : world M :=
  mk_world (files w) (store w) (mem w) (log w ++ [e]).

Definition eff (M E A : Type) : Type := outside -> world M -> world M * result A E.

Section Steps.
Context {M E : Type}.

Definition ret {A} (a : A) : eff M E A := fun _ w => (w, Ok a).
Definition raise {A} (e : E) : eff M E A := fun _ w => (w, Err e).

(** The [?] after a call. *)
Definition bind {A B} (m : eff M E A) (k : A -> eff M E B) : eff M E B := fun o w =>
  match m o w with
  | (w, Ok a) => k a o w
  | (w, Err e) => (w, Err e)
  end.

(** A value that needs no effect. *)
Definition lift {A} (r : result A E) : eff M E A := fun _ w => (w, r).

(** The [match] on a result, and [let _ = ...]. *)
Definition attempt {A F} (m : eff M F A) : eff M E (result A F) := fun o w =>
  let '(w, r) := m o w in (w, Ok r).

(** [map_err] and the [From] of an error. *)
Definition with_err {A F} (f : F -> E) (m : eff M F A) : eff M E A := fun o w =>
  let '(w, r) := m o w in (w, map_err f r).

Definition get_store : eff M E Store.t := fun _ w => (w, Ok (store w)).
Definition get_data : eff M E StateData.t := fun _ w => (w, Ok (Store.data (store w))).
Definition get_mem : eff M E M := fun _ w => (w, Ok (mem w)).

(** A step of the memory of the caller. *)
Definition on_mem {A} (f : M -> M * result A E) : eff M E A := fun _ w =>
  let '(m, r) := f (mem w) in (mk_world (files w) (store w) m (log w), r).

Definition send (q : request) : eff M E http_answer := fun o w =>
  let a := reply o (log w) q in (record w (Sent q a), Ok a).

Definition draw : eff M E string := fun o w =>
  let seed := random o (log w) in (record w (Drew seed), Ok seed).

Definition now : eff M E Z := fun o w => (w, Ok (wall o (log w))).

(** [MonotonicClock::now]. An [Instant] counts seconds in 63 bits. *)
Definition clock_now : eff M E N := fun o w =>
  let time := N.min (clock o (log w)) INSTANT_MAX in (record w (Read time), Ok time).

Definition modify (f : M -> M) : eff M E unit := fun _ w =>
  (mk_world (files w) (store w) (f (mem w)) (log w), Ok tt).

(** A loop over a list. *)
Fixpoint for_each {A} (f : A -> eff M E unit) (l : list A) : eff M E unit :=
  match l with
  | [] => ret tt
  | x :: l => bind (f x) (fun _ => for_each f l)
  end.
End Steps.

(** An operation of the store; the log keeps what it holds after it. *)
Definition on_store {M F A} (op : io_env -> disk -> Store.t -> disk * Store.t * result A F)
    : eff M F A := fun o w =>
  let '(d, s, r) := op (io_of o (log w)) (files w) (store w) in
  (mk_world d s (mem w)
     (log w ++ [match r with Ok _ => Saved (Store.data s) | Err _ => NotSaved end]), r).

(** An operation of the history that the memory holds. *)
Definition on_history {M A} (get : M -> E2eHistoryStore.t) (put : E2eHistoryStore.t -> M -> M)
    (op : outside -> list event -> disk -> E2eHistoryStore.t ->
          disk * E2eHistoryStore.t * result A E2eStoreError.t)
    : eff M E2eStoreError.t A := fun o w =>
  let '(d, h, r) := op o (log w) (files w) (get (mem w)) in
  (mk_world d (store w) (put h (mem w))
     (log w ++ [match r with
                | Ok _ => Kept (E2eHistoryStore.messages h)
                | Err _ => NotKept
                end]), r).
End Effects.

Declare Scope eff_scope.
Delimit Scope eff_scope with eff.
Notation "'let!' p := m 'in' k" := (bind m (fun p => k))
  (at level 10, p pattern, m at level 100, k at level 200) : eff_scope.
Notation "m ;! k" := (bind m (fun _ => k)) (at level 60, right associativity) : eff_scope.

(** ** What a step ensures *)

Section Logic.
Context {J : Json} {U : UrlLib}.

(** [m] ends in a result and a world for which [Q] holds. *)
Definition wp {M E A} (o : outside) (m : eff M E A) (Q : result A E -> world M -> Prop)
    (w : world M) : Prop :=
  let '(w', r) := m o w in Q r w'.

Context {M E : Type} (o : outside).
Implicit Types (w : world M).

Lemma wp_mono {A} (m : eff M E A) (Q R : result A E -> world M -> Prop) w :
  wp o m Q w -> (forall r w', Q r w' -> R r w') -> wp o m R w.
Proof. unfold wp. destruct (m o w). eauto. Qed.

Lemma wp_bind {A B} (m : eff M E A) (k : A -> eff M E B) (Q : result B E -> world M -> Prop) w :
  wp o m (fun r w' => match r with Ok a => wp o (k a) Q w' | Err e => Q (Err e) w' end) w ->
  wp o (bind m k) Q w.
Proof. unfold wp, bind. by destruct (m o w) as [w' [a|e]]. Qed.

(** The rule of a sequence, with what the first step is known to ensure. *)
Lemma wp_seq {A B} (m : eff M E A) (k : A -> eff M E B) (R : result A E -> world M -> Prop)
    (Q : result B E -> world M -> Prop) w :
  wp o m R w ->
  (forall a w', R (Ok a) w' -> wp o (k a) Q w') ->
  (forall e w', R (Err e) w' -> Q (Err e) w') ->
  wp o (bind m k) Q w.
Proof. intros H H1 H2. apply wp_bind. eapply wp_mono; [exact H|]. intros [a|e]; eauto. Qed.

Lemma wp_ret {A} (a : A) (Q : result A E -> world M -> Prop) w :
  Q (Ok a) w -> wp o (ret a) Q w.
Proof. done. Qed.

Lemma wp_raise {A} (e : E) (Q : result A E -> world M -> Prop) w :
  Q (Err e) w -> wp o (raise e) Q w.
Proof. done. Qed.

Lemma wp_lift {A} (r : result A E) (Q : result A E -> world M -> Prop) w :
  Q r w -> wp o (lift r) Q w.
Proof. done. Qed.

Lemma wp_attempt {A F} (m : eff M F A) (Q : result (result A F) E -> world M -> Prop) w :
  wp o m (fun r w' => Q (Ok r) w') w -> wp o (attempt m) Q w.
Proof. unfold wp, attempt. by destruct (m o w). Qed.

Lemma wp_with_err {A F} (f : F -> E) (m : eff M F A) (Q : result A E -> world M -> Prop) w :
  wp o m (fun r w' => Q (map_err f r) w') w -> wp o (with_err f m) Q w.
Proof. unfold wp, with_err. by destruct (m o w). Qed.

Lemma wp_and {A} (m : eff M E A) (Q R : result A E -> world M -> Prop) w :
  wp o m Q w -> wp o m R w -> wp o m (fun r w' => Q r w' /\ R r w') w.
Proof. unfold wp. by destruct (m o w). Qed.
End Logic.

(** ** Steps that add to the log

    Each step adds events at the end of the log; a step of one kind says what
    it may add and what it leaves alone. *)
Section Adds.
Context {J : Json} {U : UrlLib} {M : Type}.
Implicit Types (w : world M).

(** [w'] follows [w] with the events [es]. *)
Definition follows (es : list event) w w' : Prop := log w' = log w ++ es.

Lemma follows_refl w : follows [] w w.
Proof. unfold follows. by rewrite app_nil_r. Qed.

Lemma follows_trans es fs w1 w2 w3 :
  follows es w1 w2 -> follows fs w2 w3 -> follows (es ++ fs) w1 w3.
Proof. unfold follows. intros -> ->. by rewrite app_assoc. Qed.

(** Only requests were sent: the disk, the store and the memory stay. *)
Definition same_state w w' : Prop :=
  files w' = files w /\ store w' = store w /\ mem w' = mem w.

Lemma same_state_refl w : same_state w w.
Proof. done. Qed.

Lemma same_state_trans w1 w2 w3 : same_state w1 w2 -> same_state w2 w3 -> same_state w1 w3.
Proof. unfold same_state. intros (? & ? & ?) (? & ? & ?). split_and!; congruence. Qed.
End Adds.
#[export] Hint Resolve follows_refl same_state_refl same_state_trans : rust.
