(* ===== verification/Client.v ===== *)
(** * The calls of the client (crates/cordiale-core/src/client.rs)

    The E2E and the pairing routes of GrappaClient: the address of each call
    with the gate of its protocol, the request, and the reading of the answer.
    The other routes of the file are not modelled. *)

From S2P Require Import Prelude.
From S2P Require Import RustStr.
From S2P Require Import Interfaces.
From S2P Require Import Wire.
From S2P Require Import Backoff.
From S2P Require Import Refusal.
From S2P Require Import DeviceRoutes.
From S2P Require Import IdentityRoutes.
From S2P Require Import Protocol.
From S2P Require Import Versions.
From S2P Require Import Pairing.
From S2P Require Import Pacing.
From S2P Require Import SendDoor.
From S2P Require Import Effects.
From stdpp Require Import options.

#[local] Open Scope eff_scope.

(** ** Reading an answer *)

(** [serde_json::from_value] for the bodies of the pairing answers, whose
    readers serde derives: [RendezvousEnvelope], [MessageEnvelope] and
    [MessagesEnvelope]. *)
Class PairingAnswers `{J : Json} := {
  rendezvous_envelope : value -> option Rendezvous.t;
  message_envelope : value -> option RelayMessage.t;
  messages_envelope : value -> option (list RelayMessage.t);
}.

Module PairingCallError.
Inductive t :=
| Unavailable
| TooLarge
| Bad (e : WireError)
| Relay (e : PairingError.t)
| Client (e : GrappaClientError.t).

#[global] Instance eq_dec : EqDecision t.
Proof. solve_decision. Defined.

(** The two [From] instances. *)
Definition of_client (e : GrappaClientError.t) : t :=
  match e with
  | GrappaClientError.Rejected status code _ => Relay (relay_error status code)
  | other => Client other
  end.

Definition of_wire (e : WireError) : t := Bad e.
End PairingCallError.

Section Answers.
Context {J : Json}.

(** [reject_with_code], with the clock that it reads. *)
Definition reject_with_code (now : Z) (status : N) (header : option string)
    (content : result value string) : result unit GrappaClientError.t :=
  if is_success status then Ok tt else
  let body := result_ok content in
  let code := body ≫= fun body => json_get body "error" ≫= as_str in
  Err (GrappaClientError.Rejected status code (rate_limit_wait header body now)).

(** The answer of [send] to [reject_with_code] and the reading of its body:
    [None] for an answer with no body (204). *)
Definition read_answer (now : Z) (a : http_answer)
    : result (option value) GrappaClientError.t :=
  match a with
  | Failed e => Err (GrappaClientError.Http e)
  | Answered status header content =>
      let? _ := reject_with_code now status header content in
      if (status =? 204)%N then Ok None
      else rmap Some (map_err GrappaClientError.Http content)
  end.

Definition parse_pairing_answer {A} (read : value -> option A) (body : option value)
    : result A PairingCallError.t :=
  let? body := ok_or body (PairingCallError.of_wire BadJson) in
  ok_or (read body) (PairingCallError.Bad BadJson).
End Answers.

Module GrappaClient.
Record t := mk { base_url : string }.

Section Client.
Context {C : Crypto} {J : Json} {U : UrlLib} {M : Type}.

Definition wire_ok {E} (r : result E WireError) : result E E2eRouteError.t :=
  map_err E2eRouteError.of_wire r.

(** The parts of a path that are not empty. *)
Definition parts_of (path : string) : list string :=
  filter (fun part => part <> "") (split_char "/" path).

(** The base address with more segments. *)
Definition extended (c : t) (segments : list string) : result url GrappaClientError.t :=
  let? base := map_err GrappaClientError.InvalidUrl (url_parse (base_url c)) in
  ok_or (path_extend base segments) (GrappaClientError.InvalidUrl (base_url c)).

Definition e2e_url (c : t) (operation : E2eOperation.t) (network_id : string)
    (did : option string) (server_protocol : option N) : result url E2eRouteError.t :=
  if negb (E2eOperation.available operation server_protocol)
  then Err E2eRouteError.Unavailable else
  let? path := wire_ok (E2eOperation.path operation did) in
  map_err E2eRouteError.of_client (extended c (["networks"; network_id] ++ parts_of path)).

Definition e2e_device_url (c : t) (operation : E2eOperation.t) (network_id did : string)
    (server_protocol : option N) : result url E2eRouteError.t :=
  e2e_url c operation network_id (Some did) server_protocol.

(** The value of a body is read only when the status says so; the clock is
    read with the refusal. *)
Definition send_e2e_device_request (q : request)
    : eff M GrappaClientError.t (option value) :=
  let! a := send q in
  let! clock := now in
  lift (read_answer clock a).

(** A call with a body in the answer. *)
Definition call {A} (q : request) (read : value -> result A WireError)
    : eff M E2eRouteError.t A :=
  let! answer := with_err E2eRouteError.of_client (send_e2e_device_request q) in
  let! v := lift (ok_or answer (E2eRouteError.of_wire MissingField)) in
  lift (wire_ok (read v)).

(** A call whose answer is not read. *)
Definition call_unit (q : request) : eff M E2eRouteError.t unit :=
  let! _ := with_err E2eRouteError.of_client (send_e2e_device_request q) in
  ret tt.

Context (c : t) (token network_id : string).

Definition claim_e2e_device_key (did : string) (server_protocol : option N)
    (r : ClaimRequest.t) : eff M E2eRouteError.t ClaimResponse.t :=
  let! url := lift (e2e_device_url c E2eOperation.Claim network_id did server_protocol) in
  call {| method := Post; address := url; bearer := token; body := Body.Claim r |}
    ClaimResponse.from_value.

Definition send_e2e_copy (did : string) (server_protocol : option N) (r : CopyRequest.t)
    : eff M E2eRouteError.t CopyAccepted.t :=
  let! url := lift (e2e_device_url c E2eOperation.Copy network_id did server_protocol) in
  call {| method := Post; address := url; bearer := token; body := Body.Copy r |}
    CopyAccepted.from_value.

Definition fetch_e2e_inbox (did : string) (after : option N) (server_protocol : option N)
    : eff M E2eRouteError.t (list InboxRow.t) :=
  let! url := lift (e2e_device_url c E2eOperation.InboxFetch network_id did server_protocol) in
  let url := match after with
             | Some after => append_pair url "after" (N_display after)
             | None => url
             end in
  call {| method := Get; address := url; bearer := token; body := Body.None |}
    (fun v => InboxRow.page_from_value v server_protocol).

Definition ack_e2e_inbox (did : string) (server_protocol : option N) (r : InboxAckRequest.t)
    : eff M E2eRouteError.t unit :=
  let! url := lift (e2e_device_url c E2eOperation.InboxAck network_id did server_protocol) in
  call_unit {| method := Post; address := url; bearer := token; body := Body.Ack r |}.

Definition register_e2e_device (server_protocol : option N) (r : DeviceIdRequest.t)
    : eff M E2eRouteError.t DeviceRecord.t :=
  let! url := lift (e2e_url c E2eOperation.DeviceRegister network_id None server_protocol) in
  call {| method := Post; address := url; bearer := token; body := Body.DeviceId r |}
    DeviceRecord.from_value.

Definition list_e2e_devices (server_protocol : option N)
    : eff M E2eRouteError.t (list DeviceRecord.t) :=
  let! url := lift (e2e_url c E2eOperation.DeviceList network_id None server_protocol) in
  call {| method := Get; address := url; bearer := token; body := Body.None |}
    DeviceRecord.list_from_value.

Definition drop_e2e_device (did : string) (server_protocol : option N)
    : eff M E2eRouteError.t unit :=
  let! url := lift (e2e_device_url c E2eOperation.DeviceDrop network_id did server_protocol) in
  call_unit {| method := Delete; address := url; bearer := token; body := Body.None |}.

Definition put_e2e_list (server_protocol : option N) (r : ListRequest.t)
    : eff M E2eRouteError.t HeldList.t :=
  let! url := lift (e2e_url c E2eOperation.ListPut network_id None server_protocol) in
  call {| method := Put; address := url; bearer := token; body := Body.List r |}
    HeldList.from_value.

Definition fetch_e2e_list (server_protocol : option N) : eff M E2eRouteError.t HeldList.t :=
  let! url := lift (e2e_url c E2eOperation.ListFetch network_id None server_protocol) in
  call {| method := Get; address := url; bearer := token; body := Body.None |}
    HeldList.from_value.

Definition delete_e2e_identity (server_protocol : option N) : eff M E2eRouteError.t unit :=
  let! url := lift (e2e_url c E2eOperation.IdentityDelete network_id None server_protocol) in
  call_unit {| method := Delete; address := url; bearer := token; body := Body.None |}.

Definition publish_e2e_keys (did : string) (server_protocol : option N)
    (r : KeysUploadRequest.t) : eff M E2eRouteError.t KeysHeld.t :=
  let! url := lift (e2e_device_url c E2eOperation.KeysPublish network_id did server_protocol) in
  call {| method := Post; address := url; bearer := token; body := Body.Keys r |}
    KeysHeld.from_value.

Definition fetch_e2e_keys (did : string) (server_protocol : option N)
    : eff M E2eRouteError.t KeysHeld.t :=
  let! url := lift (e2e_device_url c E2eOperation.KeysFetch network_id did server_protocol) in
  call {| method := Get; address := url; bearer := token; body := Body.None |}
    KeysHeld.from_value.

(** *** The send door and the consent requests *)

(** The answer of the send door. *)
Definition read_send_answer (clock : Z) (a : http_answer)
    : result SendAnswer GrappaClientError.t :=
  match a with
  | Failed e => Err (GrappaClientError.Http e)
  | Answered status header content =>
      match reject_with_code clock status header content with
      | Ok _ =>
          let class := classify_send_response status None in
          let msgid := match class with
                       | Accepted =>
                           body ← result_ok content; result_ok (parse_send_accepted body)
                       | _ => None
                       end in
          Ok {| response := class; answer_msgid := msgid |}
      | Err (GrappaClientError.Rejected status code _) =>
          Ok {| response := classify_send_response status code; answer_msgid := None |}
      | Err err => Err err
      end
  end.

Definition send_e2e_message (r : E2eSendRequest.t)
    : eff M GrappaClientError.t SendAnswer :=
  let! url := lift (extended c ["networks"; network_id; "e2e"; "messages"]) in
  let! a := send {| method := Post; address := url; bearer := token; body := Body.Send r |} in
  let! clock := now in
  lift (read_send_answer clock a).

Definition e2e_request_url (operation : E2eRequestOperation.t) (request_id : option N)
    (server_protocol : option N) : result url E2eRouteError.t :=
  if negb (E2eRequestOperation.available operation server_protocol)
     || negb (eqb (E2eRequestOperation.needs_id operation)
                (bool_decide (is_Some request_id)))
     || bool_decide (request_id = Some 0%N)
  then Err E2eRouteError.Unavailable else
  let id := match request_id with Some id => [N_display id] | None => [] end in
  let suffix := E2eRequestOperation.suffix operation in
  map_err E2eRouteError.of_client
    (extended c (["networks"; network_id; "e2e"; "requests"] ++ id ++
                 if is_empty suffix then [] else [suffix])).

Definition fetch_e2e_requests (server_protocol : option N)
    : eff M E2eRouteError.t (list E2eRequest.t) :=
  let! url := lift (e2e_request_url E2eRequestOperation.List None server_protocol) in
  call {| method := Get; address := url; bearer := token; body := Body.None |}
    (fun v => rmap E2eRequestList.requests (E2eRequestList.from_value v)).

Definition create_e2e_request (server_protocol : option N) (r : E2eRequestCreate.t)
    : eff M E2eRouteError.t E2eRequest.t :=
  let! url := lift (e2e_request_url E2eRequestOperation.Create None server_protocol) in
  call {| method := Post; address := url; bearer := token; body := Body.Create r |}
    (fun v => let? request := ok_or (json_get v "request") MissingField in
              E2eRequest.from_value request).

Definition accept_e2e_request (request_id : N) (server_protocol : option N)
    (line : E2eConsentLine.t) : eff M E2eRouteError.t unit :=
  let! url := lift (e2e_request_url E2eRequestOperation.Accept (Some request_id)
                      server_protocol) in
  call_unit {| method := Post; address := url; bearer := token; body := Body.Consent line |}.

Definition refuse_e2e_request (request_id : N) (server_protocol : option N)
    : eff M E2eRouteError.t unit :=
  let! url := lift (e2e_request_url E2eRequestOperation.Refuse (Some request_id)
                      server_protocol) in
  call_unit {| method := Post; address := url; bearer := token; body := Body.None |}.

Definition dismiss_e2e_request (request_id : N) (server_protocol : option N)
    (line : option E2eConsentLine.t) : eff M E2eRouteError.t unit :=
  let! url := lift (e2e_request_url E2eRequestOperation.Dismiss (Some request_id)
                      server_protocol) in
  let body := match line with Some line => Body.Consent line | None => Body.None end in
  call_unit {| method := Delete; address := url; bearer := token; body := body |}.

(** *** Pairing *)

Context {P : PairingAnswers}.

Definition pairing_url (operation : PairingOperation.t) (rendezvous_id : option string)
    (server_protocol : option N) (after : option N) : result url PairingCallError.t :=
  if negb (PairingOperation.available operation server_protocol)
  then Err PairingCallError.Unavailable else
  let? path := map_err PairingCallError.of_wire
                 (PairingOperation.path operation rendezvous_id) in
  let? url := map_err PairingCallError.of_client (extended c (parts_of path)) in
  Ok (match after with
      | Some after => append_pair url "after" (N_display after)
      | None => url
      end).

Definition send_pairing_request (q : request) : eff M PairingCallError.t (option value) :=
  let! a := send q in
  let! clock := now in
  lift (map_err PairingCallError.of_client (read_answer clock a)).

Definition create_pairing (curve : option string) (server_protocol : option N)
    : eff M PairingCallError.t Rendezvous.t :=
  let! url := lift (pairing_url PairingOperation.Create None server_protocol None) in
  let body := match curve with
              | Some curve => if pairing_offer_available server_protocol
                              then Body.Curve curve else Body.EmptyObject
              | None => Body.EmptyObject
              end in
  let! body := send_pairing_request
                 {| method := Post; address := url; bearer := token; body := body |} in
  lift (parse_pairing_answer rendezvous_envelope body).

Definition join_pairing (rendezvous_id : string) (server_protocol : option N)
    : eff M PairingCallError.t Rendezvous.t :=
  let! url := lift (pairing_url PairingOperation.Join (Some rendezvous_id) server_protocol
                      None) in
  let! body := send_pairing_request
                 {| method := Post; address := url; bearer := token;
                    body := Body.EmptyObject |} in
  lift (parse_pairing_answer rendezvous_envelope body).

Definition post_pairing_message (rendezvous_id payload : string) (count total_bytes : N)
    (server_protocol : option N) : eff M PairingCallError.t RelayMessage.t :=
  if negb (pairing_message_fits count total_bytes (str_len payload))
  then raise PairingCallError.TooLarge else
  let! url := lift (pairing_url PairingOperation.Post (Some rendezvous_id) server_protocol
                      None) in
  let! body := send_pairing_request
                 {| method := Post; address := url; bearer := token;
                    body := Body.Payload payload |} in
  lift (parse_pairing_answer message_envelope body).

Definition fetch_pairing_messages (rendezvous_id : string) (after : N)
    (server_protocol : option N) : eff M PairingCallError.t (list RelayMessage.t) :=
  let! url := lift (pairing_url PairingOperation.Fetch (Some rendezvous_id) server_protocol
                      (Some after)) in
  let! body := send_pairing_request
                 {| method := Get; address := url; bearer := token; body := Body.None |} in
  lift (parse_pairing_answer messages_envelope body).

Definition close_pairing (rendezvous_id : string) (server_protocol : option N)
    : eff M PairingCallError.t unit :=
  let! url := lift (pairing_url PairingOperation.Close (Some rendezvous_id) server_protocol
                      None) in
  let! _ := send_pairing_request
              {| method := Delete; address := url; bearer := token; body := Body.None |} in
  ret tt.

Definition fetch_pairing_offer (server_protocol : option N)
    : eff M PairingCallError.t (option PairingOffer.t) :=
  let! url := lift (pairing_url PairingOperation.Offer None server_protocol None) in
  let! body := send_pairing_request
                 {| method := Get; address := url; bearer := token; body := Body.None |} in
  ret (body ≫= PairingOffer.from_answer).
End Client.
End GrappaClient.
