(* ===== verification/Provision.v ===== *)
(** * The own identity and its bundle (crates/cordiale-core/src/e2e_provision.rs)

    [provision_device] with one definition for each of its steps. The local
    variables that a step changes are its arguments and its result. *)

From S2P Require Import Prelude.
From S2P Require Import RustStr.
From S2P Require Import Interfaces.
From S2P Require Import Wire.
From S2P Require Import Device.
From S2P Require Import Manage.
From S2P Require Import ListMigration.
From S2P Require Import Files.
From S2P Require Import History.
From S2P Require Import State.
From S2P Require Import Account.
From S2P Require Import Refusal.
From S2P Require Import IdentityRoutes.
From S2P Require Import Protocol.
From S2P Require Import Effects.
From S2P Require Import Client.
From stdpp Require Import options.

#[local] Open Scope eff_scope.

Definition REQUIRED : list E2eOperation.t :=
  [E2eOperation.DeviceRegister; E2eOperation.DeviceList; E2eOperation.ListPut;
   E2eOperation.ListFetch; E2eOperation.KeysPublish; E2eOperation.KeysFetch].

Module ProvisionError.
Inductive t :=
| Store (e : E2eStoreError.t)
| Route (e : E2eRouteError.t)
| Wire (e : WireError)
| Crypto (e : E2eError.t)
| Account (e : AccountError.t)
| NeedsPairing
| MasterMismatch
| ResetPending.

#[global] Instance eq_dec : EqDecision t.
Proof. solve_decision. Defined.
End ProvisionError.

Module Provisioned.
Record t := mk {
  did : string;
  identity_created : bool;
  device_registered : bool;
  list_published : bool;
  one_time_keys_published : N;
  fallback_published : bool;
}.

#[global] Instance eq_dec : EqDecision t.
Proof. solve_decision. Defined.
End Provisioned.

(** ** Pure parts *)

Definition keys_above (held revoked : list string) (ed25519 : string) : list string :=
  let keys := filter (fun key => key ∉ revoked) held in
  if contains keys ed25519 then keys else keys ++ [ed25519].

Definition is_paired_under (d : StateData.t) (master device_ed25519 : string) : bool :=
  match StateData.device_certificate d with
  | Some cert =>
      bool_decide (VersionedDeviceCertificate.master_ed25519 cert = master)
      && bool_decide (VersionedDeviceCertificate.device_ed25519 cert = device_ed25519)
  | None => false
  end.

Section Provision.
Context {C : Crypto} {J : Json} {U : UrlLib} {T : StateText} {A : Aead} {O : Olm}.
Context {K : OlmKeys}.

Definition sign_list (master : account) (version : N) (keys : list string)
    : result SignedList.t E2eError.t :=
  let? signature := build_signed_list_signature version keys (sign_text master) in
  Ok (SignedList.mk version (merge_sort String.le keys) signature).

Definition signed_key (l : LocalAccount.t) (key : string) : result SignedKey.t WireError :=
  let? text := bundle_key_signed_text key in
  SignedKey.new key (LocalAccount.sign l text).

(** ** The steps *)

Context {M : Type} (client : GrappaClient.t) (token network_id : string)
  (server_protocol : option N).

Notation step := (eff M ProvisionError.t).

Definition stored (op : io_env -> disk -> Store.t -> Store.outcome) : step unit :=
  with_err ProvisionError.Store (on_store op).

Definition routed {X} (m : eff M E2eRouteError.t X) : step X := with_err ProvisionError.Route m.
Definition crypto {X} (r : result X E2eError.t) : step X := lift (map_err ProvisionError.Crypto r).
Definition wired {X} (r : result X WireError) : step X := lift (map_err ProvisionError.Wire r).
Definition read_store {X} (read : Store.t -> result X E2eStoreError.t) : step X :=
  let! s := get_store in lift (map_err ProvisionError.Store (read s)).

(** The account of the device, and whether this run made it. *)
Definition own_identity : step (account * bool) :=
  let! held := read_store Store.olm_identity in
  match held with
  | Some a => ret (a, false)
  | None =>
      let! seed := draw in
      let a := account_new seed in
      stored (fun env d s => Store.set_account env d s a) ;!
      ret (a, true)
  end.

(** The list of the server; [None] for a 404. *)
Definition held_list : step (option HeldList.t) :=
  let! r := attempt (GrappaClient.fetch_e2e_list client token network_id server_protocol) in
  match r with
  | Ok held => ret (Some held)
  | Err (E2eRouteError.Refused E2eRefusal.NotFound _) => ret None
  | Err e => raise (ProvisionError.Route e)
  end.

(** The master, when this device holds it, and its public key. *)
Definition own_master (held : option HeldList.t) (ed25519 : string)
    : step (option account * string) :=
  let! master := read_store Store.master_key in
  match master with
  | Some master => ret (Some master, identity_ed25519 master)
  | None =>
      let! data := get_data in
      match held with
      | Some held =>
          if is_paired_under data (HeldList.master held) ed25519
          then ret (None, HeldList.master held)
          else raise ProvisionError.NeedsPairing
      | None =>
          let! seed := draw in
          let master := account_new seed in
          stored (fun env d s => Store.set_master_key env d s master) ;!
          ret (Some master, identity_ed25519 master)
      end
  end.

(** A list over the old key order is signed again, once. *)
Definition migrate_list (held : option HeldList.t) (master : option account)
    (list : option SignedList.t) : step (option SignedList.t) :=
  let! data := get_data in
  if StateData.list_migrated data then ret list else
  match list, master with
  | Some own, Some master =>
      let! migrated := crypto (migrate_own_list (signer master) own) in
      match migrated with
      | Some next =>
          let pending := match held with
                         | None => true
                         | Some held => (SignedList.version (HeldList.list held)
                                         <? SignedList.version next)%N
                         end in
          stored (fun env d s => Store.set_migrated_list env d s next pending) ;!
          ret (Some next)
      | None =>
          stored (fun env d s => Store.set_list_migrated env d s) ;!
          ret list
      end
  | _, _ => ret list
  end.

(** A new version over the keys of a server list in the old order. *)
Definition renew_legacy_list (held : option HeldList.t) (master : option account)
    (master_key ed25519 : string) (list : option SignedList.t) : step (option SignedList.t) :=
  match held, master with
  | Some held, Some master =>
      let held := HeldList.list held in
      let behind := match list with
                    | None => true
                    | Some own => (SignedList.version own <=? SignedList.version held)%N
                    end in
      if behind && has_legacy_order (SignedList.version held) (SignedList.keys held) master_key
                     (SignedList.signature held)
      then
        let! data := get_data in
        let keys := keys_above (SignedList.keys held) (StateData.own_revoked data) ed25519 in
        let! next := crypto (sign_list master (SignedList.version held + 1) keys) in
        stored (fun env d s => Store.set_signed_list_pending env d s next) ;!
        ret (Some next)
      else ret list
  | _, _ => ret list
  end.

(** A pending list that is not above the list of the server. *)
Definition raise_pending_list (held : option HeldList.t) (master : option account)
    (master_key ed25519 : string) (list : option SignedList.t) : step (option SignedList.t) :=
  match held with
  | None => ret list
  | Some held =>
      let held := HeldList.list held in
      let stale := match list with
                   | None => false
                   | Some own => (SignedList.version own <=? SignedList.version held)%N
                   end in
      let! data := get_data in
      if StateData.list_pending data && stale then
        crypto (verify_signed_list (SignedList.version held) (SignedList.keys held) master_key
                  (SignedList.signature held)) ;!
        let keys := keys_above (SignedList.keys held) (StateData.own_revoked data) ed25519 in
        if decide (merge_sort String.le keys = merge_sort String.le (SignedList.keys held)) then
          stored (fun env d s => Store.set_published_list env d s held) ;!
          ret (Some held)
        else
          let! master := lift (ok_or master ProvisionError.NeedsPairing) in
          let! next := crypto (sign_list master (SignedList.version held + 1) keys) in
          stored (fun env d s => Store.set_signed_list_pending env d s next) ;!
          ret (Some next)
      else ret list
  end.

(** The list of this run. *)
Definition choose_list (held : option HeldList.t) (master : option account)
    (master_key ed25519 : string) (list : option SignedList.t) : step SignedList.t :=
  match list, held with
  | Some list, _ => ret list
  | None, Some held =>
      let held := HeldList.list held in
      crypto (verify_signed_list (SignedList.version held) (SignedList.keys held) master_key
                (SignedList.signature held)) ;!
      if contains (SignedList.keys held) ed25519 then
        stored (fun env d s => Store.set_signed_list env d s held) ;!
        ret held
      else
        let! master := lift (ok_or master ProvisionError.NeedsPairing) in
        let! next := crypto (sign_list master (SignedList.version held + 1)
                               (SignedList.keys held ++ [ed25519])) in
        stored (fun env d s => Store.set_signed_list_pending env d s next) ;!
        ret next
  | None, None =>
      let! master := lift (ok_or master ProvisionError.NeedsPairing) in
      let! first := crypto (sign_list master 1 [ed25519]) in
      stored (fun env d s => Store.set_signed_list_pending env d s first) ;!
      ret first
  end.

Definition own_certificate (master : option account) (master_key ed25519 : string)
    (list : SignedList.t) : step unit :=
  let! data := get_data in
  match StateData.device_certificate data with
  | Some _ => ret tt
  | None =>
      let! master := lift (ok_or master ProvisionError.NeedsPairing) in
      let! certificate := crypto (build_device_certificate (SignedList.version list) ed25519
                                    master_key (sign_text master)) in
      stored (fun env d s => Store.set_device_certificate env d s certificate)
  end.

(** True when this run registers the device. *)
Definition register_device (local : LocalAccount.t) (did ed25519 curve25519 master_key : string)
    : step bool :=
  let id_signature := LocalAccount.sign local (device_id_signed_text curve25519 master_key) in
  let! id_request := wired (DeviceIdRequest.new ed25519 curve25519 id_signature) in
  let! devices := routed (GrappaClient.list_e2e_devices client token network_id
                            server_protocol) in
  if existsb (fun device => bool_decide (DeviceRecord.did device = did)
                            && DeviceRecord.matches device id_request) devices
  then ret false
  else
    let! record := routed (GrappaClient.register_e2e_device client token network_id
                             server_protocol id_request) in
    if decide (DeviceRecord.did record = did) then ret true
    else raise (ProvisionError.Wire BadDid).

(** True when this run publishes the list. *)
Definition publish_own_list (held : option HeldList.t) (master_key : string)
    (list : SignedList.t) : step bool :=
  let! data := get_data in
  if StateData.list_pending data || bool_decide (held = None) then
    let! request := wired (ListRequest.new master_key list) in
    routed (GrappaClient.put_e2e_list client token network_id server_protocol request) ;!
    stored (fun env d s => Store.clear_list_pending env d s) ;!
    ret true
  else ret false.

(** The keys made now, saved before any upload. *)
Definition top_up_keys (local : LocalAccount.t) (server_keys : KeysHeld.t)
    : step LocalAccount.t :=
  let wanted := (ONE_TIME_KEYS_MAX - KeysHeld.one_time_keys server_keys)%N in
  let waiting := lenN (LocalAccount.unpublished_one_time_keys local) in
  let missing := (wanted - waiting)%N in
  let needs_fallback := negb (KeysHeld.fallback server_keys)
                        && bool_decide (LocalAccount.unpublished_fallback_key local = None) in
  let! seed := draw in
  let local := LocalAccount.generate_one_time_keys seed missing local in
  let! seed := draw in
  let local := if needs_fallback : bool then LocalAccount.rotate_fallback_key seed local
               else local in
  if (0 <? missing)%N || needs_fallback then
    stored (fun env d s => Store.set_account env d s (LocalAccount.account local)) ;!
    ret local
  else ret local.

(** The upload of what waits: how many one-time keys, and a fallback key. *)
Definition upload_keys (local : LocalAccount.t) (did : string) : step (N * bool) :=
  let one_time := LocalAccount.unpublished_one_time_keys local in
  let fallback := LocalAccount.unpublished_fallback_key local in
  if bool_decide (one_time = []) && bool_decide (fallback = None) then ret (0%N, false) else
  let! one_time_signed := wired (collect_result (signed_key local) one_time) in
  let! fallback_signed := wired (match fallback with
                                 | Some key => rmap Some (signed_key local key)
                                 | None => Ok None
                                 end) in
  let! request := wired (KeysUploadRequest.new one_time_signed fallback_signed) in
  routed (GrappaClient.publish_e2e_keys client token network_id did server_protocol request) ;!
  let local := LocalAccount.mark_published local in
  stored (fun env d s => Store.set_account env d s (LocalAccount.account local)) ;!
  ret (lenN one_time, bool_decide (is_Some fallback)).

(** ** The run *)

Definition check_protocol : step unit :=
  if existsb (fun operation => negb (E2eOperation.available operation server_protocol)) REQUIRED
  then raise (ProvisionError.Route E2eRouteError.Unavailable) else ret tt.

(** The own list of this run, after its four steps. *)
Definition own_list (held : option HeldList.t) (master : option account)
    (master_key ed25519 : string) : step SignedList.t :=
  let! data := get_data in
  let! list := migrate_list held master (StateData.signed_list data) in
  let! list := renew_legacy_list held master master_key ed25519 list in
  let! list := raise_pending_list held master master_key ed25519 list in
  choose_list held master master_key ed25519 list.

Definition provision_device : step Provisioned.t :=
  check_protocol ;!
  let! data := get_data in
  if StateData.reset_pending data then raise ProvisionError.ResetPending else
  let! (a, identity_created) := own_identity in
  let ed25519 := identity_ed25519 a in
  let curve25519 := identity_curve25519 a in
  let! did := wired (did_from_key_text ed25519) in
  let! id := lift (map_err ProvisionError.Account (AccountId.new network_id did)) in
  let local := LocalAccount.from_account id a in
  let! held := held_list in
  let! (master, master_key) := own_master held ed25519 in
  if match held with
     | Some held => negb (bool_decide (HeldList.master held = master_key))
     | None => false
     end
  then raise ProvisionError.MasterMismatch else
  let! list := own_list held master master_key ed25519 in
  own_certificate master master_key ed25519 list ;!
  let! device_registered := register_device local did ed25519 curve25519 master_key in
  let! list_published := publish_own_list held master_key list in
  let! server_keys := routed (GrappaClient.fetch_e2e_keys client token network_id did
                                server_protocol) in
  let! local := top_up_keys local server_keys in
  let! (one_time, fallback) := upload_keys local did in
  ret (Provisioned.mk did identity_created device_registered list_published one_time fallback).
End Provision.

(** [provision_device_at]: the store is opened first. *)
Definition provision_device_at `{C : Crypto, J : Json, U : UrlLib, T : StateText, A : Aead,
      O : Olm, K : !OlmKeys} (client : GrappaClient.t)
    (token network_id : string) (server_protocol : option N)
    (env : Store.open_env) (path : string) (o : outside) (d : disk)
    : disk * option (list event) * result Provisioned.t ProvisionError.t :=
  match Store.open env d path with
  | (d, Err e) => (d, None, Err (ProvisionError.Store e))
  | (d, Ok s) =>
      let '(w, r) := provision_device client token network_id server_protocol o
                       (mk_world d s tt []) in
      (files w, Some (log w), r)
  end.
