(* ===== verification/Revoke.v ===== *)
(** * Revoke of an own device and reset of the identity
    (crates/cordiale-core/src/e2e_revoke.rs) *)

From S2P Require Import Prelude.
From S2P Require Import RustStr.
From S2P Require Import Interfaces.
From S2P Require Import Wire.
From S2P Require Import Device.
From S2P Require Import Manage.
From S2P Require Import Trust.
From S2P Require Import Files.
From S2P Require Import History.
From S2P Require Import State.
From S2P Require Import Account.
From S2P Require Import Refusal.
From S2P Require Import IdentityRoutes.
From S2P Require Import Protocol.
From S2P Require Import Effects.
From S2P Require Import Client.
From S2P Require Import Provision.
From stdpp Require Import options.

#[local] Open Scope eff_scope.

Module OwnRoutes.
Record t := mk {
  client : GrappaClient.t;
  token : string;
  network : string;
  own_nick : string;
  server_protocol : option N;
}.
End OwnRoutes.

Module RevokeError.
Inductive t :=
| Store (e : E2eStoreError.t)
| Route (e : E2eRouteError.t)
| Wire (e : WireError)
| Crypto (e : E2eError.t)
| NeedsMaster
| NoList
| UnknownDevice
| OwnDevice
| OtherPending
| ResetPending
| MasterMismatch
| EmptyList.

#[global] Instance eq_dec : EqDecision t.
Proof. solve_decision. Defined.
End RevokeError.

Module Revoked.
Record t := mk { did : string; list_version : N }.

#[global] Instance eq_dec : EqDecision t.
Proof. solve_decision. Defined.
End Revoked.

(** The keys of a list without the revoked ones. *)
Definition without_revoked (revoked keys : list string) : list string :=
  filter (fun key => key ∉ revoked) keys.

Section Revoke.
Context {C : Crypto} {J : Json} {U : UrlLib} {T : StateText} {A : Aead} {O : Olm}.
Context {M : Type} (routes : OwnRoutes.t).

Notation step := (eff M RevokeError.t).

Definition saved (op : io_env -> disk -> Store.t -> Store.outcome) : step unit :=
  with_err RevokeError.Store (on_store op).

Definition check_routes (operations : list E2eOperation.t) : step unit :=
  if existsb (fun operation =>
       negb (E2eOperation.available operation (OwnRoutes.server_protocol routes))) operations
  then raise (RevokeError.Route E2eRouteError.Unavailable) else ret tt.

(** [store.master_key()?.ok_or(NeedsMaster)?]. *)
Definition needed_master : step account :=
  let! s := get_store in
  let! master := lift (map_err RevokeError.Store (Store.master_key s)) in
  lift (ok_or master RevokeError.NeedsMaster).

Definition stop_routing (pending : PendingRevoke.t) : step unit :=
  let! master := needed_master in
  let! data := get_data in
  let '(trust, revoked) :=
    PeerTrust.revoke_device (StateData.trust data) (OwnRoutes.network routes)
      (OwnRoutes.own_nick routes) (identity_ed25519 master) (PendingRevoke.ed25519 pending) in
  lift (map_err RevokeError.Crypto revoked) ;!
  saved (fun env d s => Store.set_trust env d s trust) ;!
  saved (fun env d s => Store.remove_peer_session env d s (OwnRoutes.network routes)
                          (OwnRoutes.own_nick routes) (PendingRevoke.did pending)).

(** One try: [true] ends the loop. *)
Definition publish_try (master : account) : step bool :=
  let master_key := identity_ed25519 master in
  let! data := get_data in
  let! list := lift (ok_or (StateData.signed_list data) RevokeError.NoList) in
  let! request := lift (map_err RevokeError.Wire (ListRequest.new master_key list)) in
  let! put := attempt (GrappaClient.put_e2e_list (OwnRoutes.client routes)
                         (OwnRoutes.token routes) (OwnRoutes.network routes)
                         (OwnRoutes.server_protocol routes) request) in
  match put with
  | Ok _ => saved (fun env d s => Store.clear_list_pending env d s) ;! ret true
  | Err (E2eRouteError.Refused E2eRefusal.StaleList _) =>
      let! held := with_err RevokeError.Route
                     (GrappaClient.fetch_e2e_list (OwnRoutes.client routes)
                        (OwnRoutes.token routes) (OwnRoutes.network routes)
                        (OwnRoutes.server_protocol routes)) in
      if negb (bool_decide (HeldList.master held = master_key))
      then raise RevokeError.MasterMismatch else
      let held := HeldList.list held in
      lift (map_err RevokeError.Crypto
              (verify_signed_list (SignedList.version held) (SignedList.keys held) master_key
                 (SignedList.signature held))) ;!
      let! data := get_data in
      let keys := without_revoked (StateData.own_revoked data) (SignedList.keys held) in
      if bool_decide (keys = []) then raise RevokeError.EmptyList else
      if bool_decide (keys = SignedList.keys held)
         && (SignedList.version list <=? SignedList.version held)%N
      then
        saved (fun env d s => Store.set_signed_list env d s held) ;!
        saved (fun env d s => Store.clear_list_pending env d s) ;!
        ret true
      else
        let version := (N.max (SignedList.version held) (SignedList.version list) + 1)%N in
        let! next := lift (map_err RevokeError.Crypto (sign_list master version keys)) in
        saved (fun env d s => Store.set_signed_list_pending env d s next) ;!
        ret false
  | Err e => raise (RevokeError.Route e)
  end.

Fixpoint publish_tries (tries : nat) (master : account) : step unit :=
  match tries with
  | 0 => raise (RevokeError.Route (E2eRouteError.Refused E2eRefusal.StaleList None))
  | S tries =>
      let! done := publish_try master in
      if done : bool then ret tt else publish_tries tries master
  end.

Definition publish_list : step unit :=
  let! master := needed_master in
  publish_tries 2 master.

(** A 404 counts as done. *)
Definition or_not_found (m : eff M E2eRouteError.t unit) : step unit :=
  let! r := attempt m in
  match r with
  | Ok _ | Err (E2eRouteError.Refused E2eRefusal.NotFound _) => ret tt
  | Err e => raise (RevokeError.Route e)
  end.

Definition finish_revoke (pending : PendingRevoke.t) : step Revoked.t :=
  stop_routing pending ;!
  let! data := get_data in
  (if StateData.list_pending data then publish_list else ret tt) ;!
  or_not_found (GrappaClient.drop_e2e_device (OwnRoutes.client routes) (OwnRoutes.token routes)
                  (OwnRoutes.network routes) (PendingRevoke.did pending)
                  (OwnRoutes.server_protocol routes)) ;!
  saved (fun env d s => Store.clear_pending_revoke env d s) ;!
  let! data := get_data in
  let! list := lift (ok_or (StateData.signed_list data) RevokeError.NoList) in
  ret (Revoked.mk (PendingRevoke.did pending) (SignedList.version list)).

(** The key of the device [did] in a list. *)
Definition find_target (did : string) (keys : list string) : option string :=
  find (fun key => bool_decide (did_from_key_text key = Ok did)) keys.

Definition revoke_device (did : string) : step Revoked.t :=
  check_routes [E2eOperation.DeviceDrop; E2eOperation.ListPut; E2eOperation.ListFetch] ;!
  let! data := get_data in
  if StateData.reset_pending data then raise RevokeError.ResetPending else
  match StateData.pending_revoke data with
  | Some pending =>
      if negb (bool_decide (PendingRevoke.did pending = did))
      then raise RevokeError.OtherPending else finish_revoke pending
  | None =>
      let! master := needed_master in
      let! list := lift (ok_or (StateData.signed_list data) RevokeError.NoList) in
      let! target := lift (ok_or (find_target did (SignedList.keys list))
                             RevokeError.UnknownDevice) in
      let! s := get_store in
      let! own := lift (map_err RevokeError.Store (Store.device_key s)) in
      if bool_decide (own = Some target) then raise RevokeError.OwnDevice else
      let keys := filter (fun key => key <> target) (SignedList.keys list) in
      if bool_decide (keys = []) then raise RevokeError.EmptyList else
      let! next := lift (map_err RevokeError.Crypto
                           (sign_list master (SignedList.version list + 1) keys)) in
      let pending := PendingRevoke.mk target did in
      saved (fun env d s => Store.begin_revoke env d s pending next) ;!
      finish_revoke pending
  end.

Definition finish_pending_revoke : step (option Revoked.t) :=
  let! data := get_data in
  match StateData.pending_revoke data with
  | Some pending => let! revoked := finish_revoke pending in ret (Some revoked)
  | None => ret None
  end.

(** ** Reset *)

Definition complete_reset : step unit :=
  or_not_found (GrappaClient.delete_e2e_identity (OwnRoutes.client routes)
                  (OwnRoutes.token routes) (OwnRoutes.network routes)
                  (OwnRoutes.server_protocol routes)) ;!
  saved (fun env d s => Store.finish_reset env d s (OwnRoutes.network routes)
                          (OwnRoutes.own_nick routes)).

Definition reset_identity : step unit :=
  check_routes [E2eOperation.IdentityDelete] ;!
  saved (fun env d s => Store.begin_reset env d s) ;!
  complete_reset.

Definition resume_reset : step bool :=
  let! data := get_data in
  if negb (StateData.reset_pending data) then ret false else
  check_routes [E2eOperation.IdentityDelete] ;!
  complete_reset ;!
  ret true.
End Revoke.
