(* ===== verification/PairingDrive.v ===== *)
(** * The drivers of a pairing (crates/cordiale-core/src/e2e_pairing_flow.rs)

    The steps that call the server. The session is the memory of the caller,
    except in the two starts, which make it. *)

From S2P Require Import Prelude.
From S2P Require Import RustStr.
From S2P Require Import Interfaces.
From S2P Require Import Wire.
From S2P Require Import Device.
From S2P Require Import Manage.
From S2P Require Import ListMigration.
From S2P Require Import Files.
From S2P Require Import History.
From S2P Require Import State.
From S2P Require Import Account.
From S2P Require Import Refusal.
From S2P Require Import IdentityRoutes.
From S2P Require Import Pairing.
From S2P Require Import PairingFlow.
From S2P Require Import PairingGrant.
From S2P Require Import Effects.
From S2P Require Import Client.
From S2P Require Import Provision.
From stdpp Require Import options.

#[local] Open Scope eff_scope.

Definition PAIRING_INFO : string := "irc-e2e:v2:pair".

(** [Ecies::with_info], with what it draws. *)
Class EciesKeys `{E : EciesChannel} := {
  ecies_with_info : string -> string -> ecies;
}.

Module DriveError.
Inductive t :=
| Flow (e : FlowError.t)
| Call (e : PairingCallError.t)
| Route (e : E2eRouteError.t)
| Provision (e : ProvisionError.t).

#[global] Instance eq_dec : EqDecision t.
Proof. solve_decision. Defined.
End DriveError.

Module PairingContext.
Record t := mk {
  client : GrappaClient.t;
  token : string;
  protocol : option N;
  network_id : string;
}.
End PairingContext.

Section Drive.
Context {C : Crypto} {J : Json} {U : UrlLib} {T : StateText} {A : Aead} {O : Olm}.
Context {K : OlmKeys} {E : EciesChannel} {EK : EciesKeys} {W : PairingText} {P : PendingText}.
Context {PA : PairingAnswers}.
Context (ctx : PairingContext.t).

(** ** Steps that need no session in memory *)

Section Calls.
Context {M : Type}.

Notation step := (eff M DriveError.t).

Definition flow_op_of {X} (op : io_env -> disk -> Store.t -> disk * Store.t * result X FlowError.t)
    : step X := with_err DriveError.Flow (on_store op).
Definition called {X} (m : eff M PairingCallError.t X) : step X := with_err DriveError.Call m.
Definition flowed {X} (r : result X FlowError.t) : step X := lift (map_err DriveError.Flow r).

Definition post (rendezvous_id : string) (outgoing : Outgoing.t) : step unit :=
  let! _ := called (GrappaClient.post_pairing_message (PairingContext.client ctx)
                      (PairingContext.token ctx) rendezvous_id (Outgoing.payload outgoing)
                      (Outgoing.count outgoing) (Outgoing.total_bytes outgoing)
                      (PairingContext.protocol ctx)) in
  ret tt.

Definition close (rendezvous_id : string) : step unit :=
  let! _ := attempt (GrappaClient.close_pairing (PairingContext.client ctx)
                       (PairingContext.token ctx) rendezvous_id
                       (PairingContext.protocol ctx)) in
  ret tt.

Definition cleanup (rendezvous_id : string) (closing : bool) : step unit :=
  (if closing then close rendezvous_id else ret tt) ;!
  let! _ := attempt (on_store (fun env d s => clear_pending env d s)) in
  ret tt.

(** [JoinerDevice::from_store]. *)
Definition device_from_store : step JoinerDevice.t :=
  let! seed := draw in
  flow_op_of (fun env d s => from_store env d s (account_new seed)).

Definition start_creator (now : Z) : step (PairingSession.t * PairingLink.t) :=
  let! data := get_data in
  if match StateData.signed_list data with
     | Some l => (MAX_ENROLLED_DEVICES <=? lenN (SignedList.keys l))%N
     | None => false
     end
  then raise (DriveError.Flow FlowError.ListFull) else
  let! seed := draw in
  let key := ecies_with_info PAIRING_INFO seed in
  let! rendezvous := called (GrappaClient.create_pairing (PairingContext.client ctx)
                               (PairingContext.token ctx) (Some (public_key key))
                               (PairingContext.protocol ctx)) in
  let! (session, link) := flowed (PairingSession.create_with key rendezvous
                                    (PairingContext.network_id ctx) now) in
  let! saved := attempt (flow_op_of (fun env d s => save_pending env d s session)) in
  match saved with
  | Ok _ => ret (session, link)
  | Err error => close (PairingSession.rendezvous_id session) ;! raise error
  end.

(** The link is read from [text], which is cleared at once. *)
Definition start_joiner_any (text : string) (eligible : list string) (now : Z)
    : step PairingSession.t :=
  let! link := flowed (map_err FlowError.Link (take_pairing_link text).2) in
  let! device := device_from_store in
  let! rendezvous := called (GrappaClient.join_pairing (PairingContext.client ctx)
                               (PairingContext.token ctx) (PairingLink.rendezvous_id link)
                               (PairingContext.protocol ctx)) in
  let! seed := draw in
  let! (session, hello) := flowed (PairingSession.join_any (ecies_with_info PAIRING_INFO seed)
                                     link rendezvous (PairingContext.network_id ctx) eligible
                                     device now) in
  let id := PairingSession.rendezvous_id session in
  let! saved := attempt (flow_op_of (fun env d s => save_pending env d s session)) in
  match saved with
  | Err error => cleanup id true ;! raise error
  | Ok _ =>
      let! posted := attempt (post id hello) in
      match posted with
      | Err error => cleanup id true ;! raise error
      | Ok _ => ret session
      end
  end.

Definition start_joiner (text : string) (now : Z) : step PairingSession.t :=
  start_joiner_any text [] now.

Definition close_stale (stale : StalePairing.t) : step unit :=
  close (StalePairing.rendezvous_id stale).
End Calls.

(** ** Steps of a session *)

Notation step := (eff PairingSession.t DriveError.t).

Definition session_step {X}
    (f : PairingSession.t -> PairingSession.t * result X FlowError.t) : step X :=
  with_err DriveError.Flow (on_mem f).

(** A change of the session that cannot fail. *)
Definition change (f : PairingSession.t -> PairingSession.t) : step unit :=
  on_mem (fun s => (f s, Ok tt)).

Definition clean (closing : bool) : step unit :=
  let! s := get_mem in cleanup (PairingSession.rendezvous_id s) closing.

Definition post_outgoing (outgoing : Outgoing.t) : step unit :=
  let! s := get_mem in post (PairingSession.rendezvous_id s) outgoing.

Definition abort {X} (error : DriveError.t) : step X :=
  change (PairingSession.end_ EndFailed) ;!
  clean true ;!
  raise error.

(** The body of a driver, with [abort] after a failure. *)
Definition or_abort (m : step unit) : step unit :=
  let! r := attempt m in
  match r with Ok _ => ret tt | Err error => abort error end.

Definition prepare_holder : step unit :=
  let! s := get_mem in
  if bool_decide (PairingSession.role s <> Creator) || bool_decide (is_Some (PairingSession.master s))
  then ret tt else
  let! st := get_store in
  let! master := flowed (flow FlowError.Store (Store.master_key st)) in
  let! master := flowed (ok_or master FlowError.NoIdentity) in
  session_step (fun s => PairingSession.set_master s (identity_ed25519 master)).

Definition send_join_if_ready : step unit :=
  let! s := get_mem in
  if negb (PairingSession.join_ready s) then ret tt else
  let! st := get_store in
  let! account := flowed (flow FlowError.Store (Store.olm_identity st)) in
  let! account := flowed (ok_or account FlowError.NoIdentity) in
  let! master := flowed (ok_or (PairingSession.master s) FlowError.NotConfirmed) in
  let signature := sign_text account
                     (device_id_signed_text (identity_curve25519 account) master) in
  let! outgoing := session_step (fun s => PairingSession.seal_join s signature) in
  post_outgoing outgoing.

Definition refuse (reason : string) : step unit :=
  let! outgoing := session_step (fun s => PairingSession.seal_refusal s reason) in
  post_outgoing outgoing ;!
  clean false.

(** The list goes to the server and to the store before [signed] is sealed. *)
Definition publish_grant (grant : Grant.t) : step unit :=
  let! request := lift (map_err (fun e => DriveError.Route (E2eRouteError.Wire e))
                          (ListRequest.new (Grant.master grant) (Grant.list grant))) in
  let! _ := with_err DriveError.Route
              (GrappaClient.put_e2e_list (PairingContext.client ctx) (PairingContext.token ctx)
                 (PairingContext.network_id ctx) (PairingContext.protocol ctx) request) in
  with_err DriveError.Flow
    (with_err (fun _ => FlowError.Store)
       (on_store (fun env d s => Store.set_signed_list env d s (Grant.list grant)))) ;!
  let! outgoing := session_step (fun s => PairingSession.seal_signed s grant) in
  post_outgoing outgoing.

Definition finish_creator : step unit :=
  let! s := get_mem in
  let! device := flowed (ok_or (PairingSession.confirmed_device s) FlowError.NotConfirmed) in
  if negb (PairingSession.peer_id_signature_valid s) then refuse "failed" else
  let! st := get_store in
  let! master := flowed (flow FlowError.Store (Store.master_key st)) in
  let! master := flowed (ok_or master FlowError.NoIdentity) in
  let! current := flowed (ok_or (StateData.signed_list (Store.data st)) FlowError.NoIdentity) in
  if contains (SignedList.keys current) (JoinerDevice.ed25519 device)
  then refuse "paired" else
  match build_grant (signer master) current (JoinerDevice.ed25519 device) with
  | Ok grant => publish_grant grant
  | Err FlowError.ListFull => refuse "full"
  | Err error => raise (DriveError.Flow error)
  end.

(** [apply_grant] with its two writes as steps. *)
Definition take_grant (own_ed25519 : string) (grant : Grant.t) : step unit :=
  let! st := get_store in
  flowed (check_grant st own_ed25519 grant) ;!
  with_err (fun _ => DriveError.Flow FlowError.Store)
    (on_store (fun env d s => Store.set_signed_list env d s (Grant.list grant))) ;!
  with_err (fun _ => DriveError.Flow FlowError.Store)
    (on_store (fun env d s => Store.set_device_certificate env d s (Grant.certificate grant))).

Definition finish_joiner (grant : Grant.t) : step unit :=
  let! own := device_from_store in
  take_grant (JoinerDevice.ed25519 own) grant ;!
  with_err DriveError.Provision
    (provision_device (PairingContext.client ctx) (PairingContext.token ctx)
       (PairingContext.network_id ctx) (PairingContext.protocol ctx)) ;!
  let! outgoing := session_step PairingSession.seal_done in
  post_outgoing outgoing ;!
  change PairingSession.finish ;!
  clean false.

Definition take_event (event : FlowEvent) : step unit :=
  match event with
  | CodeReady => ret tt
  | Offered =>
      let! s := get_mem in
      if bool_decide (PairingSession.network s <> PairingContext.network_id ctx)
      then ret tt else send_join_if_ready
  | Joined => finish_creator
  | Signed grant => finish_joiner grant
  | Paired => change PairingSession.finish ;! clean true
  end.

Fixpoint take_events (events : list FlowEvent) : step unit :=
  match events with
  | [] => ret tt
  | event :: events => take_event event ;! take_events events
  end.

Definition pump_inner : step unit :=
  let! s := get_mem in
  let! messages := called (GrappaClient.fetch_pairing_messages (PairingContext.client ctx)
                             (PairingContext.token ctx) (PairingSession.rendezvous_id s)
                             (PairingSession.last_seq s) (PairingContext.protocol ctx)) in
  let! events := session_step (fun s => PairingSession.accept s messages) in
  take_events events.

Definition pump : step unit :=
  let! s := get_mem in
  if negb (PairingSession.is_active s) then raise (DriveError.Flow FlowError.NotActive)
  else or_abort pump_inner.

Definition bind_joiner_inner : step unit :=
  let! s := get_mem in
  if bool_decide (PairingSession.role s <> Joiner)
     || bool_decide (PairingSession.network s <> PairingContext.network_id ctx)
  then raise (DriveError.Flow FlowError.NotActive) else
  let! device := device_from_store in
  change (PairingSession.bind_device device) ;!
  let! s := get_mem in
  flow_op_of (fun env d st => save_pending env d st s) ;!
  send_join_if_ready.

Definition bind_joiner : step unit := or_abort bind_joiner_inner.

Definition confirm_inner (outgoing : option Outgoing.t) : step unit :=
  match outgoing with Some outgoing => post_outgoing outgoing | None => ret tt end ;!
  send_join_if_ready.

Definition confirm (typed : string) : step unit :=
  prepare_holder ;!
  let! outgoing := attempt (session_step (fun s => PairingSession.confirm s typed)) in
  match outgoing with
  | Ok outgoing => or_abort (confirm_inner outgoing)
  | Err (DriveError.Flow FlowError.WrongCode) =>
      clean true ;! raise (DriveError.Flow FlowError.WrongCode)
  | Err error => raise error
  end.

Definition on_push (push : PairingPush.t) : step unit :=
  let! s := get_mem in
  let id := PairingSession.rendezvous_id s in
  match push with
  | PairingPush.Message rendezvous_id _ _ =>
      if decide (rendezvous_id = id) then pump else ret tt
  | PairingPush.Closed rendezvous_id reason =>
      if decide (rendezvous_id = id)
      then change (PairingSession.on_closed reason) ;! clean false else ret tt
  end.

Definition cancel : step unit :=
  change PairingSession.cancel ;! clean true.

Definition tick (now : Z) : step bool :=
  let! ended := on_mem (fun s => let '(s, ended) := PairingSession.expire s now in (s, Ok ended)) in
  if ended : bool then clean true ;! ret true else ret false.
End Drive.
