(* ===== verification/EffectsFacts.v ===== *)
(** * What a call and a write do

    Each route of the client sends at most one request, changes nothing else,
    and gives a value only for an answer of success; and the rules for the
    steps with effects, with the changes that the writes of the store make. *)

From S2P Require Import Prelude.
From S2P Require Import RustStr.
From S2P Require Import Interfaces.
From S2P Require Import Wire.
From S2P Require Import Manage.
From S2P Require Import Trust.
From S2P Require Import Peer.
From S2P Require Import Files.
From S2P Require Import History.
From S2P Require Import State.
From S2P Require Import StateFacts.
From S2P Require Import DeviceRoutes.
From S2P Require Import Pairing.
From S2P Require Import Protocol.
From S2P Require Import Refusal.
From S2P Require Import IdentityRoutes.
From S2P Require Import Effects.
From S2P Require Import Client.
From stdpp Require Import options.

Section ClientFacts.
Context {C : Crypto} {J : Json} {U : UrlLib} {M : Type}.
Implicit Types (w : world M) (o : outside) (q : request).

(** A refusal that came with its answer. *)
Definition refused_by (a : http_answer) (refusal : E2eRefusal.t) : Prop :=
  exists header content,
    a = Answered (E2eRefusal.status refusal) header content /\
    is_success (E2eRefusal.status refusal) = false.

(** The errors of a call that sends nothing. *)
Definition before_request (e : E2eRouteError.t) : Prop :=
  match e with
  | E2eRouteError.Unavailable | E2eRouteError.Wire _ => True
  | E2eRouteError.Client e => exists text, e = GrappaClientError.InvalidUrl text
  | E2eRouteError.Refused _ _ => False
  end.

Definition one_call {X} (ok : request -> Prop) o w (r : result X E2eRouteError.t) (w' : world M)
    : Prop :=
  (w' = w /\ exists e, r = Err e /\ before_request e) \/
  exists q, ok q /\ w' = record w (Sent q (reply o (log w) q)) /\
    (forall x, r = Ok x -> answered_well (reply o (log w) q)) /\
    (forall refusal wait, r = Err (E2eRouteError.Refused refusal wait) ->
       refused_by (reply o (log w) q) refusal).

Lemma from_response_status status token :
  E2eRefusal.status (E2eRefusal.from_response status token) = status.
Proof.
  destruct (from_response_cases status token) as [(row & Hin & <- & _ & ->)|[_ ->]]; [|done].
  by destruct (known_rows row Hin) as (_ & H & _).
Qed.

(** The reading of an answer. *)
Lemma read_answer_ok now a v : read_answer now a = Ok v -> answered_well a.
Proof.
  unfold read_answer, reject_with_code, answered_well. destruct a as [|status header content]; [done|].
  by destruct (is_success status).
Qed.

Lemma read_answer_refused now a refusal wait :
  map_err E2eRouteError.of_client (read_answer now a) =
    Err (E2eRouteError.Refused refusal wait) -> refused_by a refusal.
Proof.
  unfold read_answer, reject_with_code, refused_by.
  destruct a as [e|status header content]; [done|].
  destruct (is_success status) eqn:Hs; simpl.
  - destruct (status =? 204)%N; [done|]. by destruct content.
  - intros [= <- _]. exists header, content. by rewrite from_response_status.
Qed.

Lemma extended_err c segments e :
  GrappaClient.extended c segments = Err e -> exists text, e = GrappaClientError.InvalidUrl text.
Proof.
  unfold GrappaClient.extended. destruct (url_parse _) as [u|]; simpl; [|intros [= <-]; eauto].
  destruct (path_extend u segments); simpl; [done|]. intros [= <-]. eauto.
Qed.

Lemma e2e_url_err c op network did sp e :
  GrappaClient.e2e_url c op network did sp = Err e -> before_request e.
Proof.
  unfold GrappaClient.e2e_url. destruct (negb _); [intros [= <-]; exact I|].
  destruct (E2eOperation.path op did); simpl; [|intros [= <-]; exact I].
  destruct (GrappaClient.extended c _) as [u|e'] eqn:E; simpl; [done|].
  intros [= <-]. apply extended_err in E as [text ->]. simpl. eauto.
Qed.

Lemma call_one {X} (read : value -> result X WireError) (url : result url E2eRouteError.t)
    (q : Effects.url -> request) (ok : request -> Prop) o w :
  (forall e, url = Err e -> before_request e) -> (forall u, url = Ok u -> ok (q u)) ->
  wp o (bind (lift url) (fun u => GrappaClient.call (q u) read))
    (fun r w' => one_call ok o w r w') w.
Proof.
  intros Herr Hok. unfold wp, bind, lift. destruct url as [u|e].
  - unfold GrappaClient.call, GrappaClient.send_e2e_device_request, with_err, bind, send, now, lift.
    cbn [fst snd]. set (a := reply o (log w) (q u)).
    destruct (read_answer _ a) as [v|e'] eqn:E; simpl.
    + apply read_answer_ok in E.
      assert (forall r : result X E2eRouteError.t,
        (forall refusal wait, r <> Err (E2eRouteError.Refused refusal wait)) ->
        one_call ok o w r (record w (Sent (q u) a))) as H.
      { intros r Hr. right. exists (q u). split_and!; [by apply Hok|done|done|].
        intros ? ? ->. by edestruct Hr. }
      destruct v as [v|]; simpl; [destruct (read v); simpl|]; by apply H.
    + right. exists (q u). split; [by apply Hok|]. split_and!; [done|done|].
      intros refusal wait [= H]. exact (read_answer_refused _ _ _ wait (eq_trans (f_equal _ E) (f_equal Err H))).
  - left. split; [done|]. exists e. auto.
Qed.

Lemma call_unit_one (url : result url E2eRouteError.t) (q : Effects.url -> request)
    (ok : request -> Prop) o w :
  (forall e, url = Err e -> before_request e) -> (forall u, url = Ok u -> ok (q u)) ->
  wp o (bind (lift url) (fun u => GrappaClient.call_unit (q u)))
    (fun r w' => one_call ok o w r w') w.
Proof.
  intros Herr Hok. unfold wp, bind, lift. destruct url as [u|e].
  - unfold GrappaClient.call_unit, GrappaClient.send_e2e_device_request, with_err, bind, send, now,
      lift, ret. cbn [fst snd]. set (a := reply o (log w) (q u)).
    destruct (read_answer _ a) as [v|e'] eqn:E; simpl; right; exists (q u); split; [by apply Hok|
      |by apply Hok|].
    + apply read_answer_ok in E. by split_and!.
    + split_and!; [done|done|].
      intros refusal wait [= H]. exact (read_answer_refused _ _ _ wait (eq_trans (f_equal _ E) (f_equal Err H))).
  - left. split; [done|]. exists e. auto.
Qed.

(** An answer that the client can read ends the call with a value. *)
Lemma call_answered {X} (read : value -> result X WireError) (url : result url E2eRouteError.t)
    (q : Effects.url -> request) u o w :
  url = Ok u ->
  wp o (bind (lift url) (fun u => GrappaClient.call (q u) read)) (fun r w' =>
    w' = record w (Sent (q u) (reply o (log w) (q u))) /\
    forall status header v, reply o (log w) (q u) = Answered status header (Ok v) ->
      is_success status = true -> status <> 204%N -> is_ok (read v) = true ->
      exists x, r = Ok x) w.
Proof.
  intros ->. unfold wp, GrappaClient.call, GrappaClient.send_e2e_device_request, with_err, bind,
    send, now, lift. cbn [fst snd]. set (a := reply o (log w) (q u)).
  destruct (read_answer _ a) as [[v|]|e] eqn:E; simpl; (split; [done|]); clearbody a;
    intros status header v' -> Hs H204 Hr; unfold read_answer, reject_with_code in E;
    rewrite Hs in E; simpl in E; rewrite (proj2 (N.eqb_neq _ _) H204) in E; simpl in E; simplify_eq.
  destruct (read v) as [x|]; [by exists x|done].
Qed.

Lemma call_unit_answered (url : result url E2eRouteError.t) (q : Effects.url -> request) u o w :
  url = Ok u ->
  wp o (bind (lift url) (fun u => GrappaClient.call_unit (q u))) (fun r w' =>
    w' = record w (Sent (q u) (reply o (log w) (q u))) /\
    forall status header content, reply o (log w) (q u) = Answered status header content ->
      is_success status = true -> status = 204%N \/ is_ok content = true -> exists x, r = Ok x) w.
Proof.
  intros ->. unfold wp, GrappaClient.call_unit, GrappaClient.send_e2e_device_request, with_err,
    bind, send, now, lift, ret. cbn [fst snd]. set (a := reply o (log w) (q u)).
  destruct (read_answer _ a) as [v|e] eqn:E; simpl; (split; [done|]); clearbody a;
    intros status header content -> Hs Hc; [by exists tt|].
  unfold read_answer, reject_with_code in E. rewrite Hs in E. simpl in E.
  destruct Hc as [->|Hc]; [done|]. destruct (status =? 204)%N; [done|]. by destruct content.
Qed.

(** A request with a method and a body. *)
Definition asks (m : E2eMethod) (b : Body.t) (q : request) : Prop := method q = m /\ body q = b.

Context (c : GrappaClient.t) (token network_id : string) (sp : option N).

Ltac one_call :=
  first [apply call_one | apply call_unit_one];
  [intros; by eapply e2e_url_err | by intros; split].

Lemma register_call r o w :
  wp o (GrappaClient.register_e2e_device c token network_id sp r)
    (fun res w' => one_call (asks Post (Body.DeviceId r)) o w res w') w.
Proof. one_call. Qed.

Lemma list_devices_call o w :
  wp o (GrappaClient.list_e2e_devices c token network_id sp)
    (fun res w' => one_call (asks Get Body.None) o w res w') w.
Proof. one_call. Qed.

Lemma drop_device_call did o w :
  wp o (GrappaClient.drop_e2e_device c token network_id did sp)
    (fun res w' => one_call (asks Delete Body.None) o w res w') w.
Proof. one_call. Qed.

Lemma put_list_call r o w :
  wp o (GrappaClient.put_e2e_list c token network_id sp r)
    (fun res w' => one_call (asks Put (Body.List r)) o w res w') w.
Proof. one_call. Qed.

Lemma fetch_list_call o w :
  wp o (GrappaClient.fetch_e2e_list c token network_id sp)
    (fun res w' => one_call (asks Get Body.None) o w res w') w.
Proof. one_call. Qed.

Lemma delete_identity_call o w :
  wp o (GrappaClient.delete_e2e_identity c token network_id sp)
    (fun res w' => one_call (asks Delete Body.None) o w res w') w.
Proof. one_call. Qed.

Lemma publish_keys_call did r o w :
  wp o (GrappaClient.publish_e2e_keys c token network_id did sp r)
    (fun res w' => one_call (asks Post (Body.Keys r)) o w res w') w.
Proof. one_call. Qed.

Lemma fetch_keys_call did o w :
  wp o (GrappaClient.fetch_e2e_keys c token network_id did sp)
    (fun res w' => one_call (asks Get Body.None) o w res w') w.
Proof. one_call. Qed.

(** A request to the address of one operation, in the name of the session. *)
Definition routed_to (op : E2eOperation.t) (did : option string) (m : E2eMethod) (b : Body.t)
    (q : request) : Prop :=
  asks m b q /\ GrappaClient.e2e_url c op network_id did sp = Ok (address q) /\ bearer q = token.

Ltac routed_call :=
  first [apply call_one | apply call_unit_one];
  [intros; by eapply e2e_url_err | by intros; split_and!].

Lemma drop_device_routed did o w :
  wp o (GrappaClient.drop_e2e_device c token network_id did sp)
    (fun res w' => one_call (routed_to E2eOperation.DeviceDrop (Some did) Delete Body.None)
                     o w res w') w.
Proof. routed_call. Qed.

Lemma put_list_routed r o w :
  wp o (GrappaClient.put_e2e_list c token network_id sp r)
    (fun res w' => one_call (routed_to E2eOperation.ListPut None Put (Body.List r)) o w res w') w.
Proof. routed_call. Qed.

Lemma fetch_list_routed o w :
  wp o (GrappaClient.fetch_e2e_list c token network_id sp)
    (fun res w' => one_call (routed_to E2eOperation.ListFetch None Get Body.None) o w res w') w.
Proof. routed_call. Qed.

Lemma delete_identity_routed o w :
  wp o (GrappaClient.delete_e2e_identity c token network_id sp)
    (fun res w' => one_call (routed_to E2eOperation.IdentityDelete None Delete Body.None)
                     o w res w') w.
Proof. routed_call. Qed.

(** ** Pairing calls *)

(** The call failed before its request, or it sent this one. *)
Definition one_request {X F} (ok : request -> Prop) o w (r : result X F) (w' : world M) : Prop :=
  (w' = w /\ is_ok r = false) \/
  exists q, ok q /\ w' = record w (Sent q (reply o (log w) q)).

Lemma pairing_one {X} (read : option value -> eff M PairingCallError.t X)
    (url : result url PairingCallError.t) (q : Effects.url -> request) (ok : request -> Prop) o w :
  (forall u, ok (q u)) ->
  (forall b w, exists r, read b o w = (w, r)) ->
  wp o (bind (lift url) (fun u => bind (GrappaClient.send_pairing_request (q u)) read))
    (fun r w' => one_request ok o w r w') w.
Proof.
  intros Hok Hread. unfold wp, bind, lift. destruct url as [u|e]; [|by left].
  unfold GrappaClient.send_pairing_request, bind, send, now, lift. cbn [fst snd].
  assert (forall r : result X PairingCallError.t,
    one_request ok o w r (record w (Sent (q u) (reply o (log w) (q u))))) as H
    by (intros r; right; exists (q u); auto).
  destruct (map_err _ _) as [b|e]; [|by apply H].
  edestruct Hread as [r ->]. apply H.
Qed.

Context {P : PairingAnswers}.

Lemma post_pairing_call id payload count total o w :
  wp o (GrappaClient.post_pairing_message c token id payload count total sp)
    (fun r w' => one_request (asks Post (Body.Payload payload)) o w r w') w.
Proof.
  unfold GrappaClient.post_pairing_message. destruct (negb _); [by left|].
  apply pairing_one; [done|]. intros b w1. by eexists.
Qed.

Lemma fetch_pairing_call id after o w :
  wp o (GrappaClient.fetch_pairing_messages c token id after sp)
    (fun r w' => one_request (asks Get Body.None) o w r w') w.
Proof. apply pairing_one; [done|]. intros b w1. by eexists. Qed.

Lemma close_pairing_call id o w :
  wp o (GrappaClient.close_pairing c token id sp)
    (fun r w' => one_request (asks Delete Body.None) o w r w') w.
Proof. apply pairing_one; [done|]. intros b w1. by eexists. Qed.
End ClientFacts.

(** The data of the open store. *)
Notation data_of w := (Store.data (store w)).

(** ** Steps that change nothing *)

Section Reads.
Context {J : Json} {U : UrlLib} {M : Type} (o : outside).
Implicit Types (w : world M).

(** A step that only reads a result. *)
Lemma wp_read {X Y E F} (f : F -> E) (r : result X F) (k : X -> eff M E Y)
    (Q : result Y E -> world M -> Prop) w :
  (forall e, r = Err e -> Q (Err (f e)) w) -> (forall x, r = Ok x -> wp o (k x) Q w) ->
  wp o (bind (lift (map_err f r)) k) Q w.
Proof. intros He Hk. unfold wp, bind, lift. destruct r; simpl; [by apply Hk|by apply He]. Qed.

Lemma wp_need {X Y E} (e : E) (x : option X) (k : X -> eff M E Y)
    (Q : result Y E -> world M -> Prop) w :
  (x = None -> Q (Err e) w) -> (forall a, x = Some a -> wp o (k a) Q w) ->
  wp o (bind (lift (ok_or x e)) k) Q w.
Proof. intros He Hk. unfold wp, bind, lift. destruct x; simpl; [by apply Hk|by apply He]. Qed.

Lemma wp_data {Y E} (k : StateData.t -> eff M E Y) (Q : result Y E -> world M -> Prop) w :
  wp o (k (data_of w)) Q w -> wp o (bind get_data k) Q w.
Proof. done. Qed.

Lemma wp_store {Y E} (k : Store.t -> eff M E Y) (Q : result Y E -> world M -> Prop) w :
  wp o (k (store w)) Q w -> wp o (bind get_store k) Q w.
Proof. done. Qed.

Lemma wp_mem {Y E} (k : M -> eff M E Y) (Q : result Y E -> world M -> Prop) w :
  wp o (k (mem w)) Q w -> wp o (bind get_mem k) Q w.
Proof. done. Qed.
End Reads.

(** ** Kept invariants *)

Section Keeps.
Context {J : Json} {U : UrlLib} {M : Type} (o : outside).
Context (I : world M -> Prop).

(** [m] keeps [I], and the value it gives has [V]. *)
Definition gives {E A} (V : A -> Prop) (m : eff M E A) : Prop :=
  forall w, I w -> wp o m (fun r w' => I w' /\ forall a, r = Ok a -> V a) w.

Definition keeps {E A} (m : eff M E A) : Prop := gives (fun _ => True) m.

Lemma gives_keeps {E A} (V : A -> Prop) (m : eff M E A) : gives V m -> keeps m.
Proof. intros H w Hw. eapply wp_mono; [by apply H|]. naive_solver. Qed.

Lemma gives_mono {E A} (V Z : A -> Prop) (m : eff M E A) :
  (forall a, V a -> Z a) -> gives V m -> gives Z m.
Proof. intros HVZ H w Hw. eapply wp_mono; [by apply H|]. naive_solver. Qed.

Lemma keeps_ret {E A} (a : A) : keeps (E := E) (ret a).
Proof. by intros w Hw. Qed.

Lemma gives_ret {E A} (V : A -> Prop) (a : A) : V a -> gives (E := E) V (ret a).
Proof. intros Ha w Hw. split; [done|]. by intros ? [= <-]. Qed.

Lemma keeps_raise {E A} (e : E) : keeps (A := A) (raise e).
Proof. by intros w Hw. Qed.

Lemma gives_raise {E A} (V : A -> Prop) (e : E) : gives (A := A) V (raise e).
Proof. by intros w Hw. Qed.

Lemma gives_lift {E A} (V : A -> Prop) (r : result A E) :
  (forall a, r = Ok a -> V a) -> gives V (lift r).
Proof. by intros Hr w Hw. Qed.

Lemma keeps_lift {E A} (r : result A E) : keeps (lift r).
Proof. by apply gives_lift. Qed.

Lemma gives_bind {E A B} (V : A -> Prop) (Z : B -> Prop) (m : eff M E A) (k : A -> eff M E B) :
  gives V m -> (forall a, V a -> gives Z (k a)) -> gives Z (bind m k).
Proof.
  intros Hm Hk w Hw. eapply wp_seq; [by apply Hm| |].
  - intros a w' [Hw' Ha]. apply Hk; auto.
  - intros e w' [Hw' _]. by split.
Qed.

Lemma keeps_bind {E A B} (m : eff M E A) (k : A -> eff M E B) :
  keeps m -> (forall a, keeps (k a)) -> keeps (bind m k).
Proof. intros Hm Hk. eapply gives_bind; [exact Hm|]. intros a _. apply Hk. Qed.

Lemma keeps_attempt {E F A} (m : eff M F A) : keeps m -> keeps (E := E) (attempt m).
Proof.
  intros Hm w Hw. apply wp_attempt. eapply wp_mono; [by apply Hm|]. naive_solver.
Qed.

Lemma keeps_with_err {E F A} (f : F -> E) (m : eff M F A) : keeps m -> keeps (with_err f m).
Proof.
  intros Hm w Hw. apply wp_with_err. eapply wp_mono; [by apply Hm|]. naive_solver.
Qed.

Lemma gives_with_err {E F A} (V : A -> Prop) (f : F -> E) (m : eff M F A) :
  gives V m -> gives V (with_err f m).
Proof.
  intros Hm w Hw. apply wp_with_err. eapply wp_mono; [by apply Hm|].
  intros r w' [HI HV]. split; [done|]. intros a Ha. apply map_err_ok in Ha. auto.
Qed.

(** What is known of the data that is read now. *)
Lemma gives_data {E} (V : StateData.t -> Prop) :
  (forall w, I w -> V (data_of w)) -> gives (E := E) V get_data.
Proof. intros HV w Hw. split; [done|]. intros ? [= <-]. auto. Qed.

Lemma gives_store {E} (V : Store.t -> Prop) :
  (forall w, I w -> V (store w)) -> gives (E := E) V get_store.
Proof. intros HV w Hw. split; [done|]. intros ? [= <-]. auto. Qed.

Lemma gives_mem {E} (V : M -> Prop) : (forall w, I w -> V (mem w)) -> gives (E := E) V get_mem.
Proof. intros HV w Hw. split; [done|]. intros ? [= <-]. auto. Qed.

Lemma keeps_get_data {E} : keeps (E := E) get_data.
Proof. by intros w Hw. Qed.
Lemma keeps_get_store {E} : keeps (E := E) get_store.
Proof. by intros w Hw. Qed.
Lemma keeps_get_mem {E} : keeps (E := E) get_mem.
Proof. by intros w Hw. Qed.

Lemma keeps_draw {E} : (forall w seed, I w -> I (record w (Drew seed))) -> keeps (E := E) draw.
Proof. intros H w Hw. split; [|done]. by apply H. Qed.

Lemma keeps_one_call {X} (ok : request -> Prop) (m : eff M E2eRouteError.t X) :
  (forall w, wp o m (fun r w' => one_call ok o w r w') w) ->
  (forall w q a, I w -> ok q -> I (record w (Sent q a))) ->
  keeps m.
Proof.
  intros Hm HI w Hw. eapply wp_mono; [apply Hm|].
  intros r w' [[-> _]|(q & Hq & -> & _)]; split; auto.
Qed.
End Keeps.

Create HintDb effects.
#[export] Hint Resolve keeps_ret keeps_raise keeps_lift keeps_bind keeps_attempt keeps_with_err
  keeps_get_data keeps_get_store keeps_get_mem keeps_draw : effects.

(** ** Operations of the store *)

Section StoreMoves.
Context {J : Json} {U : UrlLib} {C : Crypto} {T : StateText} {A : Aead} {O : Olm} {M : Type}.
Implicit Types (w : world M).

(** An operation is a commit of one change, or it has nothing to do. *)
Definition commits (op : io_env -> disk -> Store.t -> Store.outcome)
    (change : Store.t -> StateData.t -> StateData.t) : Prop :=
  forall env d s,
    op env d s = Store.commit env d s (change s) \/
    op env d s = (d, s, Ok tt) /\ change s (Store.data s) = Store.data s.

(** The store after a change of its data, or as it was. *)
Definition moves (change : Store.t -> StateData.t -> StateData.t) w
    (r : result unit E2eStoreError.t) w' : Prop :=
  mem w' = mem w /\
  match r with
  | Ok _ =>
      store w' = Store.with_data (store w) (change (store w) (data_of w)) /\
      log w' = log w ++ [Saved (data_of w')]
  | Err _ => store w' = store w /\ log w' = log w ++ [NotSaved]
  end.

Lemma on_store_moves op change (o : outside) w :
  commits op change -> wp o (on_store op) (moves change w) w.
Proof.
  intros Hop. unfold wp, on_store, moves.
  destruct (Hop (io_of o (log w)) (files w) (store w)) as [->|[-> Hc]].
  - unfold Store.commit. destruct (seal _ _ _) as [raw|e]; [|done].
    by destruct (Store.writer _ _ _ _ _) as [d [u|e]].
  - rewrite Hc. by destruct w as [? [] ? ?].
Qed.

Lemma keeps_on_store (I : world M -> Prop) op change (o : outside) :
  commits op change ->
  (forall w r w', I w -> moves change w r w' -> I w') -> keeps o I (on_store op).
Proof.
  intros Hop HI w Hw. eapply wp_mono; [by apply on_store_moves|]. eauto.
Qed.

Ltac commits := intros env d s; first [by left | (right; split)].

Lemma commits_set_account a :
  commits (fun env d s => Store.set_account env d s a)
    (fun s => StateData.set_account (Some (account_pickle (Store.key s) a))).
Proof. commits. Qed.

Lemma commits_set_master_key a :
  commits (fun env d s => Store.set_master_key env d s a)
    (fun s => StateData.set_master (Some (account_pickle (Store.key s) a))).
Proof. commits. Qed.

Lemma commits_set_signed_list l :
  commits (fun env d s => Store.set_signed_list env d s l)
    (fun _ data => StateData.set_list (Some l) (StateData.list_pending data)
                     (StateData.list_migrated data) data).
Proof. commits. Qed.

Lemma commits_set_signed_list_pending l :
  commits (fun env d s => Store.set_signed_list_pending env d s l)
    (fun _ data => StateData.set_list (Some l) true (StateData.list_migrated data) data).
Proof. commits. Qed.

Lemma commits_set_published_list l :
  commits (fun env d s => Store.set_published_list env d s l)
    (fun _ data => StateData.set_list (Some l) false (StateData.list_migrated data) data).
Proof. commits. Qed.

Lemma commits_set_list_migrated :
  commits (fun env d s => Store.set_list_migrated env d s)
    (fun _ data => StateData.set_list (StateData.signed_list data) (StateData.list_pending data)
                     true data).
Proof.
  intros env d s. unfold Store.set_list_migrated.
  destruct (StateData.list_migrated (Store.data s)) eqn:H; [right|by left].
  split; [done|]. destruct (Store.data s). simpl in *. by rewrite H.
Qed.

Lemma commits_set_migrated_list l pending :
  commits (fun env d s => Store.set_migrated_list env d s l pending)
    (fun _ data => StateData.set_list (Some l) (StateData.list_pending data || pending) true data).
Proof. commits. Qed.

Lemma commits_clear_list_pending :
  commits (fun env d s => Store.clear_list_pending env d s)
    (fun _ data => StateData.set_list (StateData.signed_list data) false
                     (StateData.list_migrated data) data).
Proof.
  intros env d s. unfold Store.clear_list_pending.
  destruct (StateData.list_pending (Store.data s)) eqn:H; [by left|right].
  split; [done|]. destruct (Store.data s). simpl in *. by rewrite H.
Qed.

Lemma commits_set_device_certificate c :
  commits (fun env d s => Store.set_device_certificate env d s c)
    (fun _ => StateData.set_certificate (Some c)).
Proof. commits. Qed.

Lemma commits_set_trust trust :
  commits (fun env d s => Store.set_trust env d s trust) (fun _ => StateData.set_trust trust).
Proof. commits. Qed.

Lemma commits_remove_peer_session network nick did :
  commits (fun env d s => Store.remove_peer_session env d s network nick did)
    (fun _ data => StateData.set_sessions
                     (delete (peer_device_key network nick did) (StateData.sessions data)) data).
Proof.
  intros env d s. unfold Store.remove_peer_session.
  destruct (_ !! _) eqn:H; [by left|right]. split; [done|].
  rewrite delete_id by done. by destruct (Store.data s).
Qed.

(** The keys that a revoke adds. *)
Definition add_revoked (key : string) (keys : list string) : list string :=
  if contains keys key then keys else keys ++ [key].

Lemma commits_begin_revoke pending l :
  commits (fun env d s => Store.begin_revoke env d s pending l)
    (fun _ data => StateData.set_revoke (Some pending)
       (add_revoked (PendingRevoke.ed25519 pending) (StateData.own_revoked data))
       (StateData.set_list (Some l) true (StateData.list_migrated data) data)).
Proof. commits. Qed.

Lemma commits_clear_pending_revoke :
  commits (fun env d s => Store.clear_pending_revoke env d s)
    (fun _ data => StateData.set_revoke None (StateData.own_revoked data) data).
Proof.
  intros env d s. unfold Store.clear_pending_revoke.
  destruct (StateData.pending_revoke (Store.data s)) eqn:H; [by left|right].
  split; [done|]. destruct (Store.data s). simpl in *. by rewrite H.
Qed.

Lemma commits_begin_reset :
  commits (fun env d s => Store.begin_reset env d s) (fun _ => StateData.set_reset true).
Proof.
  intros env d s. unfold Store.begin_reset.
  destruct (StateData.reset_pending (Store.data s)) eqn:H; [right|by left].
  split; [done|]. destruct (Store.data s). simpl in *. by rewrite H.
Qed.

Lemma commits_finish_reset network nick :
  commits (fun env d s => Store.finish_reset env d s network nick)
    (fun _ => Store.reset_data network nick).
Proof. commits. Qed.
End StoreMoves.

#[export] Hint Resolve commits_set_account commits_set_master_key commits_set_signed_list
  commits_set_signed_list_pending commits_set_published_list commits_set_list_migrated
  commits_set_migrated_list commits_clear_list_pending commits_set_device_certificate
  commits_set_trust commits_remove_peer_session commits_begin_revoke
  commits_clear_pending_revoke commits_begin_reset commits_finish_reset : effects.

(** ** Invariants of the data alone *)

Section DataKeeps.
Context {J : Json} {U : UrlLib} {C : Crypto} {T : StateText} {A : Aead} {O : Olm} {M : Type}.
Context (o : outside) (P : StateData.t -> Prop).

Definition holds (w : world M) : Prop := P (data_of w).

Lemma moves_data change (w : world M) r w' :
  moves change w r w' ->
  data_of w' = match r with Ok _ => change (store w) (data_of w) | Err _ => data_of w end.
Proof. intros [_ Hm]. destruct r; destruct Hm as [Hs _]; by rewrite Hs. Qed.

Lemma holds_call {X} (ok : request -> Prop) (m : eff M E2eRouteError.t X) :
  (forall w, wp o m (fun r w' => one_call ok o w r w') w) -> keeps o holds m.
Proof. intros Hm. eapply keeps_one_call; [done|]. done. Qed.

Lemma holds_on_store op change :
  commits op change -> (forall s d, P d -> P (change s d)) -> keeps o holds (on_store op).
Proof.
  intros Hop HP. eapply keeps_on_store; [done|]. unfold holds. intros w r w' Hw Hm.
  apply moves_data in Hm as ->. destruct r; auto.
Qed.
End DataKeeps.

(** Goals [keeps o I m] by the structure of [m]; what is left are the calls and
    the writes, each with what it must not touch. *)
Ltac keeps_parts :=
  repeat match goal with
  | |- gives ?o ?I (fun _ => True) ?m => change (keeps o I m)
  | |- keeps _ _ (bind _ _) => apply keeps_bind; [|intros ?]
  | |- keeps _ _ (attempt _) => apply keeps_attempt
  | |- keeps _ _ (with_err _ _) => apply keeps_with_err
  | |- keeps _ _ (ret _) => apply keeps_ret
  | |- keeps _ _ (raise _) => apply keeps_raise
  | |- keeps _ _ (lift _) => apply keeps_lift
  | |- keeps _ _ get_data => apply keeps_get_data
  | |- keeps _ _ get_store => apply keeps_get_store
  | |- keeps _ _ get_mem => apply keeps_get_mem
  | |- keeps _ _ (match ?x with _ => _ end) => destruct x
  end.
