(* ===== verification/RevokeFacts.v ===== *)
(** * Theorems on the revoke of a device and the reset of the identity *)

From S2P Require Import Prelude.
From S2P Require Import RustStr.
From S2P Require Import Interfaces.
From S2P Require Import Wire.
From S2P Require Import WireFacts.
From S2P Require Import Device.
From S2P Require Import Manage.
From S2P Require Import DeviceFacts.
From S2P Require Import Trust.
From S2P Require Import TrustFacts.
From S2P Require Import Peer.
From S2P Require Import Files.
From S2P Require Import History.
From S2P Require Import State.
From S2P Require Import StateFacts.
From S2P Require Import Account.
From S2P Require Import Refusal.
From S2P Require Import IdentityRoutes.
From S2P Require Import Protocol.
From S2P Require Import Effects.
From S2P Require Import Client.
From S2P Require Import EffectsFacts.
From S2P Require Import Provision.
From S2P Require Import Revoke.
From stdpp Require Import options.

Section RevokeFacts.
Context {C : Crypto} {J : Json} {U : UrlLib} {T : StateText} {A : Aead} {O : Olm}.
Context {M : Type} (routes : OwnRoutes.t) (o : outside).
Implicit Types (w : world M).

(** The list that a request puts holds no key of [revoked]. *)
Definition lacks (revoked : list string) (keys : list string) : Prop :=
  forall key, key ∈ revoked -> key ∉ keys.

Definition put_lacks (revoked : list string) (e : event) : Prop :=
  match e with
  | Sent q _ => forall r, body q = Body.List r -> lacks revoked (ListRequest.devices r)
  | _ => True
  end.

Definition list_lacks (revoked : list string) (d : StateData.t) : Prop :=
  forall l, StateData.signed_list d = Some l -> lacks revoked (SignedList.keys l).

(** ** Revoked keys stay out of every list *)

Section Lacks.
(** The revoked keys [R], and those of them that no list has. *)
Context (R K : list string) (HK : forall key, key ∈ K -> key ∈ R) (before : list event).

Definition lacking w : Prop :=
  StateData.own_revoked (data_of w) = R /\ list_lacks K (data_of w) /\
  exists es, log w = before ++ es /\ Forall (put_lacks K) es.

Lemma lacking_log w w' e :
  lacking w -> data_of w' = data_of w -> log w' = log w ++ [e] -> put_lacks K e -> lacking w'.
Proof.
  intros (HR & Hl & es & Hes & Hf) Hd Hlog He. unfold lacking. rewrite Hd.
  split_and!; [done|done|]. exists (es ++ [e]). rewrite Hlog, Hes, app_assoc.
  split; [done|]. apply Forall_app. auto.
Qed.

Lemma lacking_moves change w r w' :
  lacking w -> moves change w r w' ->
  (forall s d, StateData.own_revoked (change s d) = StateData.own_revoked d) ->
  (forall s d, list_lacks K d -> list_lacks K (change s d)) -> lacking w'.
Proof.
  intros Hw (_ & Hm) HR Hl. destruct r as [u|e].
  - destruct Hm as [Hs Hlog]. destruct Hw as (H1 & H2 & es & Hes & Hf).
    assert (data_of w' = change (store w) (data_of w)) as Hd by (by rewrite Hs).
    unfold lacking. rewrite Hd, HR. split_and!; [done|auto|].
    exists (es ++ [Saved (data_of w')]). rewrite Hlog, Hes, app_assoc. split; [done|].
    apply Forall_app. split; [done|]. by constructor.
  - destruct Hm as [Hs Hlog]. eapply lacking_log; [done|by rewrite Hs|done|done].
Qed.

Lemma keeps_call {X} (m : eff M E2eRouteError.t X) method_ body_ :
  (forall w, wp o m (fun r w' => one_call (asks method_ body_) o w r w') w) ->
  (forall r, body_ = Body.List r -> lacks K (ListRequest.devices r)) ->
  keeps o lacking m.
Proof.
  intros Hm Hb. eapply keeps_one_call; [done|]. intros w q a Hw [_ Hq].
  eapply lacking_log; [done|done|done|]. intros r Hr. apply Hb. congruence.
Qed.

Lemma keeps_saved op change :
  commits op change ->
  (forall s d, StateData.own_revoked (change s d) = StateData.own_revoked d) ->
  (forall s d, list_lacks K d -> list_lacks K (change s d)) ->
  keeps o lacking (saved op).
Proof.
  intros Hop HR Hl. apply keeps_with_err. eapply keeps_on_store; [done|].
  intros w r w' Hw Hm. by eapply lacking_moves.
Qed.

Lemma lacks_without keys : lacks K (without_revoked R keys).
Proof using HK. intros key Hk%HK Hin. by apply list_elem_of_filter in Hin as [Hn _]. Qed.

Lemma lacks_perm revoked keys keys' : keys ≡ₚ keys' -> lacks revoked keys -> lacks revoked keys'.
Proof. intros Hp Hl key Hk. rewrite <- Hp. auto. Qed.

Lemma keeps_needed_master : keeps o lacking needed_master.
Proof. unfold needed_master. keeps_parts. Qed.

Lemma keeps_stop_routing pending : keeps o lacking (stop_routing routes pending).
Proof.
  unfold stop_routing. keeps_parts; [apply keeps_needed_master| |].
  - eapply keeps_saved; [by apply commits_set_trust|done|done].
  - eapply keeps_saved; [by apply commits_remove_peer_session|done|done].
Qed.

Lemma sign_list_keys master version keys l :
  sign_list master version keys = Ok l ->
  SignedList.keys l ≡ₚ keys /\ SignedList.version l = version.
Proof.
  unfold sign_list. intros H. inv_result. simpl. split; [apply merge_sort_Permutation|done].
Qed.

Lemma list_request_fields master l r :
  ListRequest.new master l = Ok r ->
  r = ListRequest.mk master (SignedList.version l) (SignedList.keys l) (SignedList.signature l).
Proof. unfold ListRequest.new. intros H. by inv_checks. Qed.

Lemma keeps_publish_try master : keeps o lacking (publish_try routes master).
Proof using HK.
  unfold publish_try.
  eapply (gives_bind _ _ (list_lacks K)); [apply gives_data; by intros w (_ & ? & _)|].
  intros data Hdata.
  eapply (gives_bind _ _ (fun l => lacks K (SignedList.keys l)));
    [apply gives_lift; intros l Hl; apply ok_or_ok in Hl; by apply Hdata|].
  intros l Hlist.
  eapply (gives_bind _ _ (fun r => lacks K (ListRequest.devices r))).
  { apply gives_lift. intros r Hr. apply map_err_ok, list_request_fields in Hr as ->. done. }
  intros request Hrequest. apply keeps_bind.
  { apply keeps_attempt. eapply keeps_call; [intros; apply put_list_call|].
    by intros r [= <-]. }
  intros [held|e]; [keeps_parts; eapply keeps_saved;
    [apply commits_clear_list_pending|done|done]|].
  destruct e as [[]| | |]; try apply keeps_raise.
  apply keeps_bind.
  { apply keeps_with_err. eapply keeps_call; [intros; apply fetch_list_call|done]. }
  intros held. destruct (negb _); [apply keeps_raise|]. apply keeps_bind; [apply keeps_lift|].
  intros _. eapply (gives_bind _ _ (fun d => StateData.own_revoked d = R));
    [apply gives_data; by intros w (? & _)|].
  intros data' HR. cbv zeta. rewrite HR.
  destruct (bool_decide _); [apply keeps_raise|].
  destruct (bool_decide _ && _) eqn:Hb.
  - apply andb_true_iff in Hb as [Hb _]. apply bool_decide_eq_true in Hb. keeps_parts.
    + eapply keeps_saved; [apply commits_set_signed_list|done|].
      intros s d _ l' [= <-]. rewrite <- Hb. apply lacks_without.
    + eapply keeps_saved; [apply commits_clear_list_pending|done|done].
  - eapply (gives_bind _ _ (fun l => lacks K (SignedList.keys l))).
    { apply gives_lift. intros next Hnext. apply map_err_ok, sign_list_keys in Hnext as [Hp _].
      eapply lacks_perm; [symmetry; exact Hp|]. apply lacks_without. }
    intros next Hnext. keeps_parts.
    eapply keeps_saved; [apply commits_set_signed_list_pending|done|]. by intros s d _ l' [= <-].
Qed.

Lemma keeps_publish_list : keeps o lacking (publish_list routes).
Proof using HK.
  unfold publish_list. keeps_parts; [apply keeps_needed_master|].
  generalize 2. intros n. induction n as [|n IH]; simpl; keeps_parts; [apply keeps_publish_try|done].
Qed.

Lemma keeps_finish_revoke pending : keeps o lacking (finish_revoke routes pending).
Proof using HK.
  unfold finish_revoke, or_not_found.
  keeps_parts; try apply keeps_stop_routing; try apply keeps_publish_list.
  - eapply keeps_call; [intros; apply drop_device_call|done].
  - eapply keeps_saved; [apply commits_clear_pending_revoke|done|done].
Qed.
End Lacks.

(** ** How a revoke starts *)

Definition begin_change (pending : PendingRevoke.t) (next : SignedList.t)
    (_ : Store.t) (data : StateData.t) : StateData.t :=
  StateData.set_revoke (Some pending)
    (add_revoked (PendingRevoke.ed25519 pending) (StateData.own_revoked data))
    (StateData.set_list (Some next) true (StateData.list_migrated data) data).

(** The list of a new revoke. *)
Record revoke_list (did : string) (d : StateData.t) (target : string) (next : SignedList.t) : Prop := {
  from_list : exists l, StateData.signed_list d = Some l /\
    target ∈ SignedList.keys l /\ did_from_key_text target = Ok did /\
    SignedList.version next = (SignedList.version l + 1)%N /\
    SignedList.keys next ≡ₚ filter (fun key => key <> target) (SignedList.keys l);
}.

Inductive revoke_start (did : string) w : world M -> result Revoked.t RevokeError.t -> Prop :=
| StartRefused e : revoke_start did w w (Err e)
| StartAgain pending w' r :
    StateData.pending_revoke (data_of w) = Some pending -> PendingRevoke.did pending = did ->
    finish_revoke routes pending o w = (w', r) -> revoke_start did w w' r
| StartUnsaved target next e w1 :
    StateData.pending_revoke (data_of w) = None ->
    moves (begin_change (PendingRevoke.mk target did) next) w (Err e) w1 ->
    revoke_start did w w1 (Err (RevokeError.Store e))
| StartNew target next w1 w' r :
    StateData.pending_revoke (data_of w) = None ->
    revoke_list did (data_of w) target next ->
    moves (begin_change (PendingRevoke.mk target did) next) w (Ok tt) w1 ->
    finish_revoke routes (PendingRevoke.mk target did) o w1 = (w', r) ->
    revoke_start did w w' r.

Lemma wp_check_routes ops (Q : result unit RevokeError.t -> world M -> Prop) w :
  (forall e, Q (Err e) w) -> Q (Ok tt) w -> wp o (check_routes routes ops) Q w.
Proof. intros He Hk. unfold check_routes. by destruct (existsb _ _); [apply wp_raise|apply wp_ret]. Qed.

Lemma wp_needed_master (Q : result account RevokeError.t -> world M -> Prop) w :
  (forall e, Q (Err e) w) ->
  (forall a, Store.master_key (store w) = Ok (Some a) -> Q (Ok a) w) ->
  wp o needed_master Q w.
Proof.
  intros He Hk. unfold needed_master, wp, bind, get_store, lift.
  destruct (Store.master_key (store w)) as [[a|]|e]; simpl; auto.
Qed.

Lemma wp_saved op change (Q : result unit RevokeError.t -> world M -> Prop) w :
  commits op change ->
  (forall w', moves change w (Ok tt) w' -> Q (Ok tt) w') ->
  (forall e w', moves change w (Err e) w' -> Q (Err (RevokeError.Store e)) w') ->
  wp o (saved op) Q w.
Proof.
  intros Hop Hk He. apply wp_with_err. eapply wp_mono; [by apply on_store_moves|].
  intros [[]|e] w' Hm; simpl; auto.
Qed.

Lemma revoke_device_start did w :
  wp o (revoke_device routes did) (fun r w' => revoke_start did w w' r) w.
Proof.
  unfold revoke_device. apply wp_bind, wp_check_routes; [intros; apply StartRefused|].
  apply wp_data. destruct (StateData.reset_pending _); [apply wp_raise, StartRefused|].
  destruct (StateData.pending_revoke (data_of w)) as [pending|] eqn:Hpending.
  { destruct (negb _) eqn:Hd; [apply wp_raise, StartRefused|].
    apply negb_false_iff, bool_decide_eq_true in Hd. unfold wp.
    destruct (finish_revoke routes pending o w) as [w' r] eqn:Hf. by eapply StartAgain. }
  apply wp_bind, wp_needed_master; [intros; apply StartRefused|]. intros master _.
  apply wp_need; [intros; apply StartRefused|]. intros l Hl.
  apply wp_need; [intros; apply StartRefused|]. intros target Htarget.
  apply find_some in Htarget as [Hin Hdid]. apply bool_decide_eq_true in Hdid.
  apply wp_store.
  apply wp_read; [intros; apply StartRefused|]. intros own _.
  destruct (bool_decide _); [apply wp_raise, StartRefused|].
  cbv zeta. destruct (bool_decide _); [apply wp_raise, StartRefused|].
  apply wp_read; [intros; apply StartRefused|]. intros next Hnext.
  apply sign_list_keys in Hnext as [Hperm Hversion].
  apply wp_bind. eapply wp_saved; [apply commits_begin_revoke| |].
  - intros w1 Hm. unfold wp.
    destruct (finish_revoke _ _ o w1) as [w' r] eqn:Hf. eapply StartNew; [done| |exact Hm|exact Hf].
    split. exists l. split_and!; try done. by apply list_elem_of_In.
  - intros e w1 Hm. by eapply StartUnsaved.
Qed.
(** ** What a revoke leaves behind *)

(** The server has dropped what the request names, or never had it. *)
Definition gone (a : http_answer) : Prop :=
  answered_well a \/ refused_by a E2eRefusal.NotFound.

(** A request of this session to an address. *)
Notation to op did m b :=
  (routed_to (OwnRoutes.client routes) (OwnRoutes.token routes) (OwnRoutes.network routes)
     (OwnRoutes.server_protocol routes) op did m b).

(** The server dropped what this address names. *)
Definition dropped (op : E2eOperation.t) (did : option string) (q : request) (a : http_answer)
    : Prop := to op did Delete Body.None q /\ gone a.

Lemma wp_or_not_found (ok : request -> Prop) (m : eff M E2eRouteError.t unit) w :
  wp o m (fun r w' => one_call ok o w r w') w ->
  wp o (or_not_found m) (fun r w' => store w' = store w /\
    match r with
    | Ok _ => exists q a, log w' = log w ++ [Sent q a] /\ ok q /\ gone a
    | Err _ => log w' = log w \/ exists q a, log w' = log w ++ [Sent q a] /\ ok q
    end) w.
Proof.
  intros Hm. unfold or_not_found. apply wp_bind, wp_attempt. eapply wp_mono; [exact Hm|].
  intros r w' [(-> & e & -> & He)|(q & Hq & -> & Hok & Hrefused)].
  - destruct e as [refusal| | |]; [done| | |]; apply wp_raise; auto.
  - assert (log (record w (Sent q (reply o (log w) q))) =
            log w ++ [Sent q (reply o (log w) q)]) as Hlog by done.
    destruct r as [u|e].
    + apply wp_ret. split; [done|]. do 2 eexists. split; [exact Hlog|].
      split; [done|]. left. by eapply Hok.
    + assert (wp (M := M) o (raise (RevokeError.Route e)) (fun (r : result unit RevokeError.t) w' =>
        store w' = store w /\
        match r with
        | Ok _ => exists q a, log w' = log w ++ [Sent q a] /\ ok q /\ gone a
        | Err _ => log w' = log w \/ exists q a, log w' = log w ++ [Sent q a] /\ ok q
        end) (record w (Sent q (reply o (log w) q)))) as Hraise.
      { apply wp_raise. split; [done|]. right. eauto. }
      destruct e as [[] wait| | |]; try exact Hraise.
      apply wp_ret. split; [done|]. do 2 eexists. split; [exact Hlog|].
      split; [done|]. right. by eapply Hrefused.
Qed.

(** What stays true while a revoke is under way. *)
Definition revoking (pending : PendingRevoke.t) (d : StateData.t) : Prop :=
  StateData.pending_revoke d = Some pending /\ StateData.signed_list d <> None.

(** The own trust marks the key, and no session of the device is left. *)
Definition stopped (pending : PendingRevoke.t) (d : StateData.t) : Prop :=
  PeerTrust.is_revoked (StateData.trust d) (OwnRoutes.network routes) (OwnRoutes.own_nick routes)
    (PendingRevoke.ed25519 pending) None = true /\
  StateData.sessions d !! peer_device_key (OwnRoutes.network routes) (OwnRoutes.own_nick routes)
    (PendingRevoke.did pending) = None.

Lemma holds_saved (P : StateData.t -> Prop) op change :
  commits op change -> (forall s d, P d -> P (change s d)) -> keeps o (holds (M := M) P) (saved op).
Proof. intros Hop HP. apply keeps_with_err. by eapply holds_on_store. Qed.

Lemma holds_publish_list (P : StateData.t -> Prop) :
  (forall l pending migrated d, P d -> l <> None -> P (StateData.set_list l pending migrated d)) ->
  (forall pending d, P d -> P (StateData.set_list (StateData.signed_list d) pending
                                 (StateData.list_migrated d) d)) ->
  keeps o (holds (M := M) P) (publish_list routes).
Proof.
  intros HP HP'. unfold publish_list, needed_master. keeps_parts.
  generalize 2. intros n. induction n as [|n IH]; simpl; keeps_parts; [|done].
  unfold publish_try. keeps_parts.
  - eapply holds_call. intros. apply put_list_call.
  - eapply holds_saved; [apply commits_clear_list_pending|]. intros. by apply HP'.
  - eapply holds_call. intros. apply fetch_list_call.
  - eapply holds_saved; [apply commits_set_signed_list|]. intros. by apply HP.
  - eapply holds_saved; [apply commits_clear_list_pending|]. intros. by apply HP'.
  - eapply holds_saved; [apply commits_set_signed_list_pending|]. intros. by apply HP.
Qed.

Lemma revoked_in_trust trust network nick master key :
  (PeerTrust.revoke_device trust network nick master key).2 = Ok tt ->
  PeerTrust.is_revoked (PeerTrust.revoke_device trust network nick master key).1 network nick
    key None = true.
Proof.
  unfold PeerTrust.revoke_device. destruct (decode_key master), (decode_key key); try done.
  intros _. cbn [fst]. destruct (insert_reads trust network nick
    (PeerRecord.revoke key (default (PeerRecord.new master) (PeerTrust.get trust network nick))))
    as (_ & _ & _ & _ & ->).
  apply is_revoked_none. unfold PeerRecord.revoke, PeerRecord.set_revoked. simpl. set_solver.
Qed.

(** The events show that the server holds the list [l]: it took it, or it gave
    it as its own. *)
Definition server_has (l : SignedList.t) (es : list event) : Prop :=
  exists q a, Sent q a ∈ es /\ answered_well a /\
    ((exists r, to E2eOperation.ListPut None Put (Body.List r) q /\
        ListRequest.ver r = SignedList.version l /\ ListRequest.devices r = SignedList.keys l /\
        ListRequest.sig r = SignedList.signature l) \/
     (exists status header v held, to E2eOperation.ListFetch None Get Body.None q /\
        a = Answered status header (Ok v) /\ HeldList.from_value v = Ok held /\
        HeldList.list held = l)).

Lemma server_has_more l es fs gs : server_has l fs -> server_has l (es ++ fs ++ gs).
Proof.
  intros (q & a & Hin & H). exists q, a. split; [|done]. rewrite !elem_of_app. auto.
Qed.

(** The list of the store is on the server, and nothing waits. *)
Definition published (es : list event) (d : StateData.t) : Prop :=
  StateData.list_pending d = false /\
  exists l, StateData.signed_list d = Some l /\ server_has l es.

Definition publishes {X} (ok : result X RevokeError.t -> Prop) (m : eff M RevokeError.t X) : Prop :=
  forall w, wp o m (fun r w' => exists es, log w' = log w ++ es /\
    (ok r -> published es (data_of w'))) w.

Lemma grows_moves change w r w' : moves change w r w' -> exists es, log w' = log w ++ es.
Proof. intros [_ H]. destruct r; destruct H as [_ ->]; eauto. Qed.

Lemma fetch_list_value w :
  wp o (GrappaClient.fetch_e2e_list (M := M) (OwnRoutes.client routes) (OwnRoutes.token routes)
          (OwnRoutes.network routes) (OwnRoutes.server_protocol routes)) (fun r w' =>
    exists es, log w' = log w ++ es /\
    forall held, r = Ok held -> store w' = store w /\ server_has (HeldList.list held) es) w.
Proof.
  unfold GrappaClient.fetch_e2e_list, wp, bind, lift.
  destruct (GrappaClient.e2e_url _ _ _ _ _) as [u|e] eqn:Hu.
  2: { exists []. rewrite app_nil_r. split; [done|]. by intros held [=]. }
  unfold GrappaClient.call, GrappaClient.send_e2e_device_request, with_err, bind, send, now, lift.
  cbn [fst snd]. set (q := {| method := Get |}). set (a := reply o (log w) q).
  assert (log (record w (Sent q a)) = log w ++ [Sent q a]) as Hlog by done.
  destruct (read_answer _ a) as [[v|]|e'] eqn:E; simpl; (exists [Sent q a]; split; [done|]);
    try by intros held [=].
  destruct (HeldList.from_value v) as [held|] eqn:Hv; intros held' [= <-]. split; [done|].
  exists q, a. split; [by left|]. split; [by eapply read_answer_ok|]. right.
  unfold read_answer, reject_with_code in E. destruct a as [|status header content]; [done|].
  destruct (is_success status); [|done]. cbn in E. destruct (status =? 204)%N; [done|].
  destruct content as [v'|]; [|done]. injection E as <-. exists status, header, v', held.
  by split_and!.
Qed.

Lemma publish_try_published master : publishes (fun r => r = Ok true) (publish_try routes master).
Proof.
  unfold publish_try. intros w. apply wp_data, wp_need.
  { intros _. exists []. by rewrite app_nil_r. }
  intros l Hl. apply wp_read; [intros e _; exists []; by rewrite app_nil_r|]. intros r Hr.
  apply list_request_fields in Hr as ->. set (master_key := identity_ed25519 master).
  eapply wp_seq with (R := fun x w1 => exists es, log w1 = log w ++ es /\ is_ok x = true /\
    store w1 = store w /\ (forall held, x = Ok (Ok held) -> server_has l es)).
  { apply wp_attempt. eapply wp_mono; [apply put_list_routed|].
    intros x w1 [(-> & e & -> & _)|(q & Hq & -> & Hok & _)].
    - exists []. rewrite app_nil_r. split_and!; [done|done|done|]. by intros.
    - exists [Sent q (reply o (log w) q)]. split_and!; [done|done|done|]. intros held [= ->].
      exists q, (reply o (log w) q). split; [by left|]. split; [by eapply Hok|]. left. by eexists. }
  2: { by intros e w1 (es & _ & [=] & _). }
  intros put w1 (es & Hes & _ & Hst & Hput).
  destruct put as [held|[[] wait| | |]]; try (apply wp_raise; by exists es).
  - apply wp_bind. eapply wp_saved; [apply commits_clear_list_pending| |].
    + intros w2 Hm. apply wp_ret. pose proof Hm as (_ & _ & Hlog). apply moves_data in Hm.
      exists (es ++ [Saved (data_of w2)]). rewrite Hlog, Hes, app_assoc. split; [done|]. intros _.
      rewrite Hm. split; [done|]. exists l. cbn. rewrite Hst. split; [done|].
      apply (server_has_more l []). by eapply Hput.
    + intros e w2 Hm. apply grows_moves in Hm as [fs Hfs]. exists (es ++ fs).
      by rewrite Hfs, Hes, app_assoc.
  - clear Hput. eapply wp_seq with (R := fun x w2 => exists fs, log w2 = log w ++ es ++ fs /\
      forall held, x = Ok held -> server_has (HeldList.list held) fs).
    { apply wp_with_err. eapply wp_mono; [apply fetch_list_value|].
      intros x w2 (fs & Hfs & Hx). exists fs. rewrite Hfs, Hes, app_assoc. split; [done|].
      intros held Hok. apply map_err_ok in Hok. by apply Hx. }
    2: { intros e w2 (fs & Hfs & _). by exists (es ++ fs). }
    intros held w2 (fs & Hfs & Hhas). specialize (Hhas held eq_refl).
    destruct (negb _); [apply wp_raise; by exists (es ++ fs)|].
    apply wp_read; [intros e _; by exists (es ++ fs)|]. intros _ _. apply wp_data. cbv zeta.
    destruct (bool_decide _); [apply wp_raise; by exists (es ++ fs)|].
    destruct (bool_decide _ && _).
    + apply wp_bind. eapply wp_saved; [apply commits_set_signed_list| |].
      * intros w3 (_ & Hs3 & Hl3). apply wp_bind.
        eapply wp_saved; [apply commits_clear_list_pending| |].
        -- intros w4 (_ & Hs4 & Hl4). apply wp_ret.
           exists (es ++ fs ++ [Saved (data_of w3); Saved (data_of w4)]).
           rewrite Hl4, Hl3, Hfs, <- !app_assoc. split; [done|]. intros _. rewrite Hs4, Hs3.
           split; [done|]. eexists. split; [done|]. by apply server_has_more.
        -- intros e w4 (_ & _ & Hl4). exists (es ++ fs ++ [Saved (data_of w3); NotSaved]).
           by rewrite Hl4, Hl3, Hfs, <- !app_assoc.
      * intros e w3 (_ & _ & Hl3). exists (es ++ fs ++ [NotSaved]).
        by rewrite Hl3, Hfs, <- !app_assoc.
    + apply wp_read; [intros e _; by exists (es ++ fs)|]. intros next _.
      apply wp_bind. eapply wp_saved; [apply commits_set_signed_list_pending| |].
      * intros w3 (_ & _ & Hl3). apply wp_ret. exists (es ++ fs ++ [Saved (data_of w3)]).
        by rewrite Hl3, Hfs, <- !app_assoc.
      * intros e w3 (_ & _ & Hl3). exists (es ++ fs ++ [NotSaved]).
        by rewrite Hl3, Hfs, <- !app_assoc.
Qed.

Lemma publish_list_published : publishes (fun r => r = Ok tt) (publish_list routes).
Proof.
  unfold publish_list, needed_master. intros w. apply wp_bind, wp_store.
  apply wp_read; [intros e _; exists []; by rewrite app_nil_r|]. intros master _.
  destruct master as [master|]; [|exists []; by rewrite app_nil_r].
  apply wp_lift. cbn [ok_or]. generalize 2. intros n. revert w.
  induction n as [|n IH]; intros w; cbn [publish_tries]; [exists []; by rewrite app_nil_r|].
  eapply wp_seq; [apply publish_try_published| |].
  - intros [] w1 (es & Hes & Hp); [apply wp_ret; exists es; auto|].
    eapply wp_mono; [apply IH|]. intros r w2 (fs & Hfs & Hr). exists (es ++ fs).
    rewrite Hfs, Hes, app_assoc. split; [done|]. intros Hok.
    destruct (Hr Hok) as (H1 & l & Hl & Hs). split; [done|]. exists l. split; [done|].
    rewrite <- (app_nil_r fs). by apply server_has_more.
  - intros e w1 (es & Hes & _). by exists es.
Qed.
(** What stopping the routes to the device leaves. *)
Record routing_stopped (pending : PendingRevoke.t) w (r : result unit RevokeError.t) w' : Prop := {
  stop_revoking : revoking pending (data_of w');
  stop_list : StateData.list_pending (data_of w') = StateData.list_pending (data_of w) /\
    StateData.signed_list (data_of w') = StateData.signed_list (data_of w);
  stop_log : exists es, log w' = log w ++ es;
  stop_done : r = Ok tt -> stopped pending (data_of w');
}.

Lemma stop_routing_outcome pending w :
  revoking pending (data_of w) ->
  wp o (stop_routing routes pending) (routing_stopped pending w) w.
Proof.
  intros Hw. assert (forall e, routing_stopped pending w (Err e) w) as Hsame.
  { intros e. split; [done|done|exists []; by rewrite app_nil_r|done]. }
  unfold stop_routing. apply wp_bind, wp_needed_master; [done|]. intros master _.
  apply wp_data.
  pose proof (revoked_in_trust (StateData.trust (data_of w)) (OwnRoutes.network routes)
                (OwnRoutes.own_nick routes) (identity_ed25519 master)
                (PendingRevoke.ed25519 pending)) as Hrev.
  destruct (PeerTrust.revoke_device _ _ _ _ _) as [trust revoked]. cbn [fst snd] in Hrev.
  apply wp_read; [done|]. intros [] ->. specialize (Hrev eq_refl).
  apply wp_bind. eapply wp_saved; [apply commits_set_trust| |].
  - intros w1 Hm. pose proof (grows_moves _ _ _ _ Hm) as [es Hes]. apply moves_data in Hm.
    eapply wp_saved; [apply commits_remove_peer_session| |].
    + intros w2 Hm2. pose proof (grows_moves _ _ _ _ Hm2) as [fs Hfs]. apply moves_data in Hm2.
      split; rewrite ?Hm2, ?Hm; [done|done|exists (es ++ fs); by rewrite Hfs, Hes, app_assoc|].
      intros _. split; [done|]. cbn. apply lookup_delete_eq.
    + intros e w2 Hm2. pose proof (grows_moves _ _ _ _ Hm2) as [fs Hfs]. apply moves_data in Hm2.
      split; rewrite ?Hm2, ?Hm; [done|done|exists (es ++ fs); by rewrite Hfs, Hes, app_assoc|done].
  - intros e w1 Hm. pose proof (grows_moves _ _ _ _ Hm) as Hg. apply moves_data in Hm.
    split; rewrite ?Hm; done.
Qed.

(** A revoke that is done: the device is dropped after the list without it was
    on the server, and nothing of it is pending. *)
Record revoke_done (pending : PendingRevoke.t) w (revoked : Revoked.t) w' : Prop := {
  done_stopped : stopped pending (data_of w') /\
    StateData.pending_revoke (data_of w') = None /\ StateData.list_pending (data_of w') = false;
  done_server : exists l es q a,
    revoked = Revoked.mk (PendingRevoke.did pending) (SignedList.version l) /\
    StateData.signed_list (data_of w') = Some l /\
    log w' = log w ++ es ++ [Sent q a; Saved (data_of w')] /\
    dropped E2eOperation.DeviceDrop (Some (PendingRevoke.did pending)) q a /\
    (server_has l es \/
     StateData.list_pending (data_of w) = false /\ StateData.signed_list (data_of w) = Some l);
}.

Lemma finish_revoke_outcome pending w :
  revoking pending (data_of w) ->
  wp o (finish_revoke routes pending) (fun r w' =>
    match r with
    | Ok revoked => revoke_done pending w revoked w'
    | Err _ => revoking pending (data_of w')
    end) w.
Proof.
  intros Hw. unfold finish_revoke.
  eapply wp_seq; [by apply stop_routing_outcome| |by intros e w' []].
  intros [] w1 [H1 [Hlp Hsl] [es Hes] Hs1]. specialize (Hs1 eq_refl). apply wp_data.
  set (server l fs := server_has l fs \/
    StateData.list_pending (data_of w) = false /\ StateData.signed_list (data_of w) = Some l).
  eapply (wp_seq o _ _ (fun r w' => revoking pending (data_of w') /\ stopped pending (data_of w') /\
    exists fs, log w' = log w ++ fs /\ (r = Ok tt -> StateData.list_pending (data_of w') = false /\
      exists l, StateData.signed_list (data_of w') = Some l /\ server l fs)));
    [| |by intros e w' [? _]].
  { destruct (StateData.list_pending (data_of w1)) eqn:Hp.
    - eapply wp_mono; [apply wp_and; [apply publish_list_published|
        apply (holds_publish_list (fun d => revoking pending d /\ stopped pending d));
        [|by intros ? ? [[? ?] ?]|done]]|].
      + intros l ? ? d [[? ?] ?] Hl. done.
      + intros r w' [(fs & Hfs & Hpub) [[? ?] _]]. split_and!; [done|done|]. exists (es ++ fs).
        rewrite Hfs, Hes, app_assoc. split; [done|]. intros Hr.
        destruct (Hpub Hr) as (H2 & l & Hl & Hs). split; [done|]. exists l. split; [done|]. left.
        rewrite <- (app_nil_r fs). by apply server_has_more.
    - apply wp_ret. split_and!; [done|done|]. exists es. split; [done|]. intros _. split; [done|].
      destruct (StateData.signed_list (data_of w1)) as [l|] eqn:Hl; [|by destruct H1].
      exists l. split; [done|]. right. by rewrite <- Hlp, <- Hsl. }
  clear dependent w1. intros [] w1 (H1 & Hs1 & fs & Hfs & Hpub).
  destruct (Hpub eq_refl) as (Hp & l & Hl & Hserver).
  eapply wp_seq; [eapply wp_or_not_found, drop_device_routed| |].
  2: { intros e w' [Hst _]. by rewrite Hst. }
  intros [] w2 [Hst (q & a & Hlog & Hdel)].
  apply wp_bind. eapply wp_saved; [apply commits_clear_pending_revoke| |].
  - intros w3 Hm. pose proof Hm as [_ [_ Hlog3]]. apply moves_data in Hm. rewrite Hst in Hm.
    apply wp_data. apply wp_need.
    + intros Hnone. rewrite Hm in Hnone. destruct H1 as [_ H1]. done.
    + intros l' Hl'. rewrite Hm in Hl'. cbn in Hl'. rewrite Hl in Hl'. injection Hl' as <-.
      apply wp_ret. split; [rewrite Hm; by destruct Hs1|]. exists l, fs, q, a.
      split_and!; [done|by rewrite Hm|by rewrite Hlog3, Hlog, Hfs, <- !app_assoc|done|done].
  - intros e w3 Hm. apply moves_data in Hm. by rewrite Hm, Hst.
Qed.

(** ** The theorems *)

Inductive revoke_call := Revoke (did : string) | FinishPending.

Definition revoke_step (c : revoke_call) : eff M RevokeError.t unit :=
  match c with
  | Revoke did => bind (revoke_device routes did) (fun _ => ret tt)
  | FinishPending => bind (finish_pending_revoke routes) (fun _ => ret tt)
  end.

(** The revoked keys that a call must keep out: those that the stored list
    lacked when it began, and the one that it revokes. *)
Definition kept_out w w' : list string :=
  let held := default [] (SignedList.keys <$> StateData.signed_list (data_of w)) in
  filter (fun key => key ∉ held \/ key ∉ StateData.own_revoked (data_of w))
    (StateData.own_revoked (data_of w')).

(** What a call does with the revoked keys. *)
Definition keeps_out w w' : Prop :=
  (forall key, key ∈ StateData.own_revoked (data_of w) ->
     key ∈ StateData.own_revoked (data_of w')) /\
  list_lacks (kept_out w w') (data_of w') /\
  exists es, log w' = log w ++ es /\ Forall (put_lacks (kept_out w w')) es.

Lemma kept_out_spec w w' key :
  key ∈ kept_out w w' <->
  key ∈ StateData.own_revoked (data_of w') /\
  ((forall l, StateData.signed_list (data_of w) = Some l -> key ∉ SignedList.keys l) \/
   key ∉ StateData.own_revoked (data_of w)).
Proof.
  unfold kept_out. rewrite list_elem_of_filter. set (sl := StateData.signed_list _).
  assert (key ∉ default [] (SignedList.keys <$> sl) <->
          forall l, sl = Some l -> key ∉ SignedList.keys l) as ->; [|tauto].
  destruct sl as [l|]; cbn.
  - split; [by intros Hk ? [= <-]|by intros Hk; apply Hk].
  - split; [by intros _ ? [=]|intros _; apply not_elem_of_nil].
Qed.

Lemma lacking_start K w :
  (forall key, key ∈ K ->
     forall l, StateData.signed_list (data_of w) = Some l -> key ∉ SignedList.keys l) ->
  lacking (StateData.own_revoked (data_of w)) K (log w) w.
Proof.
  intros HK. split_and!; [done|intros l Hl key Hk; by eapply HK|]. exists []. by rewrite app_nil_r.
Qed.

(** The list of a new revoke lacks what the call must keep out. *)
Lemma lacking_begin did target next w w1 :
  revoke_list did (data_of w) target next ->
  moves (begin_change (PendingRevoke.mk target did) next) w (Ok tt) w1 ->
  (forall key, key ∈ StateData.own_revoked (data_of w1) <->
     key ∈ StateData.own_revoked (data_of w) \/ key = target) /\
  list_lacks [target] (data_of w1) /\
  lacking (StateData.own_revoked (data_of w1)) (kept_out w w1) (log w) w1.
Proof.
  intros [(l0 & Hl0 & _ & _ & _ & Hp)] (_ & Hs & Hlog).
  assert (data_of w1 = begin_change (PendingRevoke.mk target did) next (store w) (data_of w))
    as Hd by (by rewrite Hs).
  assert (forall key, key ∈ StateData.own_revoked (data_of w1) <->
            key ∈ StateData.own_revoked (data_of w) \/ key = target) as Hin.
  { intros key. rewrite Hd. cbn. unfold add_revoked.
    destruct (contains _ target) eqn:Hc; [apply contains_spec in Hc; naive_solver|].
    by rewrite elem_of_app, list_elem_of_singleton. }
  split; [done|]. split; [|split_and!; [done| |]].
  - intros l Hsl key ->%list_elem_of_singleton. rewrite Hd in Hsl. injection Hsl as <-.
    rewrite Hp, list_elem_of_filter. naive_solver.
  - intros l Hsl key Hk. rewrite Hd in Hsl. injection Hsl as <-.
    rewrite Hp, list_elem_of_filter. intros [Hne Hin0].
    apply kept_out_spec in Hk as [Hk [Hfree|Hnew]]; [by apply (Hfree l0)|].
    apply Hin in Hk. naive_solver.
  - exists [Saved (data_of w1)]. split; [done|]. by constructor.
Qed.

Lemma kept_out_revoked w w' key : key ∈ kept_out w w' -> key ∈ StateData.own_revoked (data_of w').
Proof. by intros [? _]%kept_out_spec. Qed.

Lemma finish_revoke_lacking pending R K (w0 : list event) w w' r :
  (forall key, key ∈ K -> key ∈ R) ->
  finish_revoke routes pending o w = (w', r) -> lacking R K w0 w -> lacking R K w0 w'.
Proof.
  intros HK Hf Hw. pose proof (keeps_finish_revoke R K HK w0 pending w Hw) as H.
  unfold wp in H. rewrite Hf in H. by destruct H.
Qed.

(** The end of a call that began its part with the list of [w1]. *)
Lemma lacking_end w w1 w' :
  lacking (StateData.own_revoked (data_of w1)) (kept_out w w1) (log w) w' ->
  (forall key, key ∈ StateData.own_revoked (data_of w) ->
     key ∈ StateData.own_revoked (data_of w1)) ->
  keeps_out w w'.
Proof.
  intros (HR & Hl & Hes) Hsub. unfold keeps_out, kept_out. rewrite HR. by split_and!.
Qed.

Lemma lacking_same w : lacking (StateData.own_revoked (data_of w)) (kept_out w w) (log w) w.
Proof. apply lacking_start. intros key Hk. apply kept_out_spec in Hk. naive_solver. Qed.


(** The revoke that a call runs: the pending one of this device, or a new one
    of a key of the stored list. *)
Definition this_revoke (did : string) w (pending : PendingRevoke.t) : Prop :=
  PendingRevoke.did pending = did /\
  (StateData.pending_revoke (data_of w) = Some pending \/
   StateData.pending_revoke (data_of w) = None /\
   did_from_key_text (PendingRevoke.ed25519 pending) = Ok did /\
   exists l, StateData.signed_list (data_of w) = Some l /\
     PendingRevoke.ed25519 pending ∈ SignedList.keys l).

(** What is known of a revoke that gave a result. *)
Record revoke_complete (did : string) w (revoked : Revoked.t) w' : Prop := {
  complete_did : Revoked.did revoked = did;
  complete_store : exists pending, this_revoke did w pending /\ stopped pending (data_of w') /\
    StateData.pending_revoke (data_of w') = None /\ StateData.list_pending (data_of w') = false /\
    (StateData.pending_revoke (data_of w) = None ->
       PendingRevoke.ed25519 pending ∈ StateData.own_revoked (data_of w') /\
       list_lacks [PendingRevoke.ed25519 pending] (data_of w'));
  complete_server : exists l es q a,
    StateData.signed_list (data_of w') = Some l /\ Revoked.list_version revoked = SignedList.version l /\
    log w' = log w ++ es ++ [Sent q a; Saved (data_of w')] /\
    dropped E2eOperation.DeviceDrop (Some did) q a /\
    (server_has l es \/
     StateData.pending_revoke (data_of w) <> None /\ StateData.list_pending (data_of w) = false /\
     StateData.signed_list (data_of w) = Some l);
}.


(** ** Reset *)

Definition private_state (d : StateData.t) :=
  (StateData.account d, StateData.sessions d, StateData.master d, StateData.signed_list d,
   StateData.device_certificate d).

Lemma complete_reset_outcome w :
  wp o (complete_reset routes) (fun r w' =>
    match r with
    | Ok _ =>
        data_of w' = Store.reset_data (OwnRoutes.network routes) (OwnRoutes.own_nick routes)
                       (data_of w) /\
        exists q a, log w' = log w ++ [Sent q a; Saved (data_of w')] /\
          dropped E2eOperation.IdentityDelete None q a
    | Err _ => data_of w' = data_of w /\
        exists es, log w' = log w ++ es /\ forall q a, Sent q a ∈ es ->
          to E2eOperation.IdentityDelete None Delete Body.None q
    end) w.
Proof.
  unfold complete_reset.
  eapply wp_seq; [eapply wp_or_not_found, delete_identity_routed| |].
  - intros [] w1 [Hst (q & a & Hlog & Hdel)].
    eapply wp_saved; [apply commits_finish_reset| |].
    + intros w2 Hm. pose proof Hm as (_ & _ & Hlog2). apply moves_data in Hm.
      rewrite Hst in Hm. split; [done|]. exists q, a. split; [|done].
      by rewrite Hlog2, Hlog, <- app_assoc.
    + intros e w2 Hm. pose proof Hm as (_ & _ & Hlog2). apply moves_data in Hm.
      split; [by rewrite Hm, Hst|]. exists [Sent q a; NotSaved].
      split; [by rewrite Hlog2, Hlog, <- app_assoc|]. destruct Hdel as [Hdel _].
      intros q' a' [[= -> ->]|[[=]|Hin]%elem_of_cons]%elem_of_cons; [done|].
      by apply elem_of_nil in Hin.
  - intros e w1 [Hst Hlog]. split; [by rewrite Hst|]. destruct Hlog as [Hlog|(q & a & Hlog & Hq)].
    + exists []. rewrite app_nil_r. split; [done|]. by intros ? ? ?%elem_of_nil.
    + exists [Sent q a]. split; [done|]. by intros ? ? [= -> ->]%list_elem_of_singleton.
Qed.

(** C30. A reset removes nothing before the server does. The private state goes
    only right after the server dropped the identity of this account on this
    network, or said that it holds none; a reset that fails at any point keeps
    every private value, sends nothing but this request, and once it may have
    been sent a later [resume_reset] goes on with it. *)
Theorem reset_after_server w :
  let '(w', r) := reset_identity routes o w in
  match r with
  | Ok _ =>
      data_of w' = Store.reset_data (OwnRoutes.network routes) (OwnRoutes.own_nick routes)
                     (StateData.set_reset true (data_of w)) /\
      exists q a, log w' = log w ++ [Saved (StateData.set_reset true (data_of w)); Sent q a;
                                     Saved (data_of w')] /\
        dropped E2eOperation.IdentityDelete None q a
  | Err _ =>
      private_state (data_of w') = private_state (data_of w) /\
      exists es, log w' = log w ++ es /\ forall q a, Sent q a ∈ es ->
        to E2eOperation.IdentityDelete None Delete Body.None q /\
        StateData.reset_pending (data_of w') = true
  end.
Proof.
  enough (wp o (reset_identity routes) (fun r w' =>
    match r with
    | Ok _ =>
        data_of w' = Store.reset_data (OwnRoutes.network routes) (OwnRoutes.own_nick routes)
                       (StateData.set_reset true (data_of w)) /\
        exists q a, log w' = log w ++ [Saved (StateData.set_reset true (data_of w)); Sent q a;
                                       Saved (data_of w')] /\
          dropped E2eOperation.IdentityDelete None q a
    | Err _ =>
        private_state (data_of w') = private_state (data_of w) /\
        exists es, log w' = log w ++ es /\ forall q a, Sent q a ∈ es ->
          to E2eOperation.IdentityDelete None Delete Body.None q /\
          StateData.reset_pending (data_of w') = true
    end) w) as H by (unfold wp in H; by destruct (reset_identity routes o w)).
  unfold reset_identity. apply wp_bind, wp_check_routes.
  { intros e. split; [done|]. exists []. rewrite app_nil_r. split; [done|].
    by intros ? ? ?%elem_of_nil. }
  apply wp_bind. eapply wp_saved; [apply commits_begin_reset| |].
  - intros w1 Hm. pose proof Hm as (_ & _ & Hlog). apply moves_data in Hm. rewrite Hm in Hlog.
    eapply wp_mono; [apply complete_reset_outcome|].
    intros [[]|e] w2 H.
    + destruct H as [Hd (q & a & Hlog2 & Hdel)]. rewrite Hm in Hd. split; [done|].
      exists q, a. split; [|done]. by rewrite Hlog2, Hlog, <- app_assoc.
    + destruct H as [Hd (es & Hes & Hq)]. rewrite Hd, Hm. split; [done|].
      eexists. split; [by rewrite Hes, Hlog, <- app_assoc|].
      intros q a [[=]|Hin]%elem_of_cons. split; [by eapply Hq|done].
  - intros e w1 Hm. pose proof Hm as (_ & _ & Hlog). apply moves_data in Hm. rewrite Hm.
    split; [done|]. exists [NotSaved]. split; [done|].
    by intros q a [=]%list_elem_of_singleton.
Qed.

(** ** A pending revoke finishes *)

(** An answer that serves its request: a success that the client can read. *)
Definition serves (q : request) (a : http_answer) : Prop :=
  match a with
  | Failed _ => False
  | Answered status _ content =>
      is_success status = true /\
      match method q with
      | Put => status <> 204%N /\ exists v, content = Ok v /\ is_ok (HeldList.from_value v) = true
      | _ => status = 204%N \/ is_ok content = true
      end
  end.

(** What can go wrong outside of the program. *)
Definition fails (e : event) : Prop :=
  match e with
  | NotSaved => True
  | Sent q a => ~ serves q a
  | _ => False
  end.

(** What a pending revoke needs of the device and of the session. *)
Record ready (master : account) (pending : PendingRevoke.t) w : Prop := {
  ready_master : Store.master_key (store w) = Ok (Some master);
  ready_pending : StateData.pending_revoke (data_of w) = Some pending;
  ready_list : exists l, StateData.signed_list (data_of w) = Some l /\
    (StateData.list_pending (data_of w) = true ->
       exists r, ListRequest.new (identity_ed25519 master) l = Ok r);
}.

Record routed (pending : PendingRevoke.t) : Prop := {
  routed_put : exists u, GrappaClient.e2e_url (OwnRoutes.client routes) E2eOperation.ListPut
    (OwnRoutes.network routes) None (OwnRoutes.server_protocol routes) = Ok u;
  routed_drop : exists u, GrappaClient.e2e_url (OwnRoutes.client routes) E2eOperation.DeviceDrop
    (OwnRoutes.network routes) (Some (PendingRevoke.did pending))
    (OwnRoutes.server_protocol routes) = Ok u;
}.

Section Finishes.
Context (before : list event).

Definition grown w : Prop := exists es, log w = before ++ es.
Definition broken w : Prop := exists es, log w = before ++ es /\ Exists fails es.

(** The step gave a value, or something outside failed. *)
Definition or_fails {X E} (Q : X -> world M -> Prop) (r : result X E) w' : Prop :=
  broken w' \/ (grown w' /\ exists x, r = Ok x /\ Q x w').

Lemma grown_log w w' e : grown w -> log w' = log w ++ [e] -> grown w'.
Proof. intros [es Hes] H. exists (es ++ [e]). by rewrite H, Hes, app_assoc. Qed.

Lemma broken_log w w' e : broken w -> log w' = log w ++ [e] -> broken w'.
Proof.
  intros (es & Hes & Hf) H. exists (es ++ [e]). rewrite H, Hes, app_assoc. split; [done|].
  apply Exists_app. by left.
Qed.

Lemma broken_now w w' e : grown w -> log w' = log w ++ [e] -> fails e -> broken w'.
Proof.
  intros [es Hes] H He. exists (es ++ [e]). rewrite H, Hes, app_assoc. split; [done|].
  apply Exists_app. right. by left.
Qed.

Lemma or_fails_bind {X Y E} (m : eff M E X) (k : X -> eff M E Y) (P : X -> world M -> Prop)
    (Q : Y -> world M -> Prop) w :
  wp o m (or_fails P) w ->
  (forall x w1, grown w1 -> P x w1 -> wp o (k x) (or_fails Q) w1) ->
  (forall x, keeps o broken (k x)) ->
  wp o (bind m k) (or_fails Q) w.
Proof.
  intros Hm Hk Hb. eapply wp_seq; [exact Hm| |].
  - intros x w1 [H|(Hg & y & [= <-] & HP)]; [|auto].
    eapply wp_mono; [by apply Hb|]. intros r w' [? _]. by left.
  - intros e w' [H|(_ & x & H & _)]; [by left|done].
Qed.

Lemma or_fails_value {X E} (Q : X -> world M -> Prop) w (x : X) :
  grown w -> Q x w -> or_fails (E := E) Q (Ok x) w.
Proof. intros Hg HQ. right. split; [done|]. by exists x. Qed.

Lemma broken_call {X} (ok : request -> Prop) (m : eff M E2eRouteError.t X) :
  (forall w, wp o m (fun r w' => one_call ok o w r w') w) -> keeps o broken m.
Proof. intros Hm. eapply keeps_one_call; [done|]. intros. by eapply broken_log. Qed.

Lemma broken_saved op change : commits op change -> keeps o broken (saved op).
Proof.
  intros Hop. apply keeps_with_err. eapply keeps_on_store; [done|].
  intros w r w' Hw [_ Hm]. destruct r; destruct Hm as [_ Hlog]; by eapply broken_log.
Qed.

Lemma or_fails_saved op change (Q : world M -> Prop) w :
  commits op change -> grown w -> (forall w', moves change w (Ok tt) w' -> Q w') ->
  wp o (saved op) (or_fails (fun _ => Q)) w.
Proof.
  intros Hop Hg HQ. eapply wp_saved; [done| |].
  - intros w' Hm. apply or_fails_value; [|auto]. destruct Hm as (_ & _ & Hlog).
    by eapply grown_log.
  - intros e w' (_ & _ & Hlog). left. by eapply broken_now.
Qed.

Lemma ready_moves master pending change w w' :
  moves change w (Ok tt) w' ->
  StateData.master (change (store w) (data_of w)) = StateData.master (data_of w) ->
  StateData.pending_revoke (change (store w) (data_of w)) = StateData.pending_revoke (data_of w) ->
  StateData.signed_list (change (store w) (data_of w)) = StateData.signed_list (data_of w) ->
  (StateData.list_pending (change (store w) (data_of w)) = true ->
     StateData.list_pending (data_of w) = true) ->
  ready master pending w -> ready master pending w'.
Proof.
  intros (_ & Hs & _) Hm Hp Hl Hlp [H1 H2 (l & H3 & H4)].
  assert (data_of w' = change (store w) (data_of w)) as Hd by (by rewrite Hs).
  split; [|by rewrite Hd, Hp|].
  - unfold Store.master_key in *. rewrite Hs. simpl. by rewrite Hm.
  - exists l. rewrite Hd, Hl. split; [done|]. auto.
Qed.

Lemma or_fails_stop_routing master pending w :
  is_ok (decode_key (identity_ed25519 master)) = true ->
  is_ok (decode_key (PendingRevoke.ed25519 pending)) = true ->
  grown w -> ready master pending w ->
  wp o (stop_routing routes pending) (or_fails (fun _ => ready master pending)) w.
Proof.
  intros Hk1 Hk2 Hg Hw. unfold stop_routing, needed_master.
  apply wp_bind, wp_store. rewrite (ready_master _ _ _ Hw).
  apply wp_bind, wp_lift. cbn [map_err]. apply wp_lift. cbn [ok_or]. apply wp_data.
  unfold PeerTrust.revoke_device.
  destruct (decode_key (identity_ed25519 master)); [|done].
  destruct (decode_key (PendingRevoke.ed25519 pending)); [|done].
  apply wp_bind, wp_lift. cbn [map_err].
  apply (or_fails_bind _ _ (fun _ => ready master pending)).
  - eapply or_fails_saved; [apply commits_set_trust|done|]. intros w' Hm. by eapply ready_moves.
  - intros [] w1 Hg1 H1. eapply or_fails_saved; [apply commits_remove_peer_session|done|].
    intros w' Hm. by eapply ready_moves.
  - intros []. eapply broken_saved, commits_remove_peer_session.
Qed.

Lemma broken_publish_try master : keeps o broken (publish_try routes master).
Proof.
  unfold publish_try. keeps_parts;
    first [ eapply broken_call; intros; first [apply put_list_call | apply fetch_list_call]
          | eapply broken_saved; eauto with effects ].
Qed.

Lemma broken_publish_tries n master : keeps o broken (publish_tries routes n master).
Proof. induction n as [|n IH]; simpl; keeps_parts; [apply broken_publish_try|done]. Qed.

Lemma or_fails_put master pending w :
  routed pending -> grown w -> ready master pending w ->
  StateData.list_pending (data_of w) = true ->
  wp o (publish_list routes) (or_fails (fun _ => ready master pending)) w.
Proof.
  intros [[u Hu] _] Hg Hw Hp. unfold publish_list, needed_master.
  apply wp_bind, wp_store. rewrite (ready_master _ _ _ Hw).
  apply wp_bind, wp_lift. cbn [map_err]. apply wp_lift. cbn [ok_or publish_tries].
  destruct (ready_list _ _ _ Hw) as (l & Hl & Hr). destruct (Hr Hp) as [r Hreq].
  apply (or_fails_bind _ _ (fun b w' => b = true /\ ready master pending w')).
  - unfold publish_try. apply wp_data. rewrite Hl.
    apply wp_bind, wp_lift. cbn [ok_or]. apply wp_bind, wp_lift. rewrite Hreq. cbn [map_err].
    eapply (or_fails_bind _ _ (fun put w' => is_ok put = true /\ ready master pending w')).
    + apply wp_attempt. eapply wp_mono; [eapply call_answered; exact Hu|].
      cbn [method]. set (q := {| method := Put |}). set (a := reply o (log w) q).
      intros res w1 [-> Hserved].
      destruct (is_ok res) eqn:Hres.
      * apply or_fails_value; [by eapply grown_log|]. split; [done|]. by destruct Hw.
      * left. eapply broken_now; [done|done|]. unfold fails, serves. clearbody a.
        destruct a as [e|status header content]; [tauto|]. cbn [method q].
        intros (Hs & H204 & v & -> & Hv). destruct (Hserved _ _ _ eq_refl Hs H204 Hv) as [x ->].
        done.
    + intros [held|e] w1 Hg1 [Hput H1]; [|done].
      apply (or_fails_bind _ _ (fun _ => ready master pending)).
      * eapply or_fails_saved; [apply commits_clear_list_pending|done|].
        intros w' Hm. by eapply ready_moves.
      * intros [] w2 Hg2 H2. by apply wp_ret, or_fails_value.
      * intros []. apply keeps_ret.
    + intros [held|e]; keeps_parts;
        first [ eapply broken_call; intros; apply fetch_list_call
              | eapply broken_saved; eauto with effects ].
  - intros b w1 Hg1 [-> H1]. by apply wp_ret, or_fails_value.
  - intros []; [apply keeps_ret|apply (broken_publish_tries 1)].
Qed.

Lemma or_fails_drop master pending w :
  routed pending -> grown w -> ready master pending w ->
  wp o (or_not_found (GrappaClient.drop_e2e_device (OwnRoutes.client routes)
          (OwnRoutes.token routes) (OwnRoutes.network routes) (PendingRevoke.did pending)
          (OwnRoutes.server_protocol routes)))
    (or_fails (fun _ => ready master pending)) w.
Proof.
  intros [_ [u Hu]] Hg Hw. unfold or_not_found. apply wp_bind, wp_attempt.
  eapply wp_mono; [eapply call_unit_answered; exact Hu|].
  cbn [method]. set (q := {| method := Delete |}). set (a := reply o (log w) q).
  intros res w1 [-> Hserved].
  destruct (is_ok res) eqn:Hres.
  - destruct res; [|done]. apply wp_ret, or_fails_value; [by eapply grown_log|]. by destruct Hw.
  - assert (broken (record w (Sent q a))) as Hb.
    { eapply broken_now; [done|done|]. unfold fails, serves. clearbody a.
      destruct a as [e|status header content]; [tauto|]. cbn [method q].
      intros [Hs Hc]. destruct (Hserved _ _ _ eq_refl Hs Hc) as [x ->]. done. }
    destruct res as [|[[] ?| | |]]; try done; by left.
Qed.
End Finishes.

(** A pending revoke of a device that holds its master finishes at the next
    try, unless a write fails or a request is not served in this try: no state
    of the program itself can keep it from finishing. *)
Theorem pending_revoke_finishes (master : account) (pending : PendingRevoke.t) w
    (Hkeys : is_ok (decode_key (identity_ed25519 master)) = true /\
             is_ok (decode_key (PendingRevoke.ed25519 pending)) = true)
    (Hrouted : routed pending) (Hready : ready master pending w) :
  let '(w', r) := finish_pending_revoke routes o w in
  exists es, log w' = log w ++ es /\
    (Exists fails es \/
     exists revoked, r = Ok (Some revoked) /\
       StateData.pending_revoke (data_of w') = None).
Proof.
  destruct Hkeys as [Hk1 Hk2].
  enough (wp o (finish_pending_revoke routes)
    (or_fails (log w) (fun x w' => (exists revoked, x = Some revoked) /\
       StateData.pending_revoke (data_of w') = None)) w) as H.
  { unfold wp in H. destruct (finish_pending_revoke routes o w) as [w' r].
    destruct H as [(es & Hes & Hf)|([es Hes] & x & -> & [[revoked ->] Hx])]; exists es; eauto. }
  assert (grown (log w) w) as Hg by (exists []; by rewrite app_nil_r).
  unfold finish_pending_revoke. apply wp_data. rewrite (ready_pending _ _ _ Hready).
  assert (forall c : eff M E2eRouteError.t unit,
    keeps o (broken (log w)) c -> keeps o (broken (log w)) (or_not_found c)) as Hnf.
  { intros c Hc. unfold or_not_found. by keeps_parts. }
  apply (or_fails_bind _ _ _ (fun _ w' => StateData.pending_revoke (data_of w') = None)).
  - unfold finish_revoke. eapply or_fails_bind; [by eapply or_fails_stop_routing| |].
    + intros [] w1 Hg1 H1. apply wp_data.
      apply (or_fails_bind _ _ _ (fun _ => ready master pending)).
      * destruct (StateData.list_pending (data_of w1)) eqn:Hp;
          [by apply or_fails_put|by apply wp_ret, or_fails_value].
      * intros [] w2 Hg2 H2. eapply or_fails_bind; [by apply or_fails_drop| |].
        -- intros [] w3 Hg3 H3.
           eapply (or_fails_bind _ _ _ (fun _ w' => StateData.pending_revoke (data_of w') = None /\
             StateData.signed_list (data_of w') <> None)).
           ++ eapply or_fails_saved; [apply commits_clear_pending_revoke|done|].
              intros w' Hm. apply moves_data in Hm. rewrite Hm. split; [done|].
              destruct (ready_list _ _ _ H3) as (l & Hl & _). simpl. by rewrite Hl.
           ++ intros [] w4 Hg4 [H4 H4']. apply wp_data, wp_need; [done|]. intros l _.
              by apply wp_ret, or_fails_value.
           ++ intros []. keeps_parts.
        -- intros []. keeps_parts. eapply broken_saved, commits_clear_pending_revoke.
      * intros []. keeps_parts; [apply Hnf; eapply broken_call; intros; apply drop_device_call|].
        eapply broken_saved, commits_clear_pending_revoke.
    + intros []. unfold publish_list, needed_master. keeps_parts.
      * apply broken_publish_tries.
      * apply Hnf. eapply broken_call. intros. apply drop_device_call.
      * eapply broken_saved, commits_clear_pending_revoke.
  - intros revoked w1 Hg1 H1. apply wp_ret, or_fails_value; [done|]. split; [by eexists|done].
  - intros revoked. keeps_parts.
Qed.
End RevokeFacts.
