(* ===== verification/ProvisionFacts.v ===== *)
(** * Theorems on the own identity and its bundle *)

From S2P Require Import Prelude.
From S2P Require Import RustStr.
From S2P Require Import Interfaces.
From S2P Require Import Wire.
From S2P Require Import WireFacts.
From S2P Require Import Device.
From S2P Require Import Manage.
From S2P Require Import ListMigration.
From S2P Require Import DeviceFacts.
From S2P Require Import Trust.
From S2P Require Import Files.
From S2P Require Import History.
From S2P Require Import State.
From S2P Require Import StateFacts.
From S2P Require Import Account.
From S2P Require Import Refusal.
From S2P Require Import IdentityRoutes.
From S2P Require Import Protocol.
From S2P Require Import Effects.
From S2P Require Import Client.
From S2P Require Import EffectsFacts.
From S2P Require Import Provision.
From stdpp Require Import options.

Section ProvisionFacts.
Context {C : Crypto} {J : Json} {U : UrlLib} {T : StateText} {A : Aead} {O : Olm}.
Context {K : OlmKeys}.
Context {M : Type} (client : GrappaClient.t) (token network_id : string).
Context (server_protocol : option N) (o : outside).
Implicit Types (w : world M).

Lemma wp_stored op change (Q : result unit ProvisionError.t -> world M -> Prop) w :
  commits op change ->
  (forall w', moves change w (Ok tt) w' -> Q (Ok tt) w') ->
  (forall e w', moves change w (Err e) w' -> Q (Err (ProvisionError.Store e)) w') ->
  wp o (stored op) Q w.
Proof.
  intros Hop Hk He. apply wp_with_err. eapply wp_mono; [by apply on_store_moves|].
  intros [[]|e] w' Hm; simpl; auto.
Qed.

Lemma wp_read_store {X} (read : Store.t -> result X E2eStoreError.t)
    (Q : result X ProvisionError.t -> world M -> Prop) w :
  Q (map_err ProvisionError.Store (read (store w))) w -> wp o (read_store read) Q w.
Proof. done. Qed.

(** ** A settled device only reads *)

(** What the server holds, as the calls read it in any state. *)
Record server_holds (did : string) (held : HeldList.t) (devices : list DeviceRecord.t)
    (keys : KeysHeld.t) : Prop := {
  holds_list : forall w,
    (GrappaClient.fetch_e2e_list client token network_id server_protocol o w).2 = Ok held;
  holds_devices : forall w,
    (GrappaClient.list_e2e_devices client token network_id server_protocol o w).2 = Ok devices;
  holds_keys : forall w,
    (GrappaClient.fetch_e2e_keys client token network_id did server_protocol o w).2 = Ok keys;
}.

(** The state of a device with nothing to publish, next to a server list. *)
Record settled (a master : account) (did : string) (held : HeldList.t) (s : Store.t) : Prop := {
  settled_account : Store.olm_identity s = Ok (Some a);
  settled_did : did_from_key_text (identity_ed25519 a) = Ok did;
  settled_published : one_time_texts a = [] /\ fallback_texts a = [];
  settled_master : Store.master_key s = Ok (Some master) /\
    HeldList.master held = identity_ed25519 master;
  settled_list : exists l, StateData.signed_list (Store.data s) = Some l;
  settled_marks : StateData.list_migrated (Store.data s) = true /\
    StateData.list_pending (Store.data s) = false /\
    StateData.reset_pending (Store.data s) = false;
  settled_certificate : exists c, StateData.device_certificate (Store.data s) = Some c;
  settled_order : has_legacy_order (SignedList.version (HeldList.list held))
    (SignedList.keys (HeldList.list held)) (identity_ed25519 master)
    (SignedList.signature (HeldList.list held)) = false;
}.

(** An event of a run that only reads. *)
Definition reads (e : event) : Prop :=
  match e with Sent q _ => method q = Get | Drew _ => True | _ => False end.

Definition only_reads w w' : Prop :=
  same_state w w' /\ exists es, log w' = log w ++ es /\ Forall reads es.

Lemma only_reads_refl w : only_reads w w.
Proof. split; [done|]. exists []. split; [by rewrite app_nil_r|constructor]. Qed.

Lemma only_reads_trans w1 w2 w3 : only_reads w1 w2 -> only_reads w2 w3 -> only_reads w1 w3.
Proof.
  intros [H1 (es & Hes & Hf)] [H2 (fs & Hfs & Hg)]. split; [by eapply same_state_trans|].
  exists (es ++ fs). rewrite Hfs, Hes, app_assoc. split; [done|]. by apply Forall_app.
Qed.

Ltac reads_chain :=
  first [eassumption | eapply only_reads_trans; [|eassumption]; reads_chain].

Lemma only_reads_record w e : reads e -> only_reads w (record w e).
Proof. intros He. split; [done|]. exists [e]. split; [done|]. by constructor. Qed.

Lemma call_reads {X} (m : eff M E2eRouteError.t X) x w :
  wp o m (fun r w' => one_call (asks Get Body.None) o w r w') w -> (m o w).2 = Ok x ->
  exists w', m o w = (w', Ok x) /\ only_reads w w'.
Proof.
  unfold wp. destruct (m o w) as [w' r]. intros H Hr. simpl in Hr. subst r.
  exists w'. split; [done|].
  destruct H as [(-> & e & H & _)|(q & [Hq _] & -> & _)]; [done|]. by apply only_reads_record.
Qed.

(** The step gives this value and only reads. *)
Definition quietly {X} (m : eff M ProvisionError.t X) (x : X) w : Prop :=
  exists w', m o w = (w', Ok x) /\ only_reads w w'.

Lemma quietly_bind {X Y} (m : eff M ProvisionError.t X) (k : X -> eff M ProvisionError.t Y) x y w :
  quietly m x w -> (forall w', only_reads w w' -> quietly (k x) y w') -> quietly (bind m k) y w.
Proof.
  intros (w1 & Hm & H1) Hk. destruct (Hk w1 H1) as (w2 & Hk2 & H2).
  exists w2. unfold bind. rewrite Hm. split; [done|]. by eapply only_reads_trans.
Qed.

Lemma quietly_assoc {X Y Z} (m : eff M ProvisionError.t X) (k : X -> eff M ProvisionError.t Y)
    (h : Y -> eff M ProvisionError.t Z) z w :
  quietly (bind (bind m k) h) z w -> quietly (bind m (fun x => bind (k x) h)) z w.
Proof. unfold quietly, bind. by destruct (m o w) as [w' [x|e]]. Qed.

Lemma quietly_ret {X} (x : X) w : quietly (ret x) x w.
Proof. exists w. split; [done|apply only_reads_refl]. Qed.

Lemma quietly_lift {X} (r : result X ProvisionError.t) x w : r = Ok x -> quietly (lift r) x w.
Proof. intros ->. apply quietly_ret. Qed.

Lemma quietly_routed {X} (m : eff M E2eRouteError.t X) x w :
  wp o m (fun r w' => one_call (asks Get Body.None) o w r w') w -> (m o w).2 = Ok x ->
  quietly (routed m) x w.
Proof.
  intros Hm Hx. destruct (call_reads m x w Hm Hx) as (w' & Hw' & Hr).
  exists w'. unfold routed, with_err. by rewrite Hw'.
Qed.

Section Settled.
Context (a master : account) (did : string) (held : HeldList.t) (w0 : world M).
Context (Hs : settled a master did held (store w0)).

(** The state is that of the start. *)
Lemma quietly_data w : only_reads w0 w -> quietly get_data (data_of w0) w.
Proof using. intros [(_ & Hst & _) _]. rewrite <- Hst. apply quietly_ret. Qed.

Lemma quietly_read_store {X} (read : Store.t -> result X E2eStoreError.t) x w :
  only_reads w0 w -> read (store w0) = Ok x -> quietly (read_store read) x w.
Proof using.
  intros [(_ & Hst & _) _] Hx. exists w. split; [|apply only_reads_refl].
  unfold read_store, bind, get_store, lift. by rewrite Hst, Hx.
Qed.

Lemma quietly_identity w : only_reads w0 w -> quietly own_identity (a, false) w.
Proof using Hs.
  intros Hw. eapply quietly_bind; [apply quietly_read_store; [done|apply Hs]|].
  intros. apply quietly_ret.
Qed.

Lemma quietly_held w :
  (GrappaClient.fetch_e2e_list client token network_id server_protocol o w).2 = Ok held ->
  quietly (held_list client token network_id server_protocol) (Some held) w.
Proof using.
  intros Hh. apply (quietly_bind _ _ (Ok held)); [|intros; apply quietly_ret].
  destruct (call_reads _ held w (fetch_list_call client token network_id server_protocol o w) Hh)
    as (w' & Hw' & Hr).
  exists w'. unfold attempt. by rewrite Hw'.
Qed.

Lemma quietly_master w :
  only_reads w0 w ->
  quietly (own_master (Some held) (identity_ed25519 a)) (Some master, identity_ed25519 master) w.
Proof using Hs.
  intros Hw. eapply quietly_bind; [apply quietly_read_store; [done|apply Hs]|].
  intros. apply quietly_ret.
Qed.

Lemma quietly_list w :
  only_reads w0 w ->
  exists l, quietly (own_list (Some held) (Some master) (identity_ed25519 master)
                       (identity_ed25519 a)) l w.
Proof using Hs.
  intros Hw. destruct (settled_list _ _ _ _ _ Hs) as [l Hl]. exists l.
  destruct (settled_marks _ _ _ _ _ Hs) as (Hmig & Hpend & _).
  eapply quietly_bind; [by apply quietly_data|]. intros w1 H1. rewrite Hl.
  assert (only_reads w0 w1) as H01 by reads_chain.
  apply (quietly_bind _ _ (Some l)).
  { eapply quietly_bind; [by apply quietly_data|]. intros. rewrite Hmig. apply quietly_ret. }
  intros w2 H2. apply (quietly_bind _ _ (Some l)).
  { unfold renew_legacy_list. rewrite (settled_order _ _ _ _ _ Hs), andb_false_r.
    apply quietly_ret. }
  intros w3 H3. apply (quietly_bind _ _ (Some l)); [|intros; apply quietly_ret].
  eapply quietly_bind; [apply quietly_data; reads_chain|]. intros. rewrite Hpend.
  apply quietly_ret.
Qed.

Lemma quietly_certificate l w :
  only_reads w0 w ->
  quietly (own_certificate (Some master) (identity_ed25519 master) (identity_ed25519 a) l) tt w.
Proof using Hs.
  intros Hw. destruct (settled_certificate _ _ _ _ _ Hs) as [c Hc].
  eapply quietly_bind; [by apply quietly_data|]. intros. rewrite Hc. apply quietly_ret.
Qed.

Lemma quietly_registered (devices : list DeviceRecord.t) (id : DeviceIdRequest.t)
    (local : LocalAccount.t) w :
  (forall w, (GrappaClient.list_e2e_devices client token network_id server_protocol o w).2 =
     Ok devices) ->
  LocalAccount.account local = a ->
  DeviceIdRequest.new (identity_ed25519 a) (identity_curve25519 a)
    (sign_text a (device_id_signed_text (identity_curve25519 a) (identity_ed25519 master))) = Ok id ->
  (exists r, r ∈ devices /\ DeviceRecord.did r = did /\ DeviceRecord.matches r id = true) ->
  quietly (register_device client token network_id server_protocol local did
             (identity_ed25519 a) (identity_curve25519 a) (identity_ed25519 master)) false w.
Proof using.
  intros Hd Hlocal Hid (r & Hr & Hrd & Hrm). unfold register_device, LocalAccount.sign.
  rewrite Hlocal, Hid. eapply quietly_bind; [by apply quietly_lift|]. intros w1 H1.
  eapply quietly_bind; [apply quietly_routed; [apply list_devices_call|apply Hd]|].
  intros w2 H2. replace (existsb _ _) with true; [apply quietly_ret|].
  symmetry. apply existsb_exists. exists r. split; [by apply list_elem_of_In|].
  by rewrite Hrm, bool_decide_true.
Qed.

End Settled.

(** A bundle that is full and published. *)
Lemma quietly_full (local : LocalAccount.t) (keys : KeysHeld.t) (did : string) w :
  one_time_texts (LocalAccount.account local) = [] ->
  fallback_texts (LocalAccount.account local) = [] ->
  (ONE_TIME_KEYS_MAX <= KeysHeld.one_time_keys keys)%N -> KeysHeld.fallback keys = true ->
  quietly (bind (top_up_keys local keys) (fun local =>
    upload_keys client token network_id server_protocol local did)) (0%N, false) w.
Proof.
  intros Hone Hfall Hk1 Hk2. apply (quietly_bind _ _ local).
  - unfold top_up_keys. rewrite Hk2. cbn [negb andb].
    replace (ONE_TIME_KEYS_MAX - _ - _)%N with 0%N by lia.
    eapply quietly_bind; [eexists; split; [reflexivity|by apply only_reads_record]|]. intros.
    eapply quietly_bind; [eexists; split; [reflexivity|by apply only_reads_record]|]. intros.
    apply quietly_ret.
  - intros. unfold upload_keys, LocalAccount.unpublished_one_time_keys,
      LocalAccount.unpublished_fallback_key.
    rewrite Hone, Hfall, !bool_decide_true by done. apply quietly_ret.
Qed.

Lemma quietly_protocol w :
  forallb (fun op => E2eOperation.available op server_protocol) REQUIRED = true ->
  quietly (check_protocol server_protocol) tt w.
Proof.
  intros Hp. unfold check_protocol. replace (existsb _ _) with false; [apply quietly_ret|].
  symmetry. apply not_true_iff_false. intros H. apply existsb_exists in H as (op & Hin & H).
  rewrite forallb_forall in Hp. by rewrite (Hp op Hin) in H.
Qed.

(** A run on a device with nothing missing sends reads only and writes
    nothing: when the server holds the list of the own master, this device
    with its id block, and the full bundle, [provision_device] gives its id
    and leaves the store as it is. *)
Theorem settled_provision_reads (a master : account) (did : string) (held : HeldList.t)
    (devices : list DeviceRecord.t) (keys : KeysHeld.t) (id : DeviceIdRequest.t) w
    (Hprotocol : forallb (fun op => E2eOperation.available op server_protocol) REQUIRED = true)
    (Hnetwork : AccountId.new network_id did = Ok (AccountId.mk network_id did))
    (Hserver : server_holds did held devices keys)
    (Hsettled : settled a master did held (store w))
    (Hid : DeviceIdRequest.new (identity_ed25519 a) (identity_curve25519 a)
             (sign_text a (device_id_signed_text (identity_curve25519 a)
                             (identity_ed25519 master))) = Ok id)
    (Hregistered : exists r, r ∈ devices /\ DeviceRecord.did r = did /\
                     DeviceRecord.matches r id = true)
    (Hkeys : (ONE_TIME_KEYS_MAX <= KeysHeld.one_time_keys keys)%N /\ KeysHeld.fallback keys = true) :
  exists w', provision_device client token network_id server_protocol o w =
      (w', Ok (Provisioned.mk did false false false 0 false)) /\ only_reads w w'.
Proof.
  destruct Hserver as [Hlist Hdevices Hserver], Hkeys as [Hk1 Hk2].
  destruct (settled_marks _ _ _ _ _ Hsettled) as (_ & Hpend & Hreset).
  destruct (settled_published _ _ _ _ _ Hsettled) as [Hone Hfall].
  change (quietly (provision_device client token network_id server_protocol)
            (Provisioned.mk did false false false 0 false) w).
  unfold provision_device. eapply quietly_bind; [by apply quietly_protocol|]. intros w1 H1.
  eapply quietly_bind; [by apply (quietly_data w)|]. intros w2 H2. rewrite Hreset.
  assert (only_reads w w2) as H02 by reads_chain.
  eapply quietly_bind; [by eapply quietly_identity|]. intros w3 H3. cbv beta iota zeta.
  eapply quietly_bind; [apply quietly_lift; by rewrite (settled_did _ _ _ _ _ Hsettled)|].
  intros w4 H4. eapply quietly_bind; [apply quietly_lift; by rewrite Hnetwork|]. intros w5 H5.
  eapply quietly_bind; [by apply quietly_held|]. intros w6 H6.
  assert (only_reads w w6) as H06 by reads_chain.
  eapply quietly_bind; [by eapply quietly_master|]. intros w7 H7.
  rewrite (proj2 (settled_master _ _ _ _ _ Hsettled)), bool_decide_true by done. cbn [negb].
  assert (only_reads w w7) as H07 by reads_chain.
  destruct (quietly_list a master did held w Hsettled w7 H07) as [l Hl].
  eapply quietly_bind; [exact Hl|]. intros w8 H8. assert (only_reads w w8) as H08 by reads_chain.
  eapply quietly_bind; [by eapply quietly_certificate|]. intros w9 H9.
  eapply quietly_bind; [by eapply quietly_registered|]. intros w10 H10.
  assert (only_reads w w10) as H010 by reads_chain. apply (quietly_bind _ _ false).
  { eapply quietly_bind; [by apply (quietly_data w)|]. intros. rewrite Hpend. apply quietly_ret. }
  intros w11 H11. eapply quietly_bind; [apply quietly_routed; [apply fetch_keys_call|
    apply Hserver]|]. intros w12 H12.
  apply quietly_assoc. eapply quietly_bind; [by apply quietly_full|]. intros. apply quietly_ret.
Qed.

(** ** The identity is never replaced *)

(** What the steps of the list, the certificate and the calls keep: an
    invariant of the account, the master and the events. *)
(** An event of a run that is no write: no pairing message is posted. *)
Definition run_event (e : event) : Prop :=
  match e with
  | Sent q _ => forall payload, body q <> Body.Payload payload
  | Drew _ => True
  | _ => False
  end.

Section Neutral.
Context (I : world M -> Prop).
Context (Hlog : forall w e, run_event e -> I w -> I (record w e)).
Context (Hmoves : forall change w r w',
  (forall s d, StateData.account (change s d) = StateData.account d /\
               StateData.master (change s d) = StateData.master d) ->
  moves change w r w' -> I w -> I w').

Lemma neutral_stored op change :
  commits op change ->
  (forall s d, StateData.account (change s d) = StateData.account d /\
               StateData.master (change s d) = StateData.master d) ->
  keeps o I (stored op).
Proof using Hmoves.
  intros Hop Hc. apply keeps_with_err. eapply keeps_on_store; [done|]. eauto.
Qed.

Lemma neutral_call {X} method b (m : eff M E2eRouteError.t X) :
  (forall payload, b <> Body.Payload payload) ->
  (forall w, wp o m (fun r w' => one_call (asks method b) o w r w') w) -> keeps o I m.
Proof using Hlog.
  intros Hb Hm. eapply keeps_one_call; [done|]. intros w q a Hw [_ Hq].
  apply Hlog; [|done]. simpl. by rewrite Hq.
Qed.

Ltac neutral :=
  keeps_parts;
  try first
    [ eapply neutral_call; [|intros;
      first [apply fetch_list_call | apply list_devices_call | apply register_call
            | apply put_list_call | apply fetch_keys_call | apply publish_keys_call]]; done
    | eapply neutral_stored; [solve [eauto with effects]|done] ].

Lemma neutral_held : keeps o I (held_list client token network_id server_protocol).
Proof using Hlog. unfold held_list. neutral. Qed.

Lemma neutral_own_list held master master_key ed25519 :
  keeps o I (own_list held master master_key ed25519).
Proof using Hmoves.
  unfold own_list, migrate_list, renew_legacy_list, raise_pending_list, choose_list, crypto.
  neutral.
Qed.

Lemma neutral_certificate master master_key ed25519 l :
  keeps o I (own_certificate master master_key ed25519 l).
Proof using Hmoves. unfold own_certificate, crypto. neutral. Qed.

Lemma neutral_register local did ed25519 curve25519 master_key :
  keeps o I (register_device client token network_id server_protocol local did ed25519
               curve25519 master_key).
Proof using Hlog. unfold register_device, wired, routed. neutral. Qed.

Lemma neutral_publish held master_key l :
  keeps o I (publish_own_list client token network_id server_protocol held master_key l).
Proof using Hlog Hmoves. unfold publish_own_list, wired, routed. neutral. Qed.

Lemma neutral_protocol : keeps o I (check_protocol server_protocol).
Proof using. unfold check_protocol. neutral. Qed.

(** A run keeps the invariant when its writes of the two accounts do. *)
Lemma neutral_run (P : account -> Prop) :
  gives o I (fun x => P x.1) own_identity ->
  (forall ed25519 X (k : option HeldList.t -> option account * string -> eff M ProvisionError.t X),
     (forall held m, keeps o I (k held m)) ->
     keeps o I (bind (held_list client token network_id server_protocol) (fun held =>
                bind (own_master held ed25519) (k held)))) ->
  (forall seed n a, P a -> P (generate_one_time seed n a)) ->
  (forall seed a, P a -> P (generate_fallback seed (forget_fallback a))) ->
  (forall a, P a -> P (mark_as_published a)) ->
  (forall a w r w', P a ->
     moves (fun s => StateData.set_account (Some (account_pickle (Store.key s) a))) w r w' ->
     I w -> I w') ->
  keeps o I (provision_device client token network_id server_protocol).
Proof using Hlog Hmoves.
  intros Hid Hmaster Hone Hfall Hmark Hacc.
  assert (forall a, P a ->
    keeps o I (stored (fun env d s => Store.set_account env d s a))) as Hset.
  { intros a Ha. apply keeps_with_err.
    eapply keeps_on_store; [apply commits_set_account|]. eauto. }
  assert (keeps o I (draw (E := ProvisionError.t))) as Hdraw by (apply keeps_draw; intros; by apply Hlog). unfold provision_device, wired, routed.
  apply keeps_bind; [apply neutral_protocol|]. intros _.
  apply keeps_bind; [apply keeps_get_data|]. intros data.
  destruct (StateData.reset_pending data); [apply keeps_raise|].
  eapply gives_bind; [exact Hid|]. intros [a created] Ha.
  apply keeps_bind; [apply keeps_lift|]. intros did.
  apply keeps_bind; [apply keeps_lift|]. intros id.
  apply Hmaster. intros held [master master_key]. cbv beta iota.
  match goal with |- keeps _ _ (if ?b then _ else _) => destruct b end; [apply keeps_raise|].
  apply keeps_bind; [apply neutral_own_list|]. intros l.
  apply keeps_bind; [apply neutral_certificate|]. intros _.
  apply keeps_bind; [apply neutral_register|]. intros registered.
  apply keeps_bind; [apply neutral_publish|]. intros published.
  apply keeps_bind; [neutral|]. intros keys.
  eapply (gives_bind _ _ (fun l => P (LocalAccount.account l))).
  - unfold top_up_keys. eapply gives_bind; [apply Hdraw|]. intros seed _.
    eapply gives_bind; [apply Hdraw|]. intros seed' _. cbv zeta.
    set (local := if negb _ && _ then _ else _).
    assert (P (LocalAccount.account local)) as Hlocal.
    { subst local. unfold LocalAccount.rotate_fallback_key, LocalAccount.generate_one_time_keys.
      repeat case_match; simpl; auto. }
    clearbody local. destruct (_ || _); [|by apply gives_ret].
    eapply gives_bind; [by apply Hset|]. intros _ _. by apply gives_ret.
  - intros local Hlocal. apply keeps_bind; [|intros [n f]; apply keeps_ret].
    unfold upload_keys, wired, routed. neutral. apply Hset. by apply Hmark.
Qed.

(** The steps of the list and the master when the master write is kept. *)
Lemma neutral_master :
  (forall w a r w',
     moves (fun s => StateData.set_master (Some (account_pickle (Store.key s) a))) w r w' ->
     I w -> I w') ->
  forall ed25519 X (k : option HeldList.t -> option account * string -> eff M ProvisionError.t X),
     (forall held m, keeps o I (k held m)) ->
     keeps o I (bind (held_list client token network_id server_protocol) (fun held =>
                bind (own_master held ed25519) (k held))).
Proof using Hlog.
  intros Hw ed25519 X k Hk. apply keeps_bind; [apply neutral_held|]. intros held.
  apply keeps_bind; [|intros; apply Hk].
  unfold own_master, read_store. keeps_parts.
  - apply keeps_draw. intros. by apply Hlog.
  - apply keeps_with_err. eapply keeps_on_store; [apply commits_set_master_key|]. eauto.
Qed.
End Neutral.

Definition same_identity (a b : account) : Prop :=
  identity_ed25519 b = identity_ed25519 a /\ identity_curve25519 b = identity_curve25519 a.

Definition holds_identity (a : account) w : Prop :=
  exists b, Store.olm_identity (store w) = Ok (Some b) /\ same_identity a b.

(** What a write does to the parts of the store. *)
Lemma moves_store change w r w' :
  moves change w r w' ->
  Store.key (store w') = Store.key (store w) /\
  data_of w' = match r with Ok _ => change (store w) (data_of w) | Err _ => data_of w end.
Proof. intros [_ Hm]. destruct r; destruct Hm as [Hs _]; by rewrite Hs. Qed.

(** The server said that it holds no list of this account on this network. *)
Definition no_list (es : list event) : Prop :=
  exists q a, Sent q a ∈ es /\
    routed_to client token network_id server_protocol E2eOperation.ListFetch None Get Body.None q /\
    refused_by a E2eRefusal.NotFound.

(** What is known of the master: it is the one that was stored, or there was
    none and the server said that it holds no list. *)
Definition master_known (w0 : world M) w : Prop :=
  exists es, log w = log w0 ++ es /\
    (StateData.master (data_of w) = StateData.master (data_of w0) \/
     (StateData.master (data_of w0) = None /\ no_list es)).

Lemma known_log w0 w w' e :
  master_known w0 w -> log w' = log w ++ [e] ->
  StateData.master (data_of w') = StateData.master (data_of w) -> master_known w0 w'.
Proof.
  intros (es & Hes & H) Hlog Hm. exists (es ++ [e]). rewrite Hlog, Hes, app_assoc, Hm.
  split; [done|]. destruct H as [H|(H & q & a & Hin & Ha)]; [by left|right].
  split; [done|]. exists q, a. split; [|done]. apply elem_of_app. by left.
Qed.

Lemma known_moves w0 change w r w' :
  (forall s d, StateData.master (change s d) = StateData.master d) ->
  moves change w r w' -> master_known w0 w -> master_known w0 w'.
Proof.
  intros Hc Hm Hw. pose proof Hm as (_ & Hm').
  apply moves_store in Hm as [_ Hd].
  destruct r; destruct Hm' as [_ Hlog]; (eapply known_log; [done|done|]); rewrite Hd; auto.
Qed.

(** The list of the server is missing only when it says so. *)
Lemma held_list_known w0 w :
  master_known w0 w ->
  wp o (held_list client token network_id server_protocol) (fun r w' =>
    master_known w0 w' /\
    (r = Ok None -> exists es, log w' = log w0 ++ es /\ no_list es)) w.
Proof.
  intros Hw. unfold held_list. apply wp_bind, wp_attempt.
  eapply wp_mono; [apply fetch_list_routed|].
  intros r w' [(-> & e & -> & He)|(q & Hq & -> & _ & Hrefused)].
  - destruct e as [refusal| | |]; [done| | |]; by apply wp_raise.
  - assert (master_known w0 (record w (Sent q (reply o (log w) q)))) as Hw1
      by (by eapply known_log).
    destruct r as [held|e]; [by apply wp_ret|].
    destruct e as [refusal wait| | |]; try by apply wp_raise.
    destruct refusal; try by apply wp_raise. apply wp_ret. split; [done|]. intros _.
    destruct Hw as (es & Hes & _). exists (es ++ [Sent q (reply o (log w) q)]).
    split; [simpl; by rewrite Hes, app_assoc|]. exists q, (reply o (log w) q).
    split_and!; [set_solver|done|by eapply Hrefused].
Qed.
Lemma master_none (s : Store.t) :
  Store.master_key s = Ok None -> StateData.master (Store.data s) = None.
Proof.
  unfold Store.master_key. case_match; [|done]. by destruct (account_from_encrypted _ _).
Qed.

Lemma master_known_step w0 ed25519 X
    (k : option HeldList.t -> option account * string -> eff M ProvisionError.t X) :
  (forall held m, keeps o (master_known w0) (k held m)) ->
  keeps o (master_known w0) (bind (held_list client token network_id server_protocol) (fun held =>
                             bind (own_master held ed25519) (k held))).
Proof.
  intros Hk w Hw. eapply wp_seq; [by apply held_list_known| |by intros e w' [? _]].
  intros held w1 [H1 Hev].
  assert (forall m w', master_known w0 w' ->
    wp o (k held m) (fun r w' => master_known w0 w' /\ forall a, r = Ok a -> True) w') as Hrest
    by (intros m w' H'; by apply Hk).
  apply wp_bind. unfold own_master. apply wp_bind, wp_read_store.
  destruct (Store.master_key (store w1)) as [[master|]|e] eqn:Hm; cbn [map_err]; [by apply wp_ret, Hrest| |done].
  apply master_none in Hm. apply wp_data. destruct held as [held|].
  { destruct (is_paired_under _ _ _); [by apply wp_ret, Hrest|by apply wp_raise]. }
  destruct (Hev eq_refl) as (es & Hes & q & a & Hin & Ha). clear Hev.
  apply wp_bind. unfold wp at 1, draw. set (seed := random o (log w1)).
  set (w2 := record w1 (Drew seed)).
  assert (master_known w0 w2) as H2 by (by eapply known_log).
  assert (StateData.master (data_of w0) = None) as Hnone.
  { destruct H1 as (? & _ & [H|[H _]]); congruence. }
  apply wp_bind. eapply wp_stored; [apply commits_set_master_key| |].
  - intros w3 (_ & Hs & Hlog). apply wp_ret, Hrest.
    exists ((es ++ [Drew seed]) ++ [Saved (data_of w3)]). split.
    + rewrite Hlog. simpl. by rewrite Hes, !app_assoc.
    + right. split; [done|]. exists q, a. split; [set_solver|done].
  - intros e w3 Hmv. split; [|done]. pose proof Hmv as (_ & _ & Hlog).
    apply moves_store in Hmv as [_ Hd]. eapply known_log; [exact H2|done|]. by rewrite Hd.
Qed.

Lemma master_run w0 :
  keeps o (master_known w0) (provision_device client token network_id server_protocol).
Proof using.
  apply (neutral_run _) with (P := fun _ => True); try done.
  - intros w e _ Hw. by eapply known_log.
  - intros change w r w' Hc Hm. eapply known_moves; [|exact Hm]. intros s d. apply Hc.
  - apply (gives_mono _ _ (fun _ => True)); [done|]. unfold own_identity, read_store, stored.
    keeps_parts.
    + apply keeps_draw. intros w seed Hw. by eapply known_log.
    + eapply keeps_on_store; [apply commits_set_account|]. intros w r w' Hw Hm.
      by eapply known_moves; [|exact Hm|].
  - apply master_known_step.
  - intros a w r w' _ Hm. by eapply known_moves; [|exact Hm].
Qed.

Context {HO : OlmLaws} {HK : OlmKeysLaws}.

Lemma identity_run a :
  keeps o (holds_identity a) (provision_device client token network_id server_protocol).
Proof using HK HO.
  apply (neutral_run _) with (P := same_identity a).
  - by intros w e _.
  - intros change w r w' Hc Hm (b & Hb & Hab). exists b. split; [|done].
    apply moves_store in Hm as [Hk Hd]. unfold Store.olm_identity in *. rewrite Hk, Hd.
    destruct r; [|done]. by destruct (Hc (store w) (data_of w)) as [-> _].
  - unfold own_identity, read_store.
    intros w (b & Hb & Hab). apply wp_bind, wp_store, wp_lift. rewrite Hb. apply wp_ret.
    split; [by exists b|]. by intros x [= <-].
  - apply neutral_master; [by intros w e|]. intros w b r w' Hm (c & Hc & Hac).
    exists c. split; [|done]. apply moves_store in Hm as [Hk Hd].
    unfold Store.olm_identity in *. rewrite Hk, Hd. by destruct r.
  - intros seed n b [H1 H2]. destruct (identity_generate_one_time seed n b) as [H3 H4].
    split; congruence.
  - intros seed b [H1 H2]. destruct (identity_generate_fallback seed (forget_fallback b)) as [H3 H4].
    destruct (identity_forget_fallback b) as [H5 H6]. split; congruence.
  - intros b [H1 H2]. destruct (identity_mark_as_published b) as [H3 H4]. split; congruence.
  - intros b w r w' Hb Hm (c & Hc & Hac). apply moves_store in Hm as [Hk Hd].
    unfold holds_identity, Store.olm_identity in *. rewrite Hk, Hd.
    destruct r; [|by exists c]. exists b. simpl. by rewrite account_round.
Qed.

(** An unreadable identity ends the run before any step. *)
Lemma unreadable_identity e w :
  Store.olm_identity (store w) = Err e ->
  (provision_device client token network_id server_protocol o w).1 = w.
Proof.
  intros He. unfold provision_device, check_protocol, own_identity, read_store, bind, get_data,
    get_store, lift, ret, raise.
  destruct (existsb _ _); [done|]. destruct (StateData.reset_pending _); [done|]. by rewrite He.
Qed.

(** C21. The identity of the device is never replaced. Whatever the server answers
    and whatever write fails, an account of the store keeps its two keys, an
    account that does not read ends the run with no change at all, and the
    master key of the store stays: a master is made only where there was none
    and the server itself, asked in this run for the list of this account on
    this network, said that it holds none. *)
Theorem identity_never_replaced w :
  let w' := (provision_device client token network_id server_protocol o w).1 in
  (forall a, Store.olm_identity (store w) = Ok (Some a) ->
     exists b, Store.olm_identity (store w') = Ok (Some b) /\ same_identity a b) /\
  (forall e, Store.olm_identity (store w) = Err e -> w' = w) /\
  (StateData.master (data_of w') = StateData.master (data_of w) \/
   (StateData.master (data_of w) = None /\ no_list (drop (length (log w)) (log w')))).
Proof using HK HO.
  cbv zeta. split_and!.
  - intros a Ha. pose proof (identity_run a w (ex_intro _ a (conj Ha (conj eq_refl eq_refl)))) as H.
    unfold wp in H. destruct (provision_device _ _ _ _ o w) as [w' r]. by destruct H.
  - intros e He. by eapply unreadable_identity.
  - assert (master_known w w) as Hw by (exists []; rewrite app_nil_r; auto).
    pose proof (master_run w w Hw) as H. unfold wp in H.
    destruct (provision_device _ _ _ _ o w) as [w' r]. destruct H as [(es & Hes & H) _].
    simpl. rewrite Hes, drop_app_length. exact H.
Qed.
End ProvisionFacts.
