(* ===== verification/PairingDriveFacts.v ===== *)
(** * Theorems on the drivers of a pairing

    A driver moves the session by steps of the session only, whatever the
    server answers and whatever write fails. So what is proved of the steps
    holds for the drivers, and each posted message is one that a step sealed. *)

From S2P Require Import Prelude.
From S2P Require Import RustStr.
From S2P Require Import Interfaces.
From S2P Require Import Wire.
From S2P Require Import Device.
From S2P Require Import Manage.
From S2P Require Import ListMigration.
From S2P Require Import Files.
From S2P Require Import History.
From S2P Require Import State.
From S2P Require Import StateFacts.
From S2P Require Import Account.
From S2P Require Import Refusal.
From S2P Require Import DeviceRoutes.
From S2P Require Import IdentityRoutes.
From S2P Require Import Protocol.
From S2P Require Import Pairing.
From S2P Require Import PairingFlow.
From S2P Require Import PairingFlowFacts.
From S2P Require Import PairingGrant.
From S2P Require Import Effects.
From S2P Require Import Client.
From S2P Require Import EffectsFacts.
From S2P Require Import Provision.
From S2P Require Import ProvisionFacts.
From S2P Require Import PairingDrive.
From stdpp Require Import options.

#[local] Open Scope eff_scope.

(** The calls that the rest of the program makes on an open session. *)
Module Driver.
Inductive t :=
| Pump
| BindJoiner
| Confirm (typed : string)
| OnPush (push : PairingPush.t)
| Cancel
| Tick (now : Z).
End Driver.

Section DriveFacts.
Context {C : Crypto} {J : Json} {U : UrlLib} {T : StateText} {A : Aead} {O : Olm}.
Context {K : OlmKeys} {E : EciesChannel} {EK : EciesKeys} {W : PairingText} {P : PendingText}.
Context {PA : PairingAnswers}.
Context (ctx : PairingContext.t) (o : outside).

Notation session := (@PairingSession.t E).
Implicit Types (w : world session) (s : session).
Notation step := (eff session DriveError.t).

Definition drive (d : Driver.t) : step unit :=
  match d with
  | Driver.Pump => pump ctx
  | Driver.BindJoiner => bind_joiner ctx
  | Driver.Confirm typed => confirm ctx typed
  | Driver.OnPush push => on_push ctx push
  | Driver.Cancel => cancel ctx
  | Driver.Tick now => let! _ := tick ctx now in ret tt
  end.

(** The program moves a joiner to an offered network only while the session is
    active. *)
Definition allowed (d : Driver.t) s : bool :=
  match d with Driver.BindJoiner => PairingSession.is_active s | _ => true end.

(** The program goes on after a driver that failed. *)
Definition driven w (d : Driver.t) : world session :=
  if allowed d (mem w) then (drive d o w).1 else w.

Definition drive_all (ds : list Driver.t) w : world session := foldl driven w ds.

(** ** The events of a session *)

(** One of the steps sealed this message. *)
Definition sealed_at s0 (ops : list flow_op) (op : flow_op) (out : Outgoing.t) : Prop :=
  exists pre, (pre ++ [op]) `prefix_of` ops /\ (flow_step (after s0 pre) op).2 = Sealed out.

(** The list of the grant went to the server, which took it, and then to the
    store. *)
Definition list_out (grant : Grant.t) (es : list event) : Prop :=
  exists r q a d, ListRequest.new (Grant.master grant) (Grant.list grant) = Ok r /\
    asks Put (Body.List r) q /\ answered_well a /\
    StateData.signed_list d = Some (Grant.list grant) /\ sublist [Sent q a; Saved d] es.

(** The list is a grant for the device that both sides confirmed. *)
Definition list_confirmed s0 (ops : list flow_op) (r : ListRequest.t) : Prop :=
  exists pre device master current grant, pre `prefix_of` ops /\
    PairingSession.confirmed_device (after s0 pre) = Some device /\
    PairingSession.peer_id_signature_valid (after s0 pre) = true /\
    build_grant (signer master) current (JoinerDevice.ed25519 device) = Ok grant /\
    ListRequest.new (Grant.master grant) (Grant.list grant) = Ok r.

(** What makes an event of a session one that may be there, after the events
    [before]. *)
Definition licensed s0 (ops : list flow_op) (before : list event) (e : event) : Prop :=
  match e with
  | Sent q _ =>
      match body q with
      | Body.Payload payload => exists op out, sealed_at s0 ops op out /\
          payload = Outgoing.payload out /\
          forall grant, op = SealSigned grant -> list_out grant before
      | Body.List r => PairingSession.role s0 = Creator -> list_confirmed s0 ops r
      | _ => True
      end
  | _ => True
  end.

Definition licensed_all s0 ops (es : list event) : Prop :=
  forall before e rest, es = before ++ e :: rest -> licensed s0 ops before e.

(** The session went on by steps, and the new events are such ones. *)
Definition along s0 (l0 : list event) w : Prop :=
  exists ops es, mem w = after s0 ops /\ log w = l0 ++ es /\ licensed_all s0 ops es.

Lemma licensed_more s0 ops more es : licensed_all s0 ops es -> licensed_all s0 (ops ++ more) es.
Proof.
  intros H before e rest He. specialize (H before e rest He). destruct e as [q a| | | | | |]; simpl in *; try done.
  destruct (body q); try done.
  - destruct H as (op & out & (pre & Hpre & Hs) & H). exists op, out. split; [|done].
    exists pre. split; [|done]. by apply prefix_app_r.
  - intros Hr. destruct (H Hr) as (pre & device & master & current & grant & Hpre & H').
    exists pre, device, master, current, grant. split; [|done]. by apply prefix_app_r.
Qed.

Lemma licensed_snoc s0 ops es e :
  licensed_all s0 ops es -> licensed s0 ops es e -> licensed_all s0 ops (es ++ [e]).
Proof.
  intros H He before e' rest Heq. destruct rest as [|e1 rest _] using rev_ind.
  - apply app_inj_tail in Heq as [-> ->]. done.
  - rewrite app_comm_cons, app_assoc in Heq. apply app_inj_tail in Heq as [-> _]. by eapply H.
Qed.

Section Along.
Context (s0 : session) (l0 : list event).

(** A new event that is no message and no list of a holder. *)
Definition plain (e : event) : Prop :=
  match e with
  | Sent q _ =>
      match body q with
      | Body.Payload _ => False
      | Body.List _ => PairingSession.role s0 = Joiner
      | _ => True
      end
  | _ => True
  end.

Lemma along_event w w' e :
  along s0 l0 w -> mem w' = mem w -> log w' = log w ++ [e] -> plain e -> along s0 l0 w'.
Proof.
  intros (ops & es & Hm & Hl & H) Hm' Hl' He. exists ops, (es ++ [e]).
  rewrite Hm', Hl', Hl, app_assoc. split_and!; [done|done|]. apply licensed_snoc; [done|].
  destruct e as [q a| | | | | |]; simpl in *; try done. destruct (body q); try done. congruence.
Qed.

Lemma along_step w s op :
  along s0 l0 w -> s = (flow_step (mem w) op).1 ->
  along s0 l0 (mk_world (files w) (store w) s (log w)).
Proof.
  intros (ops & es & Hm & Hl & H) ->. exists (ops ++ [op]), es. simpl.
  rewrite after_snoc, Hm. split_and!; [done|done|]. by apply licensed_more.
Qed.

Notation kept := (keeps o (along s0 l0)).

Lemma kept_draw {F} : kept (draw (E := F)).
Proof. apply keeps_draw. intros w seed Hw. by eapply along_event. Qed.

Lemma kept_on_store {F X} (op : io_env -> disk -> Store.t -> disk * Store.t * result X F) :
  kept (on_store op).
Proof.
  intros w Hw. unfold wp, on_store. destruct (op _ _ _) as [[d s] r]. split; [|done].
  eapply along_event; [exact Hw|done|done|by destruct r].
Qed.

Lemma kept_step {F X} (f : session -> session * result X F) op :
  (forall s, (f s).1 = (flow_step s op).1) -> kept (on_mem f).
Proof.
  intros Hf w Hw. unfold wp, on_mem. destruct (f (mem w)) as [s r] eqn:Es. split; [|done].
  eapply along_step; [done|]. by rewrite <-Hf, Es.
Qed.

Lemma kept_call {X} method b (m : eff session PairingCallError.t X) :
  (forall w, wp o m (fun r w' => one_request (asks method b) o w r w') w) ->
  (forall payload, b <> Body.Payload payload) -> (forall r, b <> Body.List r) -> kept m.
Proof.
  intros Hm Hb Hl w Hw. eapply wp_mono; [apply Hm|].
  intros r w' [[-> _]|(q & [_ Hq] & ->)]; (split; [|done]); [done|].
  eapply along_event; [exact Hw|done|done|]. simpl. rewrite Hq.
  destruct b; try done; [by edestruct Hb|by edestruct Hl].
Qed.

Lemma kept_cleanup id closing : kept (cleanup ctx id closing).
Proof.
  unfold cleanup. apply keeps_bind.
  - destruct closing; [|apply keeps_ret]. unfold close. keeps_parts.
    eapply kept_call; [intros; apply close_pairing_call|done|done].
  - intros _. keeps_parts. apply kept_on_store.
Qed.

Lemma kept_clean closing : kept (clean ctx closing).
Proof. unfold clean. keeps_parts. apply kept_cleanup. Qed.

Lemma kept_change (f : session -> session) op :
  (forall s, f s = (flow_step s op).1) -> kept (change f).
Proof. intros Hf. by apply kept_step with op. Qed.

Lemma kept_or_abort m : kept m -> kept (or_abort ctx m).
Proof.
  intros Hm. unfold or_abort, abort. keeps_parts; [done|by apply kept_change with Abort|].
  apply kept_clean.
Qed.

Lemma kept_session_step {X} (f : session -> session * result X FlowError.t) op :
  (forall s, (f s).1 = (flow_step s op).1) -> kept (session_step f).
Proof. intros Hf. apply keeps_with_err. by apply kept_step with op. Qed.

(** *** Sealed messages *)

(** The step [op] sealed [out] as the last step. *)
Definition just_sealed op (out : Outgoing.t) w : Prop :=
  exists ops es, mem w = after s0 (ops ++ [op]) /\ log w = l0 ++ es /\
    licensed_all s0 (ops ++ [op]) es /\ (flow_step (after s0 ops) op).2 = Sealed out.

Lemma just_sealed_along op out w : just_sealed op out w -> along s0 l0 w.
Proof. intros (ops & es & H1 & H2 & H3 & _). by exists (ops ++ [op]), es. Qed.

(** What [op] needs before its message is posted. *)
Definition post_ready op w : Prop :=
  forall grant es, op = SealSigned grant -> log w = l0 ++ es -> list_out grant es.

Lemma along_posted op out w q a :
  just_sealed op out w -> post_ready op w -> body q = Body.Payload (Outgoing.payload out) ->
  along s0 l0 (record w (Sent q a)).
Proof.
  intros (ops & es & Hm & Hl & H & Ho) Hg Hq.
  exists (ops ++ [op]), (es ++ [Sent q a]). simpl.
  rewrite Hl, app_assoc. split_and!; [done|done|]. apply licensed_snoc; [done|].
  simpl. rewrite Hq. exists op, out. split; [by exists ops|]. eauto.
Qed.

Lemma post_sealed op out w :
  just_sealed op out w -> post_ready op w ->
  wp o (post_outgoing ctx out) (fun _ w' => along s0 l0 w') w.
Proof.
  intros Hs Hg. apply wp_mem. unfold post. apply wp_bind, wp_with_err.
  eapply wp_mono; [apply post_pairing_call|].
  intros r w' H. assert (along s0 l0 w') as Hw'.
  { destruct H as [[-> _]|(q & [_ Hq] & ->)]; [by eapply just_sealed_along|by eapply along_posted]. }
  by destruct r.
Qed.

(** A step that seals, and the message that it gives. *)
Lemma step_sealed (f : session -> session * result Outgoing.t FlowError.t) op w :
  (forall s, flow_step s op = sealed_out (f s)) -> along s0 l0 w ->
  wp o (session_step f) (fun r w' => along s0 l0 w' /\ log w' = log w /\
    forall out, r = Ok out -> just_sealed op out w') w.
Proof.
  intros Hf (ops & es & Hm & Hl & H). apply wp_with_err. unfold wp, on_mem.
  specialize (Hf (after s0 ops)). unfold sealed_out in Hf. rewrite Hm.
  destruct (f (after s0 ops)) as [s r]. cbn [fst snd] in Hf.
  assert (s = after s0 (ops ++ [op])) as Hs by (by rewrite after_snoc, Hf).
  split_and!; [|done|].
  - exists (ops ++ [op]), es. split_and!; [done|done|]. by apply licensed_more.
  - intros out Ho. exists ops, es. split_and!; [done|done|by apply licensed_more|].
    rewrite Hf. simpl. destruct r; simpl in *; by simplify_eq.
Qed.

(** Seal, then post, then a step that keeps the rest. *)
Lemma kept_seal_post (f : session -> session * result Outgoing.t FlowError.t) op (m : step unit) :
  (forall s, flow_step s op = sealed_out (f s)) -> (forall grant, op <> SealSigned grant) ->
  kept m ->
  kept (bind (session_step f) (fun out => post_outgoing ctx out ;! m)).
Proof.
  intros Hf Hop Hm w Hw. eapply wp_seq; [by eapply step_sealed| |by intros e w1 [? _]].
  intros out w1 (_ & _ & H). eapply wp_seq; [apply (post_sealed op); [by apply H|]| |by split].
  - intros grant es He. by apply Hop in He.
  - intros [] w2 Hw2. by apply Hm.
Qed.

Lemma kept_seal_post_end (f : session -> session * result Outgoing.t FlowError.t) op :
  (forall s, flow_step s op = sealed_out (f s)) -> (forall grant, op <> SealSigned grant) ->
  kept (bind (session_step f) (fun out => post_outgoing ctx out)).
Proof.
  intros Hf Hop w Hw. eapply wp_seq; [by eapply step_sealed| |by intros e w1 [? _]].
  intros out w1 (_ & _ & H). eapply wp_mono; [apply (post_sealed op); [by apply H|]|by split].
  intros grant es He. by apply Hop in He.
Qed.

Lemma kept_send_join : kept (send_join_if_ready ctx).
Proof.
  unfold send_join_if_ready, flowed.
  apply keeps_bind; [apply keeps_get_mem|intros s]. destruct (negb _); [apply keeps_ret|].
  do 4 (apply keeps_bind; [auto with effects|intros ?]).
  by apply kept_seal_post_end with
    (op := SealJoin (sign_text a1 (device_id_signed_text (identity_curve25519 a1) a2))).
Qed.

Lemma kept_refuse reason : kept (refuse ctx reason).
Proof. unfold refuse. apply kept_seal_post with (op := SealRefusal reason); [done|done|apply kept_clean]. Qed.

Lemma kept_device_from_store : kept (device_from_store (M := session)).
Proof. unfold device_from_store, flow_op_of. keeps_parts; [apply kept_draw|apply kept_on_store]. Qed.

Lemma kept_prepare_holder : kept prepare_holder.
Proof.
  unfold prepare_holder, flowed. keeps_parts.
  apply kept_session_step with (op := SetMaster (identity_ed25519 a2)).
  intros s. simpl. by destruct (PairingSession.set_master _ _).
Qed.

Lemma kept_provision client token network_id server_protocol :
  PairingSession.role s0 = Joiner ->
  kept (provision_device client token network_id server_protocol).
Proof.
  intros Hrole.
  assert (forall w change r w', moves change w r w' -> along s0 l0 w -> along s0 l0 w') as Hmoves.
  { intros w change r w' [Hm Hr] Hw. destruct r; destruct Hr as [_ Hl]; by eapply along_event. }
  assert (forall w e, run_event e -> along s0 l0 w -> along s0 l0 (record w e)) as Hlog.
  { intros w e He Hw. eapply along_event; [exact Hw|done|done|].
    destruct e as [q a| | | | | |]; simpl in *; try done. destruct (body q); try done. by edestruct He. }
  apply (neutral_run _) with (P := fun _ => True); try done.
  - intros change w r w' _. apply Hmoves.
  - apply (gives_mono _ _ (fun _ => True)); [done|]. unfold own_identity, read_store, stored.
    keeps_parts; [apply kept_draw|apply kept_on_store].
  - apply neutral_master; [done|]. intros w a r w'. apply Hmoves.
  - intros a w r w' _. apply Hmoves.
Qed.

Lemma kept_finish_joiner grant :
  PairingSession.role s0 = Joiner -> kept (finish_joiner ctx grant).
Proof.
  intros Hrole. unfold finish_joiner.
  apply keeps_bind; [apply kept_device_from_store|]. intros own.
  apply keeps_bind; [unfold take_grant, flowed; keeps_parts; apply kept_on_store|]. intros _.
  apply keeps_bind; [apply keeps_with_err; by apply kept_provision|]. intros _.
  apply kept_seal_post with (op := SealDone); [done|done|].
  apply keeps_bind; [by apply kept_change with Finish|]. intros _. apply kept_clean.
Qed.

(** *** The grant of a holder *)

(** The session has a confirmed device for which [grant] was built. *)
Definition grant_ready (grant : Grant.t) s : Prop :=
  exists device master current,
    PairingSession.confirmed_device s = Some device /\
    PairingSession.peer_id_signature_valid s = true /\
    build_grant (signer master) current (JoinerDevice.ed25519 device) = Ok grant.

Lemma along_list grant r w q a :
  along s0 l0 w -> grant_ready grant (mem w) ->
  ListRequest.new (Grant.master grant) (Grant.list grant) = Ok r ->
  body q = Body.List r -> along s0 l0 (record w (Sent q a)).
Proof.
  intros (ops & es & Hm & Hl & H) (device & master & current & Hd & Hv & Hg) Hr Hq.
  exists ops, (es ++ [Sent q a]). simpl. rewrite Hl, app_assoc. split_and!; [done|done|].
  apply licensed_snoc; [done|]. simpl. rewrite Hq. intros _.
  exists ops, device, master, current, grant. by rewrite <-Hm.
Qed.

Lemma along_publish grant w :
  along s0 l0 w -> grant_ready grant (mem w) ->
  wp o (publish_grant ctx grant) (fun _ w' => along s0 l0 w') w.
Proof.
  intros Hw Hg. unfold publish_grant. apply wp_bind, wp_lift.
  destruct (ListRequest.new _ _) as [r|] eqn:Hr; [|done]. cbn [map_err].
  apply wp_bind, wp_with_err. eapply wp_mono; [apply put_list_call|].
  intros x w1 [(-> & e & -> & _)|(q & Hq & -> & Ha & _)]; [done|].
  generalize dependent (reply o (log w) q). intros a Ha.
  assert (along s0 l0 (record w (Sent q a))) as Hw1
    by (eapply along_list; [done|exact Hg|done|apply Hq]).
  destruct x as [x|e]; [|done]. cbn [map_err]. specialize (Ha x eq_refl).
  apply wp_bind, wp_with_err, wp_with_err. eapply wp_mono.
  { apply on_store_moves. apply commits_set_signed_list. }
  intros u w2 Hm. pose proof (moves_data _ _ _ _ Hm) as Hd. destruct Hm as [Hmem Hlog].
  destruct u as [[]|e]; cbn [map_err]; destruct Hlog as [_ Hlog];
    (assert (along s0 l0 w2) as Hw2 by (by eapply along_event)); [|done].
  eapply wp_seq; [by apply step_sealed with (op := SealSigned grant)| |by intros e w3 [? _]].
  intros out w3 (_ & Hlog3 & Hs). apply (post_sealed (SealSigned grant)); [by apply Hs|].
  destruct Hw as (ops & es0 & _ & Hl & _). intros g es [= <-] Hes.
  exists r, q, a, (data_of w2). split_and!; try done; [by rewrite Hd|].
  rewrite Hlog3, Hlog in Hes. simpl in Hes. rewrite Hl, <-!app_assoc in Hes.
  apply app_inv_head in Hes as <-. apply sublist_inserts_l. reflexivity.
Qed.

Lemma along_finish_creator : kept (finish_creator ctx).
Proof.
  intros w Hw. unfold finish_creator, flowed. apply wp_mem, wp_read; [done|]. intros device Hd.
  apply ok_or_ok in Hd. destruct (PairingSession.peer_id_signature_valid (mem w)) eqn:Hv; cbn [negb];
    [|by apply kept_refuse].
  apply wp_store, wp_read; [done|]. intros m _. apply wp_read; [done|]. intros master _.
  apply wp_read; [done|]. intros current _.
  destruct (contains _ _); [by apply kept_refuse|].
  destruct (build_grant _ _ _) as [grant|e] eqn:Hg.
  - eapply wp_mono; [apply along_publish; [done|]|by split]. by exists device, master, current.
  - destruct e; try by apply wp_raise. by apply kept_refuse.
Qed.

Lemma kept_take_events events :
  Forall (event_for (PairingSession.role s0)) events -> kept (take_events ctx events).
Proof.
  induction 1 as [|e events He _ IH]; [apply keeps_ret|]. simpl.
  apply keeps_bind; [|done]. destruct e; simpl.
  - apply keeps_ret.
  - keeps_parts. apply kept_send_join.
  - apply along_finish_creator.
  - by apply kept_finish_joiner.
  - apply keeps_bind; [by apply kept_change with Finish|]. intros _. apply kept_clean.
Qed.

(** *** The drivers *)

Lemma along_role w : along s0 l0 w -> PairingSession.role (mem w) = PairingSession.role s0.
Proof.
  intros (ops & es & -> & _). apply (after_invariant s0
    (fun s => PairingSession.role s = PairingSession.role s0)); [done|].
  intros s op [] Hs. congruence.
Qed.

Lemma kept_pump_inner : kept (pump_inner ctx).
Proof.
  unfold pump_inner. apply keeps_bind; [apply keeps_get_mem|]. intros s.
  apply keeps_bind.
  { apply keeps_with_err. eapply kept_call; [intros; apply fetch_pairing_call|done|done]. }
  intros messages. eapply gives_bind with (V := Forall (event_for (PairingSession.role s0))).
  - apply gives_with_err. intros w Hw. unfold wp, on_mem.
    pose proof (accept_for_role (mem w) messages) as Hfor. rewrite (along_role w Hw) in Hfor.
    pose proof (along_step w _ (Accept messages) Hw eq_refl) as Hs. simpl in Hs.
    destruct (PairingSession.accept (mem w) messages) as [s' r]. split; [done|].
    intros events ->. by apply Hfor.
  - intros events Hev. by apply kept_take_events.
Qed.

Lemma kept_pump : kept (pump ctx).
Proof.
  unfold pump. keeps_parts. apply kept_or_abort, kept_pump_inner.
Qed.

Lemma kept_bind_joiner : kept (bind_joiner ctx).
Proof.
  apply kept_or_abort. unfold bind_joiner_inner, flow_op_of.
  apply keeps_bind; [apply keeps_get_mem|]. intros s. destruct (_ || _); [apply keeps_raise|].
  apply keeps_bind; [apply kept_device_from_store|]. intros device.
  apply keeps_bind; [by apply kept_change with (BindDevice device)|]. intros _.
  apply keeps_bind; [apply keeps_get_mem|]. intros s'.
  apply keeps_bind; [apply keeps_with_err, kept_on_store|]. intros _. apply kept_send_join.
Qed.

Lemma or_abort_along m w :
  wp o m (fun _ w' => along s0 l0 w') w ->
  wp o (or_abort ctx m) (fun r w' => along s0 l0 w' /\ forall a, r = Ok a -> True) w.
Proof.
  intros Hm. apply wp_bind, wp_attempt. eapply wp_mono; [exact Hm|].
  intros [[]|e] w' Hw'; [by apply wp_ret|].
  refine (_ w' Hw'). change (kept (abort (X := unit) ctx e)). unfold abort.
  apply keeps_bind; [by apply kept_change with Abort|]. intros _.
  apply keeps_bind; [apply kept_clean|]. intros _. apply keeps_raise.
Qed.

Lemma confirm_inner_along typed out w :
  (forall out', out = Some out' -> just_sealed (Confirm typed) out' w) -> along s0 l0 w ->
  wp o (confirm_inner ctx out) (fun _ w' => along s0 l0 w') w.
Proof.
  intros Ho Hw. unfold confirm_inner. apply wp_bind.
  assert (forall w', along s0 l0 w' -> wp o (send_join_if_ready ctx) (fun _ w' => along s0 l0 w') w')
    as Hj by (intros w' Hw'; eapply wp_mono; [by apply kept_send_join|by intros r w1 [? _]]).
  destruct out as [out|]; [|by apply wp_ret, Hj].
  eapply wp_mono; [apply (post_sealed (Confirm typed)); [by apply Ho|done]|].
  intros [[]|e] w' Hw'; [by apply Hj|done].
Qed.

Lemma kept_confirm typed : kept (confirm ctx typed).
Proof.
  unfold confirm. apply keeps_bind; [apply kept_prepare_holder|]. intros _ w Hw.
  apply wp_bind, wp_attempt, wp_with_err. unfold wp at 1, on_mem.
  pose proof Hw as (ops & es & Hm & Hl & H).
  pose proof (along_step w _ (Confirm typed) Hw eq_refl) as Hs. simpl in Hs.
  assert (flow_step (mem w) (Confirm typed) =
    let '(s, r) := PairingSession.confirm (mem w) typed in
    (s, out_of (fun o => match o with Some o => Sealed o | None => Nothing end) r)) as Hf by done.
  destruct (PairingSession.confirm (mem w) typed) as [s r]. cbn [map_err fst].
  destruct r as [out|e]; cbn [map_err].
  - apply or_abort_along, (confirm_inner_along typed); [|done].
    intros out' ->. exists ops, es. rewrite after_snoc, <-Hm, Hf. split_and!; [done|done| |done].
    by apply licensed_more.
  - refine (_ (mk_world (files w) (store w) s (log w)) Hs).
    match goal with |- forall w, _ w -> wp _ ?m _ _ => change (kept m) end.
    destruct e; keeps_parts; apply kept_clean.
Qed.

Lemma kept_drive d : kept (drive d).
Proof.
  destruct d as [| |typed|push| |now]; simpl.
  - apply kept_pump.
  - apply kept_bind_joiner.
  - apply kept_confirm.
  - unfold on_push. apply keeps_bind; [apply keeps_get_mem|]. intros s. cbv zeta.
    destruct push as [id seq from|id reason]; case_decide; try apply keeps_ret; [apply kept_pump|].
    apply keeps_bind; [by apply kept_change with (OnClosed reason)|]. intros _. apply kept_clean.
  - unfold cancel. apply keeps_bind; [by apply kept_change with Cancel|]. intros _. apply kept_clean.
  - unfold tick. apply keeps_bind; [|intros; apply keeps_ret].
    apply keeps_bind; [apply kept_step with (Expire now)|].
    { intros s. simpl. by destruct (PairingSession.expire s now). }
    intros ended. keeps_parts. apply kept_clean.
Qed.

Lemma along_driven w d : along s0 l0 w -> along s0 l0 (driven w d).
Proof.
  intros Hw. unfold driven. destruct (allowed d (mem w)); [|done].
  pose proof (kept_drive d w Hw) as H. unfold wp in H. destruct (drive d o w). apply H.
Qed.

Lemma along_all ds w : along s0 l0 w -> along s0 l0 (drive_all ds w).
Proof. revert w. induction ds as [|d ds IH]; intros w Hw; [done|]. by apply IH, along_driven. Qed.
End Along.

Lemma along_start w : along (mem w) (log w) w.
Proof.
  exists [], []. split_and!; [done|by rewrite app_nil_r|].
  intros before e rest H. by destruct before.
Qed.

(** C22. The drivers are steps of the session. Whatever drivers run, with any
    answers and failed writes, the session in memory goes on by steps of the
    session machine alone, and each message that is posted is one that such a
    step sealed. *)
Theorem drivers_follow_session (ds : list Driver.t) w :
  exists ops es, mem (drive_all ds w) = after (mem w) ops /\ log (drive_all ds w) = log w ++ es /\
    forall q a payload, Sent q a ∈ es -> body q = Body.Payload payload ->
      exists op out, sealed_at (mem w) ops op out /\ payload = Outgoing.payload out.
Proof.
  destruct (along_all _ _ ds w (along_start w)) as (ops & es & Hm & Hl & H).
  exists ops, es. split_and!; [done|done|].
  intros q a payload (l1 & l2 & Hes)%list_elem_of_split Hq.
  specialize (H _ _ _ Hes). simpl in H. rewrite Hq in H.
  destruct H as (op & out & Hs & Hp & _). by exists op, out.
Qed.

(** C19. A holder lists only the confirmed device, and tells it last. In a
    pairing of a holder, each list that goes to the server is the grant for the
    device that both sides confirmed and that signed its own id; and a [signed]
    message is posted only after the server took that list and the store saved
    it. *)
Theorem holder_lists_confirmed (ds : list Driver.t) w
    (Hrole : PairingSession.role (mem w) = Creator) :
  exists ops es, mem (drive_all ds w) = after (mem w) ops /\ log (drive_all ds w) = log w ++ es /\
    (forall q a r, Sent q a ∈ es -> body q = Body.List r -> list_confirmed (mem w) ops r) /\
    (forall before q a rest payload,
       es = before ++ Sent q a :: rest -> body q = Body.Payload payload ->
       exists op out, sealed_at (mem w) ops op out /\ payload = Outgoing.payload out /\
         forall grant, op = SealSigned grant -> list_out grant before).
Proof.
  destruct (along_all _ _ ds w (along_start w)) as (ops & es & Hm & Hl & H).
  exists ops, es. split_and!; [done|done| |].
  - intros q a r (l1 & l2 & Hes)%list_elem_of_split Hq.
    specialize (H _ _ _ Hes). simpl in H. rewrite Hq in H. auto.
  - intros before q a rest payload Hes Hq. specialize (H _ _ _ Hes). simpl in H. by rewrite Hq in H.
Qed.

(** ** The end of a pairing *)

(** The slot of the open pairing is empty, or the write that empties it
    failed. *)
Definition slot_emptied w : Prop :=
  StateData.pending_pairing (data_of w) = None \/ last (log w) = Some NotSaved.

Definition settled w : Prop := PairingSession.is_active (mem w) = true \/ slot_emptied w.

Lemma attempt_last {X F} (m : eff session F X) (Q : result unit DriveError.t -> world session -> Prop) w :
  wp o m (fun _ w' => Q (Ok tt) w') w -> wp o (let! _ := attempt m in ret tt) Q w.
Proof. unfold wp, attempt, bind, ret. by destruct (m o w). Qed.

Lemma clean_empties closing w :
  wp o (clean ctx closing) (fun r w' => r = Ok tt /\ mem w' = mem w /\ slot_emptied w' /\
    exists e, log w' = log (if closing then (close ctx (PairingSession.rendezvous_id (mem w)) o w).1
                            else w) ++ [e]) w.
Proof.
  apply wp_mem. unfold cleanup. eapply wp_seq with (R := fun r w1 => r = Ok tt /\ mem w1 = mem w /\
    w1 = if closing then (close ctx (PairingSession.rendezvous_id (mem w)) o w).1 else w).
  - destruct closing; [|done]. unfold close. apply attempt_last.
    pose proof (close_pairing_call (PairingContext.client ctx) (PairingContext.token ctx)
      (PairingContext.protocol ctx) (PairingSession.rendezvous_id (mem w)) o w) as H.
    unfold wp, bind, attempt, ret in *. destruct (GrappaClient.close_pairing _ _ _ _ o w) as [w1 r].
    split_and!; [done| |done]. by destruct H as [[-> _]|(q & _ & ->)].
  - intros [] w1 (_ & Hm & <-). apply attempt_last.
    unfold wp, on_store, clear_pending, Store.clear_pending_pairing, slot_emptied.
    destruct (StateData.pending_pairing _) eqn:Hp; cbn [flow map_err].
    + unfold Store.commit. destruct (seal _ _ _) as [raw|e]; cbn.
      2:{ split_and!; [done|done| |by eexists]. right. by rewrite last_snoc. }
      destruct (Store.writer _ _ _ _ _) as [d [u|e]]; cbn;
        (split_and!; [done|done| |by eexists]); [by left|right; by rewrite last_snoc].
    + cbn. split_and!; [done|done| |by eexists]. by left.
  - by intros e w1 [? _].
Qed.

Lemma clean_settles closing w :
  wp o (clean ctx closing) (fun r w' => settled w') w.
Proof. eapply wp_mono; [apply clean_empties|]. intros r w' (_ & _ & H & _). by right. Qed.

(** A body that, when it succeeds, leaves the pairing settled. *)
Definition settles (m : step unit) : Prop := forall w, wp o m (fun r w' => r = Ok tt -> settled w') w.
Definition settles_from w (m : step unit) : Prop := wp o m (fun r w' => r = Ok tt -> settled w') w.

Lemma settles_clean closing : settles (clean ctx closing).
Proof. intros w. eapply wp_mono; [apply clean_settles|auto]. Qed.

Lemma settles_raise e : settles (raise e).
Proof. done. Qed.

Lemma settles_last {X} (m : step X) (k : X -> step unit) :
  (forall a, settles (k a)) -> settles (bind m k).
Proof.
  intros Hk w. apply wp_bind. unfold wp. destruct (m o w) as [w1 [a|e]]; [by apply Hk|done].
Qed.

(** A seal after which the session is active, and its post. *)
Lemma settles_seal (f : session -> session * result Outgoing.t FlowError.t) :
  (forall s s' out, f s = (s', Ok out) -> PairingSession.is_active s' = true) ->
  settles (bind (session_step f) (fun out => post_outgoing ctx out)).
Proof.
  intros Hf w. apply wp_bind, wp_with_err. unfold wp at 1, on_mem.
  destruct (f (mem w)) as [s [out|e]] eqn:Es; [|done]. cbn [map_err]. apply Hf in Es.
  apply wp_mem. unfold post. apply wp_bind, wp_with_err.
  eapply wp_mono; [apply post_pairing_call|].
  intros r w' H. assert (mem w' = s) as Hm by (by destruct H as [[-> _]|(q & _ & ->)]).
  destruct r; [|done]. intros _. left. by rewrite Hm.
Qed.

Lemma seal_active s wire s' out :
  PairingSession.seal s wire = (s', Ok out) ->
  PairingSession.is_active s' = PairingSession.is_active s.
Proof.
  destruct (seal_cases s wire) as [[e ->]|(ch & ch' & plain & payload & _ & _ & _ & _ & ->)];
    [done|]. by intros [= <- <-].
Qed.

Lemma seal_join_active sig s s' out :
  PairingSession.seal_join s sig = (s', Ok out) -> PairingSession.is_active s' = true.
Proof.
  intros H. destruct (PairingSession.is_active s) eqn:Ha.
  - unfold PairingSession.seal_join in H. destruct (negb _); [done|].
    destruct (PairingSession.own_device s); [|done]. unfold PairingSession.then_mark in H.
    destruct (PairingSession.seal _ _) as [s1 [out1|e]] eqn:Es; [|done]. apply seal_active in Es.
    injection H as <- <-. exact (eq_trans Es Ha).
  - apply inactive_not_ready in Ha as [Hr _]. unfold PairingSession.seal_join in H.
    by rewrite Hr in H.
Qed.

Lemma seal_signed_active grant s s' out :
  PairingSession.seal_signed s grant = (s', Ok out) -> PairingSession.is_active s' = true.
Proof.
  intros H. pose proof H as Hc. apply seal_signed_confirmed in Hc as [d Hd].
  unfold PairingSession.seal_signed in H. destruct (decide _); [done|].
  apply seal_active in H as ->. destruct (PairingSession.is_active s) eqn:Ha; [done|].
  apply inactive_not_ready in Ha as [_ Ha]. congruence.
Qed.

Lemma confirm_active typed s s' out :
  PairingSession.confirm s typed = (s', Ok out) -> PairingSession.is_active s' = true.
Proof.
  unfold PairingSession.confirm, PairingSession.fail.
  destruct (PairingSession.is_active s) eqn:Ha; [|done]. cbn [negb].
  destruct (PairingSession.code s); [|done]. destruct (decide _); [done|].
  destruct (PairingSession.own_confirmed s); [by intros [= <- <-]|].
  destruct (decide _); [by intros [= <- <-]|]. destruct (PairingSession.master s); [|done].
  unfold PairingSession.then_mark.
  destruct (PairingSession.seal _ _) as [s1 [out1|e]] eqn:Es; [|done]. apply seal_active in Es.
  intros [= <- <-]. exact (eq_trans Es Ha).
Qed.

(** A failed confirmation that is no wrong code changes nothing. *)
Lemma confirm_failed typed s s' e :
  PairingSession.confirm s typed = (s', Err e) -> e = FlowError.WrongCode \/ s' = s.
Proof.
  unfold PairingSession.confirm, PairingSession.fail. destruct (negb _); [intros; simplify_eq; by right|].
  destruct (PairingSession.code s); [|intros; simplify_eq; by right].
  destruct (decide _); [intros; simplify_eq; by left|]. do 2 (case_match; [done|]).
  destruct (PairingSession.master s) as [master|]; [|intros; simplify_eq; by right].
  destruct (seal_cases s (Message.Offer WIRE_VERSION
    [WireNetwork.mk (PairingSession.network s) master] []))
    as [[e' ->]|(ch & ch' & plain & payload & _ & _ & _ & _ & ->)]; [|done].
  intros; simplify_eq/=. by right.
Qed.

Lemma settles_send_join w : settled w -> settles_from w (send_join_if_ready ctx).
Proof.
  intros Hw. unfold settles_from, send_join_if_ready. apply wp_mem.
  destruct (negb _); [by apply wp_ret|]. unfold flowed.
  match goal with |- wp _ ?m _ _ => cut (settles m); [intros H; apply H|] end.
  do 4 (apply settles_last; intros ?). apply settles_seal. intros s. apply seal_join_active.
Qed.

Lemma settles_refuse reason : settles (refuse ctx reason).
Proof. do 2 (apply settles_last; intros ?). apply settles_clean. Qed.

Lemma settles_finish_creator : settles (finish_creator ctx).
Proof.
  unfold finish_creator. apply settles_last. intros s. apply settles_last. intros device.
  destruct (negb _); [apply settles_refuse|]. do 4 (apply settles_last; intros ?).
  destruct (contains _ _); [apply settles_refuse|].
  destruct (build_grant _ _ _) as [grant|e]; [|destruct e; try apply settles_raise; apply settles_refuse].
  unfold publish_grant. do 3 (apply settles_last; intros ?).
  apply settles_seal. intros s'. apply seal_signed_active.
Qed.

Lemma settles_take_events events w : settled w -> settles_from w (take_events ctx events).
Proof.
  revert w. induction events as [|e events IH]; intros w Hw; [by apply wp_ret|]. simpl.
  eapply wp_seq with (R := fun r w' => r = Ok tt -> settled w');
    [|intros [] w' Hw'; by apply IH, Hw'|done].
  destruct e; simpl.
  - by apply wp_ret.
  - apply wp_mem. destruct (bool_decide _); [by apply wp_ret|by apply settles_send_join].
  - apply settles_finish_creator.
  - unfold finish_joiner. do 6 (apply settles_last; intros ?). apply settles_clean.
  - apply settles_last. intros _. apply settles_clean.
Qed.

Lemma settles_or_abort w m :
  settles_from w m -> wp o (or_abort ctx m) (fun _ w' => settled w') w.
Proof.
  intros Hm. apply wp_bind, wp_attempt. eapply wp_mono; [exact Hm|].
  intros [[]|e] w' Hw'; [by apply wp_ret, Hw'|]. unfold abort, change. apply wp_bind.
  unfold wp at 1, on_mem. apply wp_bind. eapply wp_mono; [apply clean_settles|].
  intros [[]|e'] w1 H1; [by apply wp_raise|done].
Qed.

Lemma settled_pump w : settled w -> wp o (pump ctx) (fun _ w' => settled w') w.
Proof.
  intros Hw. unfold pump. apply wp_mem. destruct (PairingSession.is_active (mem w)) eqn:Ha; [|done].
  cbn [negb]. apply settles_or_abort. unfold settles_from, pump_inner. apply wp_mem.
  eapply wp_seq with (R := fun r w' => mem w' = mem w).
  - apply wp_with_err. eapply wp_mono; [apply fetch_pairing_call|].
    by intros r w' [[-> _]|(q & _ & ->)].
  - intros messages w1 Hm. apply wp_bind, wp_with_err. unfold wp at 1, on_mem.
    pose proof (accept_loop_active (mem w)
      (sort_by_key (fun m => Z.of_N (RelayMessage.seq m)) messages)) as Hl.
    unfold PairingSession.accept. rewrite Hm, Ha. cbn [negb].
    destruct (PairingSession.accept_loop _ _) as [s [events|e]]; [|done].
    apply settles_take_events. left. by eapply Hl.
  - done.
Qed.

Lemma settled_bind_joiner w :
  PairingSession.is_active (mem w) = true -> wp o (bind_joiner ctx) (fun _ w' => settled w') w.
Proof.
  intros Ha. apply settles_or_abort. unfold settles_from, bind_joiner_inner. apply wp_mem.
  destruct (_ || _); [done|].
  eapply wp_seq with (R := fun r w' => mem w' = mem w).
  { unfold wp, device_from_store, flow_op_of, draw, bind, with_err, on_store. cbn.
    by destruct (from_store _ _ _ _) as [[d s] r]. }
  2: done. intros device w1 Hm. unfold change. apply wp_bind. unfold wp at 1, on_mem.
  apply wp_mem. eapply wp_seq with (R := fun r w' => PairingSession.is_active (mem w') = true); [| |done].
  - unfold wp, flow_op_of, with_err, on_store. cbn. rewrite Hm.
    by destruct (save_pending _ _ _ _) as [[d s] r].
  - intros [] w2 H2. apply settles_send_join. by left.
Qed.

Lemma settled_confirm typed w : settled w -> wp o (confirm ctx typed) (fun _ w' => settled w') w.
Proof.
  intros Hw. unfold confirm.
  eapply wp_seq with (R := fun _ w' => settled w'); [|intros [] w1 H1|done].
  - unfold prepare_holder, flowed. apply wp_mem. destruct (_ || _); [done|]. apply wp_store.
    apply wp_read; [done|]. intros m _. apply wp_read; [done|]. intros a _.
    unfold wp, session_step, with_err, on_mem, PairingSession.set_master.
    destruct (decode_key _); [|by destruct w]. exact Hw.
  - apply wp_bind, wp_attempt, wp_with_err. unfold wp at 1, on_mem.
    destruct (PairingSession.confirm (mem w1) typed) as [s [out|e]] eqn:Es; cbn [map_err].
    + apply confirm_active in Es. apply settles_or_abort. unfold settles_from, confirm_inner.
      eapply wp_seq with (R := fun _ w' => PairingSession.is_active (mem w') = true);
        [|intros [] w2 H2; apply settles_send_join; by left|done].
      destruct out as [out|]; [|done]. apply wp_mem. unfold post. apply wp_bind, wp_with_err.
      eapply wp_mono; [apply post_pairing_call|].
      intros r w' H. assert (mem w' = s) as Hm by (by destruct H as [[-> _]|(q & _ & ->)]).
      destruct r; cbn; by rewrite Hm.
    + apply confirm_failed in Es as [-> | ->].
      * apply wp_bind. eapply wp_mono; [apply clean_settles|]. intros [[]|e'] w2 H2; exact H2.
      * destruct e; try (by destruct w1). apply wp_bind.
        eapply wp_mono; [apply clean_settles|]. intros [[]|e'] w2 H2; exact H2.
Qed.

Lemma settled_tick now w :
  settled w -> wp o (drive (Driver.Tick now)) (fun _ w' => settled w') w.
Proof.
  intros Hw. simpl. unfold tick. apply wp_bind, wp_bind. unfold wp at 1, on_mem, PairingSession.expire.
  destruct (_ && _); cbv beta iota.
  - apply wp_bind. eapply wp_mono; [apply clean_settles|]. intros [[]|e] w2 H2; exact H2.
  - by destruct w.
Qed.

Lemma settled_driven w d : settled w -> settled (driven w d).
Proof.
  intros Hw. unfold driven. destruct (allowed d (mem w)) eqn:Hd; [|done].
  enough (wp o (drive d) (fun _ w' => settled w') w) as H
    by (unfold wp in H; by destruct (drive d o w)).
  destruct d as [| |typed|push| |now]; [by apply settled_pump|by apply settled_bind_joiner|
    by apply settled_confirm| | |by apply settled_tick].
  - simpl. unfold on_push. apply wp_mem. cbv zeta.
    destruct push as [id seq from|id reason]; case_decide; try done; [by apply settled_pump|].
    apply wp_bind. unfold wp at 1, change, on_mem. apply clean_settles.
  - simpl. unfold cancel. apply wp_bind. unfold wp at 1, change, on_mem. apply clean_settles.
Qed.

Lemma settled_all ds w : settled w -> settled (drive_all ds w).
Proof. revert w. induction ds as [|d ds IH]; intros w Hw; [done|]. by apply IH, settled_driven. Qed.

(** The request that closes the rendezvous, when its address is one. *)
Definition close_request s (q : request) : Prop :=
  exists u, GrappaClient.pairing_url (PairingContext.client ctx) PairingOperation.Close
              (Some (PairingSession.rendezvous_id s)) (PairingContext.protocol ctx) None = Ok u /\
    q = {| method := Delete; address := u; bearer := PairingContext.token ctx; body := Body.None |}.

Lemma close_sends id w u :
  GrappaClient.pairing_url (PairingContext.client ctx) PairingOperation.Close (Some id)
    (PairingContext.protocol ctx) None = Ok u ->
  exists a, log (close (M := session) ctx id o w).1 = log w ++
    [Sent {| method := Delete; address := u; bearer := PairingContext.token ctx;
             body := Body.None |} a].
Proof.
  intros Hu. unfold close, GrappaClient.close_pairing, bind, attempt, lift. rewrite Hu.
  unfold GrappaClient.send_pairing_request, bind, send, now, ret. cbn.
  destruct (map_err _ _); cbn; eauto.
Qed.

(** A late tick ends a pairing that is open, and asks the server to close it. *)
Lemma tick_ends now w :
  (Z.of_N PAIRING_LIFETIME_SECS <= PairingSession.saturating_sub_i64 now (PairingSession.started_at (mem w)))%Z ->
  let w1 := driven w (Driver.Tick now) in
  PairingSession.is_active (mem w1) = false /\
  (PairingSession.is_active (mem w) = true -> forall q, close_request (mem w) q ->
     exists a, Sent q a ∈ drop (length (log w)) (log w1)).
Proof.
  intros Hlate. unfold driven, allowed, drive, tick, bind, on_mem, PairingSession.expire.
  rewrite (proj2 (Z.leb_le _ _) Hlate), andb_true_r.
  destruct (PairingSession.is_active (mem w)) eqn:Ha; [|by cbn].
  cbv beta iota zeta.
  set (w0 := mk_world _ _ _ _). pose proof (clean_empties true w0) as H. unfold wp in H.
  destruct (clean ctx true o w0) as [w1 r]. destruct H as (-> & Hm & _ & e & Hl). cbn.
  rewrite Hm. split; [by destruct (end_fields EndTimeout (mem w))|].
  intros _ q (u & Hu & ->). destruct (close_sends (PairingSession.rendezvous_id (mem w)) w0 u Hu)
    as [a Hs]. exists a.
  assert (PairingSession.rendezvous_id (mem w0) = PairingSession.rendezvous_id (mem w)) as Hid
    by (cbn; unfold PairingSession.end_; by destruct (PairingSession.is_active (mem w))).
  rewrite Hl, Hid, Hs. simpl. rewrite <-app_assoc, drop_app_length. set_solver.
Qed.

(** C23. Every pairing ends. Whatever happened before, a tick at 300 seconds or
    later ends the session: the server is asked to close the rendezvous if it
    was open, the slot of the open pairing is empty (or the write that empties
    it failed), no key of the session is left, and no later driver makes the
    session active, fills the slot or posts a message again. *)
Theorem pairing_ends (now : Z) (later : list Driver.t) w
    (Hstart : exists s0 ops, started s0 /\ mem w = after s0 ops) (Hslot : settled w)
    (Hlate : (Z.of_N PAIRING_LIFETIME_SECS <=
              PairingSession.saturating_sub_i64 now (PairingSession.started_at (mem w)))%Z) :
  let w1 := driven w (Driver.Tick now) in
  let w2 := drive_all later w1 in
  (PairingSession.is_active (mem w) = true -> forall q, close_request (mem w) q ->
     exists a, Sent q a ∈ drop (length (log w)) (log w1)) /\
  PairingSession.is_active (mem w1) = false /\
  PairingSession.stage (mem w2) = PairingSession.stage (mem w1) /\
  PairingSession.waiting (mem w2) = None /\ PairingSession.channel (mem w2) = None /\
  slot_emptied w2 /\
  (forall q a payload, Sent q a ∈ drop (length (log w1)) (log w2) ->
     body q <> Body.Payload payload).
Proof.
  intros w1 w2. destruct (tick_ends now w Hlate) as [Hend Hclose]. fold w1 in Hend, Hclose.
  destruct Hstart as (s0 & ops & Hs0 & Hm).
  destruct (along_driven _ _ w (Driver.Tick now) (along_start w)) as (ops1 & es1 & Hm1 & _).
  fold w1 in Hm1. rewrite Hm, <-after_app in Hm1. apply started_active in Hs0.
  destruct (after_quiet s0 (ops ++ ops1)) as [Hw1 Hc1]; [congruence|congruence|].
  rewrite <-Hm1 in Hw1, Hc1.
  destruct (along_all _ _ later w1 (along_start w1)) as (ops2 & es2 & Hm2 & Hl2 & Hlic).
  fold w2 in Hm2, Hl2. destruct (ended_after (mem w1) ops2 Hend Hw1 Hc1) as [Hst _].
  assert (forall pre, PairingSession.is_active (after (mem w1) pre) = false /\
    PairingSession.channel (after (mem w1) pre) = None) as Hdead.
  { intros pre. destruct (ended_after (mem w1) pre Hend Hw1 Hc1) as [Hp _].
    assert (PairingSession.is_active (after (mem w1) pre) = false) as Hp'
      by (unfold PairingSession.is_active in *; by rewrite Hp).
    split; [done|]. by apply (after_quiet (mem w1) pre (fun _ => conj Hw1 Hc1)). }
  split; [done|]. split; [done|]. rewrite Hm2.
  destruct (after_quiet (mem w1) ops2 (fun _ => conj Hw1 Hc1) (proj1 (Hdead ops2))) as [Hw2 Hc2].
  split_and!; [done|done|done| |].
  - destruct (settled_all later w1 (settled_driven w (Driver.Tick now) Hslot)) as [Ha|]; [|done].
    fold w2 in Ha. rewrite Hm2 in Ha. destruct (Hdead ops2). congruence.
  - intros q a payload Hin Hq. rewrite Hl2, drop_app_length in Hin.
    apply list_elem_of_split in Hin as (before & rest & ->).
    specialize (Hlic _ _ _ eq_refl). simpl in Hlic. rewrite Hq in Hlic.
    destruct Hlic as (op & out & (pre & _ & Hs) & _). destruct (Hdead pre) as [H1 H2].
    by eapply inactive_step_seals_nothing.
Qed.
End DriveFacts.
