(* ===== verification/EffectsExamples.v ===== *)
(** * Concrete runs of the drivers

    A server that answers every request well, a disk that takes every write,
    and runs of provisioning, revoke and pairing for the theorems that have
    hypotheses. *)

From S2P Require Import Prelude.
From S2P Require Import RustStr.
From S2P Require Import Interfaces.
From S2P Require Import Concrete.
From S2P Require Import Wire.
From S2P Require Import Device.
From S2P Require Import Manage.
From S2P Require Import ListMigration.
From S2P Require Import DeviceFacts.
From S2P Require Import Trust.
From S2P Require Import Peer.
From S2P Require Import TrustFacts.
From S2P Require Import Files.
From S2P Require Import History.
From S2P Require Import HistoryFacts.
From S2P Require Import State.
From S2P Require Import StateFacts.
From S2P Require Import DeviceRoutes.
From S2P Require Import Pairing.
From S2P Require Import PairingFacts.
From S2P Require Import Protocol.
From S2P Require Import PairingFlow.
From S2P Require Import PairingFlowFacts.
From S2P Require Import PairingGrant.
From S2P Require Import PairingGrantFacts.
From S2P Require Import Refusal.
From S2P Require Import IdentityRoutes.
From S2P Require Import Account.
From S2P Require Import Effects.
From S2P Require Import Client.
From S2P Require Import Provision.
From S2P Require Import Revoke.
From S2P Require Import PairingDrive.
From S2P Require Import EffectsFacts.
From S2P Require Import RevokeFacts.
From S2P Require Import ProvisionFacts.
From S2P Require Import PairingDriveFacts.
From stdpp Require Import options.

(** ** Instances *)

(** An address is the list of its segments. *)
#[export] Instance concrete_url : UrlLib := {|
  url := list string;
  url_parse text := Ok [text];
  path_extend u segments := Some (u ++ segments);
  append_pair u name x := u ++ [name; x];
|}.

#[local] Instance any_state_text : StateText := {|
  state_to_vec _ := Ok "state";
  state_from_slice _ := None;
|}.

#[local] Instance concrete_keys : OlmKeys := {|
  account_new _ := 5%N;
  generate_one_time _ _ a := a;
  generate_fallback _ a := a;
  forget_fallback a := a;
  stored_one_time_count _ := 0%N;
  max_one_time _ := 100%N;
  one_time_texts _ := [];
  fallback_texts _ := [];
  mark_as_published a := a;
|}.

#[local] Instance concrete_keys_laws : OlmKeysLaws.
Proof. by split. Qed.

(** ** A server and a disk *)

Definition list_json (master : string) (version : N) (keys : list string) (sig : string) : json :=
  JObj [("master", JStr master); ("ver", JNum (Z.of_N version));
        ("devices", JArr (JStr <$> keys)); ("sig", JStr sig)].

Definition did_of (n : N) : string := default "" (result_ok (did_from_key_text (sample_key n))).

Definition id_signature (n : N) : string :=
  sample_sign n (device_id_signed_text (sample_key (n + 100)) (sample_key 1)).

Definition device_json (n : N) : json :=
  JObj [("did", JStr (did_of n)); ("ed25519", JStr (sample_key n));
        ("curve25519", JStr (sample_key (n + 100))); ("sig", JStr (id_signature n))].

Definition served_list : SignedList.t := sample_list 4 [5; 6]%N.

Definition read_json (route : string) : json :=
  if decide (route = "devices") then JObj [("devices", JArr [device_json 5; device_json 6])]
  else if decide (route = "list") then
    list_json (sample_key 1) (SignedList.version served_list) (SignedList.keys served_list)
      (SignedList.signature served_list)
  else JObj [("one_time_keys", JNum 100); ("fallback", JBool true)].

Definition serve (q : request) : http_answer :=
  match method q, body q with
  | Put, Body.List r =>
      Answered 200 None (Ok (list_json (ListRequest.master r) (ListRequest.ver r)
                               (ListRequest.devices r) (ListRequest.sig r)))
  | Get, _ => Answered 200 None (Ok (read_json (List.last (address q) "")))
  | Delete, _ => Answered 204 None (Err "")
  | _, _ => Answered 200 None (Ok JNull)
  end.

Definition good_append : append_env := {|
  record_nonce := str_repeat "n" 24;
  append_stat := None;
  header_write := write (sample_env WriteOk);
  append_open := None;
  append_seek := None;
  appending := AppendOk;
|}.

Definition good_rewrite : rewrite_env := {|
  record_nonces _ := str_repeat "n" 24;
  rewriting := write (sample_env WriteOk);
|}.

Definition good : outside := {|
  reply _ q := serve q;
  io_of _ := sample_env WriteOk;
  random _ := "seed";
  wall _ := 0%Z;
  appends _ := good_append;
  rewrites _ := good_rewrite;
  clock log := N.of_nat (length log);
|}.

Definition grappa : GrappaClient.t := GrappaClient.mk "https://grappa.example".
Definition sample_routes : OwnRoutes.t := OwnRoutes.mk grappa "token" "azzurra" "luna" (Some 50%N).

Definition own_account : @account concrete_olm := 5%N.
Definition master_account : @account concrete_olm := 1%N.

(** The device with the key 5, its master and a list with one more device. *)
Definition own_data : StateData.t :=
  let key := str_repeat "k" 32 in
  StateData.set_account (Some (account_pickle key own_account))
    (StateData.set_master (Some (account_pickle key master_account))
       (StateData.set_list (Some served_list) false true StateData.initial)).

Definition world_of {M} (d : StateData.t) (m : M) : world M := mk_world ∅ (sample_store d) m [].

Example revoke_run :
  (revoke_device sample_routes (did_of 6) good (world_of own_data tt)).2 =
  Ok (Revoked.mk (did_of 6) 5).
Proof. by_vm. Qed.


(** A revoke of the device 6 that was cut short after its start. *)
Definition pending_data : StateData.t :=
  StateData.set_revoke (Some (PendingRevoke.mk (sample_key 6) (did_of 6))) [sample_key 6]
    (StateData.set_list (Some (sample_list 5 [5]%N)) true true own_data).

Lemma pending_revoke_finishes_witness :
  let '(w', r) := finish_pending_revoke sample_routes good (world_of pending_data tt) in
  exists es, log w' = es /\
    (Exists fails es \/
     exists revoked, r = Ok (Some revoked) /\ StateData.pending_revoke (data_of w') = None).
Proof.
  pose proof (pending_revoke_finishes sample_routes good master_account
    (PendingRevoke.mk (sample_key 6) (did_of 6)) (world_of pending_data tt)) as H.
  destruct (finish_pending_revoke sample_routes good (world_of pending_data tt)) as [w' r].
  apply H.
  - split; by_vm.
  - split.
    + exists ["https://grappa.example"; "networks"; "azzurra"; "e2e"; "list"]. by_vm.
    + exists ["https://grappa.example"; "networks"; "azzurra"; "e2e"; "devices"; did_of 6]. by_vm.
  - split; [by_vm|by_vm|]. exists (sample_list 5 [5]%N). split; [by_vm|]. intros _.
    exists (ListRequest.mk (sample_key 1) 5 [sample_key 5]
              (SignedList.signature (sample_list 5 [5]%N))). by_vm.
Defined.

(** ** Provisioning *)

Definition settled_data : StateData.t :=
  StateData.set_certificate (Some (VersionedDeviceCertificate.mk 4 (sample_key 5) (sample_key 1) ""))
    own_data.

Definition settled_world : world unit := world_of settled_data tt.

Definition served_held : HeldList.t := HeldList.mk (sample_key 1) served_list.
Definition served_devices : list DeviceRecord.t :=
  (fun n => DeviceRecord.mk (did_of n) (sample_key n) (sample_key (n + 100)) (id_signature n)
              LastSeen.NotSent None) <$> [5; 6]%N.

Definition provision_sample : world unit -> world unit * result Provisioned.t ProvisionError.t :=
  provision_device grappa "token" "azzurra" (Some 50%N) good.

Example settled_run :
  (provision_sample settled_world).2 = Ok (Provisioned.mk (did_of 5) false false false 0 false).
Proof. by_vm. Qed.

(** A device with nothing makes an account, and then it waits for a pairing:
    the server holds a list that is not signed by a master of this device. *)
Example fresh_run :
  (fun '(w', r) => (r, StateData.account (data_of w'), StateData.master (data_of w')))
    (provision_sample (world_of StateData.initial tt)) =
  (Err ProvisionError.NeedsPairing,
   Some (account_pickle (str_repeat "k" 32) own_account), None).
Proof. by_vm. Qed.

Lemma settled_provision_reads_witness :
  exists w', provision_sample settled_world =
    (w', Ok (Provisioned.mk (did_of 5) false false false 0 false)) /\ only_reads settled_world w'.
Proof.
  destruct (DeviceIdRequest.new (sample_key 5) (sample_key 105) (id_signature 5)) as [id|e] eqn:E.
  - apply (settled_provision_reads grappa "token" "azzurra" (Some 50%N) good own_account
      master_account (did_of 5) served_held served_devices (KeysHeld.mk 100 true) id settled_world).
    + by_vm.
    + by_vm.
    + split; intros w; by_vm.
    + split; try (split; by_vm); try by_vm.
      * exists served_list. by_vm.
      * split_and!; by_vm.
      * exists (VersionedDeviceCertificate.mk 4 (sample_key 5) (sample_key 1) ""). by_vm.
    + exact E.
    + exists (DeviceRecord.mk (did_of 5) (sample_key 5) (sample_key 105) (id_signature 5)
                LastSeen.NotSent None).
      split; [left|]. split; [reflexivity|].
      apply (f_equal (fun r => match r with Ok id => DeviceRecord.matches (DeviceRecord.mk
        (did_of 5) (sample_key 5) (sample_key 105) (id_signature 5) LastSeen.NotSent None) id
        | Err _ => true end)) in E. cbv beta iota in E. rewrite <- E. by_vm.
    + split; [|by_vm]. intros H. vm_compute in H. discriminate H.
  - exfalso. apply (f_equal is_ok) in E. vm_compute in E. discriminate E.
Defined.

Lemma identity_never_replaced_witness :
  let w := world_of own_data tt in
  let w' := (provision_sample w).1 in
  exists b, Store.olm_identity (store w') = Ok (Some b) /\ same_identity own_account b.
Proof.
  cbv zeta.
  destruct (identity_never_replaced grappa "token" "azzurra" (Some 50%N) good (world_of own_data tt))
    as (H & _ & _).
  apply H. by_vm.
Defined.

#[local] Existing Instance concrete_channel.
#[local] Existing Instance concrete_pairing_text.
#[local] Existing Instance concrete_pending_text.
#[local] Existing Instance any_state_text.
#[local] Existing Instance concrete_keys.

#[local] Instance concrete_ecies_keys : EciesKeys := {|
  ecies_with_info _ _ := seed 7;
|}.

(** The relay gives one batch of messages for each read. *)
Definition batches : list (list RelayMessage.t) :=
  [[RelayMessage.mk 1 Joiner (b64url_encode (default "" (wire_to_vec (Message.Hello 1))))];
   [RelayMessage.mk 3 Joiner (sealed_text join_message)];
   [RelayMessage.mk 5 Joiner (sealed_text (Message.Done 1 ["azzurra"]))]].

#[local] Instance concrete_answers : PairingAnswers := {|
  rendezvous_envelope _ := Some sample_rendezvous;
  message_envelope _ := Some (RelayMessage.mk 0 Creator "");
  messages_envelope v :=
    match v with JNum n => batches !! Z.to_nat n | _ => None end;
|}.

Definition is_read (e : event) : bool :=
  match e with Sent q _ => bool_decide (method q = Get) | _ => false end.

Definition relay : outside := {|
  reply log q :=
    match method q with
    | Get => Answered 200 None (Ok (JNum (Z.of_nat (length (List.filter is_read log)))))
    | _ => serve q
    end;
  io_of _ := sample_env WriteOk;
  random _ := "seed";
  wall _ := 0%Z;
  appends _ := good_append;
  rewrites _ := good_rewrite;
  clock log := N.of_nat (length log);
|}.

Definition sample_ctx : PairingContext.t :=
  PairingContext.mk grappa "token" (Some 50%N) "azzurra".

Definition holder_data : StateData.t :=
  StateData.set_list (Some current_list) false true own_data.

Definition holder_world : world PairingSession.t := world_of holder_data holder.

(** What the log shows of an event. *)
Definition shown (e : event) : string :=
  match e with
  | Sent q _ =>
      match body q with
      | Body.List _ => "list"
      | Body.Payload payload => payload
      | _ => match method q with Get => "read" | Delete => "close" | _ => "other" end
      end
  | Saved _ => "saved"
  | NotSaved => "not saved"
  | Drew _ => "drew"
  | _ => ""
  end.

Definition holder_drivers : list Driver.t :=
  [Driver.Pump; Driver.Confirm " 42 "; Driver.Pump; Driver.Pump].

(** A whole pairing of a holder: the offer, the list, the saved list, the
    grant, and the end. *)
Example holder_drive_run :
  let w := drive_all sample_ctx relay holder_drivers holder_world in
  (shown <$> log w, PairingSession.status (mem w)) =
  (["read"; sealed_text (Message.Offer 1 [WireNetwork.mk "azzurra" (sample_key 1)] []);
    "read"; "list"; "saved"; sealed_text signed_message; "read"; "close"; "saved"], StatusDone).
Proof. cbv zeta. by_vm. Qed.

Lemma holder_lists_confirmed_witness :
  exists ops es,
    mem (drive_all sample_ctx relay holder_drivers holder_world) = after holder ops /\
    log (drive_all sample_ctx relay holder_drivers holder_world) = es /\
    (forall q a r, Sent q a ∈ es -> body q = Body.List r -> list_confirmed holder ops r).
Proof.
  destruct (holder_lists_confirmed sample_ctx relay holder_drivers holder_world)
    as (ops & es & H1 & H2 & H3 & _); [reflexivity|].
  exists ops, es. split; [exact H1|]. split; [exact H2|exact H3].
Defined.

(** The tick of minute five, in the middle of a pairing, and the drivers that
    come late. *)
Definition middle_ops : list flow_op := take 3 holder_ops.
Definition middle_world : world PairingSession.t := world_of holder_data (after holder middle_ops).

Lemma pairing_ends_witness :
  let w1 := driven sample_ctx relay middle_world (Driver.Tick 1300) in
  let w2 := drive_all sample_ctx relay [Driver.Pump; Driver.Confirm "42"; Driver.Cancel] w1 in
  PairingSession.is_active (mem middle_world) = true /\
  PairingSession.stage (mem w2) = Ended EndTimeout /\ PairingSession.channel (mem w2) = None /\
  slot_emptied w2.
Proof.
  cbv zeta.
  destruct (pairing_ends sample_ctx relay 1300
    [Driver.Pump; Driver.Confirm "42"; Driver.Cancel] middle_world) as (_ & _ & Hs & _ & Hc & He & _).
  - exists holder, middle_ops. split; [|reflexivity]. left.
    exists (seed 7), sample_rendezvous, "azzurra", 1000%Z,
      (PairingLink.mk sample_id (sample_key 7)). by_vm.
  - left. by_vm.
  - intros H. vm_compute in H. discriminate H.
  - split; [by_vm|]. split; [|split; [exact Hc|exact He]]. etransitivity; [exact Hs|]. by_vm.
Defined.
