(* ===== verification/EngineTypes.v ===== *)
(** * The messages of the engine (crates/cordiale-core/src/e2e_engine.rs)

    The payloads of a KEYS answer and of a message, the inner message of an
    Olm plaintext, the requests that carry sealed bodies and their limits. The
    readers and the texts that serde derives from the types are parameters. *)

From S2P Require Import Prelude.
From S2P Require Import RustStr.
From S2P Require Import Interfaces.
From S2P Require Import Wire.
From S2P Require Import Device.
From S2P Require Import Trust.
From S2P Require Import Peer.
From S2P Require Import History.
From S2P Require Import State.
From S2P Require Import DeviceRoutes.
From S2P Require Import Pacing.
From S2P Require Import Refusal.
From S2P Require Import SendDoor.
From stdpp Require Import options.

Definition PAYLOAD_VERSION : N := 2.
Definition KEYS_REASSEMBLY_TIMEOUT : N := md3_pacing.REASSEMBLY_TIMEOUT.

(** ** Texts of the user *)

Definition ACTION_OPEN : string := String SOH "ACTION ".
Definition ACTION_CLOSE : ascii := SOH.

Definition action_text (text : string) : string :=
  ACTION_OPEN +:+ text +:+ String ACTION_CLOSE "".

Definition action_body (stored : string) : option string :=
  rest ← strip_prefix ACTION_OPEN stored;
  Some (default rest (strip_suffix_char ACTION_CLOSE rest)).

Definition OWN_DEVICE : string := "own".

Definition locked_label (nick : string) : string := QUERY_LOCK_LABEL +:+ nick.

Module SendRoute.
Inductive t := Plain (nick : string) | Encrypted (nick : string).

Definition nick (r : t) : string := match r with Plain n | Encrypted n => n end.
End SendRoute.

Definition route_for_window (window_name : string) : SendRoute.t :=
  match strip_prefix QUERY_LOCK_LABEL window_name with
  | Some nick => SendRoute.Encrypted nick
  | None => SendRoute.Plain window_name
  end.

Definition conversation_id (network nick : string) : string := network +:+ NUL +:+ nick.

Definition history_peers_of (history : E2eHistoryStore.t) (network : string) : list string :=
  merge_sort String.le
    (omap (strip_prefix (conversation_id network "")) (E2eHistoryStore.conversation_ids history)).

Definition storage_part `{C : Crypto} (server account network : string) : option string :=
  if is_empty server || is_empty account || starts_with "visitor:" account || is_empty network
  then None
  else Some (hex_lower (str_take 16 (sha256 (server +:+ NUL +:+ account +:+ NUL +:+ network)))).

Definition valid_peer (peer : string) : bool :=
  negb (is_empty peer) && (lenN (utf8_chars peer) <=? 64)%N
  && negb (contains_str QUERY_LOCK_LABEL peer)
  && negb (existsb (fun ch => is_whitespace ch || is_control ch) (utf8_chars peer)).

(** ** Errors *)

Module EngineError.
Inductive t :=
| NotReady
| EncryptionFailed
| Wire (e : WireError)
| Device (e : E2eError.t)
| Store (e : E2eStoreError.t)
| Route (e : E2eRouteError.t)
| Client (e : GrappaClientError.t)
| Rejected (r : SendResponse)
| Paced (r : KeyReqRefusal)
| PeerNotCapable
| QueueFull.

Definition is_store (e : t) : bool := match e with Store _ => true | _ => false end.
End EngineError.

(** ** Versions *)

(** [fract] is zero and the number is not below zero; then [as u64], which
    saturates. *)
Definition float_whole (f : Z * Z) : option N :=
  let '(m, e) := f in
  if (m <? 0)%Z then None else
  let saturated z := Some (N.min U64_MAX (Z.to_N z)) in
  if (0 <=? e)%Z then saturated (m * 2 ^ e)%Z
  else if (m mod 2 ^ (- e) =? 0)%Z then saturated (m / 2 ^ (- e))%Z else None.

Definition version_from_value `{J : Json} (v : value) : option N :=
  whole ← match as_u64 v with
          | Some whole => Some whole
          | None => as_f64 v ≫= float_whole
          end;
  if (whole <=? U32_MAX)%N && version_in_range whole then Some whole else None.

Definition check_payload_version (version : N) : result unit WireError :=
  if (version =? PAYLOAD_VERSION)%N then Ok tt else Err BadVersion.

(** ** Payloads *)

Module IdBlock.
Record t := mk { curve25519 : string; ed25519 : string; sig : string }.
End IdBlock.

Module MasterList.
Record t := mk { ver : N; devices : list string }.
End MasterList.

Module MasterBlock.
Record t := mk { ed25519 : string; list : MasterList.t; sig : string }.
End MasterBlock.

Module MasterRef.
Record t := mk { ed25519 : string; ver : N; cert : string }.
End MasterRef.

Module OneTimeKey.
Record t := mk { key : string; fallback : bool; sig : string }.
End OneTimeKey.

Module KeysEntry.
Record t := mk { id : IdBlock.t; otk : OneTimeKey.t }.
End KeysEntry.

Module KeysPayload.
Record t := mk { v : N; master : MasterBlock.t; devices : list KeysEntry.t }.
End KeysPayload.

Module PreKeyPayload.
Record t := mk { v : N; id : IdBlock.t; master : MasterRef.t; bodies : gmap string string }.
End PreKeyPayload.

Module MsgPayload.
Record t := mk { v : N; ck : string; bodies : gmap string string }.
End MsgPayload.

Module InnerOut.
Record t := mk {
  kind : string;
  peer : option string;
  body : string;
  lv : N;
  fb : option string;
}.
End InnerOut.

Module CopyOut.
Record t := mk {
  kind : string;
  peer : string;
  body : string;
  cid : string;
  lv : N;
  fb : option string;
}.
End CopyOut.

(** What serde derives from these types: the readers, given the reader of a
    version ([de_version]), and the texts; and the texts of an object that the
    code builds member by member. *)
Class EngineText `{J : Json} := {
  keys_payload : (value -> option N) -> value -> option KeysPayload.t;
  prekey_payload : (value -> option N) -> value -> option PreKeyPayload.t;
  msg_payload : value -> option MsgPayload.t;
  master_block : (value -> option N) -> value -> option MasterBlock.t;
  prekey_text : PreKeyPayload.t -> string;
  msg_text : MsgPayload.t -> string;
  inner_text : InnerOut.t -> string;
  copy_text : CopyOut.t -> string;
  master_value : MasterBlock.t -> value;
  str_value : string -> value;
  u32_value : N -> value;
  object_text : gmap string value -> string;
}.

Section Payloads.
Context {C : Crypto} {J : Json} {X : EngineText}.

Definition read_keys (text : string) : result KeysPayload.t WireError :=
  let? v := parse_payload text in
  let? payload := ok_or (keys_payload version_from_value v) BadPayload in
  let? _ := check_payload_version (KeysPayload.v payload) in
  if (MAX_LIST_DEVICES <? lenN (KeysPayload.devices payload))%N then Err BadDeviceCount
  else Ok payload.
End Payloads.

Module MessagePayload.
Inductive t := PreKey (p : PreKeyPayload.t) | Normal (p : MsgPayload.t).

Definition bodies (p : t) : gmap string string :=
  match p with
  | PreKey p => PreKeyPayload.bodies p
  | Normal p => MsgPayload.bodies p
  end.

Definition version (p : t) : N :=
  match p with PreKey p => PreKeyPayload.v p | Normal p => MsgPayload.v p end.

Section Text.
Context {C : Crypto} {J : Json} {X : EngineText}.

Definition parse (verb : InboxVerb.t) (text : string) : result t WireError :=
  let? v := parse_payload text in
  let? payload :=
    match verb with
    | InboxVerb.PkMsg => rmap PreKey (ok_or (prekey_payload version_from_value v) BadPayload)
    | InboxVerb.Msg => rmap Normal (ok_or (msg_payload v) BadPayload)
    | _ => Err BadVerb
    end in
  let? _ := check_payload_version (version payload) in
  if decide (bodies payload = ∅) then Err BadDeviceCount else
  if (MAX_LIST_DEVICES <? N.of_nat (size (bodies payload)))%N then Err BadDeviceCount else
  if forallb (fun entry => is_did_shape entry.1) (map_to_list (bodies payload))
  then Ok payload else Err BadDid.

Definition to_json (p : t) : string :=
  match p with PreKey p => prekey_text p | Normal p => msg_text p end.
End Text.
End MessagePayload.

(** ** Inner messages *)

Module InnerKind.
Inductive t :=
| Text (body : string)
| Copy (peer body : string)
| List (master : MasterBlock.t)
| ListReq
| Other.
End InnerKind.

Module Inner.
Record t := mk {
  kind : InnerKind.t;
  lv : option N;
  fb : option string;
  cid : option string;
}.

(** An inner message that is none. *)
Definition other : t := mk InnerKind.Other None None None.

Section Parse.
Context {J : Json} {X : EngineText}.

Definition kind_of (map : gmap string value) (kind : string) : InnerKind.t :=
  let field name := map !! name ≫= as_str in
  if decide (kind = "text") then
    match field "body" with Some body => InnerKind.Text body | None => InnerKind.Other end
  else if decide (kind = "action") then
    match field "body" with
    | Some body => InnerKind.Text (action_text body)
    | None => InnerKind.Other
    end
  else if decide (kind = "copy") then
    match field "peer", field "body" with
    | Some peer, Some body => InnerKind.Copy peer body
    | _, _ => InnerKind.Other
    end
  else if decide (kind = "list") then
    match map !! "master" ≫= master_block version_from_value with
    | Some master => InnerKind.List master
    | None => InnerKind.Other
    end
  else if decide (kind = "listreq") then InnerKind.ListReq
  else InnerKind.Other.

Definition parse (plain : string) : option t :=
  if negb (utf8_valid plain) then None else
  v ← from_str plain;
  map ← as_object_map v;
  kind ← map !! "t" ≫= as_str;
  Some (mk (kind_of map kind) (map !! "lv" ≫= version_from_value) (map !! "fb" ≫= as_str)
          (map !! "cid" ≫= as_str)).
End Parse.
End Inner.

Definition bound_to (inner : Inner.t) (expected_fb : string) : option Inner.t :=
  if decide (Inner.fb inner = Some expected_fb) then Some inner else None.

(** The nonce is the one that the cipher library generates. *)
Definition fresh_local_id (nonce : string) : string := "local" +:+ hex_lower (str_take 16 nonce).

(** What the engine writes in an Olm message. *)
Module Outgoing.
Inductive t := Text (stored : string) | List (master : MasterBlock.t) | ListReq.

Section Text.
Context {J : Json} {X : EngineText}.

(** The object that the code builds for a list message. *)
Definition list_object (kind : string) (master : option MasterBlock.t) (lv : N)
    (fb : option string) : gmap string value :=
  let map := {["t" := str_value kind]} in
  let map := match master with
             | Some master => <["master" := master_value master]> map
             | None => map
             end in
  let map := <["lv" := u32_value lv]> map in
  match fb with Some fb => <["fb" := str_value fb]> map | None => map end.

Definition to_json (o : t) (lv : N) (fb : option string) : string :=
  match o with
  | Text stored =>
      let '(kind, body) :=
        match action_body stored with
        | Some words => ("action", words)
        | None => ("text", stored)
        end in
      inner_text (InnerOut.mk kind None body lv fb)
  | List master => object_text (list_object "list" (Some master) lv fb)
  | ListReq => object_text (list_object "listreq" None lv fb)
  end.
End Text.
End Outgoing.

(** ** Outcomes and records *)

Module RowOutcome.
Inductive t := Stored | Duplicate | KeysRead | Undecryptable | Ignored | StoreFailed | StaleList.

#[global] Instance eq_dec : EqDecision t.
Proof. solve_decision. Defined.

Definition acknowledge (o : t) : bool :=
  match o with StoreFailed | StaleList => false | _ => true end.
End RowOutcome.

Module SentText.
Record t := mk { msgid : option string; key : option SendKey.t }.
End SentText.

Module PendingText.
Record t := mk { text : string; sends : N; row_id : string; did : option string }.
End PendingText.

Module SentRecord.
Record t := mk {
  nick : string;
  dids : list string;
  known_peer_dids : gset string;
  text : string;
  sends : N;
  row_id : string;
  sent_at : N;
}.

Definition with_dids (dids : list string) (r : t) : t :=
  mk (nick r) dids (known_peer_dids r) (text r) (sends r) (row_id r) (sent_at r).
End SentRecord.

Module CopyFailure.
Inductive t :=
| SameDevice | KeylessDevice | KeyTaken | RemovedDevice | InboxFull | NoKey | TooLarge | Expired
| Failed.
End CopyFailure.

Module CopyReport.
Record t := mk {
  queued : list string;
  failed : list (string * CopyFailure.t);
  needs_sync : bool;
}.
End CopyReport.

Module CopyJob.
Record t := mk {
  id : string;
  peer : string;
  text : string;
  created_at : Z;
  recipients : gset string;
  finished : gset string;
  tries : gmap string N;
}.
End CopyJob.

Module CopyStep.
Inductive t := Drop (failure : CopyFailure.t) | Retry | Sync.
End CopyStep.

Module PeerEntry.
Record t := mk { nick : string; device : PeerDevice.t; one_time_key : option string }.
End PeerEntry.

Module OwnWire.
Record t := mk { id : IdBlock.t; master : MasterRef.t; lv : N }.
End OwnWire.

Module ListJob.
Record t := mk { nick : string; did : string; reply : bool }.
End ListJob.

Module Emitted.
Record t := mk { dids : list string; msgid : option string; capture : E2eCapture.t }.
End Emitted.

(** ** Sessions *)

Inductive OlmMessage := OlmPreKey (body : string) | OlmNormal (body : string).

(** The sessions of [vodozemac::olm]. The bodies are texts in base64: the
    decoding of a body is a part of its reading. A session that is made or that
    encrypts draws fresh keys from a seed; reading is deterministic. *)
Class OlmSessions `{O : Olm} := {
  (** [Curve25519PublicKey::from_base64] accepts the text. *)
  curve_ok : string -> bool;
  (** [PreKeyMessage::from_base64] and its session id. *)
  prekey_session_id : string -> option string;
  (** [Message::from_base64] accepts the text. *)
  message_ok : string -> bool;
  session_id : session -> string;
  has_received_message : session -> bool;
  outbound_session : string -> account -> string -> string -> option session;
  inbound_session : account -> string -> string -> option (account * session * string);
  session_encrypt : string -> session -> string -> option (session * OlmMessage);
  session_decrypt : session -> OlmMessage -> option (session * string);
}.

Module Sealed.
Section Sealed.
Context {O : Olm}.
Record t := mk {
  nick : string;
  did : string;
  prekey : bool;
  body : string;
  session : State.session;
}.
End Sealed.
#[global] Arguments t {O}.
End Sealed.

Module Decrypted.
Section Decrypted.
Context {O : Olm}.
Record t := mk {
  inner : Inner.t;
  identity : option State.account;
  session : State.session;
  replay : option ReplayState.t;
  learned : option (PeerEntry.t * PeerTrust.t);
}.
End Decrypted.
#[global] Arguments t {O}.
End Decrypted.

(** ** Requests with a body for each device *)

Definition inbox_verb_name (verb : InboxVerb.t) : string :=
  match verb with
  | InboxVerb.Keys => "keys"
  | InboxVerb.PkMsg => "pkmsg"
  | InboxVerb.Msg => "msg"
  | InboxVerb.Nack => "nack"
  end.

Definition send_verb_name (verb : E2eSendVerb.t) : string :=
  match verb with
  | E2eSendVerb.KeyReq => "keyreq"
  | E2eSendVerb.PkMsg => "pkmsg"
  | E2eSendVerb.Msg => "msg"
  | E2eSendVerb.Nack => "nack"
  end.

Definition nack_reference `{J : Json} (payload : string) : option string :=
  v ← from_str payload;
  reference ← json_get v "ref" ≫= as_str;
  if is_empty reference then None else Some reference.

Definition copy_step (error : E2eRouteError.t) : CopyStep.t :=
  match error with
  | E2eRouteError.Refused refusal _ =>
      match refusal with
      | E2eRefusal.SameDevice => CopyStep.Drop CopyFailure.SameDevice
      | E2eRefusal.KeylessDevice => CopyStep.Drop CopyFailure.KeylessDevice
      | E2eRefusal.KeyTaken => CopyStep.Drop CopyFailure.KeyTaken
      | E2eRefusal.RemovedDevice => CopyStep.Drop CopyFailure.RemovedDevice
      | E2eRefusal.InboxFull => CopyStep.Drop CopyFailure.InboxFull
      | _ => CopyStep.Retry
      end
  | E2eRouteError.Client _ | E2eRouteError.Wire _ => CopyStep.Retry
  | E2eRouteError.Unavailable => CopyStep.Drop CopyFailure.Failed
  end.

Section Requests.
Context {J : Json} {X : EngineText} {O : Olm}.

(** [collect] to a map: a later body of a device replaces an earlier one. *)
Definition bodies_of (chunk : list Sealed.t) : gmap string string :=
  foldl (fun m s => <[Sealed.did s := Sealed.body s]> m) ∅ chunk.

Definition chunk_payload (chunk : list Sealed.t) (own : OwnWire.t) : E2eSendVerb.t * string :=
  if match chunk with s :: _ => Sealed.prekey s | [] => false end
  then (E2eSendVerb.PkMsg,
        MessagePayload.to_json (MessagePayload.PreKey
          (PreKeyPayload.mk PAYLOAD_VERSION (OwnWire.id own) (OwnWire.master own)
             (bodies_of chunk))))
  else (E2eSendVerb.Msg,
        MessagePayload.to_json (MessagePayload.Normal
          (MsgPayload.mk PAYLOAD_VERSION (IdBlock.curve25519 (OwnWire.id own))
             (bodies_of chunk)))).

(** The address of a request. *)
Definition address_of (chunk : list Sealed.t) : string :=
  match chunk with [only] => Sealed.did only | _ => WILDCARD end.

Definition request_fits (chunk : list Sealed.t) (own : OwnWire.t) (own_did : string)
    (line_budget : option N) : bool :=
  let '(verb, payload) := chunk_payload chunk own in
  if (SEND_PAYLOAD_MAX_BYTES <? str_len payload)%N
     || (SEND_PAYLOAD_MAX_LINES <? lines_count payload)%N then false else
  match line_budget with
  | None => true
  | Some line_budget =>
      match frames_needed (E2eSendVerb.frame_verb verb) (str_len payload) line_budget own_did
              (address_of chunk) with
      | Some frames => (frames <=? MAX_FRAGMENTS)%N
      | None => false
      end
  end.

(** One turn of the loop: the closed chunks and the current one. *)
Definition split_step (own : OwnWire.t) (own_did : string) (line_budget : option N)
    (s : list (list Sealed.t) * list Sealed.t) (sealed : Sealed.t)
    : list (list Sealed.t) * list Sealed.t :=
  let '(chunks, current) := s in
  let next := current ++ [sealed] in
  if (1 <? lenN next)%N
     && ((MAX_LIST_DEVICES <? lenN next)%N || negb (request_fits next own own_did line_budget))
  then (chunks ++ [current], [sealed]) else (chunks, next).

Definition split_by_limits (group : list Sealed.t) (own : OwnWire.t) (own_did : string)
    (line_budget : option N) : list (list Sealed.t) :=
  let '(chunks, current) := foldl (split_step own own_did line_budget) ([], []) group in
  match current with [] => chunks | _ => chunks ++ [current] end.
End Requests.
