(* ===== verification/Engine.v ===== *)
(** * The engine of one device on one network (crates/cordiale-core/src/e2e_engine.rs)

    The state of the engine and the operations that send no request: the
    views of the trust, the checks of the user, the drops, the devices that
    are ready and the queue of texts. The state store is the [store] of a
    world, the engine is its [mem], and a method that reads the clock or
    writes a file is a step with effects. *)

From S2P Require Import Prelude.
From S2P Require Import RustStr.
From S2P Require Import Interfaces.
From S2P Require Import Isupport.
From S2P Require Import Wire.
From S2P Require Import Device.
From S2P Require Import Manage.
From S2P Require Import Trust.
From S2P Require Import Peer.
From S2P Require Import Sas.
From S2P Require Import Files.
From S2P Require Import History.
From S2P Require Import State.
From S2P Require Import DeviceRoutes.
From S2P Require Import Pacing.
From S2P Require Import SendDoor.
From S2P Require Import SelfCopy.
From S2P Require Import Effects.
From S2P Require Import EngineTypes.
From stdpp Require Import options.

#[local] Open Scope eff_scope.

Module E2eEngine.
(** The store of the state and the clock are in the world of a step. *)
Record t := mk {
  network : string;
  own_did : string;
  own_ed25519 : string;
  history : E2eHistoryStore.t;
  seen : gset N;
  peers : gmap string PeerEntry.t;
  book : SendBook.t;
  keyreq : KeyReqPacer.t;
  casemapping : CaseMapping.t;
  frame_budget_base : option N;
  revoked_dids : gset string;
  keys_wanted : list string;
  trust_changed : list string;
  queue : OutgoingQueue.t;
  pending : gmap SendKey.t PendingText.t;
  sent : gmap string SentRecord.t;
  rekey : IntervalLimiter.t;
  row_ids : gmap SendKey.t string;
  dropped_rows : gmap string DropReason.t;
  capability : list (string * bool);
  changed_peers : list string;
  local_sends : N;
  copy_jobs : list CopyJob.t;
  copy_tracker : DeliveryTracker.t;
  stale_tries : gmap N N;
  list_jobs : list ListJob.t;
  list_answered : gmap (string * string) N;
  listreq : IntervalLimiter.t;
  listreq_lv : gmap string (gset N);
}.

(** Assignments to single fields. *)
Definition set_history x (e : t) : t :=
  mk (network e) (own_did e) (own_ed25519 e) x (seen e) (peers e) (book e) (keyreq e)
  (casemapping e) (frame_budget_base e) (revoked_dids e) (keys_wanted e) (trust_changed e)
  (queue e) (pending e) (sent e) (rekey e) (row_ids e) (dropped_rows e) (capability e)
  (changed_peers e) (local_sends e) (copy_jobs e) (copy_tracker e) (stale_tries e)
  (list_jobs e) (list_answered e) (listreq e) (listreq_lv e).
Definition set_seen x (e : t) : t :=
  mk (network e) (own_did e) (own_ed25519 e) (history e) x (peers e) (book e) (keyreq e)
  (casemapping e) (frame_budget_base e) (revoked_dids e) (keys_wanted e) (trust_changed e)
  (queue e) (pending e) (sent e) (rekey e) (row_ids e) (dropped_rows e) (capability e)
  (changed_peers e) (local_sends e) (copy_jobs e) (copy_tracker e) (stale_tries e)
  (list_jobs e) (list_answered e) (listreq e) (listreq_lv e).
Definition set_peers x (e : t) : t :=
  mk (network e) (own_did e) (own_ed25519 e) (history e) (seen e) x (book e) (keyreq e)
  (casemapping e) (frame_budget_base e) (revoked_dids e) (keys_wanted e) (trust_changed e)
  (queue e) (pending e) (sent e) (rekey e) (row_ids e) (dropped_rows e) (capability e)
  (changed_peers e) (local_sends e) (copy_jobs e) (copy_tracker e) (stale_tries e)
  (list_jobs e) (list_answered e) (listreq e) (listreq_lv e).
Definition set_book x (e : t) : t :=
  mk (network e) (own_did e) (own_ed25519 e) (history e) (seen e) (peers e) x (keyreq e)
  (casemapping e) (frame_budget_base e) (revoked_dids e) (keys_wanted e) (trust_changed e)
  (queue e) (pending e) (sent e) (rekey e) (row_ids e) (dropped_rows e) (capability e)
  (changed_peers e) (local_sends e) (copy_jobs e) (copy_tracker e) (stale_tries e)
  (list_jobs e) (list_answered e) (listreq e) (listreq_lv e).
Definition set_keyreq x (e : t) : t :=
  mk (network e) (own_did e) (own_ed25519 e) (history e) (seen e) (peers e) (book e) x
  (casemapping e) (frame_budget_base e) (revoked_dids e) (keys_wanted e) (trust_changed e)
  (queue e) (pending e) (sent e) (rekey e) (row_ids e) (dropped_rows e) (capability e)
  (changed_peers e) (local_sends e) (copy_jobs e) (copy_tracker e) (stale_tries e)
  (list_jobs e) (list_answered e) (listreq e) (listreq_lv e).
Definition set_casemapping x (e : t) : t :=
  mk (network e) (own_did e) (own_ed25519 e) (history e) (seen e) (peers e) (book e) (keyreq e)
  x (frame_budget_base e) (revoked_dids e) (keys_wanted e) (trust_changed e) (queue e)
  (pending e) (sent e) (rekey e) (row_ids e) (dropped_rows e) (capability e) (changed_peers e)
  (local_sends e) (copy_jobs e) (copy_tracker e) (stale_tries e) (list_jobs e)
  (list_answered e) (listreq e) (listreq_lv e).
Definition set_frame_budget_base x (e : t) : t :=
  mk (network e) (own_did e) (own_ed25519 e) (history e) (seen e) (peers e) (book e) (keyreq e)
  (casemapping e) x (revoked_dids e) (keys_wanted e) (trust_changed e) (queue e) (pending e)
  (sent e) (rekey e) (row_ids e) (dropped_rows e) (capability e) (changed_peers e)
  (local_sends e) (copy_jobs e) (copy_tracker e) (stale_tries e) (list_jobs e)
  (list_answered e) (listreq e) (listreq_lv e).
Definition set_revoked_dids x (e : t) : t :=
  mk (network e) (own_did e) (own_ed25519 e) (history e) (seen e) (peers e) (book e) (keyreq e)
  (casemapping e) (frame_budget_base e) x (keys_wanted e) (trust_changed e) (queue e)
  (pending e) (sent e) (rekey e) (row_ids e) (dropped_rows e) (capability e) (changed_peers e)
  (local_sends e) (copy_jobs e) (copy_tracker e) (stale_tries e) (list_jobs e)
  (list_answered e) (listreq e) (listreq_lv e).
Definition set_keys_wanted x (e : t) : t :=
  mk (network e) (own_did e) (own_ed25519 e) (history e) (seen e) (peers e) (book e) (keyreq e)
  (casemapping e) (frame_budget_base e) (revoked_dids e) x (trust_changed e) (queue e)
  (pending e) (sent e) (rekey e) (row_ids e) (dropped_rows e) (capability e) (changed_peers e)
  (local_sends e) (copy_jobs e) (copy_tracker e) (stale_tries e) (list_jobs e)
  (list_answered e) (listreq e) (listreq_lv e).
Definition set_trust_changed x (e : t) : t :=
  mk (network e) (own_did e) (own_ed25519 e) (history e) (seen e) (peers e) (book e) (keyreq e)
  (casemapping e) (frame_budget_base e) (revoked_dids e) (keys_wanted e) x (queue e)
  (pending e) (sent e) (rekey e) (row_ids e) (dropped_rows e) (capability e) (changed_peers e)
  (local_sends e) (copy_jobs e) (copy_tracker e) (stale_tries e) (list_jobs e)
  (list_answered e) (listreq e) (listreq_lv e).
Definition set_queue x (e : t) : t :=
  mk (network e) (own_did e) (own_ed25519 e) (history e) (seen e) (peers e) (book e) (keyreq e)
  (casemapping e) (frame_budget_base e) (revoked_dids e) (keys_wanted e) (trust_changed e) x
  (pending e) (sent e) (rekey e) (row_ids e) (dropped_rows e) (capability e) (changed_peers e)
  (local_sends e) (copy_jobs e) (copy_tracker e) (stale_tries e) (list_jobs e)
  (list_answered e) (listreq e) (listreq_lv e).
Definition set_pending x (e : t) : t :=
  mk (network e) (own_did e) (own_ed25519 e) (history e) (seen e) (peers e) (book e) (keyreq e)
  (casemapping e) (frame_budget_base e) (revoked_dids e) (keys_wanted e) (trust_changed e)
  (queue e) x (sent e) (rekey e) (row_ids e) (dropped_rows e) (capability e) (changed_peers e)
  (local_sends e) (copy_jobs e) (copy_tracker e) (stale_tries e) (list_jobs e)
  (list_answered e) (listreq e) (listreq_lv e).
Definition set_sent x (e : t) : t :=
  mk (network e) (own_did e) (own_ed25519 e) (history e) (seen e) (peers e) (book e) (keyreq e)
  (casemapping e) (frame_budget_base e) (revoked_dids e) (keys_wanted e) (trust_changed e)
  (queue e) (pending e) x (rekey e) (row_ids e) (dropped_rows e) (capability e)
  (changed_peers e) (local_sends e) (copy_jobs e) (copy_tracker e) (stale_tries e)
  (list_jobs e) (list_answered e) (listreq e) (listreq_lv e).
Definition set_rekey x (e : t) : t :=
  mk (network e) (own_did e) (own_ed25519 e) (history e) (seen e) (peers e) (book e) (keyreq e)
  (casemapping e) (frame_budget_base e) (revoked_dids e) (keys_wanted e) (trust_changed e)
  (queue e) (pending e) (sent e) x (row_ids e) (dropped_rows e) (capability e)
  (changed_peers e) (local_sends e) (copy_jobs e) (copy_tracker e) (stale_tries e)
  (list_jobs e) (list_answered e) (listreq e) (listreq_lv e).
Definition set_row_ids x (e : t) : t :=
  mk (network e) (own_did e) (own_ed25519 e) (history e) (seen e) (peers e) (book e) (keyreq e)
  (casemapping e) (frame_budget_base e) (revoked_dids e) (keys_wanted e) (trust_changed e)
  (queue e) (pending e) (sent e) (rekey e) x (dropped_rows e) (capability e) (changed_peers e)
  (local_sends e) (copy_jobs e) (copy_tracker e) (stale_tries e) (list_jobs e)
  (list_answered e) (listreq e) (listreq_lv e).
Definition set_dropped_rows x (e : t) : t :=
  mk (network e) (own_did e) (own_ed25519 e) (history e) (seen e) (peers e) (book e) (keyreq e)
  (casemapping e) (frame_budget_base e) (revoked_dids e) (keys_wanted e) (trust_changed e)
  (queue e) (pending e) (sent e) (rekey e) (row_ids e) x (capability e) (changed_peers e)
  (local_sends e) (copy_jobs e) (copy_tracker e) (stale_tries e) (list_jobs e)
  (list_answered e) (listreq e) (listreq_lv e).
Definition set_capability x (e : t) : t :=
  mk (network e) (own_did e) (own_ed25519 e) (history e) (seen e) (peers e) (book e) (keyreq e)
  (casemapping e) (frame_budget_base e) (revoked_dids e) (keys_wanted e) (trust_changed e)
  (queue e) (pending e) (sent e) (rekey e) (row_ids e) (dropped_rows e) x (changed_peers e)
  (local_sends e) (copy_jobs e) (copy_tracker e) (stale_tries e) (list_jobs e)
  (list_answered e) (listreq e) (listreq_lv e).
Definition set_changed_peers x (e : t) : t :=
  mk (network e) (own_did e) (own_ed25519 e) (history e) (seen e) (peers e) (book e) (keyreq e)
  (casemapping e) (frame_budget_base e) (revoked_dids e) (keys_wanted e) (trust_changed e)
  (queue e) (pending e) (sent e) (rekey e) (row_ids e) (dropped_rows e) (capability e) x
  (local_sends e) (copy_jobs e) (copy_tracker e) (stale_tries e) (list_jobs e)
  (list_answered e) (listreq e) (listreq_lv e).
Definition set_local_sends x (e : t) : t :=
  mk (network e) (own_did e) (own_ed25519 e) (history e) (seen e) (peers e) (book e) (keyreq e)
  (casemapping e) (frame_budget_base e) (revoked_dids e) (keys_wanted e) (trust_changed e)
  (queue e) (pending e) (sent e) (rekey e) (row_ids e) (dropped_rows e) (capability e)
  (changed_peers e) x (copy_jobs e) (copy_tracker e) (stale_tries e) (list_jobs e)
  (list_answered e) (listreq e) (listreq_lv e).
Definition set_copy_jobs x (e : t) : t :=
  mk (network e) (own_did e) (own_ed25519 e) (history e) (seen e) (peers e) (book e) (keyreq e)
  (casemapping e) (frame_budget_base e) (revoked_dids e) (keys_wanted e) (trust_changed e)
  (queue e) (pending e) (sent e) (rekey e) (row_ids e) (dropped_rows e) (capability e)
  (changed_peers e) (local_sends e) x (copy_tracker e) (stale_tries e) (list_jobs e)
  (list_answered e) (listreq e) (listreq_lv e).
Definition set_copy_tracker x (e : t) : t :=
  mk (network e) (own_did e) (own_ed25519 e) (history e) (seen e) (peers e) (book e) (keyreq e)
  (casemapping e) (frame_budget_base e) (revoked_dids e) (keys_wanted e) (trust_changed e)
  (queue e) (pending e) (sent e) (rekey e) (row_ids e) (dropped_rows e) (capability e)
  (changed_peers e) (local_sends e) (copy_jobs e) x (stale_tries e) (list_jobs e)
  (list_answered e) (listreq e) (listreq_lv e).
Definition set_stale_tries x (e : t) : t :=
  mk (network e) (own_did e) (own_ed25519 e) (history e) (seen e) (peers e) (book e) (keyreq e)
  (casemapping e) (frame_budget_base e) (revoked_dids e) (keys_wanted e) (trust_changed e)
  (queue e) (pending e) (sent e) (rekey e) (row_ids e) (dropped_rows e) (capability e)
  (changed_peers e) (local_sends e) (copy_jobs e) (copy_tracker e) x (list_jobs e)
  (list_answered e) (listreq e) (listreq_lv e).
Definition set_list_jobs x (e : t) : t :=
  mk (network e) (own_did e) (own_ed25519 e) (history e) (seen e) (peers e) (book e) (keyreq e)
  (casemapping e) (frame_budget_base e) (revoked_dids e) (keys_wanted e) (trust_changed e)
  (queue e) (pending e) (sent e) (rekey e) (row_ids e) (dropped_rows e) (capability e)
  (changed_peers e) (local_sends e) (copy_jobs e) (copy_tracker e) (stale_tries e) x
  (list_answered e) (listreq e) (listreq_lv e).
Definition set_list_answered x (e : t) : t :=
  mk (network e) (own_did e) (own_ed25519 e) (history e) (seen e) (peers e) (book e) (keyreq e)
  (casemapping e) (frame_budget_base e) (revoked_dids e) (keys_wanted e) (trust_changed e)
  (queue e) (pending e) (sent e) (rekey e) (row_ids e) (dropped_rows e) (capability e)
  (changed_peers e) (local_sends e) (copy_jobs e) (copy_tracker e) (stale_tries e)
  (list_jobs e) x (listreq e) (listreq_lv e).
Definition set_listreq x (e : t) : t :=
  mk (network e) (own_did e) (own_ed25519 e) (history e) (seen e) (peers e) (book e) (keyreq e)
  (casemapping e) (frame_budget_base e) (revoked_dids e) (keys_wanted e) (trust_changed e)
  (queue e) (pending e) (sent e) (rekey e) (row_ids e) (dropped_rows e) (capability e)
  (changed_peers e) (local_sends e) (copy_jobs e) (copy_tracker e) (stale_tries e)
  (list_jobs e) (list_answered e) x (listreq_lv e).
Definition set_listreq_lv x (e : t) : t :=
  mk (network e) (own_did e) (own_ed25519 e) (history e) (seen e) (peers e) (book e) (keyreq e)
  (casemapping e) (frame_budget_base e) (revoked_dids e) (keys_wanted e) (trust_changed e)
  (queue e) (pending e) (sent e) (rekey e) (row_ids e) (dropped_rows e) (capability e)
  (changed_peers e) (local_sends e) (copy_jobs e) (copy_tracker e) (stale_tries e)
  (list_jobs e) (list_answered e) (listreq e) x.

Definition new `{C : Crypto, O : Olm} (network : string) (state : Store.t)
    (history : E2eHistoryStore.t) : result t EngineError.t :=
  let? key := map_err EngineError.Store (Store.device_key state) in
  let? own_ed25519 := ok_or key EngineError.NotReady in
  let? own_did := map_err EngineError.Wire (did_from_key_text own_ed25519) in
  let dropped_rows :=
    omap DropReason.from_wire (StateData.dropped_rows (Store.data state)) in
  Ok (mk network own_did own_ed25519 history ∅ ∅ SendBook.new
        (KeyReqPacer.new KEYS_REASSEMBLY_TIMEOUT) CaseMapping.Rfc1459 None ∅ [] []
        OutgoingQueue.new ∅ ∅ (IntervalLimiter.new md3_pacing.REKEY_INTERVAL) ∅ dropped_rows
        [] [] 0 [] ∅ ∅ [] ∅ (IntervalLimiter.new md3_pacing.LISTREQ_INTERVAL) ∅).
End E2eEngine.

(** A step of the engine. *)
Notation eng E A := (eff E2eEngine.t E A).

Section Engine.
Context {C : Crypto} {J : Json} {U : UrlLib} {T : StateText} {A : Aead} {O : Olm}.
Context {H : HistoryText} {X : EngineText}.
Implicit Types (e : E2eEngine.t) (s : Store.t).

(** The value of a sum of times. No reading of the clock reaches the bound at
    which the sum panics ([queue_clock]). *)
Definition clocked {V} (unreached : V) (p : panics V) : V := default unreached p.

(** ** Changed conversations and counters *)

Definition history_peers e : list string :=
  history_peers_of (E2eEngine.history e) (E2eEngine.network e).

(** [if !list.contains(x) { list.push(x) }]. *)
Definition push_new (l : list string) (x : string) : list string :=
  if contains l x then l else l ++ [x].

Definition note_changed {E} (nick : string) : eng E unit :=
  modify (fun e => E2eEngine.set_changed_peers (push_new (E2eEngine.changed_peers e) nick) e).

Definition take_changed_peers {E} : eng E (list string) :=
  let! e := get_mem in
  modify (E2eEngine.set_changed_peers []) ;! ret (E2eEngine.changed_peers e).

Definition want_keys {E} (nick : string) : eng E unit :=
  modify (fun e => E2eEngine.set_keys_wanted (push_new (E2eEngine.keys_wanted e) nick) e).

Definition take_keys_wanted {E} : eng E (list string) :=
  let! e := get_mem in
  modify (E2eEngine.set_keys_wanted []) ;! ret (E2eEngine.keys_wanted e).

Definition note_trust_changed {E} (nick : string) : eng E unit :=
  modify (fun e => E2eEngine.set_trust_changed (push_new (E2eEngine.trust_changed e) nick) e).

Definition take_trust_changed {E} : eng E (list string) :=
  let! e := get_mem in
  modify (E2eEngine.set_trust_changed []) ;! ret (E2eEngine.trust_changed e).

Definition set_casemapping {E} (casemapping : CaseMapping.t) : eng E unit :=
  modify (E2eEngine.set_casemapping casemapping).

Definition set_frame_budget_base {E} (frame_budget_base : N) : eng E unit :=
  modify (E2eEngine.set_frame_budget_base (Some frame_budget_base)).

(** ** Keys of the own account and of a peer *)

Definition own_master_key s : option string :=
  match StateData.device_certificate (Store.data s) with
  | Some certificate => Some (VersionedDeviceCertificate.master_ed25519 certificate)
  | None => identity_ed25519 <$> (result_ok (Store.master_key s) ≫= id)
  end.

Definition own_consent_line e s : result E2eConsentLine.t EngineError.t :=
  let? master := ok_or (own_master_key s) EngineError.NotReady in
  let payload := object_text (<["v" := u32_value 2]> {["master" := str_value master]}) in
  map_err EngineError.Wire (E2eConsentLine.new (E2eEngine.own_did e) payload).

Definition sas_master e (data : StateData.t) (nick : string) : option string :=
  PeerTrust.master (StateData.trust data) (E2eEngine.network e) nick.

(** [E2eEngine::sas_code]; [Sas] has the function that it calls. *)
Definition engine_sas_code e s (nick : string) : option string :=
  peer ← sas_master e (Store.data s) nick;
  own ← own_master_key s;
  result_ok (sas_code own peer).

Definition store_step {V} (op : io_env -> disk -> Store.t -> disk * Store.t * result V E2eStoreError.t)
    : eng EngineError.t V := with_err EngineError.Store (on_store op).

Definition save_trust (trust : PeerTrust.t) : eng EngineError.t unit :=
  store_step (fun env d s => Store.set_trust env d s trust).

Definition confirm_sas (nick master : string) : eng EngineError.t unit :=
  let! d := get_data in
  let! e := get_mem in
  let '(trust, marked) :=
    PeerTrust.mark_sas_verified (StateData.trust d) (E2eEngine.network e) nick master in
  let! _ := lift (map_err EngineError.Device marked) in
  save_trust trust.

Definition is_key_verified e (data : StateData.t) (nick : string) : bool :=
  PeerTrust.is_key_verified (StateData.trust data) (E2eEngine.network e) nick.

Definition confirm_key (nick master : string) : eng EngineError.t unit :=
  let! d := get_data in
  let! e := get_mem in
  let '(trust, marked) :=
    PeerTrust.mark_key_verified (StateData.trust d) (E2eEngine.network e) nick master in
  let! _ := lift (map_err EngineError.Device marked) in
  save_trust trust.

(** ** Devices that are ready *)

Definition folded e (nick : string) : string := CaseMapping.fold (E2eEngine.casemapping e) nick.

Definition entry_revoked e (entry : PeerEntry.t) (trust : PeerTrust.t) : bool :=
  PeerTrust.is_revoked trust (E2eEngine.network e) (PeerEntry.nick entry)
    (PeerDevice.ed25519 (PeerEntry.device entry))
    (Some (PeerDevice.curve25519 (PeerEntry.device entry))).

Definition entry_ready e s (entry : PeerEntry.t) (trust : PeerTrust.t) : bool :=
  negb (entry_revoked e entry trust)
  && (bool_decide (is_Some (PeerEntry.one_time_key entry))
      || match Store.peer_session s (E2eEngine.network e) (PeerEntry.nick entry)
                 (PeerDevice.did (PeerEntry.device entry)) with
         | Ok (Some _) => true
         | _ => false
         end).

(** [peers.values()]: the order of a [HashMap] is not specified. *)
Definition entries_of e : list PeerEntry.t := snd <$> map_to_list (E2eEngine.peers e).

Definition of_nick e (nick : string) (entry : PeerEntry.t) : bool :=
  bool_decide (folded e (PeerEntry.nick entry) = folded e nick).

Definition is_ready e s (nick : string) : bool :=
  existsb (fun entry =>
    of_nick e nick entry && entry_ready e s entry (StateData.trust (Store.data s)))
    (entries_of e).

(** [sort] and [dedup]. *)
Definition ready_peers e s : list string :=
  merge_sort String.le (remove_dups
    (PeerEntry.nick <$>
      List.filter (fun entry => entry_ready e s entry (StateData.trust (Store.data s)))
        (entries_of e))).

(** The order of two entries by [did]. *)
Definition entry_le (a b : PeerEntry.t) : Prop :=
  String.le (PeerDevice.did (PeerEntry.device a)) (PeerDevice.did (PeerEntry.device b)).

#[global] Instance entry_le_dec a b : Decision (entry_le a b).
Proof. unfold entry_le. apply _. Defined.

Definition pick_devices e s (nick : string) : list PeerEntry.t :=
  let trust := StateData.trust (Store.data s) in
  take (N.to_nat MAX_LIST_DEVICES) (merge_sort entry_le
    (List.filter (fun entry => of_nick e nick entry && entry_ready e s entry trust)
       (entries_of e))).

Definition pick_specific_device e s (nick did : string) : option PeerEntry.t :=
  entry ← E2eEngine.peers e !! did;
  if of_nick e nick entry && entry_ready e s entry (StateData.trust (Store.data s))
  then Some entry else None.

Definition send_status e (key : SendKey.t) : option SendStatus.t :=
  SendBook.status (E2eEngine.book e) key.

(** ** Capability of a peer *)

(** The first entry of the nick, or a new one. *)
Fixpoint put_capability (cm : CaseMapping.t) (nick : string) (capable : bool)
    (l : list (string * bool)) : list (string * bool) :=
  match l with
  | [] => [(nick, capable)]
  | (known, old) :: l =>
      if decide (CaseMapping.fold cm known = CaseMapping.fold cm nick)
      then (known, capable) :: l else (known, old) :: put_capability cm nick capable l
  end.

Definition set_peer_capability {E} (nick : string) (capable : bool) : eng E unit :=
  modify (fun e => E2eEngine.set_capability
    (put_capability (E2eEngine.casemapping e) nick capable (E2eEngine.capability e)) e).

Definition peer_capable e (nick : string) : bool :=
  match List.find (fun '(known, _) => bool_decide (folded e known = folded e nick))
          (E2eEngine.capability e) with
  | Some (_, capable) => capable
  | None => true
  end.

(** ** Drops *)

(** One turn of the loop of [note_drops]. A failed save leaves the mark in
    memory. *)
Definition note_drop {E} (drop : SendDropped.t) : eng E unit :=
  let key := SendDropped.key drop in
  let reason := SendDropped.reason drop in
  let! e := get_mem in
  match E2eEngine.row_ids e !! key with
  | Some row_id =>
      let! _ := attempt (on_store (fun env d s =>
                  Store.set_dropped_row env d s row_id (DropReason.wire_name reason))) in
      modify (fun e =>
        match E2eEngine.dropped_rows e !! row_id with
        | Some _ => e
        | None => E2eEngine.set_dropped_rows (<[row_id := reason]> (E2eEngine.dropped_rows e)) e
        end)
  | None => ret tt
  end ;!
  note_changed (SendKey.target key).

Definition note_drops {E} (drops : list SendDropped.t) : eng E unit := for_each note_drop drops.

Definition fail_send {E} (key : SendKey.t) (reason : DropReason.t)
    : eng E (option SendDropped.t) :=
  let! e := get_mem in
  let '(book, changed) := SendBook.drop_local (E2eEngine.book e) key reason in
  modify (E2eEngine.set_book book) ;!
  if negb changed then ret None else
  let dropped := SendDropped.mk key reason in
  note_drops [dropped] ;! ret (Some dropped).

Definition dropped_reason e (row_id : string) : option DropReason.t :=
  E2eEngine.dropped_rows e !! row_id.

Definition end_session {E} : eng E (list SendDropped.t) :=
  let! e := get_mem in
  let '(queue, _) := OutgoingQueue.end_session (E2eEngine.queue e) in
  let '(book, ended) := SendBook.end_session (E2eEngine.book e) in
  modify (fun e => E2eEngine.set_book book
            (E2eEngine.set_sent ∅ (E2eEngine.set_pending ∅ (E2eEngine.set_queue queue e)))) ;!
  note_drops ended ;! ret ended.

Definition apply_send_dropped {E} (payload : value) : eng E (option SendDropped.t) :=
  let! e := get_mem in
  let '(book, dropped) := SendBook.apply_payload (E2eEngine.book e) payload in
  modify (E2eEngine.set_book book) ;!
  match dropped with
  | Some drop => note_drops [drop] ;! ret (Some drop)
  | None => ret None
  end.

Definition has_queued_text e : bool := negb (bool_decide (E2eEngine.queue e = [])).

(** The pending text and the book forget a late send. *)
Definition settle_one (drop : SendDropped.t) e : E2eEngine.t :=
  let key := SendDropped.key drop in
  E2eEngine.set_book (SendBook.drop_local (E2eEngine.book e) key (SendDropped.reason drop)).1
    (E2eEngine.set_pending (delete key (E2eEngine.pending e)) e).

Definition settle_late {E} (late : list SendDropped.t) : eng E (list SendDropped.t) :=
  modify (fun e => foldl (fun e drop => settle_one drop e) e late) ;!
  note_drops late ;! ret late.

Definition expire_queue {E} : eng E (list SendDropped.t) :=
  let! now := clock_now in
  let! e := get_mem in
  let '(queue, late) :=
    clocked (E2eEngine.queue e, []) (OutgoingQueue.expire (E2eEngine.queue e) now) in
  modify (E2eEngine.set_queue queue) ;! settle_late late.

(** ** A new master of a peer *)

(** The cached devices of a nick, and the pending texts that name one. *)
Definition old_devices e (nick : string) : list string :=
  fst <$> List.filter (fun '(_, entry) => of_nick e nick entry) (map_to_list (E2eEngine.peers e)).

Definition stopped_sends e (nick : string) (old : list string) : list SendKey.t :=
  fst <$> List.filter (fun '(key, pending) =>
    bool_decide (folded e (SendKey.target key) = folded e nick)
    && match PendingText.did pending with Some did => contains old did | None => false end)
    (map_to_list (E2eEngine.pending e)).

(** The pending text of a key, out of the queue too. *)
Definition drop_pending {E} (key : SendKey.t) : eng E unit :=
  modify (fun e =>
    E2eEngine.set_queue (OutgoingQueue.remove (E2eEngine.queue e) key).1
      (E2eEngine.set_pending (delete key (E2eEngine.pending e)) e)).

Definition forget_peer_devices {E} (nick : string) : eng E unit :=
  let! e := get_mem in
  let old := old_devices e nick in
  modify (fun e => E2eEngine.set_peers
    (foldl (fun peers did => delete did peers) (E2eEngine.peers e) old) e) ;!
  for_each (fun key =>
    drop_pending key ;! let! _ := fail_send key DropReason.SendFailed in ret tt)
    (stopped_sends e nick old).

Definition replace_peer_master (nick master : string) : eng EngineError.t unit :=
  let! data := get_data in
  let! e := get_mem in
  let '(trust, replaced) :=
    PeerTrust.replace_master_by_user (StateData.trust data) (E2eEngine.network e) nick master in
  let! _ := lift (map_err EngineError.Device replaced) in
  forget_peer_devices nick ;!
  store_step (fun env d s =>
    Store.remove_peer_sessions env d s (E2eEngine.network e)
      (fun session_nick => bool_decide (folded e session_nick = folded e nick))) ;!
  save_trust trust.

(** Drops every cached device that [trust] revokes. *)
Definition forget_revoked {E} (trust : PeerTrust.t) : eng E unit :=
  modify (fun e =>
    let revoked := fst <$> List.filter (fun '(_, entry) => entry_revoked e entry trust)
                             (map_to_list (E2eEngine.peers e)) in
    foldl (fun e did =>
      E2eEngine.set_revoked_dids ({[did]} ∪ E2eEngine.revoked_dids e)
        (E2eEngine.set_peers (delete did (E2eEngine.peers e)) e)) e revoked).

(** ** The own list *)

Definition own_list (data : StateData.t) : option (SignedList.t * string) :=
  list ← StateData.signed_list data;
  master ← VersionedDeviceCertificate.master_ed25519 <$> StateData.device_certificate data;
  _ ← result_ok (verify_signed_list (SignedList.version list) (SignedList.keys list) master
                   (SignedList.signature list));
  Some (list, master).

Definition sibling_dids e (data : StateData.t) : list (string * string) :=
  match own_list data with
  | None => []
  | Some (list, _) =>
      let revoked := StateData.own_revoked data in
      List.filter (fun '(did, _) => negb (bool_decide (did ∈ E2eEngine.revoked_dids e)))
        (omap (fun key => did ← result_ok (did_from_key_text key); Some (did, key))
           (List.filter (fun key =>
              negb (bool_decide (key = E2eEngine.own_ed25519 e)) && negb (contains revoked key))
              (SignedList.keys list)))
  end.

Definition own_wire e s (identity : account) : result OwnWire.t EngineError.t :=
  let? certificate := ok_or (StateData.device_certificate (Store.data s)) EngineError.NotReady in
  let master_ed25519 := VersionedDeviceCertificate.master_ed25519 certificate in
  let? held := map_err EngineError.Store (Store.master_key s) in
  if match held with
     | Some master => negb (bool_decide (identity_ed25519 master = master_ed25519))
     | None => false
     end
  then Err EngineError.NotReady else
  let? list := ok_or (StateData.signed_list (Store.data s)) EngineError.NotReady in
  if negb (bool_decide (VersionedDeviceCertificate.device_ed25519 certificate =
                        E2eEngine.own_ed25519 e))
  then Err EngineError.NotReady else
  let curve25519 := identity_curve25519 identity in
  let text := device_id_signed_text curve25519 master_ed25519 in
  Ok (OwnWire.mk
        (IdBlock.mk curve25519 (E2eEngine.own_ed25519 e) (sign_text identity text))
        (MasterRef.mk master_ed25519
           (VersionedDeviceCertificate.first_list_version certificate)
           (VersionedDeviceCertificate.signature certificate))
        (SignedList.version list)).

(** The account of this device; a device without one is not ready. *)
Definition own_identity s : result account EngineError.t :=
  let? identity := map_err EngineError.Store (Store.olm_identity s) in
  ok_or identity EngineError.NotReady.

(** ** Copies that wait *)

Definition has_pending_copies e : bool :=
  match E2eEngine.copy_jobs e with [] => false | _ => true end.

(** [while len >= max { remove(0) }]. *)
Definition last_jobs (jobs : list CopyJob.t) : list CopyJob.t :=
  drop (S (length jobs) - N.to_nat md3_pacing.OUTGOING_QUEUE_MAX) jobs.

Definition queue_copies {E} (peer text id : string) (now : Z) : eng E unit :=
  let! data := get_data in
  modify (fun e =>
    let recipients : gset string := list_to_set (sibling_dids e data).*1 in
    if decide (recipients = ∅) then e else
    E2eEngine.set_copy_jobs
      (last_jobs (E2eEngine.copy_jobs e) ++ [CopyJob.mk id peer text now recipients ∅ ∅]) e).

(** ** Texts that went out *)

(** The first of the oldest records. *)
Definition oldest_sent (sent : gmap string SentRecord.t) : option string :=
  fst <$> foldl (fun best '(msgid, r) =>
    match best with
    | Some (_, at_) => if (SentRecord.sent_at r <? at_)%N
                       then Some (msgid, SentRecord.sent_at r) else best
    | None => Some (msgid, SentRecord.sent_at r)
    end) None (map_to_list sent).

(** The [while] loop: a turn removes a record, so the number of the records is
    fuel enough ([trim_sent_bound]). *)
Fixpoint trim_count (fuel : nat) (sent : gmap string SentRecord.t) : gmap string SentRecord.t :=
  match fuel with
  | 0 => sent
  | S fuel =>
      if (md3_pacing.SENT_MAX <? N.of_nat (size sent))%N then
        match oldest_sent sent with
        | Some msgid => trim_count fuel (delete msgid sent)
        | None => sent
        end
      else sent
  end.

Definition trim_records (now : N) (sent : gmap string SentRecord.t) : gmap string SentRecord.t :=
  let kept := filter (fun kv => now - SentRecord.sent_at kv.2 < md3_pacing.SENT_MEMORY)%N sent in
  trim_count (size kept) kept.

Definition trim_sent {E} : eng E unit :=
  let! now := clock_now in
  modify (fun e => E2eEngine.set_sent (trim_records now (E2eEngine.sent e)) e).

Definition remember_sent {E} (msgid nick : string) (dids : list string) (text : string)
    (sends : N) (row_id : string) : eng E unit :=
  let! data := get_data in
  let! now := clock_now in
  modify (fun e =>
    let known : gset string := list_to_set
      (omap (fun key => result_ok (did_from_key_text key))
         (PeerTrust.listed_devices (StateData.trust data) (E2eEngine.network e) nick)) in
    E2eEngine.set_sent
      (<[msgid := SentRecord.mk nick dids known text sends row_id now]> (E2eEngine.sent e)) e) ;!
  trim_sent.
End Engine.
