(* ===== verification/EngineReceive.v ===== *)
(** * The receive path of the engine (crates/cordiale-core/src/e2e_engine.rs)

    A KEYS text, a NACK, a message of a peer and a copy of an own device, from
    the row of the inbox to the history and the state; the acknowledgement and
    the drain of an inbox. *)

From S2P Require Import Prelude.
From S2P Require Import RustStr.
From S2P Require Import Interfaces.
From S2P Require Import Isupport.
From S2P Require Import Wire.
From S2P Require Import Device.
From S2P Require Import Manage.
From S2P Require Import Trust.
From S2P Require Import Peer.
From S2P Require Import Files.
From S2P Require Import History.
From S2P Require Import State.
From S2P Require Import DeviceRoutes.
From S2P Require Import Pacing.
From S2P Require Import Refusal.
From S2P Require Import SendDoor.
From S2P Require Import Effects.
From S2P Require Import Client.
From S2P Require Import EngineTypes.
From S2P Require Import Engine.
From stdpp Require Import options.

#[local] Open Scope eff_scope.

Section Receive.
Context {C : Crypto} {J : Json} {U : UrlLib} {T : StateText} {A : Aead} {O : Olm}.
Context {H : HistoryText} {X : EngineText} {S : OlmSessions}.
Implicit Types (e : E2eEngine.t) (row : InboxRow.t).

(** ** KEYS *)

(** The state of the loop over the devices of an answer. *)
Record keys_loop := {
  loop_trust : PeerTrust.t;
  loop_seen : gset string;
  loop_accepted : list (PeerDevice.t * string);
  loop_changed : bool;
  loop_error : option E2eError.t;
}.

Definition bundle_of (master : MasterBlock.t) (entry : KeysEntry.t) : PeerBundle.t :=
  PeerBundle.mk (MasterBlock.ed25519 master) (MasterList.ver (MasterBlock.list master))
    (MasterList.devices (MasterBlock.list master)) (MasterBlock.sig master)
    (IdBlock.ed25519 (KeysEntry.id entry)) (IdBlock.curve25519 (KeysEntry.id entry))
    (IdBlock.sig (KeysEntry.id entry)).

(** The signature of a device on its one-time key. *)
Definition check_one_time_key (entry : KeysEntry.t) : result unit E2eError.t :=
  let? text := wire (bundle_key_signed_text (OneTimeKey.key (KeysEntry.otk entry))) in
  verify_signature (IdBlock.ed25519 (KeysEntry.id entry)) (OneTimeKey.sig (KeysEntry.otk entry))
    text.

Definition keys_step (network nick : string) (master : MasterBlock.t) (s : keys_loop)
    (entry : KeysEntry.t) : keys_loop :=
  let key := IdBlock.ed25519 (KeysEntry.id entry) in
  if decide (key ∈ loop_seen s) then s else
  let seen := {[key]} ∪ loop_seen s in
  let '(trust, verified) :=
    verify_peer_device (loop_trust s) network nick None (bundle_of master entry) in
  let checked := let? device := verified in
                 let? _ := check_one_time_key entry in Ok device in
  match checked with
  | Ok device =>
      {| loop_trust := trust; loop_seen := seen;
         loop_accepted := loop_accepted s ++
                            [(device, OneTimeKey.key (KeysEntry.otk entry))];
         loop_changed := loop_changed s; loop_error := loop_error s |}
  | Err err =>
      {| loop_trust := trust; loop_seen := seen; loop_accepted := loop_accepted s;
         loop_changed := loop_changed s || bool_decide (err = E2eError.MasterChanged);
         loop_error := Some (default err (loop_error s)) |}
  end.

(** The list of the answer, then its devices. *)
Definition read_devices (trust : PeerTrust.t) (network nick : string) (payload : KeysPayload.t)
    : keys_loop :=
  let master := KeysPayload.master payload in
  let '(trust, applied) :=
    apply_peer_list trust network nick (MasterBlock.ed25519 master)
      (MasterList.ver (MasterBlock.list master)) (MasterList.devices (MasterBlock.list master))
      (MasterBlock.sig master) in
  let error := match applied with Err err => Some err | Ok _ => None end in
  foldl (keys_step network nick master)
    {| loop_trust := trust; loop_seen := ∅; loop_accepted := [];
       loop_changed := bool_decide (error = Some E2eError.MasterChanged);
       loop_error := error |}
    (KeysPayload.devices payload).

(** A device of a KEYS answer in the cache. *)
Definition cache_device (nick : string) e (accepted : PeerDevice.t * string) : E2eEngine.t :=
  let '(device, one_time_key) := accepted in
  let did := PeerDevice.did device in
  E2eEngine.set_peers
    (<[did := PeerEntry.mk nick device (Some one_time_key)]> (E2eEngine.peers e))
    (E2eEngine.set_revoked_dids (E2eEngine.revoked_dids e ∖ {[did]}) e).

Definition accept_keys (nick keys : string) : eng EngineError.t (list string) :=
  let! payload := lift (map_err EngineError.Wire (read_keys keys)) in
  let! data := get_data in
  let! e := get_mem in
  let read := read_devices (StateData.trust data) (E2eEngine.network e) nick payload in
  (if loop_changed read then note_trust_changed nick else ret tt) ;!
  save_trust (loop_trust read) ;!
  forget_revoked (loop_trust read) ;!
  modify (fun e => foldl (cache_device nick) e (loop_accepted read)) ;!
  match PeerDevice.did ∘ fst <$> loop_accepted read, loop_error read with
  | [], Some err => raise (EngineError.Device err)
  | [], None => raise (EngineError.Wire BadDeviceCount)
  | dids, _ => set_peer_capability nick true ;! ret dids
  end.

(** ** Lists in messages *)

Definition apply_list_message (nick : string) (block : MasterBlock.t)
    : eng EngineError.t unit :=
  let! data := get_data in
  let! e := get_mem in
  let '(trust, decision) :=
    apply_peer_list (StateData.trust data) (E2eEngine.network e) nick (MasterBlock.ed25519 block)
      (MasterList.ver (MasterBlock.list block)) (MasterList.devices (MasterBlock.list block))
      (MasterBlock.sig block) in
  match decision with
  | Ok Replace =>
      save_trust trust ;! forget_revoked trust ;!
      modify (fun e =>
        E2eEngine.set_listreq_lv (delete (folded e nick) (E2eEngine.listreq_lv e)) e)
  | Ok _ => ret tt
  | Err err =>
      (if decide (err = E2eError.MasterChanged) then note_trust_changed nick else ret tt) ;!
      raise (EngineError.Device err)
  end.

Definition queue_list_reply {E} (nick did : string) : eng E unit :=
  let! now := clock_now in
  modify (fun e =>
    let answered := filter (fun kv => now - kv.2 < md3_pacing.LISTREQ_INTERVAL)%N
                      (E2eEngine.list_answered e) in
    let key := (folded e nick, did) in
    match answered !! key with
    | Some _ => E2eEngine.set_list_answered answered e
    | None =>
        E2eEngine.set_list_jobs (E2eEngine.list_jobs e ++ [ListJob.mk nick did true])
          (E2eEngine.set_list_answered (<[key := now]> answered) e)
    end).

Definition refresh_stale_list {E} (nick : string) row : eng E unit :=
  let! data := get_data in
  match MessagePayload.parse (InboxRow.verb row) (InboxRow.payload row), own_list data with
  | Ok payload, Some (list, _) =>
      let listed : gset string := list_to_set
        (omap (fun key => result_ok (did_from_key_text key)) (SignedList.keys list)) in
      if existsb (fun entry => negb (bool_decide (entry.1 ∈ listed)))
           (map_to_list (MessagePayload.bodies payload))
      then queue_list_reply nick (InboxRow.from_did row) else ret tt
  | _, _ => ret tt
  end.

(** The versions that were asked for and are not held yet. *)
Definition asked_above (version : N) (asked : gset N) : gset N :=
  filter (fun v => version < v)%N asked.

Definition maybe_list_request {E} (nick did : string) (lv : N) : eng E unit :=
  let! data := get_data in
  let! e := get_mem in
  let version := PeerTrust.list_version (StateData.trust data) (E2eEngine.network e) nick in
  let key := folded e nick in
  let asked := asked_above version (default ∅ (E2eEngine.listreq_lv e !! key)) in
  let put asked e := E2eEngine.set_listreq_lv (<[key := asked]> (E2eEngine.listreq_lv e)) e in
  modify (put asked) ;!
  if (lv <=? version)%N || bool_decide (lv ∈ asked) then ret tt else
  let! now := clock_now in
  let '(limiter, acquired) :=
    IntervalLimiter.try_acquire (E2eEngine.listreq e) nick (E2eEngine.casemapping e) now in
  modify (E2eEngine.set_listreq limiter) ;!
  if negb acquired then ret tt else
  modify (fun e => E2eEngine.set_list_jobs
            (E2eEngine.list_jobs e ++ [ListJob.mk nick did false]) (put ({[lv]} ∪ asked) e)).

(** ** NACK *)

(** The devices of a record that keep their right to a NACK. *)
Definition other_devices (record : SentRecord.t) (nacked : string) : list string :=
  List.filter (fun did => negb (bool_decide (did = nacked))) (SentRecord.dids record).

(** The record without the device of the NACK, and out of the memory when it
    was the only one. *)
Definition take_nacked (reference nacked : string) (record : SentRecord.t) e : E2eEngine.t :=
  let others := other_devices record nacked in
  let left := delete reference (E2eEngine.sent e) in
  E2eEngine.set_sent
    (match others with
     | [] => left
     | _ => <[reference := SentRecord.with_dids others record]> left
     end) e.

(** The re-send of a text to the device of the NACK: the failed session goes,
    and the text waits for keys. *)
Definition queue_again {E} (key : SendKey.t) (record : SentRecord.t) (nacked : string)
    : eng E unit :=
  let fail := let! _ := fail_send key DropReason.SendFailed in ret tt in
  let! e := get_mem in
  let session_nick := match E2eEngine.peers e !! nacked with
                      | Some entry => PeerEntry.nick entry
                      | None => SentRecord.nick record
                      end in
  let! removed := attempt (on_store (fun env d s =>
    Store.remove_peer_session env d s (E2eEngine.network e) session_nick nacked)) in
  match removed with
  | Err _ => fail
  | Ok _ =>
      let local := ((E2eEngine.local_sends e + 1) mod 2 ^ 64)%N in
      modify (E2eEngine.set_local_sends local) ;!
      let queue_key := SendKey.mk (E2eEngine.network e) (SentRecord.nick record)
                         ("q" +:+ N_display local) in
      let! now := clock_now in
      let '(queue, pushed) :=
        clocked (E2eEngine.queue e, false)
          (OutgoingQueue.push (E2eEngine.queue e) queue_key (E2eEngine.casemapping e) now) in
      modify (E2eEngine.set_queue queue) ;!
      if negb pushed then fail else
      modify (fun e =>
        E2eEngine.set_pending
          (<[queue_key := PendingText.mk (SentRecord.text record) (SentRecord.sends record + 1)
                            (SentRecord.row_id record) (Some nacked)]> (E2eEngine.pending e))
          (E2eEngine.set_row_ids
             (<[queue_key := SentRecord.row_id record]> (E2eEngine.row_ids e))
             (E2eEngine.set_book (SendBook.start (E2eEngine.book e) queue_key) e))) ;!
      want_keys (SentRecord.nick record)
  end.

Definition on_nack {E} row : eng E unit :=
  trim_sent ;!
  let! e := get_mem in
  match nack_reference (InboxRow.payload row) with
  | None => ret tt
  | Some reference =>
  match E2eEngine.sent e !! reference with
  | None => ret tt
  | Some record =>
      let nacked := InboxRow.from_did row in
      let key := SendKey.mk (E2eEngine.network e) (SentRecord.nick record) reference in
      if negb (bool_decide (folded e (SentRecord.nick record) = folded e (InboxRow.from row)))
      then ret tt else
      if bool_decide (nacked = WILDCARD)
         || (negb (contains (SentRecord.dids record) nacked)
             && negb (bool_decide (nacked ∈ SentRecord.known_peer_dids record)))
      then
        modify (fun e => E2eEngine.set_sent (delete reference (E2eEngine.sent e)) e) ;!
        let! _ := fail_send key DropReason.Unreadable in ret tt
      else if negb (contains (SentRecord.dids record) nacked) then ret tt else
      modify (take_nacked reference nacked record) ;!
      let fail := let! _ := fail_send key DropReason.SendFailed in ret tt in
      if (md3_pacing.MAX_SENDS <=? SentRecord.sends record)%N then fail else
      let! now := clock_now in
      let '(rekey, acquired) :=
        IntervalLimiter.try_acquire (E2eEngine.rekey e) (SentRecord.nick record)
          (E2eEngine.casemapping e) now in
      modify (E2eEngine.set_rekey rekey) ;!
      if negb acquired then fail else queue_again key record nacked
  end
  end.

(** ** Messages *)

(** The device that a first message shows, and the trust that holds it. *)
Definition certified_device e (data : StateData.t) row (nick : string) (pre : PreKeyPayload.t)
    : option (PeerTrust.t * PeerDevice.t) :=
  let '(trust, verified) :=
    verify_certified_device (StateData.trust data) (E2eEngine.network e) nick
      (CertifiedBundle.mk (MasterRef.ed25519 (PreKeyPayload.master pre))
         (MasterRef.ver (PreKeyPayload.master pre)) (MasterRef.cert (PreKeyPayload.master pre))
         (IdBlock.ed25519 (PreKeyPayload.id pre)) (IdBlock.curve25519 (PreKeyPayload.id pre))
         (IdBlock.sig (PreKeyPayload.id pre))) in
  pair trust <$> result_ok verified.

(** The session of a first message: the stored one when it is the same, else a
    new one of the account. *)
Definition open_first e s row (nick expected_fb body : string) (device : PeerDevice.t)
    (replay : ReplayState.t) (learned : option (PeerEntry.t * PeerTrust.t)) : option Decrypted.t :=
  if negb (curve_ok (PeerDevice.curve25519 device)) then None else
  id ← prekey_session_id body;
  held ← result_ok (Store.peer_session s (E2eEngine.network e) nick (InboxRow.from_did row));
  let same := match held with
              | Some session => bool_decide (session_id session = id)
              | None => false
              end in
  match held, same with
  | Some session, true =>
      '(session, plain) ← session_decrypt session (OlmPreKey body);
      inner ← Inner.parse plain;
      inner ← bound_to inner expected_fb;
      Some (Decrypted.mk inner None session (Some replay) learned)
  | _, _ =>
      identity ← result_ok (Store.olm_identity s);
      identity ← identity;
      '(identity, session, plain) ← inbound_session identity (PeerDevice.curve25519 device) body;
      let '(replay, fresh) := ReplayState.accept_new_session replay (E2eEngine.network e) nick
                                (InboxRow.from_did row) (session_id session) in
      _ ← result_ok fresh;
      inner ← Inner.parse plain;
      inner ← bound_to inner expected_fb;
      Some (Decrypted.mk inner (Some identity) session (Some replay) learned)
  end.

Definition decrypt_first e s row (entry : option PeerEntry.t) (nick body : string)
    (pre : PreKeyPayload.t) : option Decrypted.t :=
  did ← result_ok (did_from_key_text (IdBlock.ed25519 (PreKeyPayload.id pre)));
  if negb (bool_decide (did = InboxRow.from_did row)) then None else
  '(trust, device) ← certified_device e (Store.data s) row nick pre;
  if match entry with
     | Some entry => negb (bool_decide (PeerDevice.curve25519 (PeerEntry.device entry) =
                                        PeerDevice.curve25519 device))
     | None => false
     end
  then None else
  let '(replay, first) :=
    ReplayState.accept_first_message (StateData.replay (Store.data s)) (E2eEngine.network e) nick
      (InboxRow.from_did row) (InboxRow.msgid row) in
  _ ← result_ok first;
  let learned := PeerEntry.mk nick device (entry ≫= PeerEntry.one_time_key) in
  open_first e s row nick (recipient_binding (PeerDevice.ed25519 device) (E2eEngine.own_ed25519 e))
    body device replay (Some (learned, trust)).

Definition decrypt_normal e s row (entry : option PeerEntry.t) (nick body : string)
    (normal : MsgPayload.t) : option Decrypted.t :=
  if match entry with
     | Some entry => negb (bool_decide (PeerDevice.curve25519 (PeerEntry.device entry) =
                                        MsgPayload.ck normal))
     | None => false
     end
  then None else
  session ← result_ok (Store.peer_session s (E2eEngine.network e) nick (InboxRow.from_did row));
  session ← session;
  if negb (message_ok body) then None else
  '(session, plain) ← session_decrypt session (OlmNormal body);
  Some (Decrypted.mk (default Inner.other (Inner.parse plain)) None session None None).

Definition decrypt_row e s row (entry : option PeerEntry.t) (nick : string)
    : option Decrypted.t :=
  payload ← result_ok (MessagePayload.parse (InboxRow.verb row) (InboxRow.payload row));
  body ← MessagePayload.bodies payload !! E2eEngine.own_did e;
  match payload with
  | MessagePayload.PreKey pre => decrypt_first e s row entry nick body pre
  | MessagePayload.Normal normal => decrypt_normal e s row entry nick body normal
  end.

Definition cache_entry (entry : PeerEntry.t) e : E2eEngine.t :=
  let did := PeerDevice.did (PeerEntry.device entry) in
  E2eEngine.set_peers (<[did := entry]> (E2eEngine.peers e))
    (E2eEngine.set_revoked_dids (E2eEngine.revoked_dids e ∖ {[did]}) e).

Definition save_state (nick did : string) (decrypted : Decrypted.t)
    : eng E2eStoreError.t unit :=
  let! e := get_mem in
  match Decrypted.learned decrypted with
  | Some (_, trust) => on_store (fun env d s => Store.set_trust env d s trust)
  | None => ret tt
  end ;!
  on_store (fun env d s =>
    Store.set_inbound env d s (E2eEngine.network e) nick did (Decrypted.session decrypted)
      (Decrypted.identity decrypted) (Decrypted.replay decrypted)) ;!
  match Decrypted.learned decrypted with
  | Some (entry, _) => modify (cache_entry entry)
  | None => ret tt
  end.

(** ** The history *)

Definition append_row (row : E2eMessage.t) : eng E2eStoreError.t unit :=
  on_history E2eEngine.history E2eEngine.set_history (fun o log d h =>
    E2eHistoryStore.append (appends o log) d h row).

Definition add_capture (row_id : string) (capture : E2eCapture.t) : eng E2eStoreError.t bool :=
  on_history E2eEngine.history E2eEngine.set_history (fun o log d h =>
    E2eHistoryStore.add_capture (rewrites o log) d h row_id capture).

(** The payload of a row as it came; none for a copy. *)
Definition row_captures row : list E2eCapture.t :=
  if InboxRow.own row then [] else
  [E2eCapture.mk (inbox_verb_name (InboxRow.verb row))
     (if is_empty (InboxRow.msgid row) then None else Some (InboxRow.msgid row))
     (InboxRow.payload row) In].

Definition is_stored e (conversation row_id : string) : bool :=
  existsb (fun message => bool_decide (E2eMessage.id message = row_id))
    (E2eHistoryStore.messages_of (E2eEngine.history e) conversation).

Definition store_decrypted {E} (nick : string) row (decrypted : Decrypted.t)
    (peer row_id sender_device text : string) (now : Z) : eng E RowOutcome.t :=
  let! e := get_mem in
  let conversation := conversation_id (E2eEngine.network e) peer in
  let! written :=
    if is_stored e conversation row_id then ret (Ok tt) else
    attempt (append_row (E2eMessage.mk row_id conversation sender_device now text true
                           (row_captures row))) in
  match written with
  | Err _ => ret RowOutcome.StoreFailed
  | Ok _ =>
      let! saved := attempt (save_state nick (InboxRow.from_did row) decrypted) in
      match saved with
      | Err _ => ret RowOutcome.StoreFailed
      | Ok _ => note_changed peer ;! ret RowOutcome.Stored
      end
  end.

(** ** Rows *)

(** [u8] addition wraps in a release build. *)
Definition stale_or_refuse {E} (row_id : N) : eng E RowOutcome.t :=
  let! e := get_mem in
  let tries := ((default 0 (E2eEngine.stale_tries e !! row_id) + 1) mod 256)%N in
  modify (fun e => E2eEngine.set_stale_tries (<[row_id := tries]> (E2eEngine.stale_tries e)) e) ;!
  ret (if (tries <? md3_pacing.MAX_SENDS)%N then RowOutcome.StaleList
       else RowOutcome.Undecryptable).

Definition release_stale_try {E} (row_id : N) : eng E unit :=
  modify (fun e => E2eEngine.set_stale_tries
    (alter (fun tries => tries - 1)%N row_id (E2eEngine.stale_tries e)) e).

(** The nick of a sender: the one of its cached device, or the one of the row. *)
Definition sender_nick (entry : option PeerEntry.t) row : string :=
  match entry with Some entry => PeerEntry.nick entry | None => InboxRow.from row end.

(** A sender that no copy is read from. *)
Definition copy_refused e (data : StateData.t) (nick from_did : string) : bool :=
  existsb (fun key => match did_from_key_text key with
                      | Ok did => bool_decide (did = from_did)
                      | Err _ => false
                      end) (StateData.own_revoked data)
  || bool_decide (from_did = E2eEngine.own_did e)
  || bool_decide (from_did ∈ E2eEngine.revoked_dids e)
  || PeerTrust.is_did_revoked (StateData.trust data) (E2eEngine.network e) nick from_did.

(** The id of the history row of a copy. *)
Definition copy_history_id e row (decrypted : Decrypted.t) : string :=
  match Inner.cid (Decrypted.inner decrypted) with
  | Some cid =>
      if valid_peer cid
      then E2eEngine.network e +:+ ":own:" +:+ InboxRow.from_did row +:+ ":" +:+ cid
      else E2eEngine.network e +:+ ":own:" +:+ N_display (InboxRow.id row)
  | None => E2eEngine.network e +:+ ":own:" +:+ N_display (InboxRow.id row)
  end.

(** The state of a message that is no text. *)
Definition keep_session {E} (nick : string) row (decrypted : Decrypted.t)
    : eng E RowOutcome.t :=
  let! saved := attempt (save_state nick (InboxRow.from_did row) decrypted) in
  ret (if is_ok saved then RowOutcome.Ignored else RowOutcome.StoreFailed).

Definition receive_copy {E} row (now : Z) : eng E RowOutcome.t :=
  let! s := get_store in
  let! e := get_mem in
  let data := Store.data s in
  match own_list data with
  | None => ret RowOutcome.Undecryptable
  | Some (list, _) =>
      let entry := E2eEngine.peers e !! InboxRow.from_did row in
      let nick := sender_nick entry row in
      if copy_refused e data nick (InboxRow.from_did row) then ret RowOutcome.Undecryptable else
      if negb (contains (sibling_dids e data).*1 (InboxRow.from_did row))
      then stale_or_refuse (InboxRow.id row) else
      match decrypt_row e s row entry nick with
      | None => ret RowOutcome.Undecryptable
      | Some decrypted =>
          if match Inner.lv (Decrypted.inner decrypted) with
             | Some lv => (SignedList.version list <? lv)%N
             | None => false
             end
          then stale_or_refuse (InboxRow.id row) else
          match Inner.kind (Decrypted.inner decrypted) with
          | InnerKind.Copy peer body =>
              if valid_peer peer
              then store_decrypted nick row decrypted peer (copy_history_id e row decrypted)
                     OWN_DEVICE body now
              else ret RowOutcome.Undecryptable
          | InnerKind.Text _ => ret RowOutcome.Undecryptable
          | _ => keep_session nick row decrypted
          end
      end
  end.

(** A sender whose rows are not read: its device is revoked. *)
Definition sender_revoked e (trust : PeerTrust.t) (entry : option PeerEntry.t)
    (nick from_did : string) : bool :=
  bool_decide (from_did ∈ E2eEngine.revoked_dids e)
  || PeerTrust.is_did_revoked trust (E2eEngine.network e) nick from_did
  || match entry with Some entry => entry_revoked e entry trust | None => false end.

(** What a row that was not read tells: another master is a trust alarm, an
    unknown device needs keys. *)
Definition note_unread {E} row (entry : option PeerEntry.t) (nick : string) : eng E unit :=
  let! data := get_data in
  let! e := get_mem in
  match MessagePayload.parse (InboxRow.verb row) (InboxRow.payload row) with
  | Ok (MessagePayload.PreKey pre) =>
      match PeerTrust.master (StateData.trust data) (E2eEngine.network e) nick with
      | Some master =>
          if decide (master = MasterRef.ed25519 (PreKeyPayload.master pre)) then ret tt
          else note_trust_changed nick
      | None => ret tt
      end
  | _ => ret tt
  end ;!
  match entry with Some _ => ret tt | None => want_keys nick end.

(** What the kind of a message that is no text asks for. *)
Definition list_effect {E} (nick : string) row (kind : InnerKind.t) : eng E RowOutcome.t :=
  match kind with
  | InnerKind.List master =>
      let! applied := attempt (apply_list_message nick master) in
      match applied with
      | Err (EngineError.Store _) =>
          modify (fun e =>
            E2eEngine.set_listreq_lv (delete (folded e nick) (E2eEngine.listreq_lv e)) e) ;!
          ret RowOutcome.StoreFailed
      | _ => ret RowOutcome.Ignored
      end
  | InnerKind.ListReq => queue_list_reply nick (InboxRow.from_did row) ;! ret RowOutcome.Ignored
  | _ => ret RowOutcome.Ignored
  end.

Definition read_message {E} (nick : string) row (decrypted : Decrypted.t) (now : Z)
    : eng E RowOutcome.t :=
  let! e := get_mem in
  match Inner.kind (Decrypted.inner decrypted) with
  | InnerKind.Text body =>
      store_decrypted nick row decrypted nick
        (E2eEngine.network e +:+ ":in:" +:+ N_display (InboxRow.id row))
        (InboxRow.from_did row) body now
  | InnerKind.Copy _ _ => ret RowOutcome.Undecryptable
  | kind =>
      let! kept := keep_session nick row decrypted in
      match kept with
      | RowOutcome.Ignored => list_effect nick row kind
      | other => ret other
      end
  end.

(** The sender holds a newer list than the stored one. A list that could not
    be written ends the row before this. *)
Definition note_list_version {E} (nick : string) row (decrypted : Decrypted.t)
    (outcome : RowOutcome.t) : eng E unit :=
  match outcome, Inner.lv (Decrypted.inner decrypted) with
  | (RowOutcome.Stored | RowOutcome.Ignored), Some lv =>
      maybe_list_request nick (InboxRow.from_did row) lv
  | _, _ => ret tt
  end.

Definition receive_message {E} row (now : Z) : eng E RowOutcome.t :=
  if InboxRow.own row then receive_copy row now else
  let! s := get_store in
  let! e := get_mem in
  let entry := E2eEngine.peers e !! InboxRow.from_did row in
  let nick := sender_nick entry row in
  if sender_revoked e (StateData.trust (Store.data s)) entry nick (InboxRow.from_did row)
  then ret RowOutcome.Undecryptable else
  match decrypt_row e s row entry nick with
  | None => note_unread row entry nick ;! ret RowOutcome.Undecryptable
  | Some decrypted =>
      set_peer_capability nick true ;!
      refresh_stale_list nick row ;!
      let! outcome := read_message nick row decrypted now in
      note_list_version nick row decrypted outcome ;! ret outcome
  end.

Definition handle_row {E} row (now : Z) : eng E RowOutcome.t :=
  let! e := get_mem in
  if decide (InboxRow.id row ∈ E2eEngine.seen e) then ret RowOutcome.Duplicate else
  let! outcome :=
    match InboxRow.verb row with
    | InboxVerb.Keys =>
        let! accepted := attempt (accept_keys (InboxRow.from row) (InboxRow.payload row)) in
        ret match accepted with
            | Ok _ => RowOutcome.KeysRead
            | Err (EngineError.Store _) => RowOutcome.StoreFailed
            | Err _ => RowOutcome.Undecryptable
            end
    | InboxVerb.Nack => on_nack row ;! ret RowOutcome.Ignored
    | InboxVerb.PkMsg | InboxVerb.Msg => receive_message row now
    end in
  (if RowOutcome.acknowledge outcome
   then modify (fun e => E2eEngine.set_seen ({[InboxRow.id row]} ∪ E2eEngine.seen e) e)
   else ret tt) ;!
  ret outcome.

(** ** The inbox *)

(** What a call to the server goes with. *)
Context (client : GrappaClient.t) (token : string) (server_protocol : option N).

(** [chunks(n)]; a chunk takes an element at least, so the number of the
    elements is fuel enough ([chunks_concat]). *)
Fixpoint chunks_fuel {V} (fuel n : nat) (l : list V) : list (list V) :=
  match fuel, l with
  | _, [] | 0, _ => []
  | Datatypes.S fuel, _ => take n l :: chunks_fuel fuel n (drop n l)
  end.

Definition chunks {V} (n : nat) (l : list V) : list (list V) := chunks_fuel (length l) n l.

Definition ack (ids : list N) : eng EngineError.t unit :=
  let! e := get_mem in
  for_each (fun chunk =>
    let! request := lift (map_err EngineError.Wire (InboxAckRequest.new chunk)) in
    with_err EngineError.Route
      (GrappaClient.ack_e2e_inbox client token (E2eEngine.network e) (E2eEngine.own_did e)
         server_protocol request))
    (chunks (N.to_nat INBOX_PAGE_MAX) ids).

Definition handle_event row (now : Z) : eng EngineError.t RowOutcome.t :=
  let! outcome := handle_row row now in
  (if RowOutcome.acknowledge outcome && negb (bool_decide (outcome = RowOutcome.Duplicate))
   then ack [InboxRow.id row] else ret tt) ;!
  ret outcome.

(** The rows of a page up to a copy that waits for the own list, with the
    ids to acknowledge, the outcomes, and whether it stopped there. *)
Fixpoint handle_page (rows : list InboxRow.t) (now : Z)
    : eng EngineError.t (list N * list (N * RowOutcome.t) * bool) :=
  match rows with
  | [] => ret ([], [], false)
  | row :: rows =>
      let! outcome := handle_row row now in
      let acks := if RowOutcome.acknowledge outcome then [InboxRow.id row] else [] in
      if bool_decide (outcome = RowOutcome.StaleList)
      then ret (acks, [(InboxRow.id row, outcome)], true) else
      let! (more, outcomes, stale) := handle_page rows now in
      ret (acks ++ more, (InboxRow.id row, outcome) :: outcomes, stale)
  end.

(** [page.iter().map(id).max()]. *)
Definition last_id (page : list InboxRow.t) : option N :=
  match page with
  | [] => None
  | _ => Some (foldr N.max 0%N (InboxRow.id <$> page))
  end.

(** The loop over the pages: [None] when the fuel ends first. The server sets
    the number of turns ([drain_ends]). *)
Fixpoint drain_pages (fuel : nat) (now : Z) (after : option N)
    (outcomes : list (N * RowOutcome.t))
    : eng EngineError.t (option (list (N * RowOutcome.t))) :=
  match fuel with
  | 0 => ret None
  | Datatypes.S fuel =>
      let! e := get_mem in
      let! page := with_err EngineError.Route
        (GrappaClient.fetch_e2e_inbox client token (E2eEngine.network e) (E2eEngine.own_did e)
           after server_protocol) in
      match last_id page with
      | None => ret (Some outcomes)
      | Some last =>
          let! (acks, more, stale) := handle_page page now in
          let outcomes := outcomes ++ more in
          ack acks ;!
          if stale || (lenN page <? INBOX_PAGE_MAX)%N || bool_decide (after = Some last)
          then ret (Some outcomes) else drain_pages fuel now (Some last) outcomes
      end
  end.

Definition drain (fuel : nat) (now : Z)
    : eng EngineError.t (option (list (N * RowOutcome.t))) :=
  drain_pages fuel now None [].

Definition claim_keys (nick did : string) : eng EngineError.t (list string) :=
  let! e := get_mem in
  let! request := lift (map_err EngineError.Wire (ClaimRequest.new (E2eEngine.own_did e))) in
  let! answer := with_err EngineError.Route
    (GrappaClient.claim_e2e_device_key client token (E2eEngine.network e) did server_protocol
       request) in
  accept_keys nick (ClaimResponse.keys answer).
End Receive.
