(* ===== verification/EngineSend.v ===== *)
(** * The send path of the engine (crates/cordiale-core/src/e2e_engine.rs)

    A text is sealed for each ready device of a peer, planned in requests that
    fit the limits, and sent with its sessions saved first; a text without
    keys waits in the queue; list messages and KEYREQ go through the same
    door. *)

From S2P Require Import Prelude.
From S2P Require Import RustStr.
From S2P Require Import Interfaces.
From S2P Require Import Isupport.
From S2P Require Import Wire.
From S2P Require Import Device.
From S2P Require Import Manage.
From S2P Require Import Trust.
From S2P Require Import Peer.
From S2P Require Import Files.
From S2P Require Import History.
From S2P Require Import State.
From S2P Require Import DeviceRoutes.
From S2P Require Import Pacing.
From S2P Require Import Refusal.
From S2P Require Import SendDoor.
From S2P Require Import Effects.
From S2P Require Import Client.
From S2P Require Import EngineTypes.
From S2P Require Import Engine.
From S2P Require Import EngineReceive.
From stdpp Require Import options.

#[local] Open Scope eff_scope.

Section Send.
Context {C : Crypto} {J : Json} {U : UrlLib} {T : StateText} {A : Aead} {O : Olm}.
Context {H : HistoryText} {X : EngineText} {S : OlmSessions}.
Implicit Types (e : E2eEngine.t).

(** ** Seal *)

(** The session of a device, or a new one with its one-time key. *)
Definition session_for (identity : account) (entry : PeerEntry.t)
    : eng EngineError.t session :=
  let! s := get_store in
  let! e := get_mem in
  let did := PeerDevice.did (PeerEntry.device entry) in
  let! held := lift (map_err EngineError.Store
                       (Store.peer_session s (E2eEngine.network e) (PeerEntry.nick entry) did)) in
  match held with
  | Some session => ret session
  | None =>
      let! one_time := lift (ok_or (PeerEntry.one_time_key entry) EngineError.NotReady) in
      let curve := PeerDevice.curve25519 (PeerEntry.device entry) in
      if negb (curve_ok curve) then raise EngineError.EncryptionFailed else
      if negb (curve_ok one_time) then raise EngineError.EncryptionFailed else
      let! seed := draw in
      lift (ok_or (outbound_session seed identity curve one_time) EngineError.EncryptionFailed)
  end.

Definition seal_one (identity : account) (out : Outgoing.t) (lv : N) (entry : PeerEntry.t)
    : eng EngineError.t Sealed.t :=
  let! session := session_for identity entry in
  let! e := get_mem in
  let fb := if has_received_message session then None
            else Some (recipient_binding (E2eEngine.own_ed25519 e)
                         (PeerDevice.ed25519 (PeerEntry.device entry))) in
  let inner := Outgoing.to_json out lv fb in
  let! seed := draw in
  let! (session, message) :=
    lift (ok_or (session_encrypt seed session inner) EngineError.EncryptionFailed) in
  let '(prekey, body) := match message with
                         | OlmPreKey body => (true, body)
                         | OlmNormal body => (false, body)
                         end in
  ret (Sealed.mk (PeerEntry.nick entry) (PeerDevice.did (PeerEntry.device entry)) prekey body
         session).

Fixpoint seal_all (identity : account) (out : Outgoing.t) (lv : N) (entries : list PeerEntry.t)
    : eng EngineError.t (list Sealed.t) :=
  match entries with
  | [] => ret []
  | entry :: entries =>
      let! sealed := seal_one identity out lv entry in
      let! rest := seal_all identity out lv entries in
      ret (sealed :: rest)
  end.

Definition seal (identity : account) (entries : list PeerEntry.t) (out : Outgoing.t) (lv : N)
    : eng EngineError.t (list Sealed.t) :=
  let! sealed := seal_all identity out lv entries in
  match sealed with [] => raise EngineError.NotReady | _ => ret sealed end.

(** ** Emit *)

Context (client : GrappaClient.t) (token : string).

(** The session of one body, saved before the send; its one-time key is used. *)
Definition save_sealed (sealed : Sealed.t) : eng EngineError.t unit :=
  let! e := get_mem in
  store_step (fun env d s =>
    Store.set_peer_session env d s (E2eEngine.network e) (Sealed.nick sealed) (Sealed.did sealed)
      (Sealed.session sealed)) ;!
  modify (fun e => E2eEngine.set_peers
    (alter (fun entry => PeerEntry.mk (PeerEntry.nick entry) (PeerEntry.device entry) None)
       (Sealed.did sealed) (E2eEngine.peers e)) e).

Definition emit_group (nick : string) (chunk : list Sealed.t) (own : OwnWire.t)
    (priority : E2eSendPriority.t) : eng EngineError.t Emitted.t :=
  let! e := get_mem in
  let '(verb, payload) := chunk_payload chunk own in
  let! request := lift (map_err EngineError.Wire
    (E2eSendRequest.new nick verb (E2eEngine.own_did e) (address_of chunk) payload
       (Some priority) None)) in
  for_each save_sealed chunk ;!
  let! answer := with_err EngineError.Client
    (GrappaClient.send_e2e_message client token (E2eEngine.network e) request) in
  if decide (response answer = Accepted) then
    ret (Emitted.mk (Sealed.did <$> chunk) (answer_msgid answer)
           (E2eCapture.mk (send_verb_name verb) (answer_msgid answer) payload Out))
  else raise (EngineError.Rejected (response answer)).

(** The plan of the requests: the [msg] bodies, then the [pkmsg] bodies. A body
    that does not fit alone fails it. *)
Definition plan_requests (sealed : list Sealed.t) (own : OwnWire.t) (own_did : string)
    (line_budget : option N) : result (list (list Sealed.t)) EngineError.t :=
  let fits chunk := request_fits chunk own own_did line_budget in
  if existsb (fun s => negb (fits [s])) sealed
  then Err (EngineError.Wire PayloadTooLarge) else
  let group prekey := List.filter (fun s => eqb (Sealed.prekey s) prekey) sealed in
  let plan := split_by_limits (group false) own own_did line_budget ++
              split_by_limits (group true) own own_did line_budget in
  if forallb fits plan then Ok plan else Err (EngineError.Wire PayloadTooLarge).

(** The first request decides the result; a later failure leaves its group
    without the message. *)
Fixpoint emit_plan (nick : string) (plan : list (list Sealed.t)) (own : OwnWire.t)
    (priority : E2eSendPriority.t) (emitted : list Emitted.t)
    : eng EngineError.t (list Emitted.t) :=
  match plan with
  | [] => ret emitted
  | chunk :: plan =>
      let! sent := attempt (emit_group nick chunk own priority) in
      match sent, emitted with
      | Ok sent, _ => emit_plan nick plan own priority (emitted ++ [sent])
      | Err err, [] => raise err
      | Err _, _ => emit_plan nick plan own priority emitted
      end
  end.

Definition emit (nick : string) (sealed : list Sealed.t) (own : OwnWire.t)
    (priority : E2eSendPriority.t) : eng EngineError.t (list Emitted.t) :=
  let! e := get_mem in
  let line_budget := (fun base => frame_line_budget base nick) <$>
                     E2eEngine.frame_budget_base e in
  let! plan := lift (plan_requests sealed own (E2eEngine.own_did e) line_budget) in
  emit_plan nick plan own priority [].

(** ** Deliver *)

(** What an accepted request leaves in the book and in the memory. *)
Definition note_emitted {E} (nick text : string) (sends : N) (row_id : string)
    (sent : Emitted.t) : eng E unit :=
  match Emitted.msgid sent with
  | None => ret tt
  | Some msgid =>
      modify (fun e =>
        let key := SendKey.mk (E2eEngine.network e) nick msgid in
        let book := SendBook.start (E2eEngine.book e) key in
        E2eEngine.set_row_ids (<[key := row_id]> (E2eEngine.row_ids e))
          (E2eEngine.set_book (SendBook.apply_response book key Accepted).1 e)) ;!
      remember_sent msgid nick (Emitted.dids sent) text sends row_id
  end.

(** The history row of a send: the one it has, with the new payloads, or a new
    one. *)
Definition write_row (nick text suffix : string) (emitted : list Emitted.t)
    (row_id : option string) (now : Z) : eng EngineError.t string :=
  let! e := get_mem in
  let captures := Emitted.capture <$> emitted in
  match row_id with
  | Some row_id =>
      for_each (fun capture => let! _ := attempt (add_capture row_id capture) in ret tt)
        captures ;!
      ret row_id
  | None =>
      let row_id := E2eEngine.network e +:+ ":out:" +:+ suffix in
      with_err EngineError.Store
        (append_row (E2eMessage.mk row_id (conversation_id (E2eEngine.network e) nick) OWN_DEVICE
                       now text true captures)) ;!
      ret row_id
  end.

Definition deliver (nick text : string) (entries : list PeerEntry.t) (sends : N)
    (row_id : option string) (now : Z) : eng EngineError.t SentText.t :=
  let! s := get_store in
  let! e := get_mem in
  let! identity := lift (own_identity s) in
  let! own := lift (own_wire e s identity) in
  let! sealed := seal identity entries (Outgoing.Text text) (OwnWire.lv own) in
  let! emitted := emit nick sealed own E2eSendPriority.Text in
  let! first := lift (ok_or (head emitted) EngineError.NotReady) in
  let first_msgid := Emitted.msgid first in
  let! suffix := match first_msgid with
                 | Some msgid => ret msgid
                 | None => let! nonce := draw in ret (fresh_local_id nonce)
                 end in
  let! row_id := write_row nick text suffix emitted row_id now in
  for_each (note_emitted nick text sends row_id) emitted ;!
  (if (sends =? 1)%N then queue_copies nick text suffix now else ret tt) ;!
  note_changed nick ;!
  ret (SentText.mk first_msgid (SendKey.mk (E2eEngine.network e) nick <$> first_msgid)).

Definition send_text (nick text : string) (now : Z) : eng EngineError.t SentText.t :=
  if contains_str QUERY_LOCK_LABEL nick then raise (EngineError.Wire BadTarget) else
  let! s := get_store in
  let! e := get_mem in
  match pick_devices e s nick with
  | [] => raise EngineError.NotReady
  | entries => deliver nick text entries 1 None now
  end.

(** ** The queue *)

(** The text in the queue, the book and the rows. *)
Definition start_waiting (key : SendKey.t) (text row_id : string) e : E2eEngine.t :=
  E2eEngine.set_pending (<[key := PendingText.mk text 1 row_id None]> (E2eEngine.pending e))
    (E2eEngine.set_row_ids (<[key := row_id]> (E2eEngine.row_ids e))
       (E2eEngine.set_book (SendBook.start (E2eEngine.book e) key) e)).

(** [{}] of an [i64]. *)
Definition i64_display (z : Z) : string :=
  if (z <? 0)%Z then "-" +:+ N_display (Z.to_N (- z)) else N_display (Z.to_N z).

Definition queue_text (nick text : string) (now : Z) : eng EngineError.t SentText.t :=
  let! s := get_store in
  let! e := get_mem in
  if negb (peer_capable e nick) then raise EngineError.PeerNotCapable else
  let! identity := lift (own_identity s) in
  let! _ := lift (own_wire e s identity) in
  let local := ((E2eEngine.local_sends e + 1) mod 2 ^ 64)%N in
  modify (E2eEngine.set_local_sends local) ;!
  let key := SendKey.mk (E2eEngine.network e) nick
               ("q" +:+ i64_display now +:+ "-" +:+ N_display local) in
  let! time := clock_now in
  let '(queue, pushed) :=
    clocked (E2eEngine.queue e, false)
      (OutgoingQueue.push (E2eEngine.queue e) key (E2eEngine.casemapping e) time) in
  modify (E2eEngine.set_queue queue) ;!
  if negb pushed then raise EngineError.QueueFull else
  let row_id := E2eEngine.network e +:+ ":out:" +:+ SendKey.msgid key in
  let! written := attempt (append_row
    (E2eMessage.mk row_id (conversation_id (E2eEngine.network e) nick) OWN_DEVICE now text true
       [])) in
  match written with
  | Err error =>
      modify (fun e => E2eEngine.set_queue (OutgoingQueue.remove (E2eEngine.queue e) key).1 e) ;!
      raise (EngineError.Store error)
  | Ok _ =>
      modify (start_waiting key text row_id) ;!
      want_keys nick ;!
      note_changed nick ;!
      ret (SentText.mk None (Some key))
  end.

Definition send_or_queue (nick text : string) (now : Z) : eng EngineError.t SentText.t :=
  let! sent := attempt (send_text nick text now) in
  match sent with
  | Err EngineError.NotReady => queue_text nick text now
  | other => lift other
  end.

(** The devices for a waiting text: the one it names, or all of the nick. *)
Definition waiting_devices e (s : Store.t) (pending : PendingText.t) (nick : string)
    : list PeerEntry.t :=
  match PendingText.did pending with
  | Some did => option_list (pick_specific_device e s nick did)
  | None => pick_devices e s nick
  end.

Definition keep_waiting {E} (item : QueuedSend.t) (pending : PendingText.t) : eng E unit :=
  modify (fun e => E2eEngine.set_pending
            (<[QueuedSend.key item := pending]> (E2eEngine.pending e)) e).

(** A refused send of a waiting text: the drop, or the text waits again. *)
Definition after_refusal {E} (item : QueuedSend.t) (pending : PendingText.t)
    (err : EngineError.t) : eng E (list SendDropped.t * list QueuedSend.t) :=
  match err with
  | EngineError.Rejected (Unexpected 429) => keep_waiting item pending ;! ret ([], [item])
  | EngineError.Rejected (Pacing.Failed FailTooLate) =>
      let! drop := fail_send (QueuedSend.key item) DropReason.Late in ret (option_list drop, [])
  | _ =>
      let! drop := fail_send (QueuedSend.key item) DropReason.SendFailed in
      ret (option_list drop, [])
  end.

(** One turn of the loop: the drops and the texts that wait again. *)
Definition flush_one {E} (item : QueuedSend.t) (now : Z)
    : eng E (list SendDropped.t * list QueuedSend.t) :=
  let key := QueuedSend.key item in
  let! e := get_mem in
  match E2eEngine.pending e !! key with
  | None => ret ([], [])
  | Some pending =>
      modify (fun e => E2eEngine.set_pending (delete key (E2eEngine.pending e)) e) ;!
      let! time := clock_now in
      match clocked TooLate (check_send_deadline time (QueuedSend.deadline item)) with
      | TooLate =>
          let! drop := fail_send key DropReason.Late in ret (option_list drop, [])
      | Go =>
          let! s := get_store in
          let! e := get_mem in
          match waiting_devices e s pending (SendKey.target key) with
          | [] => keep_waiting item pending ;! ret ([], [item])
          | entry :: _ as entries =>
              let! sent := attempt (deliver (PeerEntry.nick entry) (PendingText.text pending)
                                      entries (PendingText.sends pending)
                                      (Some (PendingText.row_id pending)) now) in
              match sent with
              | Ok _ =>
                  modify (fun e =>
                    E2eEngine.set_book (SendBook.remove (E2eEngine.book e) key).1 e) ;!
                  ret ([], [])
              | Err err => after_refusal item pending err
              end
          end
      end
  end.

Fixpoint flush_all {E} (items : list QueuedSend.t) (now : Z)
    : eng E (list SendDropped.t * list QueuedSend.t) :=
  match items with
  | [] => ret ([], [])
  | item :: items =>
      let! (drops, retry) := flush_one item now in
      let! (more, again) := flush_all items now in
      ret (drops ++ more, retry ++ again)
  end.

Definition flush_queue {E} (now : Z) : eng E (list SendDropped.t) :=
  let! s := get_store in
  let! e := get_mem in
  if negb (has_queued_text e) then ret [] else
  let ready := folded e <$> ready_peers e s in
  let! time := clock_now in
  let '(queue, _, taken, late) :=
    clocked (E2eEngine.queue e, tt, [], [])
      (OutgoingQueue.take_matching (E2eEngine.queue e) time
         (fun st item => (st, contains ready (folded e (SendKey.target (QueuedSend.key item)))))
         tt) in
  modify (E2eEngine.set_queue queue) ;!
  let! late := settle_late late in
  let! (drops, retry) := flush_all taken now in
  modify (fun e => E2eEngine.set_queue
    (foldl (fun queue item => OutgoingQueue.restore queue item) (E2eEngine.queue e) (rev retry))
    e) ;!
  let! e := get_mem in
  for_each want_keys (OutgoingQueue.targets (E2eEngine.queue e)) ;!
  ret (late ++ drops).

(** The loop over the keys that wait. *)
Fixpoint fail_waiting {E} (keys : list SendKey.t) : eng E (list SendDropped.t) :=
  match keys with
  | [] => ret []
  | key :: keys =>
      drop_pending key ;!
      let! drop := fail_send key DropReason.NoSuchNick in
      let! more := fail_waiting keys in
      ret (option_list drop ++ more)
  end.

(** A 401: the texts of the nick that wait for keys fail. *)
Definition no_such_nick {E} (nick : string) : eng E (list SendDropped.t) :=
  let! e := get_mem in
  let cm := E2eEngine.casemapping e in
  modify (fun e =>
    E2eEngine.set_keys_wanted
      (List.filter (fun wanted => negb (bool_decide (folded e wanted = folded e nick)))
         (E2eEngine.keys_wanted e))
      (E2eEngine.set_rekey (IntervalLimiter.forget (E2eEngine.rekey e) nick cm)
         (E2eEngine.set_keyreq (KeyReqPacer.forget (E2eEngine.keyreq e) nick cm) e))) ;!
  let waiting := List.filter (fun key => bool_decide (folded e (SendKey.target key) =
                                                      folded e nick))
                   (fst <$> map_to_list (E2eEngine.pending e)) in
  fail_waiting waiting.

(** ** KEYREQ and list messages *)

(** [{"v":2}]. *)
Definition keyreq_payload : string :=
  "{" +:+ String "034" "v" +:+ String "034" ":" +:+ N_display PAYLOAD_VERSION +:+ "}".

Definition request_keys (nick : string) : eng EngineError.t unit :=
  let! e := get_mem in
  if negb (peer_capable e nick) then raise EngineError.PeerNotCapable else
  let! time := clock_now in
  let '(keyreq, paced) :=
    KeyReqPacer.try_send (E2eEngine.keyreq e) nick (E2eEngine.casemapping e) time in
  modify (E2eEngine.set_keyreq keyreq) ;!
  let! _ := lift (map_err EngineError.Paced paced) in
  let! request := lift (map_err EngineError.Wire
    (E2eSendRequest.new nick E2eSendVerb.KeyReq (E2eEngine.own_did e) WILDCARD
       keyreq_payload (Some E2eSendPriority.Control) None)) in
  let! answer := with_err EngineError.Client
    (GrappaClient.send_e2e_message client token (E2eEngine.network e) request) in
  if decide (response answer = Accepted) then ret tt
  else raise (EngineError.Rejected (response answer)).

(** The steps of [send_list_job]; any failure is [false] there. *)
Definition list_job_steps (job : ListJob.t) : eng EngineError.t bool :=
  let! s := get_store in
  let! e := get_mem in
  let! entry := lift (ok_or (pick_specific_device e s (ListJob.nick job) (ListJob.did job))
                        EngineError.NotReady) in
  let! identity := lift (own_identity s) in
  let! own := lift (own_wire e s identity) in
  let! out :=
    if ListJob.reply job then
      let! (list, master) := lift (ok_or (own_list (Store.data s)) EngineError.NotReady) in
      ret (Outgoing.List (MasterBlock.mk master
             (MasterList.mk (SignedList.version list) (SignedList.keys list))
             (SignedList.signature list)))
    else ret Outgoing.ListReq in
  let! sealed := seal identity [entry] out (OwnWire.lv own) in
  let! emitted := emit (ListJob.nick job) sealed own E2eSendPriority.Control in
  ret (match emitted with [] => false | _ => true end).

Definition send_list_job {E} (job : ListJob.t) : eng E bool :=
  let! sent := attempt (list_job_steps job) in
  ret (match sent with Ok sent => sent | Err _ => false end).

Fixpoint send_list_jobs {E} (jobs : list ListJob.t) : eng E N :=
  match jobs with
  | [] => ret 0%N
  | job :: jobs =>
      let! sent := send_list_job job in
      (if negb sent && negb (ListJob.reply job)
       then modify (fun e => E2eEngine.set_listreq_lv
              (delete (folded e (ListJob.nick job)) (E2eEngine.listreq_lv e)) e)
       else ret tt) ;!
      let! more := send_list_jobs jobs in
      ret ((if sent : bool then 1 else 0) + more)%N
  end.

Definition send_list_messages {E} : eng E N :=
  let! e := get_mem in
  modify (E2eEngine.set_list_jobs []) ;!
  send_list_jobs (E2eEngine.list_jobs e).
End Send.
