(* ===== verification/EngineCopies.v ===== *)
(** * Copies to the own devices and the files of the engine
    (crates/cordiale-core/src/e2e_engine.rs)

    The reading of the own list, the copies of a sent text for the siblings
    with the claim of their keys, and the opening of the engine of a network
    from its two sealed files. *)

From S2P Require Import Prelude.
From S2P Require Import RustStr.
From S2P Require Import Interfaces.
From S2P Require Import Isupport.
From S2P Require Import Wire.
From S2P Require Import Device.
From S2P Require Import Manage.
From S2P Require Import Trust.
From S2P Require Import Peer.
From S2P Require Import Files.
From S2P Require Import History.
From S2P Require Import State.
From S2P Require Import DeviceRoutes.
From S2P Require Import Pacing.
From S2P Require Import PairingFlow.
From S2P Require Import PairingGrant.
From S2P Require Import Refusal.
From S2P Require Import IdentityRoutes.
From S2P Require Import Account.
From S2P Require Import SelfCopy.
From S2P Require Import SendDoor.
From S2P Require Import Effects.
From S2P Require Import Client.
From S2P Require Import Provision.
From S2P Require Import EngineTypes.
From S2P Require Import Engine.
From stdpp Require Import options.

#[local] Open Scope eff_scope.

Section Copies.
Context {C : Crypto} {J : Json} {U : UrlLib} {T : StateText} {A : Aead} {O : Olm}.
Context {H : HistoryText} {X : EngineText} {S : OlmSessions}.
Context (client : GrappaClient.t) (token : string) (server_protocol : option N).
Implicit Types (e : E2eEngine.t).

(** ** The own list *)

Definition sync_own_list : eng EngineError.t bool :=
  let! data := get_data in
  let! e := get_mem in
  let! (list, master) := lift (ok_or (own_list data) EngineError.NotReady) in
  let! held := with_err EngineError.Route
    (GrappaClient.fetch_e2e_list client token (E2eEngine.network e) server_protocol) in
  if negb (bool_decide (HeldList.master held = master))
  then raise (EngineError.Wire BadKey) else
  let new := HeldList.list held in
  let! _ := lift (map_err EngineError.Device
    (verify_signed_list (SignedList.version new) (SignedList.keys new) master
       (SignedList.signature new))) in
  if (SignedList.version new <=? SignedList.version list)%N
     || negb (contains (SignedList.keys new) (E2eEngine.own_ed25519 e))
  then ret false else
  store_step (fun env d s => Store.set_signed_list env d s new) ;!
  ret true.

(** ** A key of a sibling *)

(** The loop over the claims: a [key_taken] refusal asks again. *)
Fixpoint claim_tries (tries : nat) (network did : string) (request : ClaimRequest.t)
    : eng CopyStep.t ClaimResponse.t :=
  match tries with
  | 0 => raise (CopyStep.Drop CopyFailure.KeyTaken)
  | Datatypes.S tries =>
      let! answer := attempt (GrappaClient.claim_e2e_device_key client token network did
                                server_protocol request) in
      match answer with
      | Ok keys => ret keys
      | Err (E2eRouteError.Refused E2eRefusal.KeyTaken _) =>
          claim_tries tries network did request
      | Err error => raise (copy_step error)
      end
  end.

Definition no_key : CopyStep.t := CopyStep.Drop CopyFailure.NoKey.

(** The entry of the sibling in an answer, against the own list. *)
Definition sibling_entry (data : StateData.t) (sibling_ed25519 keys : string)
    : result KeysEntry.t CopyStep.t :=
  let? (list, master) := ok_or (own_list data) no_key in
  let? payload := map_err (fun _ => no_key) (read_keys keys) in
  let block := KeysPayload.master payload in
  let new := MasterBlock.list block in
  let? _ := map_err (fun _ => no_key)
              (verify_signed_list (MasterList.ver new) (MasterList.devices new)
                 (MasterBlock.ed25519 block) (MasterBlock.sig block)) in
  if negb (bool_decide (MasterBlock.ed25519 block = master)) then Err no_key else
  let listed := contains (MasterList.devices new) sibling_ed25519 in
  if (SignedList.version list <=? MasterList.ver new)%N && negb listed
  then Err (CopyStep.Drop CopyFailure.RemovedDevice) else
  if negb (MasterList.ver new =? SignedList.version list)%N then Err CopyStep.Sync else
  let? entry := ok_or (List.find (fun entry =>
                  bool_decide (IdBlock.ed25519 (KeysEntry.id entry) = sibling_ed25519))
                  (KeysPayload.devices payload)) no_key in
  let id_text := device_id_signed_text (IdBlock.curve25519 (KeysEntry.id entry)) master in
  let? _ := map_err (fun _ => no_key)
              (verify_signature (IdBlock.ed25519 (KeysEntry.id entry))
                 (IdBlock.sig (KeysEntry.id entry)) id_text) in
  let? otk_text := map_err (fun _ => no_key)
                     (bundle_key_signed_text (OneTimeKey.key (KeysEntry.otk entry))) in
  let? _ := map_err (fun _ => no_key)
              (verify_signature (IdBlock.ed25519 (KeysEntry.id entry))
                 (OneTimeKey.sig (KeysEntry.otk entry)) otk_text) in
  Ok entry.

Definition claim_sibling_key (did sibling_ed25519 : string)
    : eng CopyStep.t (string * string) :=
  let! e := get_mem in
  let! request := lift (map_err (fun _ => CopyStep.Drop CopyFailure.Failed)
                          (ClaimRequest.new (E2eEngine.own_did e))) in
  let! answer := claim_tries (N.to_nat md3_pacing.MAX_SENDS) (E2eEngine.network e) did request in
  let! data := get_data in
  let! entry := lift (sibling_entry data sibling_ed25519 (ClaimResponse.keys answer)) in
  ret (IdBlock.curve25519 (KeysEntry.id entry), OneTimeKey.key (KeysEntry.otk entry)).

(** ** One copy *)

Definition copy_failed : CopyStep.t := CopyStep.Drop CopyFailure.Failed.

(** The stored session of a sibling, or a new one with a claimed key. *)
Definition sibling_session (identity : account) (own_nick did sibling_ed25519 : string)
    : eng CopyStep.t session :=
  let! s := get_store in
  let! e := get_mem in
  let! existing := lift (map_err (fun _ => copy_failed)
                           (Store.peer_session s (E2eEngine.network e) own_nick did)) in
  match existing with
  | Some session => ret session
  | None =>
      let! (curve, one_time) := claim_sibling_key did sibling_ed25519 in
      if negb (curve_ok curve && curve_ok one_time) then raise copy_failed else
      let! seed := draw in
      lift (ok_or (outbound_session seed identity curve one_time) copy_failed)
  end.

(** The verb and the payload of a copy. *)
Definition copy_payload (own : OwnWire.t) (did : string) (message : OlmMessage)
    : CopyVerb * string :=
  match message with
  | OlmPreKey body =>
      (CopyPkMsg, MessagePayload.to_json (MessagePayload.PreKey
         (PreKeyPayload.mk PAYLOAD_VERSION (OwnWire.id own) (OwnWire.master own)
            {[did := body]})))
  | OlmNormal body =>
      (CopyMsg, MessagePayload.to_json (MessagePayload.Normal
         (MsgPayload.mk PAYLOAD_VERSION (IdBlock.curve25519 (OwnWire.id own)) {[did := body]})))
  end.

Definition copy_to (own_nick : string) (job : CopyJob.t) (did sibling_ed25519 : string)
    : eng CopyStep.t unit :=
  let! s := get_store in
  let! e := get_mem in
  let! identity := lift (map_err (fun _ => copy_failed) (own_identity s)) in
  let! own := lift (map_err (fun _ => copy_failed) (own_wire e s identity)) in
  let! session := sibling_session identity own_nick did sibling_ed25519 in
  let fb := if has_received_message session then None
            else Some (recipient_binding (E2eEngine.own_ed25519 e) sibling_ed25519) in
  let inner := copy_text (CopyOut.mk "copy" (CopyJob.peer job) (CopyJob.text job)
                            (CopyJob.id job) (OwnWire.lv own) fb) in
  let! seed := draw in
  let! (session, message) := lift (ok_or (session_encrypt seed session inner) copy_failed) in
  let '(verb, payload) := copy_payload own did message in
  let too_large := CopyStep.Drop CopyFailure.TooLarge in
  if negb (inbox_accepts 0 0 (str_len payload)) then raise too_large else
  let! request := lift (map_err (fun _ => too_large)
                          (CopyRequest.new (E2eEngine.own_did e) verb payload)) in
  with_err (fun _ => copy_failed)
    (on_store (fun env d s =>
       Store.set_peer_session env d s (E2eEngine.network e) own_nick did session)) ;!
  let! _ := with_err copy_step
    (GrappaClient.send_e2e_copy client token (E2eEngine.network e) did server_protocol request) in
  ret tt.

(** ** The copies of the waiting texts *)

Definition with_done (did : string) (job : CopyJob.t) : CopyJob.t :=
  CopyJob.mk (CopyJob.id job) (CopyJob.peer job) (CopyJob.text job) (CopyJob.created_at job)
    (CopyJob.recipients job) ({[did]} ∪ CopyJob.finished job) (CopyJob.tries job).

(** [u8] addition wraps in a release build. *)
Definition with_try (did : string) (job : CopyJob.t) : CopyJob.t * N :=
  let tries := ((default 0 (CopyJob.tries job !! did) + 1) mod 256)%N in
  (CopyJob.mk (CopyJob.id job) (CopyJob.peer job) (CopyJob.text job) (CopyJob.created_at job)
     (CopyJob.recipients job) (CopyJob.finished job) (<[did := tries]> (CopyJob.tries job)),
   tries).

Definition report_failed (did : string) (failure : CopyFailure.t) (r : CopyReport.t)
    : CopyReport.t :=
  CopyReport.mk (CopyReport.queued r) (CopyReport.failed r ++ [(did, failure)])
    (CopyReport.needs_sync r).

Definition is_sync (step : CopyStep.t) : bool :=
  match step with CopyStep.Sync => true | _ => false end.

(** What a failed step leaves: the job, the report, and whether the job stays
    open for the sibling. *)
Definition after_step (did : string) (step : CopyStep.t) (job : CopyJob.t) (r : CopyReport.t)
    : CopyJob.t * CopyReport.t * bool :=
  match step with
  | CopyStep.Drop failure => (with_done did job, report_failed did failure r, false)
  | _ =>
      let '(job, tries) := with_try did job in
      let '(job, r, open) :=
        if (md3_pacing.MAX_SENDS <=? tries)%N
        then (with_done did job, report_failed did CopyFailure.Failed r, false)
        else (job, r, true) in
      (job,
       CopyReport.mk (CopyReport.queued r) (CopyReport.failed r)
         (CopyReport.needs_sync r || is_sync step),
       open)
  end.

(** [u64::try_from] of a time. *)
Definition u64_of_i64 (z : Z) : option N := if (z <? 0)%Z then None else Some (Z.to_N z).

Definition job_expired (created_at now : Z) : bool :=
  match u64_of_i64 created_at, u64_of_i64 now with
  | Some created, Some now => is_expired created now
  | _, _ => false
  end.

(** One turn over a sibling: the job, the report, and whether it stays open. *)
Definition copy_sibling {E} (own_nick : string) (now : Z) (expired : bool) (job : CopyJob.t)
    (r : CopyReport.t) (did sibling_ed25519 : string)
    : eng E (CopyJob.t * CopyReport.t * bool) :=
  if bool_decide (did ∈ CopyJob.finished job) || negb (bool_decide (did ∈ CopyJob.recipients job))
  then ret (job, r, false) else
  if CopyReport.needs_sync r then ret (job, r, true) else
  let! step :=
    if expired then ret (Err (CopyStep.Drop CopyFailure.Expired)) else
    attempt (copy_to own_nick job did sibling_ed25519) in
  match step with
  | Ok _ =>
      modify (fun e => E2eEngine.set_copy_tracker
        (DeliveryTracker.queued (CopyJob.id job +:+ "." +:+ did) did (default 0%N (u64_of_i64 now))
           (E2eEngine.copy_tracker e)) e) ;!
      ret (with_done did job,
           CopyReport.mk (CopyReport.queued r ++ [did]) (CopyReport.failed r)
             (CopyReport.needs_sync r),
           false)
  | Err step => ret (after_step did step job r)
  end.

Fixpoint copy_siblings {E} (own_nick : string) (now : Z) (expired : bool)
    (siblings : list (string * string)) (job : CopyJob.t) (r : CopyReport.t)
    : eng E (CopyJob.t * CopyReport.t * bool) :=
  match siblings with
  | [] => ret (job, r, false)
  | (did, ed25519) :: siblings =>
      let! (job, r, open) := copy_sibling own_nick now expired job r did ed25519 in
      let! (job, r, more) := copy_siblings own_nick now expired siblings job r in
      ret (job, r, open || more)
  end.

(** The loop over the jobs: the jobs that stay and the report. *)
Fixpoint copy_jobs_loop {E} (own_nick : string) (now : Z) (jobs : list CopyJob.t)
    (r : CopyReport.t) : eng E (list CopyJob.t * CopyReport.t) :=
  match jobs with
  | [] => ret ([], r)
  | job :: jobs =>
      let! data := get_data in
      let! e := get_mem in
      let expired := job_expired (CopyJob.created_at job) now in
      let! (job, r, open) :=
        copy_siblings own_nick now expired (sibling_dids e data) job r in
      let! (kept, r) := copy_jobs_loop own_nick now jobs r in
      ret ((if open : bool then [job] else []) ++ kept, r)
  end.

Definition send_copies {E} (own_nick : string) (now : Z) : eng E CopyReport.t :=
  let! e := get_mem in
  modify (E2eEngine.set_copy_jobs []) ;!
  let! (kept, report) :=
    copy_jobs_loop own_nick now (E2eEngine.copy_jobs e) (CopyReport.mk [] [] false) in
  modify (E2eEngine.set_copy_jobs kept) ;!
  ret report.
End Copies.

(** ** The files of a network *)

(** What the opening of an engine meets: the data folder, the two stores, and
    the account that [Account::new] would make for a pairing. *)
Record engine_env `{O : Olm} := {
  data_dir : option string;
  (** What the two existence tests of the engine meet. *)
  state_stat : option io_error;
  history_stat : option io_error;
  state_env : Store.open_env;
  history_env : E2eHistoryStore.open_env;
  fresh_account : account;
  account_write : io_env;
}.

Section Open.
Context {C : Crypto} {T : StateText} {A : Aead} {O : Olm} {H : HistoryText}.
Context (env : engine_env).

(** The data folder and the part of the file names. *)
Definition network_files (server account network : string)
    : result (string * string) EngineError.t :=
  let? part := ok_or (storage_part server account network) EngineError.NotReady in
  let? dir := ok_or (data_dir env) (EngineError.Store E2eStoreError.NoDataDir) in
  Ok (dir, part).

Definition state_path (dir part : string) : string := dir +:+ "/e2e_state_" +:+ part +:+ ".bin".
Definition history_path (dir part : string) : string :=
  dir +:+ "/e2e_history_" +:+ part +:+ ".bin".

Definition open_history (d : disk) (dir part : string)
    : result E2eHistoryStore.t EngineError.t :=
  map_err EngineError.Store (E2eHistoryStore.open (history_env env) d (history_path dir part)).

(** The engine with the store that it owns. *)
Definition engine_of (d : disk) (dir part network : string) (state : Store.t)
    : result (Store.t * E2eEngine.t) EngineError.t :=
  let? history := open_history d dir part in
  let? e := E2eEngine.new network state history in
  Ok (state, e).

Definition open_for_network (d : disk) (server account network : string)
    : disk * result (Store.t * E2eEngine.t) EngineError.t :=
  match network_files server account network with
  | Err err => (d, Err err)
  | Ok (dir, part) =>
      if negb (path_exists d (state_path dir part) (state_stat env))
      then (d, Err EngineError.NotReady) else
      match Store.open (state_env env) d (state_path dir part) with
      | (d, Err err) => (d, Err (EngineError.Store err))
      | (d, Ok state) => (d, engine_of d dir part network state)
      end
  end.

Definition open_history_for_network (d : disk) (server account network : string)
    : result (option E2eHistoryStore.t) EngineError.t :=
  let? (dir, part) := network_files server account network in
  if negb (path_exists d (history_path dir part) (history_stat env)) then Ok None else
  rmap Some (open_history d dir part).

Definition open_for_pairing (d : disk) (server account network : string)
    : disk * result (Store.t * E2eEngine.t) EngineError.t :=
  match network_files server account network with
  | Err err => (d, Err err)
  | Ok (dir, part) =>
      match Store.open (state_env env) d (state_path dir part) with
      | (d, Err err) => (d, Err (EngineError.Store err))
      | (d, Ok state) =>
          let '(d, state, joiner) :=
            from_store (account_write env) d state (fresh_account env) in
          match joiner with
          | Err _ => (d, Err EngineError.NotReady)
          | Ok _ => (d, engine_of d dir part network state)
          end
      end
  end.

Definition provision_for_network {J : Json} {U : UrlLib} {K : OlmKeys}
    (client : GrappaClient.t) (token server account network : string)
    (server_protocol : option N) (o : outside) (d : disk)
    : disk * option (list event) * result Provisioned.t ProvisionError.t :=
  match storage_part server account network, data_dir env with
  | Some part, Some dir =>
      provision_device_at client token network server_protocol (state_env env)
        (state_path dir part) o d
  | _, _ => (d, None, Err (ProvisionError.Store E2eStoreError.NoDataDir))
  end.
End Open.
