(* ===== verification/EngineFacts.v ===== *)
(** * Steps of the engine, their events and the plan of a text

    The changes that the operations of the store make for the engine, the
    invariants that the steps of the engine keep, the events that they add to
    the log, and the plan of the requests of a text. *)

From S2P Require Import Prelude.
From S2P Require Import RustStr.
From S2P Require Import Interfaces.
From S2P Require Import Wire.
From S2P Require Import Trust.
From S2P Require Import Peer.
From S2P Require Import Files.
From S2P Require Import History.
From S2P Require Import State.
From S2P Require Import DeviceRoutes.
From S2P Require Import Pacing.
From S2P Require Import PacingFacts.
From S2P Require Import SendFacts.
From S2P Require Import Protocol.
From S2P Require Import Refusal.
From S2P Require Import IdentityRoutes.
From S2P Require Import SendDoor.
From S2P Require Import Effects.
From S2P Require Import Client.
From S2P Require Import EffectsFacts.
From S2P Require Import EngineTypes.
From S2P Require Import Engine.
From S2P Require Import EngineReceive.
From S2P Require Import EngineSend.
From S2P Require Import EngineCopies.
From stdpp Require Import options.

#[local] Open Scope eff_scope.

(** ** Changes of the store *)

Section Commits.
Context {J : Json} {U : UrlLib} {C : Crypto} {T : StateText} {A : Aead} {O : Olm}.

Lemma commits_set_peer_session network nick did x :
  commits (fun env d s => Store.set_peer_session env d s network nick did x)
    (fun s data => StateData.set_sessions
       (<[peer_device_key network nick did := session_pickle (Store.key s) x]>
          (StateData.sessions data)) data).
Proof. intros env d s. by left. Qed.

Lemma commits_set_inbound network nick did x a replay :
  commits (fun env d s => Store.set_inbound env d s network nick did x a replay)
    (fun s data =>
       let data := StateData.set_sessions
         (<[peer_device_key network nick did := session_pickle (Store.key s) x]>
            (StateData.sessions data)) data in
       let data := match account_pickle (Store.key s) <$> a with
                   | Some text => StateData.set_account (Some text) data
                   | None => data
                   end in
       match replay with Some replay => StateData.set_replay replay data | None => data end).
Proof. intros env d s. by left. Qed.

Lemma commits_set_dropped_row row_id reason :
  commits (fun env d s => Store.set_dropped_row env d s row_id reason)
    (fun _ data =>
       match StateData.dropped_rows data !! row_id with
       | Some _ => data
       | None => StateData.set_dropped (<[row_id := reason]> (StateData.dropped_rows data)) data
       end).
Proof.
  intros env d s. unfold Store.set_dropped_row.
  destruct (StateData.dropped_rows (Store.data s) !! row_id) eqn:H; [right|left].
  - done.
  - unfold Store.commit. cbv beta zeta. by rewrite H.
Qed.

Lemma commits_remove_peer_sessions network is_peer :
  commits (fun env d s => Store.remove_peer_sessions env d s network is_peer)
    (fun _ data =>
       match filter (fun id => Store.is_stale network is_peer id = true)
               (fst <$> map_to_list (StateData.sessions data)) with
       | [] => data
       | stale => StateData.set_sessions
           (foldl (fun sessions id => delete id sessions) (StateData.sessions data) stale) data
       end).
Proof.
  intros env d s. unfold Store.remove_peer_sessions.
  destruct (filter _ _) as [|id stale] eqn:H; [right|left].
  - done.
  - unfold Store.commit. cbv beta zeta. by rewrite H.
Qed.
End Commits.

#[export] Hint Resolve commits_set_peer_session commits_set_inbound commits_set_dropped_row
  commits_remove_peer_sessions : effects.

(** ** Calls of the engine *)

Section Calls.
Context {C : Crypto} {J : Json} {U : UrlLib} {M : Type}.
Context (c : GrappaClient.t) (token network_id : string) (sp : option N).
Implicit Types (w : world M) (o : outside).

Ltac one_call :=
  first [apply call_one | apply call_unit_one];
  [intros; by eapply e2e_url_err | by intros; split].

Lemma claim_call did r o w :
  wp o (GrappaClient.claim_e2e_device_key c token network_id did sp r)
    (fun res w' => one_call (asks Post (Body.Claim r)) o w res w') w.
Proof. one_call. Qed.

Lemma copy_call did r o w :
  wp o (GrappaClient.send_e2e_copy c token network_id did sp r)
    (fun res w' => one_call (asks Post (Body.Copy r)) o w res w') w.
Proof. one_call. Qed.

Lemma ack_call did r o w :
  wp o (GrappaClient.ack_e2e_inbox c token network_id did sp r)
    (fun res w' => one_call (asks Post (Body.Ack r)) o w res w') w.
Proof. one_call. Qed.

Lemma inbox_call did after o w :
  wp o (GrappaClient.fetch_e2e_inbox c token network_id did after sp)
    (fun res w' => one_call (asks Get Body.None) o w res w') w.
Proof.
  apply (call_one _ _ (fun url => {| method := Get; address := _; bearer := token;
                                     body := Body.None |}));
    [intros; by eapply e2e_url_err|by intros; split].
Qed.

Lemma message_call r o w :
  wp o (GrappaClient.send_e2e_message c token network_id r)
    (fun res w' => one_request (asks Post (Body.Send r)) o w res w') w.
Proof.
  unfold wp, GrappaClient.send_e2e_message, bind, lift.
  destruct (GrappaClient.extended _ _) as [u|e]; [|by left].
  right. eexists. split; [|done]. by split.
Qed.
End Calls.

(** ** Rules for the steps *)

Section Rules.
Context {J : Json} {U : UrlLib} {M : Type} (o : outside) (I : world M -> Prop).

Lemma keeps_modify {E} (f : M -> M) :
  (forall w, I w -> I (mk_world (files w) (store w) (f (mem w)) (log w))) ->
  keeps o I (modify (E := E) f).
Proof. intros H w Hw. split; [by apply H|done]. Qed.

Lemma keeps_clock {E} :
  (forall w time, I w -> I (record w (Read time))) -> keeps o I (clock_now (E := E)).
Proof. intros H w Hw. split; [by apply H|done]. Qed.

Lemma keeps_for_each {E V} (f : V -> eff M E unit) (l : list V) :
  (forall x, x ∈ l -> keeps o I (f x)) -> keeps o I (for_each f l).
Proof.
  induction l as [|x l IH]; intros H; cbn; [apply keeps_ret|].
  apply keeps_bind; [apply H; by left|]. intros _. apply IH. intros y Hy. apply H. by right.
Qed.

Lemma keeps_one_request {X F} (ok : request -> Prop) (m : eff M F X) :
  (forall w, wp o m (fun r w' => one_request ok o w r w') w) ->
  (forall w q a, I w -> ok q -> I (record w (Sent q a))) -> keeps o I m.
Proof.
  intros Hm HI w Hw. eapply wp_mono; [apply Hm|].
  intros r w' [[-> _]|(q & Hq & ->)]; split; auto.
Qed.
End Rules.

(** Goals [keeps o I m] by the structure of [m], with the loops and the choices
    of the engine. *)
Ltac eng_parts :=
  repeat match goal with
  | |- keeps _ _ (match ?x with _ => _ end) => destruct x
  | |- keeps _ _ (let '_ := ?x in _) => destruct x
  | |- keeps _ _ (for_each _ _) => apply keeps_for_each; intros ? ?
  | _ => progress keeps_parts
  end.

(** ** Events *)

Section Events.
Context {J : Json} {U : UrlLib} {M : Type} (o : outside).
Context (P : list event -> event -> Prop) (l0 : list event).

(** The log is [l0] with events that have [P], each with what comes before. *)
Definition logs (w : world M) : Prop :=
  exists es, log w = l0 ++ es /\
    forall before e rest, es = before ++ e :: rest -> P (l0 ++ before) e.

Lemma logs_snoc d s m (w : world M) e :
  logs w -> P (log w) e -> logs (mk_world d s m (log w ++ [e])).
Proof.
  intros (es & Hes & HP) He. exists (es ++ [e]). split.
  { cbn. by rewrite Hes, app_assoc. }
  intros before e' rest Heq. destruct rest as [|e1 rest _] using rev_ind.
  - apply app_inj_tail in Heq as [-> ->]. by rewrite <-Hes.
  - rewrite app_comm_cons, app_assoc in Heq. apply app_inj_tail in Heq as [-> _]. by eapply HP.
Qed.

Lemma logs_start d s m : logs (mk_world d s m l0).
Proof. exists []. cbn. rewrite app_nil_r. split; [done|]. by intros [] ?. Qed.

Lemma logs_same (w w' : world M) : log w' = log w -> logs w -> logs w'.
Proof. intros Heq (es & Hes & HP). exists es. by rewrite Heq. Qed.

(** An event that is no request. *)
Definition quiet (e : event) : Prop := match e with Sent _ _ => False | _ => True end.

Context (Hquiet : forall before e, quiet e -> P before e).

Lemma logs_modify {E} (f : M -> M) : keeps o logs (modify (E := E) f).
Proof using Type. apply keeps_modify. intros w. by apply logs_same. Qed.

Lemma logs_clock {E} : keeps o logs (clock_now (E := E)).
Proof using Hquiet. apply keeps_clock. intros w t Hw. apply logs_snoc; auto. by apply Hquiet. Qed.

Lemma logs_draw {E} : keeps o logs (draw (E := E)).
Proof using Hquiet. apply keeps_draw. intros w t Hw. apply logs_snoc; auto. by apply Hquiet. Qed.

Lemma logs_on_store {F V} (op : io_env -> disk -> Store.t -> disk * Store.t * result V F) :
  keeps o logs (on_store op).
Proof using Hquiet.
  intros w Hw. unfold wp, on_store. destruct (op _ _ _) as [[d s] [r|e]];
    (split; [apply logs_snoc; auto; by apply Hquiet|done]).
Qed.

Lemma logs_on_history {V} get put op :
  keeps o logs (on_history (A := V) get put op).
Proof using Hquiet.
  intros w Hw. unfold wp, on_history. destruct (op _ _ _ _) as [[d s] [r|e]];
    (split; [apply logs_snoc; auto; by apply Hquiet|done]).
Qed.

Lemma logs_call {X} (ok : request -> Prop) (m : eff M E2eRouteError.t X) :
  (forall w, wp o m (fun r w' => one_call ok o w r w') w) ->
  (forall before q a, ok q -> P before (Sent q a)) -> keeps o logs m.
Proof using Type.
  intros Hm HP. eapply keeps_one_call; [done|]. intros w q a Hw Hq. by apply logs_snoc; auto.
Qed.
End Events.

(** ** Invariants of the memory alone *)

Section Memory.
Context {J : Json} {U : UrlLib} {M : Type} (o : outside) (B : M -> Prop).

Definition in_mem (w : world M) : Prop := B (mem w).

Lemma mem_modify {E} (f : M -> M) : (forall m, B m -> B (f m)) -> keeps o in_mem (modify (E := E) f).
Proof. intros Hf. apply keeps_modify. intros w. apply Hf. Qed.

Lemma mem_clock {E} : keeps o in_mem (clock_now (E := E)).
Proof. by apply keeps_clock. Qed.

Lemma mem_draw {E} : keeps o in_mem (draw (E := E)).
Proof. by apply keeps_draw. Qed.

Lemma mem_on_store {F V} (op : io_env -> disk -> Store.t -> disk * Store.t * result V F) :
  keeps o in_mem (on_store op).
Proof. intros w Hw. unfold wp, on_store. by destruct (op _ _ _) as [[d s] r]. Qed.

Lemma mem_call {V} (ok : request -> Prop) (m : eff M E2eRouteError.t V) :
  (forall w, wp o m (fun r w' => one_call ok o w r w') w) -> keeps o in_mem m.
Proof. intros Hm. by eapply keeps_one_call. Qed.

Lemma mem_request {V F} (ok : request -> Prop) (m : eff M F V) :
  (forall w, wp o m (fun r w' => one_request ok o w r w') w) -> keeps o in_mem m.
Proof. intros Hm. by eapply keeps_one_request. Qed.
End Memory.

(** A part of a value that no turn of a loop changes. *)
Lemma foldl_part {V W P} (part : V -> P) (g : V -> W -> V) l :
  (forall v x, part (g v x) = part v) -> forall v, part (foldl g v l) = part v.
Proof. intros Hg. induction l as [|x l IH]; intros v; [done|]. cbn. by rewrite IH, Hg. Qed.

Section Plan.
Context {J : Json} {X : EngineText} {O : Olm}.
Context (own : OwnWire.t) (own_did : string) (line_budget : option N).
Implicit Types (s : Sealed.t) (chunk : list Sealed.t).

Notation fits chunk := (request_fits chunk own own_did line_budget).
Notation split group := (split_by_limits group own own_did line_budget).

(** A chunk that one request may carry: it has a body and at most four, and
    with more than one it fits. *)
Definition sendable chunk : Prop :=
  chunk <> [] /\ (lenN chunk <= MAX_LIST_DEVICES)%N /\ (1 < length chunk -> fits chunk = true).

Lemma split_loop group chunks current :
  Forall sendable chunks -> (current = [] \/ sendable current) ->
  let '(chunks', current') := foldl (split_step own own_did line_budget) (chunks, current) group in
  Forall sendable chunks' /\ (current' = [] \/ sendable current') /\
  concat chunks' ++ current' = (concat chunks ++ current) ++ group.
Proof.
  revert chunks current. induction group as [|s group IH]; intros chunks current Hc Hcur; cbn [foldl].
  { by rewrite app_nil_r. }
  unfold split_step at 2. cbv zeta. destruct (_ && _) eqn:Hsplit.
  - apply andb_true_iff in Hsplit as [Hlen _]. apply N.ltb_lt in Hlen.
    destruct Hcur as [->|Hcur]; [by cbn in Hlen|].
    specialize (IH (chunks ++ [current]) [s]). destruct (foldl _ _ _) as [cs c].
    destruct IH as (H1 & H2 & H3).
    + apply Forall_app. split; [done|by apply Forall_singleton].
    + right. split_and!; [done|done|]. cbn. lia.
    + split_and!; [done|done|]. rewrite H3, concat_app. cbn.
      by rewrite app_nil_r, <-!app_assoc.
  - specialize (IH chunks (current ++ [s])). destruct (foldl _ _ _) as [cs c].
    destruct IH as (H1 & H2 & H3); [done| |].
    + right. unfold lenN in *. rewrite length_app in Hsplit. cbn in Hsplit.
      split_and!; [by destruct current| |]; unfold lenN; rewrite length_app; cbn.
      * destruct current as [|s0 current]; [done|].
        apply andb_false_iff in Hsplit as [Hl|Hl]; [apply N.ltb_ge in Hl; cbn in Hl; lia|].
        apply orb_false_iff in Hl as [Hl _]. apply N.ltb_ge in Hl. lia.
      * intros Hl. apply andb_false_iff in Hsplit as [Hs|Hs]; [apply N.ltb_ge in Hs; lia|].
        apply orb_false_iff in Hs as [_ Hs]. by apply negb_false_iff in Hs.
    + split_and!; [done|done|]. by rewrite H3, <-!app_assoc.
Qed.

Lemma split_chunks group :
  Forall sendable (split group) /\ concat (split group) = group.
Proof.
  unfold split_by_limits. pose proof (split_loop group [] []) as H.
  destruct (foldl _ _ _) as [chunks current]. destruct H as (H1 & H2 & H3); [done|by left|].
  cbn in H3. destruct current as [|s current].
  - by rewrite app_nil_r in H3.
  - destruct H2 as [?|H2]; [done|]. split; [apply Forall_app; split; [done|by apply Forall_singleton]|].
    rewrite concat_app. cbn. by rewrite app_nil_r.
Qed.

Lemma sendable_fits chunk :
  sendable chunk -> (forall s, s ∈ chunk -> fits [s] = true) -> fits chunk = true.
Proof.
  intros (Hne & _ & Hfit) H. destruct chunk as [|s [|s' chunk]]; [done| |].
  - apply H. by left.
  - apply Hfit. cbn. lia.
Qed.

Lemma filter_prekey_concat (sealed : list Sealed.t) :
  List.filter (fun s => eqb (Sealed.prekey s) false) sealed ++
  List.filter (fun s => eqb (Sealed.prekey s) true) sealed ≡ₚ sealed.
Proof.
  induction sealed as [|s sealed IH]; [done|]. cbn.
  destruct (Sealed.prekey s); cbn; [by rewrite <-Permutation_middle, IH|by rewrite IH].
Qed.

Lemma elem_of_split b s chunk (sealed : list Sealed.t) :
  chunk ∈ split (List.filter (fun s => eqb (Sealed.prekey s) b) sealed) -> s ∈ chunk ->
  Sealed.prekey s = b /\ s ∈ sealed.
Proof.
  intros Hc Hs. destruct (split_chunks (List.filter (fun s => eqb (Sealed.prekey s) b) sealed))
    as [_ Hcat].
  assert (s ∈ concat (split (List.filter (fun s => eqb (Sealed.prekey s) b) sealed))) as Hin.
  { apply list_elem_of_In, in_concat. exists chunk. by rewrite <-!list_elem_of_In. }
  rewrite Hcat in Hin. apply list_elem_of_In, filter_In in Hin as [Hin Hb].
  split; [by apply eqb_prop|by apply list_elem_of_In].
Qed.

(** C16. A plan is made exactly when each body fits alone. It has each sealed body
    once, its requests are not empty, hold at most four bodies of one kind of
    Olm message, and each request fits the bytes, the lines and the frames. *)
Theorem plan_requests_exact (sealed : list Sealed.t) :
  match plan_requests sealed own own_did line_budget with
  | Ok plan =>
      (forall s, s ∈ sealed -> fits [s] = true) /\
      concat plan ≡ₚ sealed /\
      Forall (fun chunk =>
        chunk <> [] /\ (lenN chunk <= MAX_LIST_DEVICES)%N /\ fits chunk = true /\
        exists prekey, Forall (fun s => Sealed.prekey s = prekey) chunk) plan
  | Err e =>
      e = EngineError.Wire PayloadTooLarge /\ exists s, s ∈ sealed /\ fits [s] = false
  end.
Proof.
  unfold plan_requests. destruct (existsb _ _) eqn:He.
  { apply existsb_exists in He as (s & Hin & Hs). split; [done|]. exists s.
    split; [by apply list_elem_of_In|by apply negb_true_iff]. }
  assert (forall s, s ∈ sealed -> fits [s] = true) as Hone.
  { intros s Hs. destruct (fits [s]) eqn:E; [done|].
    rewrite <-not_true_iff_false in He. destruct He. apply existsb_exists. exists s.
    split; [by apply list_elem_of_In|by rewrite E]. }
  set (plan := _ ++ _). assert (forall chunk, chunk ∈ plan ->
    sendable chunk /\ exists b, Forall (fun s => Sealed.prekey s = b /\ s ∈ sealed) chunk) as Hplan.
  { intros chunk [Hin|Hin]%elem_of_app; (split;
      [eapply Forall_forall; [apply split_chunks|exact Hin]|]);
      eexists; apply Forall_forall; intros s Hs; by eapply elem_of_split. }
  assert (forallb (fun chunk => fits chunk) plan = true) as ->.
  { apply forallb_forall. intros chunk Hin%list_elem_of_In.
    destruct (Hplan chunk Hin) as (Hs & b & Hb). apply sendable_fits; [done|].
    intros s Hins. rewrite Forall_forall in Hb. by apply Hone, Hb. }
  split_and!; [done| |].
  - unfold plan. rewrite concat_app, !(proj2 (split_chunks _)). apply filter_prekey_concat.
  - apply Forall_forall. intros chunk Hin. destruct (Hplan chunk Hin) as ((H1 & H2 & H3) & b & Hb).
    split_and!; [done|done| |].
    + apply sendable_fits; [done|]. intros s Hins. rewrite Forall_forall in Hb. by apply Hone, Hb.
    + exists b. eapply Forall_impl; [exact Hb|]. by intros s [].
Qed.

(** What the senders use of a plan. *)
Lemma plan_bodies (sealed : list Sealed.t) plan chunk :
  plan_requests sealed own own_did line_budget = Ok plan -> chunk ∈ plan ->
  chunk <> [] /\ forall s, s ∈ chunk -> s ∈ sealed.
Proof.
  unfold plan_requests. destruct (existsb _ _); [done|]. destruct (forallb _ _); [|done].
  intros [= <-] [Hin|Hin]%elem_of_app; (split;
    [eapply Forall_forall in Hin; [|apply split_chunks]; by destruct Hin|]);
    intros s Hs; by eapply elem_of_split.
Qed.
End Plan.
