(* ===== verification/EngineSendFacts.v ===== *)
(** * What the engine sends

    Every request that the engine sends is one of a few kinds, and each one
    that carries a text carries Olm messages alone, whose sessions were saved
    before it. *)

From S2P Require Import Prelude.
From S2P Require Import RustStr.
From S2P Require Import Interfaces.
From S2P Require Import Isupport.
From S2P Require Import Wire.
From S2P Require Import Device.
From S2P Require Import Manage.
From S2P Require Import Trust.
From S2P Require Import Peer.
From S2P Require Import Files.
From S2P Require Import History.
From S2P Require Import State.
From S2P Require Import DeviceRoutes.
From S2P Require Import Pacing.
From S2P Require Import Refusal.
From S2P Require Import IdentityRoutes.
From S2P Require Import Protocol.
From S2P Require Import SendDoor.
From S2P Require Import Effects.
From S2P Require Import Client.
From S2P Require Import EffectsFacts.
From S2P Require Import EngineTypes.
From S2P Require Import Engine.
From S2P Require Import EngineReceive.
From S2P Require Import EngineSend.
From S2P Require Import EngineCopies.
From S2P Require Import EngineFacts.
From stdpp Require Import options.

#[local] Open Scope eff_scope.

Section SendFacts.
Context {C : Crypto} {J : Json} {U : UrlLib} {T : StateText} {A : Aead} {O : Olm}.
Context {H : HistoryText} {X : EngineText} {S : OlmSessions}.
Context (client : GrappaClient.t) (token : string) (server_protocol : option N) (o : outside).
Implicit Types (w : world E2eEngine.t) (e : E2eEngine.t).

(** ** Olm messages *)

(** The body and the session are what Olm gave for some text. *)
Definition olm_sealed (s : Sealed.t) : Prop :=
  exists seed session inner message,
    session_encrypt seed session inner = Some (Sealed.session s, message) /\
    message = if Sealed.prekey s then OlmPreKey (Sealed.body s) else OlmNormal (Sealed.body s).

(** A save of the state in the log has the session after the message. *)
Definition saved_in (log : list event) (network key nick did : string) (x : session) : Prop :=
  exists d, Saved d ∈ log /\
    StateData.sessions d !! peer_device_key network nick did = Some (session_pickle key x).

Lemma saved_in_more log more network key nick did x :
  saved_in log network key nick did x -> saved_in (log ++ more) network key nick did x.
Proof. intros (d & Hd & Hs). exists d. split; [apply elem_of_app; by left|done]. Qed.

(** What a message request may carry: sealed bodies with [V], each with its
    session saved before. *)
Definition carries (V : Sealed.t -> Prop) (before : list event) (r : E2eSendRequest.t) : Prop :=
  exists chunk own network key,
    chunk <> [] /\
    chunk_payload chunk own = (E2eSendRequest.verb r, E2eSendRequest.payload r) /\
    Forall (fun s => olm_sealed s /\ V s /\
      saved_in before network key (Sealed.nick s) (Sealed.did s) (Sealed.session s)) chunk.

Definition asks_keys (r : E2eSendRequest.t) : Prop :=
  E2eSendRequest.verb r = E2eSendVerb.KeyReq /\ E2eSendRequest.payload r = keyreq_payload.

Definition copy_carries (before : list event) (r : CopyRequest.t) : Prop :=
  exists seed session inner session' message own did network key nick,
    session_encrypt seed session inner = Some (session', message) /\
    copy_payload own did message = (CopyRequest.verb r, CopyRequest.payload r) /\
    saved_in before network key nick did session'.

(** What the engine may send after [before]. *)
Definition allowed (V : Sealed.t -> Prop) (before : list event) (ev : event) : Prop :=
  match ev with
  | Sent q _ =>
      match body q with
      | Body.Send r => carries V before r \/ asks_keys r
      | Body.Copy r => copy_carries before r
      | Body.Claim r => is_did_shape (ClaimRequest.from_did r) = true
      | Body.Ack _ | Body.None => True
      | _ => False
      end
  | _ => True
  end.

(** The device of a claim has the shape of a device id. *)
Lemma claim_new did r :
  ClaimRequest.new did = Ok r -> is_did_shape (ClaimRequest.from_did r) = true.
Proof.
  unfold ClaimRequest.new. destruct (is_did_shape did) eqn:Hdid; cbn; [|done]. by intros [= <-].
Qed.

(** ** Sealing *)

Section Seal.
Context (I : world E2eEngine.t -> Prop).
Context (Hdraw : forall w seed, I w -> I (record w (Drew seed))).

Lemma session_for_keeps identity entry : keeps o I (session_for identity entry).
Proof using Hdraw.
  unfold session_for. eng_parts; try done; by apply keeps_draw.
Qed.

Definition sealed_for (entries : list PeerEntry.t) (s : Sealed.t) : Prop :=
  exists entry, entry ∈ entries /\ Sealed.nick s = PeerEntry.nick entry /\
    Sealed.did s = PeerDevice.did (PeerEntry.device entry).

Lemma seal_one_gives identity out lv entry :
  gives o I (fun s => olm_sealed s /\ sealed_for [entry] s) (seal_one identity out lv entry).
Proof using Hdraw.
  unfold seal_one. eapply gives_bind; [apply session_for_keeps|]. intros session _.
  eapply gives_bind; [apply keeps_get_mem|]. intros e _.
  eapply gives_bind; [by apply keeps_draw|]. intros seed _.
  eapply (gives_bind _ _ (fun p => session_encrypt seed session
            (Outgoing.to_json out lv
               (if has_received_message session then None
                else Some (recipient_binding (E2eEngine.own_ed25519 e)
                       (PeerDevice.ed25519 (PeerEntry.device entry))))) = Some p)).
  { apply gives_lift. intros p. by destruct (session_encrypt _ _ _); intros [= <-]. }
  intros [session' message] Hm. destruct message as [b|b]; apply gives_ret;
    (split; [by repeat eexists|]); exists entry; split_and!; try done; by left.
Qed.

Lemma seal_all_gives identity out lv entries :
  gives o I (Forall (fun s => olm_sealed s /\ sealed_for entries s))
    (seal_all identity out lv entries).
Proof using Hdraw.
  assert (forall all, (forall x, x ∈ entries -> x ∈ all) ->
    gives o I (Forall (fun s => olm_sealed s /\ sealed_for all s))
      (seal_all identity out lv entries)) as Hall; [|by apply Hall].
  induction entries as [|entry entries IH]; intros all Hin; cbn; [by apply gives_ret|].
  eapply gives_bind; [apply seal_one_gives|]. intros s [Hs (x & Hx & Hx')].
  apply list_elem_of_singleton in Hx as ->.
  eapply gives_bind; [apply IH; intros x Hx; apply Hin; by right|]. intros rest Hrest.
  apply gives_ret. constructor; [|done]. split; [done|]. exists entry.
  split; [apply Hin; by left|done].
Qed.

Lemma seal_gives identity entries out lv :
  gives o I (Forall (fun s => olm_sealed s /\ sealed_for entries s))
    (seal identity entries out lv).
Proof using Hdraw.
  unfold seal. eapply gives_bind; [apply seal_all_gives|]. intros [|s l] Hs.
  - apply gives_raise.
  - by apply gives_ret.
Qed.
End Seal.

(** ** Sending *)

Section Emit.
Context (V : Sealed.t -> Prop) (l0 : list event).
Notation I := (logs (allowed V) l0).

Lemma allowed_quiet before ev : quiet ev -> allowed V before ev.
Proof. by destruct ev. Qed.
#[local] Hint Resolve allowed_quiet : core.

Lemma saved_sealed s w :
  I w ->
  wp o (save_sealed s) (fun r w' => I w' /\
    (exists more, log w' = log w ++ more) /\ E2eEngine.network (mem w') = E2eEngine.network (mem w) /\
    Store.key (store w') = Store.key (store w) /\
    (is_ok r = true -> saved_in (log w') (E2eEngine.network (mem w)) (Store.key (store w))
       (Sealed.nick s) (Sealed.did s) (Sealed.session s))) w.
Proof using Type.
  intros Hw. unfold save_sealed, store_step. apply wp_mem.
  eapply wp_seq with (R := fun r w' => I w' /\ moves _ w (match r with Ok _ => Ok tt | Err (EngineError.Store e) => Err e | Err _ => Err E2eStoreError.Corrupted end) w').
  - apply wp_with_err. eapply wp_mono; [apply wp_and;
      [apply (logs_on_store o (allowed V) l0 allowed_quiet); exact Hw|
       apply on_store_moves, commits_set_peer_session]|].
    intros [[]|e] w' [[HI _] Hm]; (split; [done|exact Hm]).
  - intros [] w' [HI (Hmem & Hs & Hlog)].
    unfold wp, modify. cbn. rewrite Hmem, Hs. split_and!; [by eapply logs_same|by eexists|done|done|].
    intros _. rewrite Hlog. eexists. split; [apply elem_of_app; right; by left|].
    rewrite Hs. cbn. by rewrite lookup_insert_eq.
  - intros e w' [HI Hm]. assert (E2eEngine.network (mem w') = E2eEngine.network (mem w) /\
      Store.key (store w') = Store.key (store w) /\ exists more, log w' = log w ++ more)
      as (H1 & H2 & H3); [|by split_and!].
    destruct e; destruct Hm as (-> & -> & ->); (split_and!; [done|done|by eexists]).
Qed.

Lemma save_chunk chunk w :
  I w ->
  wp o (for_each save_sealed chunk) (fun r w' => I w' /\
    (exists more, log w' = log w ++ more) /\
    (is_ok r = true -> Forall (fun s =>
       saved_in (log w') (E2eEngine.network (mem w)) (Store.key (store w))
         (Sealed.nick s) (Sealed.did s) (Sealed.session s)) chunk)) w.
Proof using Type.
  revert w. induction chunk as [|s chunk IH]; intros w Hw; cbn [for_each].
  { apply wp_ret. split_and!; [done|exists []; by rewrite app_nil_r|by constructor]. }
  eapply wp_seq; [by apply saved_sealed| |].
  - intros [] w' (HI & [more Hmore] & Hnet & Hkey & Hs). eapply wp_mono; [by apply IH|].
    cbv beta. rewrite Hnet, Hkey. intros r w'' (HI' & [more' Hmore'] & Hr).
    split_and!; [done|exists (more ++ more'); by rewrite Hmore', Hmore, app_assoc|].
    intros Hok. constructor; [|by apply Hr]. rewrite Hmore'. apply saved_in_more. by apply Hs.
  - intros e w' (HI & Hmore & _). by split_and!.
Qed.

Lemma new_request nick verb own to payload priority r :
  E2eSendRequest.new nick verb own to payload priority None = Ok r ->
  E2eSendRequest.verb r = verb /\ E2eSendRequest.payload r = payload.
Proof.
  unfold E2eSendRequest.new. destruct (negb _); [done|].
  destruct (check_addresses _ _ _); cbn; [|done]. destruct (_ <? _)%N; [done|].
  destruct (_ <? _)%N; [done|]. destruct (check_compact_json _); cbn; [|done]. by intros [= <-].
Qed.

Lemma emit_group_keeps nick chunk own priority :
  chunk <> [] -> Forall (fun s => olm_sealed s /\ V s) chunk ->
  keeps o I (emit_group client token nick chunk own priority).
Proof using Type.
  intros Hne Hchunk. unfold emit_group.
  intros w Hw. apply wp_mem. destruct (chunk_payload chunk own) as [verb payload] eqn:Hp.
  apply wp_read; [by split|]. intros r Hr. apply new_request in Hr as [Hv Hpay].
  eapply wp_seq; [by apply save_chunk| |by intros e w' (? & ? & ?)].
  intros [] w' (HI & _ & Hsaved). specialize (Hsaved eq_refl).
  eapply wp_seq with (R := fun _ w'' => I w'').
  - apply wp_with_err. eapply wp_mono; [apply message_call|].
    intros res w'' [[-> _]|(q & [_ Hq] & ->)]; [done|].
    apply logs_snoc; [done|]. unfold allowed. rewrite Hq. left.
    exists chunk, own, (E2eEngine.network (mem w)), (Store.key (store w)).
    split_and!; [done|by rewrite Hp, Hv, Hpay|].
    rewrite Forall_forall in *. intros s Hs. split_and!; [by apply Hchunk|by apply Hchunk|auto].
  - intros a w'' HI'. by destruct (decide _).
  - done.
Qed.

Lemma emit_plan_keeps nick plan own priority emitted :
  Forall (fun chunk => chunk <> [] /\ Forall (fun s => olm_sealed s /\ V s) chunk) plan ->
  keeps o I (emit_plan client token nick plan own priority emitted).
Proof using Type.
  revert emitted. induction plan as [|chunk plan IH]; intros emitted; cbn; [intros; apply keeps_ret|].
  intros [[Hne Hc] Hplan]%Forall_cons.
  apply keeps_bind; [by apply keeps_attempt, emit_group_keeps|].
  intros [sent|err]; [by apply IH|]. destruct emitted; [apply keeps_raise|by apply IH].
Qed.

Lemma emit_keeps nick sealed own priority :
  Forall (fun s => olm_sealed s /\ V s) sealed ->
  keeps o I (emit client token nick sealed own priority).
Proof using Type.
  intros Hs. unfold emit. apply keeps_bind; [apply keeps_get_mem|]. intros e.
  eapply gives_bind with (V := fun plan => Forall (fun chunk => chunk <> [] /\
    Forall (fun s => olm_sealed s /\ V s) chunk) plan).
  - apply gives_lift. intros plan Hplan. apply Forall_forall. intros chunk Hin.
    destruct (plan_bodies _ _ _ _ _ _ Hplan Hin) as [Hne Hbodies]. split; [done|].
    rewrite Forall_forall in *. auto.
  - intros plan Hplan. by apply emit_plan_keeps.
Qed.
End Emit.

(** ** Steps that send nothing *)

Section Quiet.
Context (V : Sealed.t -> Prop) (l0 : list event).
Notation I := (logs (allowed V) l0).

Ltac silent :=
  eng_parts;
  try first [apply logs_modify
            | apply logs_clock; apply allowed_quiet
            | apply logs_draw; apply allowed_quiet
            | apply logs_on_store; apply allowed_quiet
            | apply logs_on_history; apply allowed_quiet
            | assumption].

Lemma silent_note_drops {E} drops : keeps o I (note_drops (E := E) drops).
Proof using Type. unfold note_drops, note_drop, note_changed. silent. Qed.

Lemma silent_fail_send {E} key reason : keeps o I (fail_send (E := E) key reason).
Proof using Type. unfold fail_send. silent. apply silent_note_drops. Qed.

Lemma silent_settle_late {E} late : keeps o I (settle_late (E := E) late).
Proof using Type. unfold settle_late. silent. apply silent_note_drops. Qed.

Lemma silent_remember {E} msgid nick dids text sends row_id :
  keeps o I (remember_sent (E := E) msgid nick dids text sends row_id).
Proof using Type. unfold remember_sent, trim_sent. silent. Qed.

Lemma silent_note_emitted {E} nick text sends row_id sent :
  keeps o I (note_emitted (E := E) nick text sends row_id sent).
Proof using Type. unfold note_emitted. silent. apply silent_remember. Qed.

Lemma silent_write_row nick text suffix emitted row_id now :
  keeps o I (write_row nick text suffix emitted row_id now).
Proof using Type. unfold write_row, add_capture, append_row. silent. Qed.

Lemma silent_queue_copies {E} peer text id now :
  keeps o I (queue_copies (E := E) peer text id now).
Proof using Type. unfold queue_copies. silent. Qed.

Lemma silent_save_trust trust : keeps o I (save_trust trust).
Proof using Type. unfold save_trust, store_step. silent. Qed.

Lemma silent_accept_keys nick keys : keeps o I (accept_keys nick keys).
Proof using Type.
  unfold accept_keys, note_trust_changed, forget_revoked, set_peer_capability. silent.
  all: apply silent_save_trust.
Qed.

Lemma silent_apply_list nick block : keeps o I (apply_list_message nick block).
Proof using Type.
  unfold apply_list_message, note_trust_changed, forget_revoked. silent. all: apply silent_save_trust.
Qed.

Lemma silent_queue_list_reply {E} nick did : keeps o I (queue_list_reply (E := E) nick did).
Proof using Type. unfold queue_list_reply. silent. Qed.

Lemma silent_on_nack {E} row : keeps o I (on_nack (E := E) row).
Proof using Type.
  unfold on_nack, trim_sent, queue_again, want_keys. silent. all: apply silent_fail_send.
Qed.

Lemma silent_save_state nick did decrypted : keeps o I (save_state nick did decrypted).
Proof using Type. unfold save_state. silent. Qed.

Lemma silent_store_decrypted {E} nick row decrypted peer row_id device text now :
  keeps o I (store_decrypted (E := E) nick row decrypted peer row_id device text now).
Proof using Type.
  unfold store_decrypted, append_row, note_changed. silent. all: apply silent_save_state.
Qed.

Lemma silent_keep_session {E} nick row decrypted :
  keeps o I (keep_session (E := E) nick row decrypted).
Proof using Type. unfold keep_session. silent. apply silent_save_state. Qed.

Lemma silent_receive_copy {E} row now : keeps o I (receive_copy (E := E) row now).
Proof using Type.
  unfold receive_copy, stale_or_refuse. silent.
  all: first [apply silent_store_decrypted | apply silent_keep_session].
Qed.

Lemma silent_read_message {E} nick row decrypted now :
  keeps o I (read_message (E := E) nick row decrypted now).
Proof using Type.
  unfold read_message, list_effect. silent.
  all: first [apply silent_store_decrypted | apply silent_keep_session | apply silent_apply_list
             | apply silent_queue_list_reply].
Qed.

Lemma silent_handle_row {E} row now : keeps o I (handle_row (E := E) row now).
Proof using Type.
  unfold handle_row, receive_message, note_unread, want_keys, note_trust_changed,
    set_peer_capability, refresh_stale_list, note_list_version, maybe_list_request. silent.
  all: first [apply silent_accept_keys | apply silent_on_nack | apply silent_receive_copy
             | apply silent_read_message | apply silent_queue_list_reply].
Qed.

(** ** Calls that only change what the engine holds *)

Lemma silent_drop_pending {E} key : keeps o I (drop_pending (E := E) key).
Proof using Type. unfold drop_pending. silent. Qed.

Lemma silent_expire {E} : keeps o I (expire_queue (E := E)).
Proof using Type. unfold expire_queue. silent. all: apply silent_settle_late. Qed.

Lemma silent_end {E} : keeps o I (end_session (E := E)).
Proof using Type. unfold end_session. silent. all: apply silent_note_drops. Qed.

Lemma silent_dropped {E} payload : keeps o I (apply_send_dropped (E := E) payload).
Proof using Type. unfold apply_send_dropped. silent. all: apply silent_note_drops. Qed.

Lemma silent_no_such_nick {E} nick : keeps o I (no_such_nick (E := E) nick).
Proof using Type.
  assert (forall keys, keeps o I (fail_waiting (E := E) keys)) as Hall.
  { induction keys as [|key keys IH]; cbn [fail_waiting]; silent.
    all: first [apply silent_drop_pending | apply silent_fail_send]. }
  unfold no_such_nick. silent. apply Hall.
Qed.

Lemma silent_replace_master nick master : keeps o I (replace_peer_master nick master).
Proof using Type.
  unfold replace_peer_master, forget_peer_devices, store_step. silent.
  all: first [apply silent_drop_pending | apply silent_fail_send | apply silent_save_trust].
Qed.

Lemma silent_confirm_sas nick master : keeps o I (confirm_sas nick master).
Proof using Type. unfold confirm_sas. silent. all: apply silent_save_trust. Qed.

Lemma silent_confirm_key nick master : keeps o I (confirm_key nick master).
Proof using Type. unfold confirm_key. silent. all: apply silent_save_trust. Qed.

Lemma silent_release {E} id : keeps o I (release_stale_try (E := E) id).
Proof using Type. unfold release_stale_try. silent. Qed.

(** ** The drivers *)

Tactic Notation "calls" uconstr(L) :=
  eapply logs_call; [intros ?; apply L|
    let Hq := fresh in intros ? ? ? [_ Hq]; unfold allowed; by rewrite Hq].

Lemma ack_keeps ids : keeps o I (ack client token server_protocol ids).
Proof using Type.
  unfold ack. silent. calls ack_call.
Qed.

Lemma handle_page_keeps rows now : keeps o I (handle_page rows now).
Proof using Type.
  induction rows as [|row rows IH]; cbn [handle_page]; [apply keeps_ret|]. silent.
  all: apply silent_handle_row.
Qed.

Lemma drain_keeps fuel now : keeps o I (drain client token server_protocol fuel now).
Proof using Type.
  unfold drain. generalize (@None N) as after. generalize (@nil (N * RowOutcome.t)) as outs.
  induction fuel as [|fuel IH]; intros outs after; cbn [drain_pages]; [apply keeps_ret|].
  apply keeps_bind; [apply keeps_get_mem|]. intros e. apply keeps_bind.
  { apply keeps_with_err. calls inbox_call. }
  intros page. destruct (last_id page); [|apply keeps_ret].
  apply keeps_bind; [apply handle_page_keeps|]. intros [[acks more] stale].
  apply keeps_bind; [apply ack_keeps|]. intros _. destruct (_ || _); [apply keeps_ret|apply IH].
Qed.

Lemma handle_event_keeps row now : keeps o I (handle_event client token server_protocol row now).
Proof using Type.
  unfold handle_event. silent. all: first [apply silent_handle_row | apply ack_keeps].
Qed.

Lemma claim_keys_keeps nick did : keeps o I (claim_keys client token server_protocol nick did).
Proof using Type.
  unfold claim_keys. apply keeps_bind; [apply keeps_get_mem|]. intros e.
  eapply gives_bind; [apply gives_lift; intros r Hr%map_err_ok; exact (claim_new _ _ Hr)|].
  intros request Hdid. silent; [|apply silent_accept_keys].
  eapply logs_call; [intros ?; apply claim_call|]. intros ? ? ? [_ Hq]. unfold allowed. by rewrite Hq.
Qed.

Lemma sync_keeps : keeps o I (sync_own_list client token server_protocol).
Proof using Type.
  unfold sync_own_list, store_step. silent. calls fetch_list_call.
Qed.

Lemma request_keys_keeps nick : keeps o I (request_keys client token nick).
Proof using Type.
  unfold request_keys. intros w Hw. apply wp_mem.
  destruct (negb _); [by apply wp_raise|].
  eapply wp_seq; [by apply logs_clock; [apply allowed_quiet|exact Hw]| |naive_solver].
  intros time w1 [Hw1 _]. destruct (KeyReqPacer.try_send _ _ _ _) as [keyreq paced].
  eapply wp_seq; [by apply logs_modify; exact Hw1| |naive_solver].
  intros [] w2 [Hw2 _]. apply wp_read; [done|]. intros [] _.
  apply wp_read; [done|]. intros r Hr. apply new_request in Hr as [Hv Hp].
  eapply wp_seq with (R := fun _ w' => I w').
  - apply wp_with_err. eapply wp_mono; [apply message_call|].
    intros res w' [[-> _]|(q & [_ Hq] & ->)]; [done|].
    apply logs_snoc; [done|]. unfold allowed. rewrite Hq. by right.
  - intros a w' Hw'. by destruct (decide _).
  - done.
Qed.
End Quiet.

(** ** Texts *)

Section Texts.
Context (V : Sealed.t -> Prop) (l0 : list event).
Notation I := (logs (allowed V) l0).

Ltac silent :=
  eng_parts;
  try first [apply logs_modify
            | apply logs_clock; apply allowed_quiet
            | apply logs_draw; apply allowed_quiet
            | apply logs_on_store; apply allowed_quiet
            | apply logs_on_history; apply allowed_quiet
            | assumption].

Lemma drew_logs w seed : I w -> I (record w (Drew seed)).
Proof using Type. intros Hw. by apply logs_snoc. Qed.

Lemma deliver_keeps nick text entries sends row_id now :
  (forall s, sealed_for entries s -> V s) ->
  keeps o I (deliver client token nick text entries sends row_id now).
Proof using Type.
  intros HV. unfold deliver.
  apply keeps_bind; [apply keeps_get_store|]. intros s.
  apply keeps_bind; [apply keeps_get_mem|]. intros e.
  apply keeps_bind; [apply keeps_lift|]. intros identity.
  apply keeps_bind; [apply keeps_lift|]. intros own.
  eapply gives_bind; [apply seal_gives; apply drew_logs|]. intros sealed Hs.
  apply keeps_bind.
  { apply emit_keeps. eapply Forall_impl; [exact Hs|]. intros x [? ?]. auto. }
  intros emitted. unfold note_changed. silent.
  all: first [apply silent_write_row | apply silent_note_emitted | apply silent_queue_copies].
Qed.

Lemma send_text_keeps nick text now :
  (forall w s, I w -> sealed_for (pick_devices (mem w) (store w) nick) s -> V s) ->
  keeps o I (send_text client token nick text now).
Proof using Type.
  intros HV. unfold send_text. destruct (contains_str _ _); [apply keeps_raise|].
  intros w Hw. apply wp_store, wp_mem. specialize (HV w).
  destruct (pick_devices _ _ _) as [|entry entries]; [by apply wp_raise|].
  apply deliver_keeps; auto.
Qed.

Context (Hany : forall s, V s).

Lemma queue_text_keeps nick text now : keeps o I (queue_text nick text now).
Proof using Type. unfold queue_text, append_row, want_keys, note_changed. silent. Qed.

Lemma send_or_queue_keeps nick text now :
  keeps o I (send_or_queue client token nick text now).
Proof using Hany.
  unfold send_or_queue. apply keeps_bind.
  { apply keeps_attempt, send_text_keeps. auto. }
  intros [sent|[]]; try apply keeps_lift. apply queue_text_keeps.
Qed.

Lemma flush_one_keeps {E} item now : keeps o I (flush_one (E := E) client token item now).
Proof using Hany.
  unfold flush_one, after_refusal, keep_waiting. silent.
  all: first [apply silent_fail_send | apply deliver_keeps; auto].
Qed.

Lemma flush_queue_keeps {E} now : keeps o I (flush_queue (E := E) client token now).
Proof using Hany.
  assert (forall items, keeps o I (flush_all (E := E) client token items now)) as Hall.
  { induction items as [|item items IH]; cbn [flush_all]; [apply keeps_ret|]. silent.
    apply flush_one_keeps. }
  unfold flush_queue, want_keys. silent. all: first [apply silent_settle_late | apply Hall].
Qed.

Lemma list_messages_keeps {E} : keeps o I (send_list_messages (E := E) client token).
Proof using Hany.
  assert (forall job, keeps o I (send_list_job (E := E) client token job)) as Hjob.
  { intros job. unfold send_list_job. apply keeps_bind; [apply keeps_attempt|intros ?; apply keeps_ret].
    unfold list_job_steps. apply keeps_bind; [apply keeps_get_store|]. intros s.
    apply keeps_bind; [apply keeps_get_mem|]. intros e.
    apply keeps_bind; [apply keeps_lift|]. intros entry.
    apply keeps_bind; [apply keeps_lift|]. intros identity.
    apply keeps_bind; [apply keeps_lift|]. intros own.
    apply keeps_bind; [silent|]. intros out.
    eapply gives_bind; [apply seal_gives; apply drew_logs|]. intros sealed Hs.
    apply keeps_bind; [|intros ?; apply keeps_ret].
    apply emit_keeps. eapply Forall_impl; [exact Hs|]. intros x [? ?]. auto. }
  unfold send_list_messages. apply keeps_bind; [apply keeps_get_mem|]. intros e.
  apply keeps_bind; [apply logs_modify|]. intros _.
  generalize (E2eEngine.list_jobs e) as jobs.
  induction jobs as [|job jobs IH]; cbn [send_list_jobs]; [apply keeps_ret|]. silent. apply Hjob.
Qed.

(** ** Copies *)

Lemma claim_tries_keeps tries network did request :
  is_did_shape (ClaimRequest.from_did request) = true ->
  keeps o I (claim_tries client token server_protocol tries network did request).
Proof using Type.
  intros Hdid. induction tries as [|tries IH]; cbn [claim_tries]; [apply keeps_raise|].
  apply keeps_bind.
  { apply keeps_attempt. eapply logs_call; [intros ?; apply claim_call|].
    intros ? ? ? [_ Hq]. unfold allowed. by rewrite Hq. }
  intros [keys|[]]; try apply keeps_ret; try apply keeps_raise.
  destruct refusal; first [exact IH | apply keeps_raise].
Qed.

Lemma sibling_session_keeps identity own_nick did key :
  keeps o I (sibling_session client token server_protocol identity own_nick did key).
Proof using Type.
  unfold sibling_session. silent. unfold claim_sibling_key.
  apply keeps_bind; [apply keeps_get_mem|]. intros e.
  eapply gives_bind; [apply gives_lift; intros r Hr%map_err_ok; exact (claim_new _ _ Hr)|].
  intros request Hdid. silent. by apply claim_tries_keeps.
Qed.

Lemma copy_to_keeps own_nick job did key :
  keeps o I (copy_to client token server_protocol own_nick job did key).
Proof using Type.
  unfold copy_to. apply keeps_bind; [apply keeps_get_store|]. intros s.
  apply keeps_bind; [apply keeps_get_mem|]. intros e.
  apply keeps_bind; [apply keeps_lift|]. intros identity.
  apply keeps_bind; [apply keeps_lift|]. intros own.
  apply keeps_bind; [apply sibling_session_keeps|]. intros session.
  apply keeps_bind; [apply logs_draw, allowed_quiet|]. intros seed.
  set (inner := copy_text _).
  intros w Hw. apply wp_need; [done|]. intros [session' message] Hmsg.
  destruct (copy_payload own did message) as [verb payload] eqn:Hp.
  destruct (negb _); [by apply wp_raise|]. apply wp_read; [done|]. intros r Hr.
  assert (CopyRequest.verb r = verb /\ CopyRequest.payload r = payload) as [Hv Hpay].
  { unfold CopyRequest.new in Hr. destruct (negb _); [done|]. destruct (_ <? _)%N; [done|].
    destruct (check_compact_json _); cbn in Hr; [|done]. by injection Hr as <-. }
  eapply wp_seq with (R := fun r w' => I w' /\ moves _ w (match r with Ok _ => Ok tt | Err _ => Err E2eStoreError.Corrupted end) w').
  - apply wp_with_err. eapply wp_mono; [apply wp_and;
      [apply (logs_on_store o (allowed V) l0 (allowed_quiet V)); exact Hw|
       apply on_store_moves, commits_set_peer_session]|].
    intros [[]|err] w' [[HI _] Hm]; (split; [done|exact Hm]).
  - intros [] w' [HI (Hmem & Hs & Hlog)].
    eapply wp_seq with (R := fun _ w'' => I w''); [|by intros|done].
    apply wp_with_err. eapply wp_mono; [apply copy_call|].
    intros res w'' [[-> _]|(q & [_ Hq] & -> & _)]; [done|].
    apply logs_snoc; [done|]. unfold allowed. rewrite Hq.
    exists seed, session, inner, session', message, own, did, (E2eEngine.network e),
      (Store.key (store w)), own_nick.
    split_and!; [done|by rewrite Hp, Hv, Hpay|]. rewrite Hlog. eexists.
    split; [apply elem_of_app; right; by left|]. rewrite Hs. cbn. by rewrite lookup_insert_eq.
  - intros err w' [HI _]. by split.
Qed.

Lemma send_copies_keeps {E} own_nick now :
  keeps o I (send_copies (E := E) client token server_protocol own_nick now).
Proof using Type.
  assert (forall expired siblings job r, keeps o I (copy_siblings (E := E) client token
    server_protocol own_nick now expired siblings job r)) as Hsib.
  { intros expired siblings. induction siblings as [|[did key] siblings IH]; intros job r;
      cbn [copy_siblings]; [apply keeps_ret|]. unfold copy_sibling. silent.
    all: apply copy_to_keeps || apply IH. }
  assert (forall jobs r, keeps o I (copy_jobs_loop (E := E) client token
    server_protocol own_nick now jobs r)) as Hjobs.
  { intros jobs. induction jobs as [|job jobs IH]; intros r; cbn [copy_jobs_loop]; [apply keeps_ret|].
    apply keeps_bind; [apply keeps_get_data|]. intros data.
    apply keeps_bind; [apply keeps_get_mem|]. intros e.
    apply keeps_bind; [apply Hsib|]. intros [[job' r'] open].
    apply keeps_bind; [apply IH|]. intros [kept r'']. apply keeps_ret. }
  unfold send_copies. silent. apply Hjobs.
Qed.
End Texts.

(** ** All the drivers *)

(** The calls of the engine: those that reach the server, and those that
    change only what it holds. *)
Inductive engine_op :=
| SendText (nick text : string) (now : Z)
| SendOrQueue (nick text : string) (now : Z)
| FlushQueue (now : Z)
| SendLists
| RequestKeys (nick : string)
| SendCopies (own_nick : string) (now : Z)
| HandleEvent (row : InboxRow.t) (now : Z)
| Drain (fuel : nat) (now : Z)
| ClaimKeys (nick did : string)
| SyncList
| ExpireQueue
| EndSession
| DroppedFrame (payload : value)
| NoSuchNick (nick : string)
| ReplaceMaster (nick master : string)
| ConfirmSas (nick master : string)
| ConfirmKey (nick master : string)
| ReleaseStale (id : N).

Definition engine_step (op : engine_op) : eng EngineError.t unit :=
  match op with
  | SendText nick text now => let! _ := send_text client token nick text now in ret tt
  | SendOrQueue nick text now => let! _ := send_or_queue client token nick text now in ret tt
  | FlushQueue now => let! _ := flush_queue client token now in ret tt
  | SendLists => let! _ := send_list_messages client token in ret tt
  | RequestKeys nick => request_keys client token nick
  | SendCopies own_nick now =>
      let! _ := send_copies client token server_protocol own_nick now in ret tt
  | HandleEvent row now => let! _ := handle_event client token server_protocol row now in ret tt
  | Drain fuel now => let! _ := drain client token server_protocol fuel now in ret tt
  | ClaimKeys nick did => let! _ := claim_keys client token server_protocol nick did in ret tt
  | SyncList => let! _ := sync_own_list client token server_protocol in ret tt
  | ExpireQueue => let! _ := expire_queue in ret tt
  | EndSession => let! _ := end_session in ret tt
  | DroppedFrame payload => let! _ := apply_send_dropped payload in ret tt
  | NoSuchNick nick => let! _ := no_such_nick nick in ret tt
  | ReplaceMaster nick master => replace_peer_master nick master
  | ConfirmSas nick master => confirm_sas nick master
  | ConfirmKey nick master => confirm_key nick master
  | ReleaseStale id => release_stale_try id
  end.

(** Calls in any order; a failed one does not stop the next. *)
Definition engine_run (ops : list engine_op) : eng EngineError.t unit :=
  for_each (fun op => let! _ := attempt (engine_step op) in ret tt) ops.

Lemma engine_run_keeps l0 ops : keeps o (logs (allowed (fun _ => True)) l0) (engine_run ops).
Proof using Type.
  unfold engine_run. apply keeps_for_each. intros op _.
  apply keeps_bind; [apply keeps_attempt|intros ?; apply keeps_ret].
  destruct op; cbn [engine_step]; try (apply keeps_bind; [|intros ?; apply keeps_ret]).
  - by apply send_text_keeps.
  - by apply send_or_queue_keeps.
  - by apply flush_queue_keeps.
  - by apply list_messages_keeps.
  - apply request_keys_keeps.
  - apply send_copies_keeps.
  - apply handle_event_keeps.
  - apply drain_keeps.
  - apply claim_keys_keeps.
  - apply sync_keeps.
  - apply silent_expire.
  - apply silent_end.
  - apply silent_dropped.
  - apply silent_no_such_nick.
  - apply silent_replace_master.
  - apply silent_confirm_sas.
  - apply silent_confirm_key.
  - apply silent_release.
Qed.

(** C1. No clear text leaves. Whatever calls of the engine run, in any order, and
    whatever the server answers and the disk fails, each request for a peer is
    either the fixed KEYREQ or the payload of Olm messages, one for each
    device of it; each copy for an own device is one Olm message; the session
    of each one was saved after it encrypted and before the request; and no
    other request of the engine has a body with a text. *)
Theorem only_olm_leaves (ops : list engine_op) w :
  exists es, log (engine_run ops o w).1 = log w ++ es /\
    forall before ev rest, es = before ++ ev :: rest ->
      allowed (fun _ => True) (log w ++ before) ev.
Proof using Type.
  destruct w as [d s m l]. pose proof (engine_run_keeps l ops (mk_world d s m l)) as Hk.
  unfold wp in Hk. destruct (engine_run ops o _) as [w' r]. apply Hk. apply logs_start.
Qed.

(** ** The devices of a text *)

Lemma pick_devices_ready e s nick entry :
  entry ∈ pick_devices e s nick ->
  (exists did, E2eEngine.peers e !! did = Some entry) /\ of_nick e nick entry = true /\
  entry_ready e s entry (StateData.trust (Store.data s)) = true.
Proof.
  unfold pick_devices, entries_of. intros Hin%elem_of_take.
  destruct Hin as (i & Hi & _). apply list_elem_of_lookup_2 in Hi.
  rewrite merge_sort_Permutation in Hi. apply list_elem_of_In, filter_In in Hi as [Hi Hr].
  apply andb_true_iff in Hr as [Hn Hr]. split_and!; [|done|done].
  apply list_elem_of_In, list_elem_of_fmap in Hi as ([did x] & -> & Hx).
  exists did. by apply elem_of_map_to_list in Hx.
Qed.

(** A body for a device that is of the nick, cached and not revoked when the
    send starts. *)
Definition for_trusted (e0 : E2eEngine.t) (s0 : Store.t) (nick : string) (s : Sealed.t) : Prop :=
  exists entry did, E2eEngine.peers e0 !! did = Some entry /\
    Sealed.did s = PeerDevice.did (PeerEntry.device entry) /\
    folded e0 (PeerEntry.nick entry) = folded e0 nick /\
    PeerTrust.is_revoked (StateData.trust (Store.data s0)) (E2eEngine.network e0)
      (PeerEntry.nick entry) (PeerDevice.ed25519 (PeerEntry.device entry))
      (Some (PeerDevice.curve25519 (PeerEntry.device entry))) = false.

(** C7. A text goes to trusted devices only. Each body that [send_text] sends is
    for a cached device of the nick that the stored trust does not revoke; and
    the label of the locked query is never sent to. *)
Theorem text_to_trusted nick text now w :
  exists es, log (send_text client token nick text now o w).1 = log w ++ es /\
    (forall before q a rest r, es = before ++ Sent q a :: rest -> body q = Body.Send r ->
       carries (for_trusted (mem w) (store w) nick) (log w ++ before) r \/ asks_keys r) /\
    (contains_str QUERY_LOCK_LABEL nick = true -> es = []).
Proof using Type.
  destruct (contains_str QUERY_LOCK_LABEL nick) eqn:Hlabel.
  { exists []. unfold send_text. rewrite Hlabel. cbn. rewrite app_nil_r.
    split_and!; [done| |done]. by intros []. }
  destruct w as [d s m l]. set (V := for_trusted m s nick).
  enough (wp o (send_text client token nick text now) (fun _ w' => logs (allowed V) l w')
    (mk_world d s m l)) as Hw.
  { unfold wp in Hw. destruct (send_text _ _ _ _ _ _ _) as [w' r] eqn:E. destruct Hw as (es & Hes & HP).
    exists es. cbn [fst]. split_and!; [done| |done].
    intros before q a rest r' Heq Hb. specialize (HP _ _ _ Heq). unfold allowed in HP.
    by rewrite Hb in HP. }
  unfold send_text. rewrite Hlabel. apply wp_store, wp_mem. cbn [store mem].
  destruct (pick_devices m s nick) as [|entry entries] eqn:Hpick.
  { apply wp_raise. apply logs_start. }
  eapply wp_mono; [apply deliver_keeps; [|apply logs_start]|by intros ? ? []].
  intros x (y & Hy & _ & Hdid). rewrite <-Hpick in Hy.
  destruct (pick_devices_ready m s nick y Hy) as ([did Hp] & Hn & Hr).
  exists y, did. split_and!; [done|done| |].
  - by apply bool_decide_eq_true in Hn.
  - unfold entry_ready in Hr. apply andb_true_iff in Hr as [Hr _]. by apply negb_true_iff in Hr.
Qed.
End SendFacts.
