(* ===== verification/EngineReceiveFacts.v ===== *)
(** * What the receive path ensures

    A row is acknowledged only when its writes succeeded, a repeated row adds
    no second history row, a text is stored only from a sender that the trust
    allows, and a KEYS answer caches only devices that its checks accept. *)

From S2P Require Import Prelude.
From S2P Require Import RustStr.
From S2P Require Import Interfaces.
From S2P Require Import Isupport.
From S2P Require Import Wire.
From S2P Require Import Device.
From S2P Require Import Manage.
From S2P Require Import Trust.
From S2P Require Import Peer.
From S2P Require Import PeerFacts.
From S2P Require Import Files.
From S2P Require Import History.
From S2P Require Import State.
From S2P Require Import DeviceRoutes.
From S2P Require Import Pacing.
From S2P Require Import Refusal.
From S2P Require Import Protocol.
From S2P Require Import SendDoor.
From S2P Require Import Effects.
From S2P Require Import Client.
From S2P Require Import EffectsFacts.
From S2P Require Import EngineTypes.
From S2P Require Import Engine.
From S2P Require Import EngineReceive.
From S2P Require Import EngineFacts.
From stdpp Require Import options.

#[local] Open Scope eff_scope.

Section ReceiveFacts.
Context {C : Crypto} {J : Json} {U : UrlLib} {T : StateText} {A : Aead} {O : Olm}.
Context {H : HistoryText} {X : EngineText} {S : OlmSessions}.
Context (o : outside).
Implicit Types (w : world E2eEngine.t) (e : E2eEngine.t) (row : InboxRow.t).

(** ** Failed writes are reported *)

Definition write_ok (ev : event) : Prop :=
  match ev with NotSaved | NotKept => False | _ => True end.

(** The result [r] is [bad], or no write of the step failed. *)
Definition reports {E V} (bad : result V E -> Prop) (m : eng E V) : Prop :=
  forall w, wp o m (fun r w' => exists es, log w' = log w ++ es /\
    (~ bad r -> Forall write_ok es)) w.

Definition failed {E V} (r : result V E) : Prop := is_ok r = false.

Lemma reports_mono {E V} (bad bad' : result V E -> Prop) m :
  (forall r, bad r -> bad' r) -> reports bad m -> reports bad' m.
Proof.
  intros Hb Hm w. eapply wp_mono; [apply Hm|]. intros r w' (es & Hes & Hok). exists es.
  split; [done|]. intros Hn. apply Hok. auto.
Qed.

(** A step that writes nothing. *)
Lemma reports_still {E V} (bad : result V E -> Prop) (m : eng E V) :
  (forall w, wp o m (fun _ w' => exists es, log w' = log w ++ es /\ Forall write_ok es) w) ->
  reports bad m.
Proof. intros Hm w. eapply wp_mono; [apply Hm|]. intros r w' (es & Hes & Hok). eauto. Qed.

Lemma reports_same {E V} (bad : result V E -> Prop) (m : eng E V) :
  (forall w, log (m o w).1 = log w) -> reports bad m.
Proof.
  intros Hm. apply reports_still. intros w. specialize (Hm w). unfold wp.
  destruct (m o w) as [w' r]. exists []. by rewrite app_nil_r.
Qed.

Lemma reports_clock {E} (bad : result N E -> Prop) : reports bad clock_now.
Proof. apply reports_still. intros w. eexists. split; [done|]. by constructor. Qed.

Lemma reports_on_store {E V} (op : io_env -> disk -> Store.t -> disk * Store.t * result V E) :
  reports failed (on_store op).
Proof.
  intros w. unfold wp, on_store. destruct (op _ _ _) as [[d s] [v|err]]; eexists;
    (split; [done|]); intros Hb; [by constructor|by destruct Hb].
Qed.

Lemma reports_on_history {V} get put op : reports failed (on_history (A := V) get put op).
Proof.
  intros w. unfold wp, on_history. destruct (op _ _ _ _) as [[d s] [v|err]]; eexists;
    (split; [done|]); intros Hb; [by constructor|by destruct Hb].
Qed.

(** After a bad value the rest must be bad. *)
Lemma reports_bind {E V W} (bad1 : result V E -> Prop) (bad : result W E -> Prop)
    (m : eng E V) (k : V -> eng E W) :
  reports bad1 m -> (forall v, reports bad (k v)) ->
  (forall v w, bad1 (Ok v) -> bad (k v o w).2) -> (forall err, bad1 (Err err) -> bad (Err err)) ->
  reports bad (bind m k).
Proof.
  intros Hm Hk Hv He w. apply wp_bind. eapply wp_mono; [apply Hm|].
  intros [v|err] w1 (es1 & Hes1 & Hok1).
  - specialize (Hk v w1). specialize (Hv v w1). unfold wp in *. destruct (k v o w1) as [w2 r].
    destruct Hk as (es2 & Hes2 & Hok2). exists (es1 ++ es2). rewrite Hes2, Hes1, app_assoc.
    split; [done|]. intros Hb. apply Forall_app. split; [|by apply Hok2].
    apply Hok1. intros Hb1. apply Hb. by apply Hv.
  - exists es1. split; [done|]. intros Hb. apply Hok1. auto.
Qed.

(** The common case: only an error is bad. *)
Lemma reports_seq {E V W} (bad : result W E -> Prop) (m : eng E V) (k : V -> eng E W) :
  reports failed m -> (forall v, reports bad (k v)) -> (forall err, bad (Err err)) ->
  reports bad (bind m k).
Proof. intros Hm Hk He. eapply reports_bind; [exact Hm|done|by intros|auto]. Qed.

Lemma reports_attempt {E F V} (bad : result V F -> Prop) (m : eng F V) :
  reports bad m -> reports (E := E) (fun r => match r with Ok r => bad r | Err _ => False end)
    (attempt m).
Proof. intros Hm w. apply wp_attempt. apply Hm. Qed.

Lemma reports_with_err {E F V} (f : F -> E) (bad : result V F -> Prop) (bad' : result V E -> Prop)
    (m : eng F V) :
  (forall r, bad r -> bad' (map_err f r)) -> reports bad m -> reports bad' (with_err f m).
Proof.
  intros Hf Hm w. apply wp_with_err. eapply wp_mono; [apply Hm|].
  intros r w' (es & Hes & Hok). exists es. split; [done|]. auto.
Qed.

(** Nothing is bad after a step without writes. *)
Lemma reports_then {E V W} (bad : result W E -> Prop) (m : eng E V) (k : V -> eng E W) :
  reports (fun _ => False) m -> (forall v, reports bad (k v)) -> reports bad (bind m k).
Proof. intros Hm Hk. by eapply reports_bind; [exact Hm|done| |]. Qed.

#[local] Hint Extern 1 (reports _ (ret _)) => (apply reports_same; done) : core.
#[local] Hint Extern 1 (reports _ (raise _)) => (apply reports_same; done) : core.
#[local] Hint Extern 1 (reports _ (lift _)) => (apply reports_same; done) : core.
#[local] Hint Extern 1 (reports _ (modify _)) => (apply reports_same; done) : core.
#[local] Hint Extern 1 (reports _ get_mem) => (apply reports_same; done) : core.
#[local] Hint Extern 1 (reports _ get_store) => (apply reports_same; done) : core.
#[local] Hint Extern 1 (reports _ get_data) => (apply reports_same; done) : core.
#[local] Hint Extern 1 (reports _ clock_now) => (apply reports_clock) : core.

(** Steps without writes, by their structure. *)
Ltac still :=
  repeat match goal with
  | |- reports _ (bind _ _) => apply reports_then; [|intros ?]
  | |- reports _ (match ?x with _ => _ end) => destruct x
  | |- reports _ (let '_ := ?x in _) => destruct x
  end; auto.

Definition store_error {V} (r : result V EngineError.t) : Prop :=
  match r with Err err => EngineError.is_store err = true | Ok _ => False end.

Lemma reports_save_trust trust : reports store_error (save_trust trust).
Proof.
  unfold save_trust, store_step. eapply reports_with_err; [|apply reports_on_store].
  by intros [].
Qed.

Lemma reports_accept_keys nick keys : reports store_error (accept_keys nick keys).
Proof.
  unfold accept_keys. apply reports_then; [auto|intros payload].
  apply reports_then; [auto|intros data]. apply reports_then; [auto|intros e].
  apply reports_then; [unfold note_trust_changed; still|intros _].
  eapply reports_bind; [apply reports_save_trust| |done|done].
  intros _. unfold forget_revoked, set_peer_capability. still.
Qed.

Lemma reports_apply_list nick block : reports store_error (apply_list_message nick block).
Proof.
  unfold apply_list_message. apply reports_then; [auto|intros data].
  apply reports_then; [auto|intros e]. destruct (apply_peer_list _ _ _ _ _ _ _) as [trust [[]|err]];
    [|by auto|by auto|unfold note_trust_changed; still].
  eapply reports_bind; [apply reports_save_trust| |done|done]. intros _. unfold forget_revoked. still.
Qed.

Lemma reports_save_state nick did decrypted : reports failed (save_state nick did decrypted).
Proof.
  unfold save_state. apply reports_then; [auto|intros e].
  apply reports_seq; [destruct (Decrypted.learned _) as [[]|]; [apply reports_on_store|auto]| |done].
  intros _. apply reports_seq; [apply reports_on_store| |done]. intros _. still.
Qed.

(** The outcome leaves the row in the inbox. *)
Definition held {E} (r : result RowOutcome.t E) : Prop :=
  match r with Ok outcome => RowOutcome.acknowledge outcome = false | Err _ => True end.

Lemma reports_keep_session {E} nick row decrypted :
  reports (E := E) held (keep_session nick row decrypted).
Proof.
  unfold keep_session. eapply reports_bind; [apply reports_attempt, reports_save_state| | |done].
  - intros saved. auto.
  - by intros [] w Hb; cbn in *.
Qed.

Lemma reports_store_decrypted {E} nick row decrypted peer row_id device text now :
  reports (E := E) held (store_decrypted nick row decrypted peer row_id device text now).
Proof.
  unfold store_decrypted. apply reports_then; [auto|intros e].
  eapply reports_bind with (bad1 := fun r => match r with Ok r => failed r | Err _ => False end).
  - destruct (is_stored _ _ _); [auto|]. apply reports_attempt, reports_on_history.
  - intros [u|err]; [|auto].
    eapply reports_bind; [apply reports_attempt, reports_save_state| | |done].
    + intros [u'|err]; [|auto]. unfold note_changed. still.
    + by intros [] w Hb.
  - by intros [] w Hb.
  - done.
Qed.

Lemma reports_receive_copy {E} row now : reports (E := E) held (receive_copy row now).
Proof.
  unfold receive_copy, stale_or_refuse. apply reports_then; [auto|intros s].
  apply reports_then; [auto|intros e].
  destruct (own_list _) as [[]|]; [|auto]. destruct (copy_refused _ _ _ _); [auto|].
  destruct (negb _); [still|]. destruct (decrypt_row _ _ _ _ _) as [decrypted|]; [|auto].
  match goal with |- reports _ (if ?b then _ else _) => destruct b end; [still|].
  destruct (Inner.kind _); auto using reports_keep_session.
  destruct (valid_peer _); auto using reports_store_decrypted.
Qed.

Lemma reports_read_message {E} nick row decrypted now :
  reports (E := E) held (read_message nick row decrypted now).
Proof.
  unfold read_message. apply reports_then; [auto|intros e].
  assert (forall kind, reports (E := E) held
    (let! kept := keep_session nick row decrypted in
     match kept with RowOutcome.Ignored => list_effect nick row kind | other => ret other end))
    as Hkind.
  { intros kind. eapply reports_bind; [apply reports_keep_session| | |done].
    - intros []; auto. destruct kind; cbn [list_effect]; auto.
      + eapply reports_bind; [apply reports_attempt, reports_apply_list| | |done].
        * intros [u|[]]; still.
        * by intros [u|[]] w Hb.
      + unfold queue_list_reply. still.
    - by intros [] w Hb. }
  destruct (Inner.kind _); auto using reports_store_decrypted.
Qed.

Lemma reports_receive_message {E} row now : reports (E := E) held (receive_message row now).
Proof.
  unfold receive_message. destruct (InboxRow.own row); [apply reports_receive_copy|].
  apply reports_then; [auto|intros s]. apply reports_then; [auto|intros e].
  destruct (sender_revoked _ _ _ _ _); [auto|].
  destruct (decrypt_row _ _ _ _ _) as [decrypted|];
    [|unfold note_unread, note_trust_changed, want_keys; still].
  apply reports_then; [unfold set_peer_capability; auto|intros _].
  apply reports_then; [unfold refresh_stale_list, queue_list_reply; still|intros _].
  eapply reports_bind; [apply reports_read_message| | |done].
  - intros outcome. apply reports_then; [unfold note_list_version, maybe_list_request; still|auto].
  - intros outcome w Hb. unfold bind. by destruct (note_list_version _ _ _ _ _ _) as [w2 [|]].
Qed.

(** C6. No row is acknowledged whose write failed. When [handle_row] gives an
    outcome that lets the caller acknowledge a KEYS row, a message or a copy,
    every write of the history and of the state in it succeeded. *)
Theorem acknowledged_means_written row now w w' outcome
    (Hverb : InboxRow.verb row <> InboxVerb.Nack)
    (Hrun : handle_row (E := EngineError.t) row now o w = (w', Ok outcome))
    (Hack : RowOutcome.acknowledge outcome = true) :
  exists es, log w' = log w ++ es /\ Forall write_ok es.
Proof.
  enough (reports held (handle_row (E := EngineError.t) row now)) as Hr.
  { specialize (Hr w). unfold wp in Hr. rewrite Hrun in Hr. destruct Hr as (es & Hes & Hok).
    exists es. split; [done|]. apply Hok. cbn. by rewrite Hack. }
  unfold handle_row. apply reports_then; [auto|intros e]. destruct (decide _); [auto|].
  eapply reports_bind with (bad1 := held).
  - destruct (InboxRow.verb row); [|apply reports_receive_message|apply reports_receive_message|done].
    eapply reports_bind; [apply reports_attempt, reports_accept_keys| | |done].
    + intros []; auto.
    + by intros [u|[]] w1 Hb.
  - intros outcome'. apply reports_then; [still|auto].
  - intros outcome' w1 Hb. unfold bind. by destruct (RowOutcome.acknowledge outcome').
  - done.
Qed.

(** ** One row of the history for a row of the inbox *)

Definition is_row (conversation id : string) (m : E2eMessage.t) : bool :=
  bool_decide (E2eMessage.conversation_id m = conversation) && bool_decide (E2eMessage.id m = id).

(** The rows of the history with an id in a conversation. *)
Definition rows (h : E2eHistoryStore.t) (conversation id : string) : nat :=
  length (List.filter (is_row conversation id) (E2eHistoryStore.messages h)).

Lemma rows_append env d h m :
  let '(_, h', _) := E2eHistoryStore.append env d h m in
  forall conversation id, rows h' conversation id <=
    (if is_row conversation id m then 1 else 0) + rows h conversation id.
Proof.
  unfold E2eHistoryStore.append. destruct (seal_record _ _ _ _); [|intros; lia].
  destruct (append_record _ _ _ _) as [d' [u|err]]; intros conversation id; unfold rows; cbn; [|lia].
  unfold insert_row.
  assert (length (List.filter (is_row conversation id)
    (insert_by_key E2eMessage.sent_at (E2eHistoryStore.messages h) m)) =
    length (List.filter (is_row conversation id) (m :: E2eHistoryStore.messages h))) as ->.
  { apply Permutation_length. assert (forall l l' : list E2eMessage.t, l ≡ₚ l' ->
      List.filter (is_row conversation id) l ≡ₚ List.filter (is_row conversation id) l') as Hp.
    { induction 1; cbn; repeat case_match; auto; try by constructor. by etrans. }
    apply Hp, insert_by_key_perm. }
  cbn. destruct (is_row _ _ _); cbn; lia.
Qed.

Lemma rows_stored e conversation id :
  is_stored e conversation id = false -> rows (E2eEngine.history e) conversation id = 0.
Proof.
  unfold is_stored, rows, E2eHistoryStore.messages_of, E2eHistoryStore.in_conversation.
  induction (E2eHistoryStore.messages (E2eEngine.history e)) as [|m l IH]; cbn; [done|].
  unfold is_row at 1. destruct (bool_decide (E2eMessage.conversation_id m = conversation)); cbn; [|auto].
  intros [-> Hl]%orb_false_iff. auto.
Qed.

(** ** What the steps of a row leave alone

    Only the write of a text changes the history, only the end of a row
    changes the set of seen rows, and nothing changes the network. *)
Section Quiet.
Context (P : E2eHistoryStore.t -> string -> gset N -> Prop).

Definition of_parts e : Prop := P (E2eEngine.history e) (E2eEngine.network e) (E2eEngine.seen e).
Notation I := (in_mem of_parts).

Lemma quiet_modify {E} (f : E2eEngine.t -> E2eEngine.t) :
  (forall e, E2eEngine.history (f e) = E2eEngine.history e) ->
  (forall e, E2eEngine.network (f e) = E2eEngine.network e) ->
  (forall e, E2eEngine.seen (f e) = E2eEngine.seen e) -> keeps o I (modify (E := E) f).
Proof. intros H1 H2 H3. apply mem_modify. intros e He. unfold of_parts. by rewrite H1, H2, H3. Qed.

Ltac untouched :=
  apply quiet_modify; intros ?; cbn; repeat case_match;
  first [reflexivity | by rewrite foldl_part].

Ltac quiet_parts :=
  eng_parts; try first [untouched | apply mem_clock | apply mem_draw | apply mem_on_store].

Lemma quiet_save_trust trust : keeps o I (save_trust trust).
Proof. unfold save_trust, store_step. quiet_parts. Qed.

Lemma quiet_forget_revoked {E} trust : keeps o I (forget_revoked (E := E) trust).
Proof. unfold forget_revoked. untouched. Qed.

Lemma quiet_cache {E} nick l :
  keeps o I (modify (E := E) (fun e => foldl (cache_device nick) e l)).
Proof. apply quiet_modify; intros e; apply foldl_part; by intros e' []. Qed.

Lemma quiet_accept_keys nick keys : keeps o I (accept_keys nick keys).
Proof.
  unfold accept_keys, note_trust_changed, set_peer_capability. quiet_parts.
  all: first [apply quiet_save_trust | apply quiet_forget_revoked | apply quiet_cache].
Qed.

Lemma quiet_apply_list nick block : keeps o I (apply_list_message nick block).
Proof.
  unfold apply_list_message, note_trust_changed. quiet_parts.
  all: first [apply quiet_save_trust | apply quiet_forget_revoked].
Qed.

Lemma quiet_fail_send {E} key reason : keeps o I (fail_send (E := E) key reason).
Proof. unfold fail_send, note_drops, note_drop, note_changed. quiet_parts. Qed.

Lemma quiet_on_nack {E} row : keeps o I (on_nack (E := E) row).
Proof.
  unfold on_nack, trim_sent, queue_again, want_keys. quiet_parts. all: apply quiet_fail_send.
Qed.

Lemma quiet_save_state nick did decrypted : keeps o I (save_state nick did decrypted).
Proof. unfold save_state. quiet_parts. Qed.

Lemma quiet_keep_session {E} nick row decrypted :
  keeps o I (keep_session (E := E) nick row decrypted).
Proof. unfold keep_session. quiet_parts. apply quiet_save_state. Qed.

Lemma quiet_stale {E} id : keeps o I (stale_or_refuse (E := E) id).
Proof. unfold stale_or_refuse. quiet_parts. Qed.

Lemma quiet_capability {E} nick capable : keeps o I (set_peer_capability (E := E) nick capable).
Proof. unfold set_peer_capability. quiet_parts. Qed.

Lemma quiet_refresh {E} nick row : keeps o I (refresh_stale_list (E := E) nick row).
Proof. unfold refresh_stale_list, queue_list_reply. quiet_parts. Qed.

Lemma quiet_note_list {E} nick row decrypted outcome :
  keeps o I (note_list_version (E := E) nick row decrypted outcome).
Proof. unfold note_list_version, maybe_list_request. quiet_parts. Qed.

Lemma quiet_note_changed {E} peer : keeps o I (note_changed (E := E) peer).
Proof. unfold note_changed. quiet_parts. Qed.

Lemma quiet_note_unread {E} row entry nick : keeps o I (note_unread (E := E) row entry nick).
Proof. unfold note_unread, want_keys, note_trust_changed. quiet_parts. Qed.

Lemma quiet_list_effect {E} nick row kind : keeps o I (list_effect (E := E) nick row kind).
Proof. unfold list_effect, queue_list_reply. quiet_parts. apply quiet_apply_list. Qed.

(** What a row does, without the memory of the rows that were read. *)
Definition row_outcome {E} row (now : Z) : eng E RowOutcome.t :=
  match InboxRow.verb row with
  | InboxVerb.Keys =>
      let! accepted := attempt (accept_keys (InboxRow.from row) (InboxRow.payload row)) in
      ret match accepted with
          | Ok _ => RowOutcome.KeysRead
          | Err (EngineError.Store _) => RowOutcome.StoreFailed
          | Err _ => RowOutcome.Undecryptable
          end
  | InboxVerb.Nack => on_nack row ;! ret RowOutcome.Ignored
  | InboxVerb.PkMsg | InboxVerb.Msg => receive_message row now
  end.

Lemma handle_row_eq {E} row now :
  handle_row (E := E) row now =
  (let! e := get_mem in
   if decide (InboxRow.id row ∈ E2eEngine.seen e) then ret RowOutcome.Duplicate else
   let! outcome := row_outcome row now in
   (if RowOutcome.acknowledge outcome
    then modify (fun e => E2eEngine.set_seen ({[InboxRow.id row]} ∪ E2eEngine.seen e) e)
    else ret tt) ;!
   ret outcome).
Proof. reflexivity. Qed.

(** A row keeps what the write of its text keeps. *)
Lemma quiet_row {E} row now :
  (forall nick decrypted peer row_id device text,
     keeps o I (store_decrypted (E := E) nick row decrypted peer row_id device text now)) ->
  keeps o I (row_outcome (E := E) row now).
Proof.
  intros Hstore. unfold row_outcome, receive_message, receive_copy, read_message. quiet_parts.
  all: first [apply quiet_accept_keys | apply quiet_on_nack | apply quiet_keep_session
             | apply Hstore | apply quiet_stale | apply quiet_capability | apply quiet_refresh
             | apply quiet_note_list | apply quiet_note_unread | apply quiet_list_effect].
Qed.
End Quiet.

(** *** The history *)

Section Once.
Context (n : string -> string -> nat).

(** No row twice, except where it was so before. *)
Definition once (h : E2eHistoryStore.t) (_ : string) (_ : gset N) : Prop :=
  forall conversation id, rows h conversation id <= Nat.max 1 (n conversation id).
Notation I := (in_mem (of_parts once)).

Lemma once_store_decrypted {E} nick row decrypted peer row_id device text now :
  keeps o I (store_decrypted (E := E) nick row decrypted peer row_id device text now).
Proof.
  unfold store_decrypted. intros w Hw. apply wp_mem.
  eapply wp_seq with (R := fun _ w' => I w').
  - destruct (is_stored _ _ _) eqn:Hs; [by apply wp_ret|]. apply wp_attempt.
    unfold append_row, wp, on_history.
    pose proof (rows_append (appends o (log w)) (files w) (E2eEngine.history (mem w))
      (E2eMessage.mk row_id (conversation_id (E2eEngine.network (mem w)) peer) device now text
         true (row_captures row))) as Ha.
    destruct (E2eHistoryStore.append _ _ _ _) as [[d h] r]. unfold in_mem, of_parts, once. cbn.
    intros conversation id. specialize (Ha conversation id). specialize (Hw conversation id).
    unfold is_row in Ha at 1. cbn in Ha. destruct (bool_decide _) eqn:E1; cbn in Ha; [|lia].
    destruct (bool_decide (row_id = id)) eqn:E2; cbn in Ha; [|lia].
    apply bool_decide_eq_true in E1 as <-. apply bool_decide_eq_true in E2 as <-.
    apply rows_stored in Hs. lia.
  - intros [u|err] w' Hw'; [|by apply wp_ret]. revert w' Hw'.
    change (keeps o I (let! saved := attempt (save_state nick (InboxRow.from_did row) decrypted) in
      match saved with
      | Ok _ => note_changed peer ;! ret RowOutcome.Stored
      | Err _ => ret (E := E) RowOutcome.StoreFailed
      end)).
    eng_parts; first [apply quiet_save_state | apply quiet_note_changed].
  - done.
Qed.

Lemma once_handle_row {E} row now : keeps o I (handle_row (E := E) row now).
Proof.
  rewrite handle_row_eq. apply keeps_bind; [apply keeps_get_mem|]. intros e.
  destruct (decide _); [apply keeps_ret|]. apply keeps_bind.
  { apply quiet_row. intros. apply once_store_decrypted. }
  intros outcome. apply keeps_bind; [|intros _; apply keeps_ret].
  destruct (RowOutcome.acknowledge outcome); [by apply mem_modify|apply keeps_ret].
Qed.
End Once.

(** *** The rows that were seen *)

(** The memory of the rows that were read. *)
Definition seen_after {E} row (r : result RowOutcome.t E) (seen : gset N) : gset N :=
  match r with
  | Ok outcome => if RowOutcome.acknowledge outcome then {[InboxRow.id row]} ∪ seen else seen
  | Err _ => seen
  end.

Lemma seen_store_decrypted {E} seen nick row decrypted peer row_id device text now :
  keeps o (in_mem (of_parts (fun _ _ s => s = seen)))
    (store_decrypted (E := E) nick row decrypted peer row_id device text now).
Proof.
  unfold store_decrypted, append_row.
  eng_parts; try first [apply quiet_save_state | apply quiet_note_changed].
  intros w Hw. unfold wp, on_history. by destruct (E2eHistoryStore.append _ _ _ _) as [[d h] r].
Qed.

(** A row adds its own id when it may be acknowledged, and nothing else. *)
Lemma handle_row_seen {E} row now w :
  wp o (handle_row (E := E) row now)
    (fun r w' => E2eEngine.seen (mem w') = seen_after row r (E2eEngine.seen (mem w))) w.
Proof.
  rewrite handle_row_eq. apply wp_mem. destruct (decide _) as [Hin|_].
  { apply wp_ret. cbn. set_solver. }
  eapply wp_seq with (R := fun _ w1 => E2eEngine.seen (mem w1) = E2eEngine.seen (mem w)).
  - eapply wp_mono; [by apply (quiet_row (fun _ _ s => s = E2eEngine.seen (mem w)));
      [intros; apply seen_store_decrypted|]|]. by intros r w1 [? _].
  - intros outcome w1 Hw1. unfold wp, bind. destruct (RowOutcome.acknowledge outcome) eqn:Ha; cbn;
      rewrite Ha, Hw1; done.
  - by intros err w1 ->.
Qed.

(** Rows of the inbox in any order, each one at its time. *)
Definition handle_rows (l : list (InboxRow.t * Z)) : eng EngineError.t unit :=
  for_each (fun '(row, now) => let! _ := handle_row row now in ret tt) l.

Lemma seen_rows l w : E2eEngine.seen (mem w) ⊆ E2eEngine.seen (mem (handle_rows l o w).1).
Proof.
  assert (keeps o (in_mem (fun e => E2eEngine.seen (mem w) ⊆ E2eEngine.seen e)) (handle_rows l))
    as Hk.
  { apply keeps_for_each. intros [row now] _. apply keeps_bind; [|intros ?; apply keeps_ret].
    intros w1 Hw1. eapply wp_mono; [apply handle_row_seen|]. intros r w2 Hw2. split; [|done].
    unfold in_mem in *. rewrite Hw2. destruct r as [outcome|err]; cbn; [|done].
    destruct (RowOutcome.acknowledge outcome); [|exact Hw1].
    etrans; [exact Hw1|apply union_subseteq_r]. }
  specialize (Hk w (reflexivity _)). unfold wp in Hk.
  destruct (handle_rows l o w) as [w' r]. by destruct Hk.
Qed.

(** C12. A repeated row adds nothing. However often and in whatever order the rows
    of an inbox come, and whatever write fails, no conversation gets two
    history rows with one id, except where it had them before. A row adds its
    id to the seen rows exactly when it may be acknowledged, so a row that was
    acknowledged changes nothing at all when it comes again, after any other
    rows; and a row that was not is read anew. *)
Theorem rows_once (l : list (InboxRow.t * Z)) w :
  (forall conversation id,
     rows (E2eEngine.history (mem (handle_rows l o w).1)) conversation id <=
     Nat.max 1 (rows (E2eEngine.history (mem w)) conversation id)) /\
  (forall row now,
     let '(w', r) := handle_row (E := EngineError.t) row now o w in
     E2eEngine.seen (mem w') = seen_after row r (E2eEngine.seen (mem w))) /\
  (forall row now now' w1 outcome,
     handle_row (E := EngineError.t) row now o w = (w1, Ok outcome) ->
     RowOutcome.acknowledge outcome = true ->
     let w2 := (handle_rows l o w1).1 in
     handle_row (E := EngineError.t) row now' o w2 = (w2, Ok RowOutcome.Duplicate)).
Proof.
  split_and!.
  - intros conversation id.
    assert (keeps o (in_mem (of_parts (once (rows (E2eEngine.history (mem w))))))
      (handle_rows l)) as Hk.
    { apply keeps_for_each. intros [row now] _.
      apply keeps_bind; [apply once_handle_row|intros ?; apply keeps_ret]. }
    specialize (Hk w). unfold wp in Hk. destruct (handle_rows l o w) as [w' r].
    apply Hk. intros c i. lia.
  - intros row now. apply (handle_row_seen row now w).
  - intros row now now' w1 outcome Hrun Hack w2.
    pose proof (handle_row_seen (E := EngineError.t) row now w) as Hseen.
    unfold wp in Hseen. rewrite Hrun in Hseen. unfold seen_after in Hseen. rewrite Hack in Hseen.
    pose proof (seen_rows l w1) as Hmore. fold w2 in Hmore.
    unfold handle_row, bind at 1, get_mem at 1. rewrite decide_True; [done|]. set_solver.
Qed.
End ReceiveFacts.

(** ** The drain of an inbox *)

Section Drain.
Context {C : Crypto} {J : Json} {U : UrlLib} {T : StateText} {A : Aead} {O : Olm}.
Context {H : HistoryText} {X : EngineText} {S : OlmSessions}.
Context (client : GrappaClient.t) (token : string) (server_protocol : option N) (o : outside).
Implicit Types (w : world E2eEngine.t).

(** The chunks of an acknowledgement are the whole list, each within [n]. *)
Lemma chunks_concat {V} n (l : list V) :
  0 < n -> concat (chunks n l) = l /\ Forall (fun chunk => length chunk <= n) (chunks n l).
Proof.
  intros Hn. unfold chunks. assert (forall fuel (l : list V), length l <= fuel ->
    concat (chunks_fuel fuel n l) = l /\ Forall (fun chunk => length chunk <= n) (chunks_fuel fuel n l))
    as Hf; [|by apply Hf].
  clear l. induction fuel as [|fuel IH]; intros l Hl; destruct l as [|x l]; cbn [chunks_fuel];
    try (cbn in Hl; lia); try by split.
  destruct (IH (drop n (x :: l))) as [IH1 IH2].
  { rewrite length_drop. cbn in *. lia. }
  cbn [concat]. rewrite IH1, take_drop. split; [done|]. constructor; [|done].
  rewrite length_take. lia.
Qed.

(** The server honours [after] and has rows up to [bound]. *)
Definition pages_forward (bound : N) : Prop :=
  forall network did after w w' page,
    GrappaClient.fetch_e2e_inbox client token network did after server_protocol o w = (w', Ok page) ->
    Forall (fun row => match after with Some a => (a < InboxRow.id row)%N | None => True end /\
                       (InboxRow.id row <= bound)%N) page.

Lemma last_id_in page last :
  last_id page = Some last -> exists row, row ∈ page /\ InboxRow.id row = last.
Proof.
  unfold last_id. destruct page as [|row page]; [done|]. intros [= <-].
  assert (forall row page, exists r, r ∈ row :: page /\
    InboxRow.id r = foldr N.max 0%N (InboxRow.id <$> row :: page)) as Hl; [|apply Hl].
  clear. intros row page. revert row. induction page as [|r page IH]; intros row.
  - exists row. split; [by left|]. cbn. lia.
  - destruct (IH r) as (x & Hx & Heq). cbn [fmap list_fmap foldr] in *.
    destruct (N.max_spec (InboxRow.id row) (foldr N.max 0%N (InboxRow.id <$> r :: page)))
      as [[_ Hm]|[_ Hm]]; cbn [fmap list_fmap foldr] in Hm; rewrite Hm.
    + exists x. split; [by right|done].
    + exists row. split; [by left|done].
Qed.

(** The ids that can still come. *)
Definition left (bound : N) (after : option N) : N :=
  match after with Some a => bound - a + 1 | None => bound + 2 end.

Lemma drain_pages_ends bound fuel now after outcomes w :
  pages_forward bound -> (left bound after <= N.of_nat fuel)%N ->
  wp o (drain_pages client token server_protocol fuel now after outcomes)
    (fun r _ => r <> Ok None) w.
Proof.
  intros Hpages. revert after outcomes w. induction fuel as [|fuel IH]; intros after outcomes w Hfuel.
  { destruct after; cbn in Hfuel; lia. }
  cbn [drain_pages]. apply wp_mem.
  eapply wp_seq with (R := fun r _ => forall page, r = Ok page -> Forall (fun row =>
    match after with Some a => (a < InboxRow.id row)%N | None => True end /\
    (InboxRow.id row <= bound)%N) page); [| |by intros].
  { apply wp_with_err. unfold wp.
    destruct (GrappaClient.fetch_e2e_inbox _ _ _ _ _ _ _ _) as [w1 [page|err]] eqn:Hf; [|done].
    intros ? [= <-]. by eapply Hpages. }
  intros page w1 Hpage. specialize (Hpage page eq_refl).
  destruct (last_id page) as [last|] eqn:Hlast; [|by apply wp_ret].
  apply last_id_in in Hlast as (row & Hrow & Heq). rewrite Forall_forall in Hpage.
  destruct (Hpage row Hrow) as [Hafter Hbound]. rewrite Heq in *.
  eapply wp_seq with (R := fun _ _ => True); [| |by intros].
  { unfold wp. by destruct (handle_page page now o w1). }
  intros [[acks more] stale] w2 _. eapply wp_seq with (R := fun _ _ => True); [| |by intros].
  { unfold wp. by destruct (ack _ _ _ _ _ _). }
  intros _ w3 _. destruct (_ || _); [by apply wp_ret|]. apply IH.
  destruct after as [a|]; cbn in *; lia.
Qed.

(** C18. The drain of an inbox ends. When the server gives only rows after the one
    that was asked for, and none above [bound], the loop over the pages ends
    within [bound + 2] turns, whatever the rows hold, whatever write fails and
    whatever the calls answer. *)
Theorem drain_ends (bound : N) (fuel : nat) (now : Z) w
    (Hpages : pages_forward bound) (Hfuel : (bound + 2 <= N.of_nat fuel)%N) :
  (drain client token server_protocol fuel now o w).2 <> Ok None.
Proof.
  pose proof (drain_pages_ends bound fuel now None [] w Hpages Hfuel) as Hw.
  unfold wp, drain in *. by destruct (drain_pages _ _ _ _ _ _ _ _ _).
Qed.
End Drain.
