(* ===== verification/EngineTrustFacts.v ===== *)
(** * Whose messages and keys the engine takes

    A text enters the history only from a sender that the stored trust allows,
    read with a session of this sender; and a KEYS answer caches only devices
    whose whole chain of signatures holds. *)

From S2P Require Import Prelude.
From S2P Require Import RustStr.
From S2P Require Import Interfaces.
From S2P Require Import Isupport.
From S2P Require Import Wire.
From S2P Require Import Device.
From S2P Require Import Manage.
From S2P Require Import ListMigration.
From S2P Require Import DeviceFacts.
From S2P Require Import Trust.
From S2P Require Import Peer.
From S2P Require Import TrustFacts.
From S2P Require Import PeerFacts.
From S2P Require Import Files.
From S2P Require Import History.
From S2P Require Import HistoryFacts.
From S2P Require Import State.
From S2P Require Import DeviceRoutes.
From S2P Require Import Pacing.
From S2P Require Import Refusal.
From S2P Require Import Protocol.
From S2P Require Import SendDoor.
From S2P Require Import Effects.
From S2P Require Import Client.
From S2P Require Import EffectsFacts.
From S2P Require Import EngineTypes.
From S2P Require Import Engine.
From S2P Require Import EngineReceive.
From S2P Require Import EngineFacts.
From S2P Require Import EngineReceiveFacts.
From stdpp Require Import options.

#[local] Open Scope eff_scope.

Section TrustOfRows.
Context {C : Crypto} {J : Json} {U : UrlLib} {T : StateText} {A : Aead} {O : Olm}.
Context {H : HistoryText} {X : EngineText} {S : OlmSessions}.
Context (o : outside).
Implicit Types (w : world E2eEngine.t) (e : E2eEngine.t) (row : InboxRow.t).

(** ** Whose text is stored *)

(** The plaintext of a first message: the stored session of the sender opened
    it, when it is the session of the message, or a new session of the own
    account with the curve key of the device did, whose id is fresh. *)
Definition first_opened e s row (nick body : string) (device : PeerDevice.t)
    (replay : ReplayState.t) (session : session) (plain : string) : Prop :=
  (exists held, Store.peer_session s (E2eEngine.network e) nick (InboxRow.from_did row) =
       Ok (Some held) /\
     prekey_session_id body = Some (session_id held) /\
     session_decrypt held (OlmPreKey body) = Some (session, plain)) \/
  (exists identity identity', Store.olm_identity s = Ok (Some identity) /\
     inbound_session identity (PeerDevice.curve25519 device) body =
       Some (identity', session, plain) /\
     (ReplayState.accept_new_session replay (E2eEngine.network e) nick (InboxRow.from_did row)
        (session_id session)).2 = Ok tt).

(** A cached device of the sender has this curve key. *)
Definition known_curve (entry : option PeerEntry.t) (curve : string) : Prop :=
  forall known, entry = Some known -> PeerDevice.curve25519 (PeerEntry.device known) = curve.

(** A first message: its device has a certificate of the master of the sender,
    the message is new, and its text is bound to this device and the sender. *)
Definition opened_first e s row (entry : option PeerEntry.t) (nick body : string)
    (pre : PreKeyPayload.t) (decrypted : Decrypted.t) : Prop :=
  did_from_key_text (IdBlock.ed25519 (PreKeyPayload.id pre)) = Ok (InboxRow.from_did row) /\
  exists trust device replay plain,
    certified_device e (Store.data s) row nick pre = Some (trust, device) /\
    known_curve entry (PeerDevice.curve25519 device) /\
    ReplayState.accept_first_message (StateData.replay (Store.data s)) (E2eEngine.network e)
      nick (InboxRow.from_did row) (InboxRow.msgid row) = (replay, Ok tt) /\
    first_opened e s row nick body device replay (Decrypted.session decrypted) plain /\
    Inner.parse plain = Some (Decrypted.inner decrypted) /\
    Inner.fb (Decrypted.inner decrypted) =
      Some (recipient_binding (PeerDevice.ed25519 device) (E2eEngine.own_ed25519 e)).

(** Any other message: the stored session of the sender opened it. *)
Definition opened_normal e s row (entry : option PeerEntry.t) (nick body : string)
    (normal : MsgPayload.t) (decrypted : Decrypted.t) : Prop :=
  known_curve entry (MsgPayload.ck normal) /\
  exists held plain,
    Store.peer_session s (E2eEngine.network e) nick (InboxRow.from_did row) = Ok (Some held) /\
    session_decrypt held (OlmNormal body) = Some (Decrypted.session decrypted, plain) /\
    Decrypted.inner decrypted = default Inner.other (Inner.parse plain).

(** What [decrypted] is of a row: the body of the row for this device, opened. *)
Definition opened_for e s row (entry : option PeerEntry.t) (nick : string)
    (decrypted : Decrypted.t) : Prop :=
  exists payload body,
    MessagePayload.parse (InboxRow.verb row) (InboxRow.payload row) = Ok payload /\
    MessagePayload.bodies payload !! E2eEngine.own_did e = Some body /\
    match payload with
    | MessagePayload.PreKey pre => opened_first e s row entry nick body pre decrypted
    | MessagePayload.Normal normal => opened_normal e s row entry nick body normal decrypted
    end.

Lemma bound_to_fb inner fb inner' :
  bound_to inner fb = Some inner' -> inner' = inner /\ Inner.fb inner' = Some fb.
Proof. unfold bound_to. case_decide; [|done]. by intros [= <-]. Qed.

Lemma result_ok_some {V E} (r : result V E) v : result_ok r = Some v -> r = Ok v.
Proof. by destruct r; intros [= ->]. Qed.

Lemma known_curve_spec (entry : option PeerEntry.t) curve :
  match entry with
  | Some entry => negb (bool_decide (PeerDevice.curve25519 (PeerEntry.device entry) = curve))
  | None => false
  end = false -> known_curve entry curve.
Proof.
  intros Hk known ->. by apply negb_false_iff, bool_decide_eq_true in Hk.
Qed.

(** The end of both branches of a first message. *)
Lemma bound_inner plain fb inner :
  (inner ← Inner.parse plain; bound_to inner fb) = Some inner ->
  Inner.parse plain = Some inner /\ Inner.fb inner = Some fb.
Proof. intros (x & Hx & Hb)%bind_Some. apply bound_to_fb in Hb as [<- ?]. by split. Qed.

Lemma open_first_opened e s row nick fb body device replay learned decrypted :
  open_first e s row nick fb body device replay learned = Some decrypted ->
  exists plain, first_opened e s row nick body device replay (Decrypted.session decrypted) plain /\
    Inner.parse plain = Some (Decrypted.inner decrypted) /\
    Inner.fb (Decrypted.inner decrypted) = Some fb.
Proof.
  unfold open_first. destruct (negb _); [done|].
  intros (id & Hid & Hd)%bind_Some. apply bind_Some in Hd as (held & Hheld & Hd).
  apply result_ok_some in Hheld.
  assert (forall r, result_ok (Store.olm_identity s) = Some r -> (identity ← r;
      '(identity, session, plain) ← inbound_session identity (PeerDevice.curve25519 device) body;
      let '(replay, fresh) := ReplayState.accept_new_session replay (E2eEngine.network e) nick
                                (InboxRow.from_did row) (session_id session) in
      _ ← result_ok fresh;
      inner ← Inner.parse plain;
      inner ← bound_to inner fb;
      Some (Decrypted.mk inner (Some identity) session (Some replay) learned)) = Some decrypted ->
    exists plain,
      first_opened e s row nick body device replay (Decrypted.session decrypted) plain /\
      Inner.parse plain = Some (Decrypted.inner decrypted) /\
      Inner.fb (Decrypted.inner decrypted) = Some fb) as Hnew.
  { intros r Hr Hd'. apply result_ok_some in Hr. apply bind_Some in Hd' as (a & -> & Hd').
    apply bind_Some in Hd' as ([[a' x] plain] & Hin & Hd').
    destruct (ReplayState.accept_new_session _ _ _ _ _) as [replay' fresh] eqn:Hfresh.
    apply bind_Some in Hd' as ([] & Hok & Hd'). apply result_ok_some in Hok.
    apply bind_Some in Hd' as (inner & Hp & Hd').
    apply bind_Some in Hd' as (inner' & Hb & [= <-]). apply bound_to_fb in Hb as [-> Hb].
    exists plain. split_and!; [|done|done]. right. exists a, a'. cbn. by rewrite Hfresh. }
  destruct held as [held|]; [destruct (bool_decide _) eqn:Hsame|].
  - apply bool_decide_eq_true in Hsame. subst id.
    apply bind_Some in Hd as ([x plain] & Hdec & Hd). apply bind_Some in Hd as (inner & Hp & Hd).
    apply bind_Some in Hd as (inner' & Hb & [= <-]). apply bound_to_fb in Hb as [-> Hb].
    exists plain. split_and!; [|done|done]. left. by exists held.
  - apply bind_Some in Hd as (r & Hr & Hd). by apply Hnew in Hd.
  - apply bind_Some in Hd as (r & Hr & Hd). by apply Hnew in Hd.
Qed.

Lemma decrypt_row_opened e s row entry nick decrypted :
  decrypt_row e s row entry nick = Some decrypted -> opened_for e s row entry nick decrypted.
Proof.
  unfold decrypt_row. intros (payload & Hpay & Hd)%bind_Some. apply result_ok_some in Hpay.
  apply bind_Some in Hd as (body & Hbody & Hd). exists payload, body.
  split; [done|]. split; [done|]. destruct payload as [pre|normal].
  - unfold decrypt_first in Hd. apply bind_Some in Hd as (did & Hdid & Hd).
    apply result_ok_some in Hdid. destruct (bool_decide (did = _)) eqn:Hsame; [|done].
    apply bool_decide_eq_true in Hsame as ->. cbn [negb] in Hd. split; [done|].
    apply bind_Some in Hd as ([trust device] & Hcert & Hd).
    match goal with Hd : (if ?b then _ else _) = _ |- _ => destruct b eqn:Hk; [done|] end.
    apply known_curve_spec in Hk.
    destruct (ReplayState.accept_first_message _ _ _ _ _) as [replay [[]|err]] eqn:Hfirst; [|done].
    cbn in Hd. apply open_first_opened in Hd as (plain & H1 & H2 & H3).
    exists trust, device, replay, plain. by split_and!.
  - unfold decrypt_normal in Hd.
    match goal with Hd : (if ?b then _ else _) = _ |- _ => destruct b eqn:Hk; [done|] end.
    split; [by apply known_curve_spec|].
    apply bind_Some in Hd as (held & Hheld & Hd). apply result_ok_some in Hheld.
    apply bind_Some in Hd as (x & -> & Hd). destruct (negb _); [done|].
    apply bind_Some in Hd as ([x' plain] & Hdec & [= <-]). exists x, plain. by split_and!.
Qed.

(** The history row of a row that was opened: a text of a peer, or a copy of
    an own device. *)
Definition history_row e row (nick : string) (decrypted : Decrypted.t) (now : Z)
    : option E2eMessage.t :=
  match InboxRow.own row, Inner.kind (Decrypted.inner decrypted) with
  | false, InnerKind.Text body =>
      Some (E2eMessage.mk (E2eEngine.network e +:+ ":in:" +:+ N_display (InboxRow.id row))
              (conversation_id (E2eEngine.network e) nick) (InboxRow.from_did row) now body true
              (row_captures row))
  | true, InnerKind.Copy peer body =>
      if valid_peer peer
      then Some (E2eMessage.mk (copy_history_id e row decrypted)
                   (conversation_id (E2eEngine.network e) peer) OWN_DEVICE now body true
                   (row_captures row))
      else None
  | _, _ => None
  end.

(** The text [m] came with the row from a trusted sender, by the state when the
    row came. *)
Record text_of e (s : Store.t) row (now : Z) (m : E2eMessage.t) : Prop := {
  text_read : exists decrypted,
    let entry := E2eEngine.peers e !! InboxRow.from_did row in
    opened_for e s row entry (sender_nick entry row) decrypted /\
    history_row e row (sender_nick entry row) decrypted now = Some m;
  text_sibling : InboxRow.own row = true ->
    InboxRow.from_did row ∈ (sibling_dids e (Store.data s)).*1 /\
    InboxRow.from_did row <> E2eEngine.own_did e;
  text_trusted :
    InboxRow.from_did row ∉ E2eEngine.revoked_dids e /\
    PeerTrust.is_did_revoked (StateData.trust (Store.data s)) (E2eEngine.network e)
      (sender_nick (E2eEngine.peers e !! InboxRow.from_did row) row)
      (InboxRow.from_did row) = false;
}.

Notation texts e := (E2eHistoryStore.messages (E2eEngine.history e)).

(** What a row does to the history: nothing, or it adds the one text [m] for
    which [G] holds; and a row that was stored has its text there. *)
Definition takes {E} (G : E2eMessage.t -> Prop) e (r : result RowOutcome.t E) e' : Prop :=
  (texts e' = texts e /\
   (r = Ok RowOutcome.Stored -> exists m, G m /\
      is_stored e (E2eMessage.conversation_id m) (E2eMessage.id m) = true)) \/
  (exists m, G m /\ texts e' = insert_row (texts e) m).

(** ** Steps that leave the history *)

Definition fixed e0 e : Prop :=
  E2eEngine.history e = E2eEngine.history e0 /\ E2eEngine.network e = E2eEngine.network e0.

Lemma fixed_self {E} {V} (m : eng E V) w (Q : result V E -> world E2eEngine.t -> Prop) :
  (forall P, keeps o (in_mem (of_parts P)) m) ->
  (forall r w', fixed (mem w) (mem w') -> Q r w') -> wp o m Q w.
Proof.
  intros Hm HQ. eapply wp_mono; [apply (Hm (fun h n _ => h = E2eEngine.history (mem w) /\
    n = E2eEngine.network (mem w))); by split|]. intros r w' [HI _]. by apply HQ.
Qed.

(** A step that never tells that a row was stored. *)
Definition unstored {E} (m : eng E RowOutcome.t) : Prop := forall w, (m o w).2 <> Ok RowOutcome.Stored.

Lemma unstored_bind {E V} (m : eng E V) (k : V -> eng E RowOutcome.t) :
  (forall v, unstored (k v)) -> unstored (bind m k).
Proof. intros Hk w. unfold bind. destruct (m o w) as [w' [v|err]]; [apply Hk|done]. Qed.

Lemma unstored_ret {E} outcome : outcome <> RowOutcome.Stored -> unstored (ret (E := E) outcome).
Proof. intros Hne w. cbn. by intros [=]. Qed.

Lemma unstored_stale {E} id : unstored (stale_or_refuse (E := E) id).
Proof.
  unfold stale_or_refuse. apply unstored_bind. intros e. apply unstored_bind. intros _.
  apply unstored_ret. by destruct (_ <? _)%N.
Qed.

Lemma unstored_keep {E} nick row decrypted : unstored (keep_session (E := E) nick row decrypted).
Proof.
  unfold keep_session. apply unstored_bind. intros []; by apply unstored_ret.
Qed.

Lemma unstored_list {E} nick row kind : unstored (list_effect (E := E) nick row kind).
Proof.
  unfold list_effect. destruct kind; try (by apply unstored_ret).
  apply unstored_bind. intros [u|[]]; by apply unstored_ret.
Qed.

Lemma keep_then_list {E} nick row decrypted kind :
  unstored (E := E) (let! kept := keep_session nick row decrypted in
    match kept with RowOutcome.Ignored => list_effect nick row kind | other => ret other end).
Proof.
  intros w. pose proof (unstored_keep (E := E) nick row decrypted w) as Hk. unfold bind.
  destruct (keep_session nick row decrypted o w) as [w' [[]|err]]; cbn in *; try done.
  apply unstored_list.
Qed.

(** A step that leaves the history and stores nothing. *)
Lemma takes_unstored {E} (m : eng E RowOutcome.t) G w :
  (forall P, keeps o (in_mem (of_parts P)) m) -> unstored m ->
  wp o m (fun r w' => takes G (mem w) r (mem w')) w.
Proof.
  intros Hm Hun. specialize (Hun w). assert (wp o m (fun r w' => fixed (mem w) (mem w')) w) as Hf
    by (by apply fixed_self). unfold wp in *. destruct (m o w) as [w' r]. left.
  destruct Hf as [-> _]. by split.
Qed.

Lemma takes_refl {E} G e outcome :
  outcome <> RowOutcome.Stored -> takes (E := E) G e (Ok outcome) e.
Proof. intros Hne. left. split; [done|]. by intros [=]. Qed.

Lemma takes_fixed {E} G e1 e2 e3 e4 (r : result RowOutcome.t E) :
  fixed e1 e2 -> takes G e2 r e3 -> fixed e3 e4 -> takes G e1 r e4.
Proof.
  unfold takes, is_stored. intros [-> _] Ht [-> _]. exact Ht.
Qed.

(** The write of a text: the history takes it, unless it has its id. *)
Lemma store_decrypted_takes {E} nick row decrypted peer row_id device text now w
    (G : E2eMessage.t -> Prop) :
  G (E2eMessage.mk row_id (conversation_id (E2eEngine.network (mem w)) peer) device now text true
       (row_captures row)) ->
  wp o (store_decrypted (E := E) nick row decrypted peer row_id device text now)
    (fun r w' => takes G (mem w) r (mem w')) w.
Proof.
  unfold store_decrypted. set (m := E2eMessage.mk _ _ _ _ _ _ _). intros HT. apply wp_mem.
  eapply wp_seq with (R := fun r w1 => match r with
    | Ok (Ok _) => takes (E := E) G (mem w) (Ok RowOutcome.Stored) (mem w1)
    | _ => texts (mem w1) = texts (mem w)
    end).
  - destruct (is_stored _ _ _) eqn:Hs.
    + apply wp_ret. left. split; [done|]. intros _. by exists m.
    + apply wp_attempt. unfold append_row, wp, on_history, E2eHistoryStore.append.
      destruct (seal_record _ _ _ _); [|done].
      destruct (append_record _ _ _ _) as [d [u|err]]; [|done]. right. by exists m.
  - intros [[]|err] w1 Hin; [|apply wp_ret; left; by split].
    assert (forall (r : result RowOutcome.t E) e', takes (E := E) G (mem w) (Ok RowOutcome.Stored) (mem w1) ->
      fixed (mem w1) e' -> takes G (mem w) r e') as Hany.
    { intros r e' [[Ht Hx]|Hm] [Hh _]; [left|right].
      - rewrite Hh. auto.
      - by rewrite Hh. }
    eapply wp_seq with (R := fun _ w2 => fixed (mem w1) (mem w2)).
    { apply wp_attempt, fixed_self; [intros; apply quiet_save_state|auto]. }
    2: { intros err w2 Hw2. by apply Hany. }
    intros [u|err] w2 Hw2; [|apply wp_ret; by apply Hany].
    eapply wp_seq with (R := fun _ w3 => fixed (mem w2) (mem w3)).
    { apply fixed_self; [intros; apply quiet_note_changed|auto]. }
    + intros _ w3 Hw3. apply wp_ret. apply Hany; [done|]. destruct Hw2, Hw3. split; congruence.
    + intros err w3 Hw3. apply Hany; [done|]. destruct Hw2, Hw3. split; congruence.
  - intros err w1 Hw1. left. by split.
Qed.

(** ** Rows *)

Lemma copy_refused_false e data nick did :
  copy_refused e data nick did = false ->
  did <> E2eEngine.own_did e /\ did ∉ E2eEngine.revoked_dids e /\
  PeerTrust.is_did_revoked (StateData.trust data) (E2eEngine.network e) nick did = false.
Proof.
  unfold copy_refused. rewrite !orb_false_iff, !bool_decide_eq_false. naive_solver.
Qed.

Lemma copy_takes {E} row now w :
  InboxRow.own row = true ->
  wp o (receive_copy (E := E) row now)
    (fun r w' => takes (text_of (mem w) (store w) row now) (mem w) r (mem w')) w.
Proof.
  intros Hown. unfold receive_copy. apply wp_store, wp_mem.
  destruct (own_list _) as [[list master]|]; [|by apply wp_ret, takes_refl].
  destruct (copy_refused _ _ _ _) eqn:Href; [by apply wp_ret, takes_refl|].
  apply copy_refused_false in Href as (Hnot_own & Hrev & Hdid).
  destruct (contains _ _) eqn:Hsib;
    [|apply takes_unstored; [intros; apply quiet_stale|apply unstored_stale]].
  apply contains_spec in Hsib. cbn [negb].
  destruct (decrypt_row _ _ _ _ _) as [decrypted|] eqn:Hdec; [|by apply wp_ret, takes_refl].
  apply decrypt_row_opened in Hdec.
  match goal with |- context [if ?b then _ else _] => destruct b end;
    [apply takes_unstored; [intros; apply quiet_stale|apply unstored_stale]|].
  destruct (Inner.kind _) eqn:Hkind; try (by apply wp_ret, takes_refl);
    try (apply takes_unstored; [intros; apply quiet_keep_session|apply unstored_keep]).
  destruct (valid_peer peer) eqn:Hpeer; [|by apply wp_ret, takes_refl].
  apply store_decrypted_takes. split; [|done|done].
  exists decrypted. split; [done|]. unfold history_row. by rewrite Hown, Hkind, Hpeer.
Qed.

Lemma message_takes {E} row now w :
  wp o (receive_message (E := E) row now)
    (fun r w' => takes (text_of (mem w) (store w) row now) (mem w) r (mem w')) w.
Proof.
  unfold receive_message. destruct (InboxRow.own row) eqn:Hown; [by apply copy_takes|].
  apply wp_store, wp_mem. destruct (sender_revoked _ _ _ _ _) eqn:Hrev;
    [by apply wp_ret, takes_refl|].
  unfold sender_revoked in Hrev. rewrite !orb_false_iff, bool_decide_eq_false in Hrev.
  destruct Hrev as [[Hrev Hdid] _].
  destruct (decrypt_row _ _ _ _ _) as [decrypted|] eqn:Hdec.
  2: { apply takes_unstored.
       - intros P. apply keeps_bind; [apply quiet_note_unread|intros; apply keeps_ret].
       - apply unstored_bind. intros _. by apply unstored_ret. }
  apply decrypt_row_opened in Hdec. set (nick := sender_nick _ _) in *.
  set (G := text_of (mem w) (store w) row now).
  eapply wp_seq with (R := fun _ w1 => fixed (mem w) (mem w1)).
  { apply fixed_self; [intros; apply quiet_capability|auto]. }
  2: { intros err w1 Hw1. by apply (takes_fixed G _ (mem w) (mem w)); [|left|]. }
  intros _ w1 Hw1. eapply wp_seq with (R := fun _ w2 => fixed (mem w) (mem w2)).
  { apply fixed_self; [intros; apply quiet_refresh|]. intros _ w2 Hw2.
    destruct Hw1, Hw2. split; congruence. }
  2: { intros err w2 Hw2. by apply (takes_fixed G _ (mem w) (mem w)); [|left|]. }
  intros _ w2 Hw2. eapply wp_seq with (R := fun r w3 => takes G (mem w2) r (mem w3)).
  - unfold read_message. apply wp_mem. destruct Hw2 as [_ Hn]. rewrite Hn.
    destruct (Inner.kind _) eqn:Hkind; try (by apply wp_ret, takes_refl);
      try (apply takes_unstored; [|apply keep_then_list]; intros P; apply keeps_bind;
           [apply quiet_keep_session|intros []; first [apply quiet_list_effect|apply keeps_ret]]).
    apply store_decrypted_takes. rewrite Hn. split; [|by rewrite Hown|done].
    exists decrypted. split; [done|]. unfold history_row. by rewrite Hown, Hkind.
  - intros outcome w3 Hin. eapply wp_seq with (R := fun _ w4 => fixed (mem w3) (mem w4)).
    { apply fixed_self; [intros; apply quiet_note_list|auto]. }
    + intros _ w4 Hw4. apply wp_ret. by eapply takes_fixed.
    + intros err w4 Hw4. destruct Hin as [[Ht _]|Hm]; [left|right];
        (destruct Hw2 as [Hh2 _], Hw4 as [Hh4 _]); rewrite Hh4.
      * split; [by rewrite Ht, Hh2|done].
      * by rewrite Hh2 in Hm.
  - intros err w3 Hin. by eapply takes_fixed; [exact Hw2|exact Hin|].
Qed.

(** C5. Only the text of a trusted sender enters the history. Whatever comes of a
    row, and whatever write fails, the history stays as it was or takes one
    text. That text is the plaintext that an Olm session opened from the body
    of the row for this device: the stored session of the sender, or a first
    message that is new, bound to this device, and shown with a certificate of
    the master of the sender. The sender was not revoked in the stored trust,
    and a copy came from another device of the verified own list. A row that
    ends as stored has its text in the history. *)
Theorem stored_text_trusted {E} row now w :
  let '(w', r) := handle_row (E := E) row now o w in
  takes (fun m => (InboxRow.verb row = InboxVerb.PkMsg \/ InboxRow.verb row = InboxVerb.Msg) /\
                  text_of (mem w) (store w) row now m) (mem w) r (mem w').
Proof.
  set (G := fun m => _ /\ _).
  enough (wp o (handle_row (E := E) row now) (fun r w' => takes G (mem w) r (mem w')) w) as Hw
    by exact Hw.
  rewrite handle_row_eq. apply wp_mem. destruct (decide _); [by apply wp_ret, takes_refl|].
  eapply wp_seq with (R := fun r w1 => takes G (mem w) r (mem w1)).
  - unfold row_outcome. assert (forall verb, InboxRow.verb row = verb ->
      verb = InboxVerb.PkMsg \/ verb = InboxVerb.Msg ->
      wp o (receive_message (E := E) row now) (fun r w1 => takes G (mem w) r (mem w1)) w) as Hmsg.
    { intros verb <- Hverb. eapply wp_mono; [apply message_takes|]. intros r w1.
      intros [[Ht Hs]|(m & Hm & Ht)]; [left|right; exists m; by split].
      split; [done|]. intros (m & Hm & Hin)%Hs. exists m. by split. }
    destruct (InboxRow.verb row) eqn:Hv; [|eapply Hmsg; eauto|eapply Hmsg; eauto|].
    + apply takes_unstored.
      * intros P. apply keeps_bind; [apply keeps_attempt, quiet_accept_keys|].
        intros; apply keeps_ret.
      * apply unstored_bind. intros [u|[]]; by apply unstored_ret.
    + apply takes_unstored; [|apply unstored_bind; intros _; by apply unstored_ret].
      intros P. apply keeps_bind; [apply quiet_on_nack|intros; apply keeps_ret].
  - intros outcome w1 Hin. unfold wp, bind.
    destruct (RowOutcome.acknowledge outcome); cbn; exact Hin.
  - by intros err w1 Hin.
Qed.
(** ** The devices of a KEYS answer *)

(** A device of an answer that may be cached: the list of the answer is signed
    by its master and has the device, the device signed its curve key with
    this master and its one-time key, and its [did] is the one of its key. *)
Record checked_device (payload : KeysPayload.t) (entry : KeysEntry.t) (device : PeerDevice.t)
    : Prop := {
  checked_list :
    let block := KeysPayload.master payload in
    verify_signed_list (MasterList.ver (MasterBlock.list block))
      (MasterList.devices (MasterBlock.list block)) (MasterBlock.ed25519 block)
      (MasterBlock.sig block) = Ok tt /\
    PeerDevice.ed25519 device ∈ MasterList.devices (MasterBlock.list block);
  checked_entry : entry ∈ KeysPayload.devices payload /\
    PeerDevice.ed25519 device = IdBlock.ed25519 (KeysEntry.id entry) /\
    PeerDevice.curve25519 device = IdBlock.curve25519 (KeysEntry.id entry) /\
    did_from_key_text (PeerDevice.ed25519 device) = Ok (PeerDevice.did device);
  checked_id :
    verify_signature (PeerDevice.ed25519 device) (IdBlock.sig (KeysEntry.id entry))
      (device_id_signed_text (PeerDevice.curve25519 device)
         (MasterBlock.ed25519 (KeysPayload.master payload))) = Ok tt;
  checked_key : exists text,
    bundle_key_signed_text (OneTimeKey.key (KeysEntry.otk entry)) = Ok text /\
    verify_signature (PeerDevice.ed25519 device) (OneTimeKey.sig (KeysEntry.otk entry)) text =
      Ok tt;
}.

Lemma accept_list_keeps_master s network nick m version keys signature :
  PeerTrust.master s network nick = Some m ->
  PeerTrust.master (PeerTrust.accept_list s network nick m version keys signature).1 network nick =
    Some m.
Proof.
  intros Hm. pose proof (accept_list_cases s network nick m version keys signature) as Hc.
  pose proof (accept_list_pins s) as Hp.
  destruct (PeerTrust.accept_list _ _ _ _ _ _ _) as [s' r] eqn:E. cbn.
  destruct Hc as [(e & _ & ->)|[(_ & _ & r' & Hr & Hr' & ->)|(r' & d & l & -> & _)]]; [done| |].
  - match goal with |- context [<[peer_key network nick := ?r]> s] =>
      destruct (insert_reads s network nick r) as (-> & _) end.
    unfold PeerTrust.master in Hm. rewrite Hr in Hm. cbn in *. by destruct (PeerRecord.released r').
  - by apply Hp in E as [_ ?].
Qed.

Lemma verify_keeps_master trust network nick keys b :
  PeerTrust.master trust network nick = Some (PeerBundle.master b) ->
  PeerTrust.master (verify_peer_device trust network nick keys b).1 network nick =
    Some (PeerBundle.master b).
Proof.
  intros Hm. destruct (verify_peer_device trust network nick keys b) as [trust' [d|e]] eqn:E.
  - apply verify_peer_device_ok in E. apply E.
  - apply verify_peer_device_refused in E as [->|[_ (r & Ha & _)]]; [done|]. cbn.
    pose proof (accept_list_keeps_master trust network nick (PeerBundle.master b)
      (PeerBundle.list_version b) (PeerBundle.list_keys b) (PeerBundle.list_signature b) Hm) as Hk.
    by rewrite Ha in Hk.
Qed.

Section Answer.
Context (network nick : string) (payload : KeysPayload.t).
Notation master := (MasterBlock.ed25519 (KeysPayload.master payload)).

(** What the loop over the devices of an answer keeps. *)
Definition accepted_ok (s : keys_loop) : Prop :=
  (forall device key, (device, key) ∈ loop_accepted s -> exists entry,
     checked_device payload entry device /\ key = OneTimeKey.key (KeysEntry.otk entry)) /\
  (loop_accepted s <> [] -> PeerTrust.master (loop_trust s) network nick = Some master).

Lemma keys_step_ok s entry :
  entry ∈ KeysPayload.devices payload -> accepted_ok s ->
  accepted_ok (keys_step network nick (KeysPayload.master payload) s entry).
Proof.
  intros Hin [Ha Hm]. unfold keys_step. destruct (decide _); [done|].
  set (b := bundle_of (KeysPayload.master payload) entry).
  pose proof (verify_keeps_master (loop_trust s) network nick None b) as Hk.
  destruct (verify_peer_device _ _ _ _ _) as [trust verified] eqn:Hv.
  destruct verified as [device|err]; cbn [rbind].
  2: { split; cbn; auto. }
  destruct (check_one_time_key entry) as [[]|err] eqn:Hotk; cbn [rbind].
  2: { split; cbn; auto. }
  apply verify_peer_device_ok in Hv as (Hl & Hlisted & _ & Hid & Hdid & Hc & He & _ & _ & Hpin).
  split; cbn; [|done]. intros d key [Hd|Hd]%elem_of_app; [auto|].
  apply list_elem_of_singleton in Hd. injection Hd as -> ->. exists entry. split; [|done].
  unfold b, bundle_of in *. cbn in *. unfold check_one_time_key in Hotk.
  apply rbind_ok in Hotk as (text & Ht & Hotk). apply wire_ok in Ht.
  split; rewrite ?He, ?Hc; eauto.
Qed.

Lemma read_devices_ok trust : accepted_ok (read_devices trust network nick payload).
Proof.
  unfold read_devices. destruct (apply_peer_list _ _ _ _ _ _ _) as [trust' applied].
  assert (forall l, (forall x, x ∈ l -> x ∈ KeysPayload.devices payload) -> forall s,
    accepted_ok s -> accepted_ok (foldl (keys_step network nick (KeysPayload.master payload)) s l))
    as Hl.
  { induction l as [|x l IH]; intros Hx s Hs; cbn; [done|].
    apply IH; [intros y Hy; apply Hx; by right|]. apply keys_step_ok; [apply Hx; by left|done]. }
  apply Hl; [auto|]. split; cbn; [|done]. by intros ? ? ?%not_elem_of_nil.
Qed.

(** The cache after the accepted devices. *)
Lemma cached l e did :
  let e' := foldl (cache_device nick) e l in
  (did ∈ (PeerDevice.did ∘ fst <$> l) /\ did ∉ E2eEngine.revoked_dids e' /\
   exists device key, (device, key) ∈ l /\ PeerDevice.did device = did /\
     E2eEngine.peers e' !! did = Some (PeerEntry.mk nick device (Some key))) \/
  (did ∉ (PeerDevice.did ∘ fst <$> l) /\ E2eEngine.peers e' !! did = E2eEngine.peers e !! did).
Proof.
  induction l as [|[d key] l IH] using rev_ind; cbn.
  { right. split; [apply not_elem_of_nil|done]. }
  cbn in IH. rewrite foldl_app. cbn. rewrite fmap_app. cbn.
  destruct (decide (PeerDevice.did d = did)) as [<-|Hne].
  - left. split_and!; [apply elem_of_app; right; by left|set_solver|].
    exists d, key. split_and!; [apply elem_of_app; right; by left|done|by rewrite lookup_insert_eq].
  - destruct IH as [(H1 & H2 & d' & k' & H3 & H4 & H5)|[H1 H2]].
    + left. split_and!; [apply elem_of_app; by left|set_solver|].
      exists d', k'. split_and!; [apply elem_of_app; by left|done|by rewrite lookup_insert_ne].
    + right. split; [|by rewrite lookup_insert_ne].
      rewrite elem_of_app, list_elem_of_singleton. naive_solver.
Qed.

(** Another master than the pinned one is refused whole. *)
Lemma other_master_step s entry m :
  PeerTrust.master (loop_trust s) network nick = Some m -> m <> master -> loop_accepted s = [] ->
  let s' := keys_step network nick (KeysPayload.master payload) s entry in
  PeerTrust.master (loop_trust s') network nick = Some m /\ loop_accepted s' = [].
Proof.
  intros Hm Hne Hs. unfold keys_step. cbv zeta. destruct (decide _); [done|].
  set (b := bundle_of (KeysPayload.master payload) entry).
  destruct (verify_peer_device _ _ _ _ _) as [trust [d|err]] eqn:Hv; cbn.
  - apply verify_peer_device_ok in Hv as (_ & _ & _ & _ & _ & _ & _ & _ & Hpin & _).
    rewrite Hm in Hpin. unfold b in Hpin. cbn in Hpin. naive_solver.
  - apply verify_peer_device_refused in Hv as [->|[Hpin _]]; [done|].
    rewrite Hm in Hpin. unfold b in Hpin. cbn in Hpin. naive_solver.
Qed.

Lemma other_master_list trust version keys signature m :
  PeerTrust.master trust network nick = Some m -> m <> master ->
  (apply_peer_list trust network nick master version keys signature).1 = trust.
Proof.
  intros Hm Hne. unfold apply_peer_list.
  destruct (PeerTrust.observe_master _ _ _ _) as [next [status|err]] eqn:Ho; [|done].
  destruct (decide (status = Changed)) as [|Hs]; [done|].
  destruct (observe_master_pins _ _ _ _ _ _ Ho Hs) as (_ & Hpin & _). rewrite Hm in Hpin.
  naive_solver.
Qed.

Lemma other_master_refused trust m :
  PeerTrust.master trust network nick = Some m -> m <> master ->
  loop_accepted (read_devices trust network nick payload) = [].
Proof.
  intros Hm Hne. unfold read_devices.
  pose proof (other_master_list trust
    (MasterList.ver (MasterBlock.list (KeysPayload.master payload)))
    (MasterList.devices (MasterBlock.list (KeysPayload.master payload)))
    (MasterBlock.sig (KeysPayload.master payload)) m Hm Hne) as Ht.
  destruct (apply_peer_list _ _ _ _ _ _ _) as [trust' applied]. cbn in Ht. subst trust'.
  assert (forall l s, PeerTrust.master (loop_trust s) network nick = Some m ->
    loop_accepted s = [] ->
    loop_accepted (foldl (keys_step network nick (KeysPayload.master payload)) s l) = []) as Hl.
  { induction l as [|x l IH]; intros s Hs Ha; cbn; [done|].
    by apply IH; apply (other_master_step s x m). }
  by apply Hl.
Qed.
End Answer.

(** What [forget_revoked] leaves in the cache. *)
Lemma forget_revoked_peers {E} trust w :
  wp o (forget_revoked (E := E) trust) (fun r w' =>
    r = Ok tt /\ store w' = store w /\ log w' = log w /\
    E2eEngine.network (mem w') = E2eEngine.network (mem w) /\
    forall did entry, E2eEngine.peers (mem w') !! did = Some entry ->
      E2eEngine.peers (mem w) !! did = Some entry /\
      entry_revoked (mem w) entry trust = false) w.
Proof.
  unfold forget_revoked, wp, modify. cbn. set (e := mem w).
  split_and!; [done..| |].
  { apply foldl_part. by intros. }
  intros did entry. set (revoked := fst <$> _).
  assert (forall l e0, E2eEngine.peers (foldl (fun e did =>
      E2eEngine.set_revoked_dids ({[did]} ∪ E2eEngine.revoked_dids e)
        (E2eEngine.set_peers (delete did (E2eEngine.peers e)) e)) e0 l) !! did = Some entry ->
    E2eEngine.peers e0 !! did = Some entry /\ did ∉ l) as Hl.
  { induction l as [|x l IH]; intros e0; cbn; [split; [done|apply not_elem_of_nil]|].
    intros [Hx Hnot]%IH. cbn in Hx. apply lookup_delete_Some in Hx as [Hne Hx].
    split; [done|]. by apply not_elem_of_cons. }
  intros [Hin Hnot]%Hl. split; [done|]. destruct (entry_revoked e entry trust) eqn:Hr; [|done].
  destruct Hnot. unfold revoked. apply list_elem_of_fmap. exists (did, entry). split; [done|].
  apply list_elem_of_In, filter_In. split; [|done]. by apply list_elem_of_In, elem_of_map_to_list.
Qed.
(** A KEYS answer that was accepted. *)
Record keys_accepted (nick : string) (payload : KeysPayload.t) (dids : list string) w w' : Prop := {
  accepted_some : dids <> [];
  accepted_master : forall m,
    PeerTrust.master (StateData.trust (data_of w)) (E2eEngine.network (mem w)) nick = Some m ->
    m = MasterBlock.ed25519 (KeysPayload.master payload);
  accepted_pinned :
    PeerTrust.master (StateData.trust (data_of w')) (E2eEngine.network (mem w)) nick =
      Some (MasterBlock.ed25519 (KeysPayload.master payload));
  accepted_devices : forall did, did ∈ dids -> did ∉ E2eEngine.revoked_dids (mem w') /\
    exists entry device, checked_device payload entry device /\ PeerDevice.did device = did /\
      E2eEngine.peers (mem w') !! did =
        Some (PeerEntry.mk nick device (Some (OneTimeKey.key (KeysEntry.otk entry))));
  accepted_others : forall did entry, did ∉ dids ->
    E2eEngine.peers (mem w') !! did = Some entry ->
    E2eEngine.peers (mem w) !! did = Some entry /\
    entry_revoked (mem w) entry (StateData.trust (data_of w')) = false;
}.

(** C11. Only checked devices are cached. When a KEYS answer gives devices, each one
    is in the list that the master of the answer signed, signed its own keys
    with this master, and is cached with its one-time key; the master is the
    pinned one, or the peer had none; the trust is saved with it; and of the
    other cached devices none stays that the saved trust revokes. *)
Theorem accept_keys_sound (nick keys : string) (dids : list string) w w'
    (Hrun : accept_keys nick keys o w = (w', Ok dids)) :
  exists payload, read_keys keys = Ok payload /\ keys_accepted nick payload dids w w'.
Proof.
  enough (wp o (accept_keys nick keys) (fun r w' => forall dids, r = Ok dids ->
    exists payload, read_keys keys = Ok payload /\ keys_accepted nick payload dids w w') w) as Hw.
  { unfold wp in Hw. rewrite Hrun in Hw. by apply Hw. }
  clear Hrun w' dids. unfold accept_keys. apply wp_read; [by intros|]. intros payload Hread.
  apply wp_data, wp_mem. set (network := E2eEngine.network (mem w)).
  set (trust0 := StateData.trust (data_of w)).
  pose proof (read_devices_ok network nick payload trust0) as [Hok Hmaster].
  pose proof (other_master_refused network nick payload trust0) as Hother.
  set (read := read_devices trust0 network nick payload) in *.
  eapply wp_seq with (R := fun _ w1 => store w1 = store w /\
    E2eEngine.network (mem w1) = network /\ E2eEngine.peers (mem w1) = E2eEngine.peers (mem w));
    [by destruct (loop_changed read)| |by intros].
  intros _ w1 (Hs1 & Hn1 & Hp1). eapply wp_seq with (R := fun r w2 => r = Ok tt ->
    mem w2 = mem w1 /\ StateData.trust (data_of w2) = loop_trust read); [| |by intros].
  { unfold save_trust, store_step. apply wp_with_err. eapply wp_mono;
      [apply on_store_moves, commits_set_trust|].
    intros [[]|err] w2 Hw2; cbn; [|done]. destruct Hw2 as [Hm2 [Hs2 _]]. by rewrite Hs2. }
  intros [] w2 Hw2. destruct (Hw2 eq_refl) as [Hm2 Hs2]. eapply wp_seq; [apply forget_revoked_peers| |naive_solver].
  intros _ w3 (_ & Hs3 & _ & Hn3 & Hp3).
  assert (StateData.trust (data_of w3) = loop_trust read) as Ht3 by (rewrite Hs3, Hs2; done).
  eapply wp_seq with (R := fun r w4 => r = Ok tt /\ store w4 = store w3 /\
    mem w4 = foldl (cache_device nick) (mem w3) (loop_accepted read)); [done| |naive_solver].
  intros _ w4 (_ & Hs4 & Hm4).
  destruct (PeerDevice.did ∘ fst <$> loop_accepted read) as [|d ds] eqn:Hdids.
  { destruct (loop_error read); by apply wp_raise. }
  eapply wp_seq with (R := fun r w5 => r = Ok tt /\ store w5 = store w4 /\
    E2eEngine.peers (mem w5) = E2eEngine.peers (mem w4) /\
    E2eEngine.revoked_dids (mem w5) = E2eEngine.revoked_dids (mem w4)); [done| |naive_solver].
  intros _ w5 (_ & Hs5 & Hp5 & Hr5). apply wp_ret. intros dids [= <-].
  exists payload. split; [done|].
  assert (loop_accepted read <> []) as Hne by (intros Heq; by rewrite Heq in Hdids).
  assert (StateData.trust (data_of w5) = loop_trust read) as Ht5 by (by rewrite Hs5, Hs4).
  split; [done| | | |].
  - intros m Hm. destruct (decide (m = MasterBlock.ed25519 (KeysPayload.master payload)))
      as [|Hx]; [done|]. by destruct Hne; apply (Hother m).
  - rewrite Ht5. by apply Hmaster.
  - intros did Hin. rewrite Hr5, Hp5, Hm4.
    destruct (cached nick (loop_accepted read) (mem w3) did)
      as [(_ & Hr & device & key & Hd & He & Hp)|[Hnot _]]; [|by rewrite Hdids in Hnot].
    split; [done|]. destruct (Hok _ _ Hd) as (entry & Hc & ->). eauto.
  - intros did entry Hnot. rewrite Hp5, Hm4, Ht5.
    destruct (cached nick (loop_accepted read) (mem w3) did) as [[Hin _]|[_ ->]];
      [by rewrite Hdids in Hin|].
    intros [Hp Hr]%Hp3. rewrite Hm2, Hp1 in Hp. split; [done|].
    unfold entry_revoked in *. by rewrite Hm2, Hn1 in Hr.
Qed.
End TrustOfRows.
