(* ===== verification/EngineBoundsFacts.v ===== *)
(** * Bounds of what the engine holds

    The records of sent texts, the waiting copies, the number of times that a
    text or a copy is sent, and what a NACK may do. *)

From S2P Require Import Prelude.
From S2P Require Import RustStr.
From S2P Require Import Interfaces.
From S2P Require Import Isupport.
From S2P Require Import Wire.
From S2P Require Import Device.
From S2P Require Import Manage.
From S2P Require Import Trust.
From S2P Require Import Peer.
From S2P Require Import Files.
From S2P Require Import History.
From S2P Require Import State.
From S2P Require Import DeviceRoutes.
From S2P Require Import Pacing.
From S2P Require Import Refusal.
From S2P Require Import IdentityRoutes.
From S2P Require Import Protocol.
From S2P Require Import SendDoor.
From S2P Require Import SelfCopy.
From S2P Require Import Effects.
From S2P Require Import Client.
From S2P Require Import EffectsFacts.
From S2P Require Import EngineTypes.
From S2P Require Import Engine.
From S2P Require Import EngineReceive.
From S2P Require Import EngineSend.
From S2P Require Import EngineCopies.
From S2P Require Import EngineFacts.
From S2P Require Import EngineSendFacts.
From stdpp Require Import options.

#[local] Open Scope eff_scope.

(** ** The records of sent texts *)

(** The sums of times that [clocked] wraps never panic: no reading of the clock
    is past [INSTANT_MAX]. *)
Lemma queue_clock {St} (queue : OutgoingQueue.t) (item : QueuedSend.t) (key : SendKey.t)
    (cm : CaseMapping.t) (now : N) (ready : St -> QueuedSend.t -> St * bool) (st : St) :
  (now <= INSTANT_MAX)%N ->
  is_Some (OutgoingQueue.push queue key cm now) /\ is_Some (OutgoingQueue.expire queue now) /\
  is_Some (OutgoingQueue.take_matching queue now ready st) /\
  is_Some (check_send_deadline now (QueuedSend.deadline item)).
Proof.
  intros Hnow.
  assert (forall d, (d <= md3_pacing.OUTGOING_QUEUE_TTL)%N -> duration_add now d = Some (now + d)%N)
    as Hadd.
  { intros d Hd. unfold duration_add. assert (INSTANT_MAX + md3_pacing.OUTGOING_QUEUE_TTL <=
      DURATION_MAX)%N by (vm_compute; discriminate).
    apply checked_add_Some. split; [lia|done]. }
  assert (forall deadline, is_Some (check_send_deadline now deadline)) as Hcheck.
  { intros deadline. unfold check_send_deadline. rewrite Hadd by (vm_compute; discriminate).
    by eexists. }
  assert (is_Some (OutgoingQueue.expire queue now)) as Hexp.
  { induction queue as [|i queue [[kept late] IH]]; cbn [OutgoingQueue.expire]; [by eexists|].
    destruct (Hcheck (QueuedSend.deadline i)) as [d ->]. cbn. rewrite IH. by eexists. }
  split_and!; [|done| |auto].
  - unfold OutgoingQueue.push. destruct (_ <=? _)%N; [by eexists|].
    rewrite Hadd by done. by eexists.
  - unfold OutgoingQueue.take_matching. destruct Hexp as [[live late] ->]. cbn.
    destruct (OutgoingQueue.take_loop _ _ _) as [[st' taken] kept]. by eexists.
Qed.

Section Records.
Implicit Types (sent : gmap string SentRecord.t).

Lemma oldest_sent_in sent msgid : oldest_sent sent = Some msgid -> is_Some (sent !! msgid).
Proof.
  unfold oldest_sent. rewrite fmap_Some. intros ([id at_] & Hf & ->).
  set (step := fun best p => _) in Hf.
  assert (forall l best, (forall b, best = Some b -> is_Some (sent !! b.1)) ->
    (forall p, p ∈ l -> is_Some (sent !! p.1)) ->
    foldl step best l = Some (id, at_) -> is_Some (sent !! id)) as Hl.
  { induction l as [|[k r] l IH]; intros best Hb Hin; cbn [foldl].
    - intros ->. by apply (Hb (id, at_)).
    - apply IH; [|intros p Hp; apply Hin; by right].
      intros b. unfold step. assert (is_Some (sent !! k)) as Hk by (apply (Hin (k, r)); by left).
      destruct best as [[k' t']|]; [|by intros [= <-]].
      destruct (_ <? _)%N; [by intros [= <-]|]. intros [= <-]. by apply (Hb (k', t')). }
  apply (Hl (map_to_list sent) None); [done| |done].
  intros [k r] Hp%elem_of_map_to_list. by exists r.
Qed.

Lemma oldest_sent_some sent : sent <> ∅ -> oldest_sent sent <> None.
Proof.
  unfold oldest_sent. intros Hne Hn. apply fmap_None in Hn.
  destruct (map_to_list sent) as [|p l] eqn:E; [by apply map_to_list_empty_iff in E|].
  cbn [foldl] in Hn. destruct p as [k r].
  match type of Hn with foldl ?f ?a l = None =>
    assert (forall l' b, foldl f (Some b) l' <> None) as Hf end.
  { induction l' as [|[k' r'] l' IH]; intros [i t]; cbn [foldl]; [done|].
    destruct (_ <? _)%N; apply IH. }
  by apply Hf in Hn.
Qed.

Lemma trim_count_bound fuel sent :
  size sent <= fuel -> (N.of_nat (size (trim_count fuel sent)) <= md3_pacing.SENT_MAX)%N.
Proof.
  revert sent. induction fuel as [|fuel IH]; intros sent Hsize; cbn [trim_count]; [lia|].
  destruct (_ <? _)%N eqn:Hlt; [|apply N.ltb_ge in Hlt; lia]. apply N.ltb_lt in Hlt.
  destruct (oldest_sent sent) as [msgid|] eqn:Ho.
  - apply IH. apply oldest_sent_in in Ho as [r Hr].
    rewrite map_size_delete, Hr. lia.
  - exfalso. apply (oldest_sent_some sent); [|done]. intros ->. rewrite map_size_empty in Hlt.
    lia.
Qed.

Lemma trim_count_sub fuel sent k r : trim_count fuel sent !! k = Some r -> sent !! k = Some r.
Proof.
  revert sent. induction fuel as [|fuel IH]; intros sent; cbn [trim_count]; [done|].
  destruct (_ <? _)%N; [|done]. destruct (oldest_sent sent); [|done].
  intros Hk%IH. by apply lookup_delete_Some in Hk as [_ ?].
Qed.

(** The loop ends with at most [SENT_MAX] records, all of them kept ones. *)
Lemma trim_sent_bound now sent :
  (N.of_nat (size (trim_records now sent)) <= md3_pacing.SENT_MAX)%N /\
  forall k r, trim_records now sent !! k = Some r -> sent !! k = Some r.
Proof.
  unfold trim_records. split; [by apply trim_count_bound|].
  intros k r Hk%trim_count_sub. by apply map_lookup_filter_Some in Hk as [? _].
Qed.
End Records.

(** ** What every call keeps *)

(** A copy is tried at most [MAX_SENDS] times, and not again after that. *)
Definition job_ok (job : CopyJob.t) : Prop :=
  forall did tries, CopyJob.tries job !! did = Some tries ->
    (tries <= md3_pacing.MAX_SENDS)%N /\
    (did ∉ CopyJob.finished job -> tries < md3_pacing.MAX_SENDS)%N.

(** The sends that a copy has left for a device, and that the jobs have left. *)
Definition due_to (job : CopyJob.t) (did : string) : nat :=
  if bool_decide (did ∈ CopyJob.finished job) then 0
  else N.to_nat (md3_pacing.MAX_SENDS - default 0%N (CopyJob.tries job !! did)).

Definition due_job (job : CopyJob.t) : nat :=
  sum_list_with (due_to job) (elements (CopyJob.recipients job)).

Definition due_jobs (jobs : list CopyJob.t) : nat := sum_list_with due_job jobs.

(** The copies that the requests of a log carried. *)
Section Posted.
Context {J : Json} {U : UrlLib}.

Definition is_copy (ev : event) : bool :=
  match ev with
  | Sent q _ => match body q with Body.Copy _ => true | _ => false end
  | _ => false
  end.

Definition copies_posted (l : list event) : nat := length (List.filter is_copy l).

Lemma copies_snoc l ev : copies_posted (l ++ [ev]) = copies_posted l + (if is_copy ev then 1 else 0).
Proof.
  unfold copies_posted. rewrite List.filter_app, length_app. cbn. by destruct (is_copy ev).
Qed.
End Posted.

(** An engine with at most so many records and jobs; each record and each
    waiting text, by its text, its row and its number of sends, and each job
    hold what is asked of them. *)
Record engine_holds (Ps Pp : string -> string -> N -> Prop) (Pj : CopyJob.t -> Prop)
    (e : E2eEngine.t) : Prop := {
  sent_few : (N.of_nat (size (E2eEngine.sent e)) <= md3_pacing.SENT_MAX)%N;
  sent_again : forall msgid r, E2eEngine.sent e !! msgid = Some r ->
    Ps (SentRecord.text r) (SentRecord.row_id r) (SentRecord.sends r);
  pending_again : forall key p, E2eEngine.pending e !! key = Some p ->
    Pp (PendingText.text p) (PendingText.row_id p) (PendingText.sends p);
  jobs_few : (lenN (E2eEngine.copy_jobs e) <= md3_pacing.OUTGOING_QUEUE_MAX)%N;
  jobs_ok : Forall Pj (E2eEngine.copy_jobs e);
}.

Definition few_sends (text row_id : string) (sends : N) : Prop :=
  (1 <= sends <= md3_pacing.MAX_SENDS)%N.

Definition engine_bounded : E2eEngine.t -> Prop := engine_holds few_sends few_sends job_ok.

Section Bounds.
Context {C : Crypto} {J : Json} {U : UrlLib} {T : StateText} {A : Aead} {O : Olm}.
Context {H : HistoryText} {X : EngineText} {S : OlmSessions}.
Context (client : GrappaClient.t) (token : string) (server_protocol : option N) (o : outside).
Implicit Types (w : world E2eEngine.t) (e : E2eEngine.t).

Section Holds.
Context (Ps Pp : string -> string -> N -> Prop) (Pj : CopyJob.t -> Prop).
Notation ok := (engine_holds Ps Pp Pj).

(** The engine holds this, and the log has at most so many copies. *)
Definition holds (copies : nat) w : Prop := ok (mem w) /\ copies_posted (log w) <= copies.

(** A change of other parts. *)
Lemma bounded_same e e' :
  E2eEngine.sent e' = E2eEngine.sent e -> E2eEngine.pending e' = E2eEngine.pending e ->
  E2eEngine.copy_jobs e' = E2eEngine.copy_jobs e -> ok e -> ok e'.
Proof. intros Hs Hp Hj [H1 H2 H3 H4 H5]. split; by rewrite ?Hs, ?Hp, ?Hj. Qed.

Lemma bounded_pending e e' :
  E2eEngine.sent e' = E2eEngine.sent e -> E2eEngine.copy_jobs e' = E2eEngine.copy_jobs e ->
  (forall key p, E2eEngine.pending e' !! key = Some p ->
     Pp (PendingText.text p) (PendingText.row_id p) (PendingText.sends p)) ->
  ok e -> ok e'.
Proof. intros Hs Hj Hp [H1 H2 H3 H4 H5]. split; by rewrite ?Hs, ?Hj. Qed.

Lemma bounded_delete_pending key e e' :
  E2eEngine.sent e' = E2eEngine.sent e -> E2eEngine.copy_jobs e' = E2eEngine.copy_jobs e ->
  E2eEngine.pending e' = delete key (E2eEngine.pending e) -> ok e -> ok e'.
Proof.
  intros Hs Hj Hp He. apply (bounded_pending e); [done|done| |done].
  intros k p. rewrite Hp. intros [_ Hk]%lookup_delete_Some. by apply (pending_again _ _ _ e He k).
Qed.

Lemma bounded_insert_pending key p e e' :
  E2eEngine.sent e' = E2eEngine.sent e -> E2eEngine.copy_jobs e' = E2eEngine.copy_jobs e ->
  E2eEngine.pending e' = <[key := p]> (E2eEngine.pending e) ->
  Pp (PendingText.text p) (PendingText.row_id p) (PendingText.sends p) -> ok e -> ok e'.
Proof.
  intros Hs Hj Hp Hsends He. apply (bounded_pending e); [done|done| |done].
  intros k q. rewrite Hp. intros [[_ <-]|[_ Hk]]%lookup_insert_Some; [done|].
  by apply (pending_again _ _ _ e He k).
Qed.

Lemma bounded_sent sent e :
  (N.of_nat (size sent) <= md3_pacing.SENT_MAX)%N ->
  (forall msgid r, sent !! msgid = Some r ->
     Ps (SentRecord.text r) (SentRecord.row_id r) (SentRecord.sends r)) ->
  ok e -> ok (E2eEngine.set_sent sent e).
Proof. intros Hs Hr [H1 H2 H3 H4 H5]. by split. Qed.

Section Count.
Context (copies : nat).
Notation I := (holds copies).

Lemma holds_record w ev : is_copy ev = false -> I w -> I (record w ev).
Proof.
  intros Hev [He Hl]. split; [done|]. cbn [log record]. rewrite copies_snoc, Hev. lia.
Qed.

Lemma holds_modify {E} (f : E2eEngine.t -> E2eEngine.t) :
  (forall e, ok e -> ok (f e)) -> keeps o I (modify (E := E) f).
Proof. intros Hf. apply keeps_modify. intros w [He Hl]. split; [by apply Hf|done]. Qed.

Lemma holds_clock {E} : keeps o I (clock_now (E := E)).
Proof. apply keeps_clock. intros w t. by apply holds_record. Qed.

Lemma holds_draw {E} : keeps o I (draw (E := E)).
Proof. apply keeps_draw. intros w t. by apply holds_record. Qed.

Lemma engine_holds_on_store {F V} (op : io_env -> disk -> Store.t -> disk * Store.t * result V F) :
  keeps o I (on_store op).
Proof.
  intros w Hw. unfold wp, on_store. destruct (op _ _ _) as [[d s] [r|err]];
    (split; [|done]); by eapply (holds_record (mk_world d s (mem w) (log w))).
Qed.

Lemma bounded_on_history {V} op (get := E2eEngine.history) (put := E2eEngine.set_history) :
  keeps o I (on_history (A := V) get put op).
Proof.
  intros w [He Hl]. unfold wp, on_history. destruct (op _ _ _ _) as [[d h] r]. split; [|done].
  assert (I (mk_world d (store w) (put h (mem w)) (log w))) as Hw.
  { split; [by apply (bounded_same (mem w))|done]. }
  destruct r; by eapply holds_record in Hw.
Qed.

(** The calls, with no copy in them. *)
Lemma engine_holds_call {V} (allowed : request -> Prop) (m : eff E2eEngine.t E2eRouteError.t V) :
  (forall w, wp o m (fun r w' => one_call allowed o w r w') w) ->
  (forall q a, allowed q -> is_copy (Sent q a) = false) -> keeps o I m.
Proof.
  intros Hm Hq. eapply keeps_one_call; [exact Hm|]. intros w q a Hw Ha. apply holds_record; auto.
Qed.

Lemma holds_request {V F} (allowed : request -> Prop) (m : eff E2eEngine.t F V) :
  (forall w, wp o m (fun r w' => one_request allowed o w r w') w) ->
  (forall q a, allowed q -> is_copy (Sent q a) = false) -> keeps o I m.
Proof.
  intros Hm Hq. eapply keeps_one_request; [exact Hm|]. intros w q a Hw Ha. apply holds_record; auto.
Qed.

Tactic Notation "calls" uconstr(L) :=
  first [eapply engine_holds_call | eapply holds_request]; [intros ?; apply L|
    let Hq := fresh in intros ? ? [_ Hq]; unfold is_copy; by rewrite Hq].

(** Goals [keeps o I m], where the changes of the memory are of other parts or
    take a pending text away. *)
Ltac bounded :=
  eng_parts;
  try first
    [ let e := fresh "e" in let He := fresh "He" in
      apply holds_modify; intros e He; apply (bounded_same e); cbn;
      repeat case_match; cbn; first [done | by rewrite ?foldl_part]
    | let e := fresh "e" in let He := fresh "He" in
      apply holds_modify; intros e He; eapply bounded_delete_pending; [..|exact He]; done
    | apply holds_clock | apply holds_draw | apply engine_holds_on_store | apply bounded_on_history ].

Lemma bounded_note_drops {E} drops : keeps o I (note_drops (E := E) drops).
Proof. unfold note_drops, note_drop, note_changed. bounded. Qed.

Lemma bounded_fail_send {E} key reason : keeps o I (fail_send (E := E) key reason).
Proof. unfold fail_send. bounded. apply bounded_note_drops. Qed.

Lemma settle_bounded late e : ok e ->
  ok (foldl (fun e drop => settle_one drop e) e late).
Proof.
  revert e. induction late as [|drop late IH]; intros e He; [done|]. cbn. apply IH.
  by apply (bounded_delete_pending (SendDropped.key drop) e).
Qed.

Lemma bounded_settle_late {E} late : keeps o I (settle_late (E := E) late).
Proof.
  unfold settle_late. apply keeps_bind; [apply holds_modify, settle_bounded|]. intros _.
  bounded. apply bounded_note_drops.
Qed.

Lemma bounded_trim {E} : keeps o I (trim_sent (E := E)).
Proof.
  unfold trim_sent. apply keeps_bind; [apply holds_clock|]. intros now. apply holds_modify.
  intros e He. destruct (trim_sent_bound now (E2eEngine.sent e)) as [Hb Hsub].
  apply bounded_sent; [done| |done]. intros msgid r Hr%Hsub. by apply (sent_again _ _ _ e He msgid).
Qed.

Lemma bounded_remember {E} msgid nick dids text sends row_id :
  Ps text row_id sends -> keeps o I (remember_sent (E := E) msgid nick dids text sends row_id).
Proof.
  intros Hsends. unfold remember_sent. apply keeps_bind; [apply keeps_get_data|]. intros data.
  apply keeps_bind; [apply holds_clock|]. intros now w Hw. unfold wp, bind, modify, trim_sent, clock_now.
  destruct Hw as [He Hl]. split; [|done]. split; cbn [mem log];
    [|unfold record; cbn [log]; rewrite !copies_snoc; cbn [is_copy]; lia].
  set (e := mem w) in *. set (sent := <[_ := _]> _).
  match goal with |- ok (E2eEngine.set_sent ?s ?e1) =>
    change (ok (E2eEngine.set_sent s e)) end.
  set (now' := N.min _ _). destruct (trim_sent_bound now' sent) as [Hb Hsub].
  apply bounded_sent; [done| |done]. intros k r Hr%Hsub. unfold sent in Hr.
  apply lookup_insert_Some in Hr as [[_ <-]|[_ Hr]]; [done|]. by apply (sent_again _ _ _ e He k).
Qed.
Lemma bounded_save_trust trust : keeps o I (save_trust trust).
Proof. unfold save_trust, store_step. bounded. Qed.

Lemma bounded_forget_revoked {E} trust : keeps o I (forget_revoked (E := E) trust).
Proof. unfold forget_revoked. bounded. Qed.

Lemma bounded_cache {E} nick l :
  keeps o I (modify (E := E) (fun e => foldl (cache_device nick) e l)).
Proof.
  apply holds_modify. intros e He. apply (bounded_same e); [..|done];
    apply foldl_part; by intros ? [].
Qed.

Lemma bounded_accept_keys nick keys : keeps o I (accept_keys nick keys).
Proof.
  unfold accept_keys, note_trust_changed, set_peer_capability. bounded.
  all: first [apply bounded_save_trust | apply bounded_forget_revoked | apply bounded_cache].
Qed.

Lemma bounded_apply_list nick block : keeps o I (apply_list_message nick block).
Proof.
  unfold apply_list_message, note_trust_changed. bounded.
  all: first [apply bounded_save_trust | apply bounded_forget_revoked].
Qed.

Lemma bounded_list_reply {E} nick did : keeps o I (queue_list_reply (E := E) nick did).
Proof. unfold queue_list_reply. bounded. Qed.

Lemma bounded_save_state nick did decrypted : keeps o I (save_state nick did decrypted).
Proof. unfold save_state. bounded. Qed.

Lemma bounded_store_decrypted {E} nick row decrypted peer row_id device text now :
  keeps o I (store_decrypted (E := E) nick row decrypted peer row_id device text now).
Proof. unfold store_decrypted, append_row, note_changed. bounded. apply bounded_save_state. Qed.

Lemma bounded_keep_session {E} nick row decrypted :
  keeps o I (keep_session (E := E) nick row decrypted).
Proof. unfold keep_session. bounded. apply bounded_save_state. Qed.

Lemma bounded_queue_again {E} key record nacked :
  Pp (SentRecord.text record) (SentRecord.row_id record) (SentRecord.sends record + 1)%N ->
  keeps o I (queue_again (E := E) key record nacked).
Proof.
  intros Hp. unfold queue_again, want_keys. bounded; try apply bounded_fail_send.
  apply holds_modify. intros e He. eapply bounded_insert_pending; [..|exact He]; done.
Qed.

Lemma take_nacked_bounded reference nacked record e :
  E2eEngine.sent e !! reference = Some record -> ok e ->
  ok (take_nacked reference nacked record e).
Proof.
  intros Hr He. unfold take_nacked. pose proof (sent_again _ _ _ e He) as Hagain.
  pose proof (sent_few _ _ _ e He) as Hfew.
  assert (size (E2eEngine.sent e) = Datatypes.S (size (delete reference (E2eEngine.sent e)))) as Hsize.
  { rewrite map_size_delete, Hr. assert (size (E2eEngine.sent e) <> 0); [|lia].
    intros Hz%map_size_empty_inv. by rewrite Hz in Hr. }
  apply bounded_sent; [| |done].
  - destruct (other_devices record nacked); [lia|].
    rewrite map_size_insert_None by apply lookup_delete_eq. lia.
  - intros k r. assert (delete reference (E2eEngine.sent e) !! k = Some r ->
      Ps (SentRecord.text r) (SentRecord.row_id r) (SentRecord.sends r)) as Hd.
    { intros [_ Hk]%lookup_delete_Some. by apply (Hagain k). }
    destruct (other_devices record nacked); [done|].
    intros [[_ <-]|[_ Hk]]%lookup_insert_Some; [|by apply Hd]. cbn. by apply (Hagain reference).
Qed.

(** A text that may wait again, with one more send. *)
Context (Hagain : forall text row_id sends, Ps text row_id sends ->
  (sends < md3_pacing.MAX_SENDS)%N -> Pp text row_id (sends + 1)%N).

Lemma bounded_on_nack {E} row : keeps o I (on_nack (E := E) row).
Proof using Hagain.
  unfold on_nack. apply keeps_bind; [apply bounded_trim|]. intros _ w Hw. apply wp_mem.
  destruct (nack_reference _) as [reference|]; [|by apply wp_ret].
  destruct (E2eEngine.sent (mem w) !! reference) as [record|] eqn:Hr; [|by apply wp_ret].
  pose proof (sent_again _ _ _ _ (proj1 Hw) _ _ Hr) as Hone.
  destruct (negb _); [by apply wp_ret|]. match goal with |- context [if ?b then _ else _] =>
    destruct b end.
  - refine ((_ : keeps o I _) w Hw). apply keeps_bind.
    + apply holds_modify. intros e He. apply bounded_sent; [| |done].
      * pose proof (sent_few _ _ _ e He). rewrite map_size_delete.
        destruct (E2eEngine.sent e !! reference); cbn; lia.
      * intros k r [_ Hk]%lookup_delete_Some. by apply (sent_again _ _ _ e He k).
    + intros _. bounded. apply bounded_fail_send.
  - destruct (negb _); [by apply wp_ret|].
    eapply wp_seq with (R := fun _ w' => I w');
      [split; [by apply take_nacked_bounded, Hw|apply Hw]| |by intros].
    intros _ w' Hw'. destruct (_ <=? _)%N eqn:Hle.
    + refine ((_ : keeps o I _) w' Hw'). bounded. apply bounded_fail_send.
    + apply N.leb_gt in Hle. refine ((_ : keeps o I _) w' Hw'). bounded;
        [apply bounded_fail_send|by apply bounded_queue_again, Hagain].
Qed.
Lemma bounded_receive_message {E} row now : keeps o I (receive_message (E := E) row now).
Proof.
  unfold receive_message, receive_copy, stale_or_refuse, read_message, list_effect, note_unread,
    want_keys, note_trust_changed, set_peer_capability, refresh_stale_list, note_list_version,
    maybe_list_request. bounded.
  all: first [apply bounded_store_decrypted | apply bounded_keep_session | apply bounded_apply_list
             | apply bounded_list_reply].
Qed.

Lemma bounded_handle_row {E} row now : keeps o I (handle_row (E := E) row now).
Proof using Hagain.
  unfold handle_row. bounded.
  all: first [apply bounded_accept_keys | apply bounded_on_nack | apply bounded_receive_message].
Qed.

Lemma bounded_ack ids : keeps o I (ack client token server_protocol ids).
Proof. unfold ack. bounded. calls ack_call. Qed.

Lemma bounded_event row now : keeps o I (handle_event client token server_protocol row now).
Proof using Hagain. unfold handle_event. bounded; first [apply bounded_handle_row | apply bounded_ack]. Qed.

Lemma bounded_drain fuel now : keeps o I (drain client token server_protocol fuel now).
Proof using Hagain.
  assert (forall rows, keeps o I (handle_page rows now)) as Hpage.
  { induction rows as [|row rows IH]; cbn [handle_page]; bounded.
    all: first [apply bounded_handle_row | exact IH]. }
  unfold drain. generalize (@None N) as after. generalize (@nil (N * RowOutcome.t)) as outs.
  induction fuel as [|fuel IH]; intros outs after; cbn [drain_pages]; bounded.
  - calls inbox_call.
  - apply Hpage.
  - apply bounded_ack.
  - apply IH.
Qed.

Lemma bounded_claim_keys nick did : keeps o I (claim_keys client token server_protocol nick did).
Proof.
  unfold claim_keys. bounded; [calls claim_call|apply bounded_accept_keys].
Qed.

Lemma bounded_sync : keeps o I (sync_own_list client token server_protocol).
Proof.
  unfold sync_own_list, store_step. bounded. calls fetch_list_call.
Qed.

Lemma bounded_request_keys nick : keeps o I (request_keys client token nick).
Proof.
  unfold request_keys. bounded. calls message_call.
Qed.

(** ** Sending *)

Lemma bounded_seal identity entries out lv : keeps o I (seal identity entries out lv).
Proof. eapply gives_keeps, seal_gives. intros w seed. by apply holds_record. Qed.

Lemma bounded_emit nick sealed own priority : keeps o I (emit client token nick sealed own priority).
Proof.
  assert (forall chunk, keeps o I (emit_group client token nick chunk own priority)) as Hgroup.
  { intros chunk. unfold emit_group, save_sealed, store_step. bounded.
    calls message_call. }
  unfold emit. bounded. match goal with |- keeps _ _ (emit_plan _ _ _ ?plan _ _ _) =>
    generalize plan end.
  intros plan. generalize (@nil Emitted.t) as emitted.
  induction plan as [|chunk plan IH]; intros emitted; cbn [emit_plan]; bounded; auto.
Qed.

(** A copy starts with no device done and none tried. *)
Context (Hjob : forall id peer text now recipients,
  Pj (CopyJob.mk id peer text now recipients ∅ ∅)).

Lemma bounded_queue_copies {E} peer text id now :
  keeps o I (queue_copies (E := E) peer text id now).
Proof using Hjob.
  unfold queue_copies. apply keeps_bind; [apply keeps_get_data|]. intros data.
  apply holds_modify. intros e He. destruct (decide _); [done|].
  destruct He as [H1 H2 H3 H4 H5]. split; cbn; [done|done|done| |].
  - unfold last_jobs, lenN, md3_pacing.OUTGOING_QUEUE_MAX in *. rewrite length_app, length_drop. cbn. lia.
  - apply Forall_app. split; [by apply Forall_drop|]. apply Forall_singleton, Hjob.
Qed.

(** The row of a text is the one that it has, or a new one. *)
Lemma bounded_write_row nick text suffix emitted row_id now :
  gives o I (fun row => default row row_id = row)
    (write_row nick text suffix emitted row_id now).
Proof.
  unfold write_row. eapply gives_bind; [apply keeps_get_mem|]. intros e _.
  destruct row_id as [row|];
    (eapply gives_bind with (V := fun _ => True); [|intros _ _; by apply gives_ret]);
    unfold add_capture, append_row; bounded.
Qed.

Lemma bounded_deliver nick text entries sends row_id now :
  (forall row, default row row_id = row -> Ps text row sends) ->
  keeps o I (deliver client token nick text entries sends row_id now).
Proof using Hjob.
  intros Hsends. unfold deliver.
  do 4 (apply keeps_bind; [bounded|intros ?]).
  apply keeps_bind; [apply bounded_seal|intros sealed].
  apply keeps_bind; [apply bounded_emit|intros emitted].
  apply keeps_bind; [bounded|intros first]. apply keeps_bind; [bounded|intros suffix].
  eapply gives_bind; [apply bounded_write_row|]. intros row Hrow.
  unfold note_changed, note_emitted. bounded.
  all: first [by apply bounded_remember, Hsends | apply bounded_queue_copies].
Qed.

Lemma bounded_send_text nick text now :
  (forall row, Ps text row 1%N) -> keeps o I (send_text client token nick text now).
Proof using Hjob. intros Hnew. unfold send_text. bounded. by apply bounded_deliver. Qed.

Lemma bounded_queue_text nick text now :
  (forall row, Pp text row 1%N) -> keeps o I (queue_text nick text now).
Proof.
  intros Hnew. unfold queue_text, append_row, want_keys, note_changed. bounded.
  apply holds_modify. intros e He.
  match goal with |- ok (start_waiting ?key _ ?row _) =>
    by apply (bounded_insert_pending key (PendingText.mk text 1 row None) e) end.
Qed.

Lemma bounded_send_or_queue nick text now :
  (forall row, Ps text row 1%N) -> (forall row, Pp text row 1%N) ->
  keeps o I (send_or_queue client token nick text now).
Proof using Hjob.
  intros Hnew Hwait. unfold send_or_queue. bounded.
  all: first [by apply bounded_send_text | by apply bounded_queue_text].
Qed.

Lemma bounded_keep_waiting {E} item pending :
  Pp (PendingText.text pending) (PendingText.row_id pending) (PendingText.sends pending) ->
  keeps o I (keep_waiting (E := E) item pending).
Proof.
  intros Hp. unfold keep_waiting. apply holds_modify. intros e He.
  by apply (bounded_insert_pending (QueuedSend.key item) pending e).
Qed.

(** What waits goes out with its number of sends. *)
Context (Hflush : forall text row_id sends, Pp text row_id sends -> Ps text row_id sends).

Lemma bounded_flush_one {E} item now : keeps o I (flush_one (E := E) client token item now).
Proof using Hjob Hflush.
  unfold flush_one.
  eapply gives_bind with (V := ok); [by apply gives_mem; intros w []|]. intros e He.
  destruct (E2eEngine.pending e !! QueuedSend.key item) as [pending|] eqn:Hp; [|apply keeps_ret].
  apply (pending_again _ _ _ e He) in Hp. unfold after_refusal. bounded.
  all: first [apply bounded_fail_send | by apply bounded_keep_waiting
             | apply bounded_deliver; cbn; intros ? <-; by apply Hflush].
Qed.

Lemma bounded_flush_queue {E} now : keeps o I (flush_queue (E := E) client token now).
Proof using Hjob Hflush.
  assert (forall items, keeps o I (flush_all (E := E) client token items now)) as Hall.
  { induction items as [|item items IH]; cbn [flush_all]; bounded; [apply bounded_flush_one|exact IH]. }
  unfold flush_queue, want_keys. bounded; first [apply bounded_settle_late | apply Hall].
Qed.

Lemma bounded_list_messages {E} : keeps o I (send_list_messages (E := E) client token).
Proof.
  assert (forall jobs, keeps o I (send_list_jobs (E := E) client token jobs)) as Hall.
  { induction jobs as [|job jobs IH]; cbn [send_list_jobs]; unfold send_list_job, list_job_steps;
      bounded; first [apply bounded_seal | apply bounded_emit | exact IH]. }
  unfold send_list_messages. bounded. apply Hall.
Qed.

(** ** Calls that only change what the engine holds *)

Lemma bounded_expire {E} : keeps o I (expire_queue (E := E)).
Proof. unfold expire_queue. bounded. all: apply bounded_settle_late. Qed.

Lemma bounded_end {E} : keeps o I (end_session (E := E)).
Proof.
  unfold end_session. bounded; try apply bounded_note_drops.
  apply holds_modify. intros e [H1 H2 H3 H4 H5]. split; cbn; [| | |done|done].
  - rewrite map_size_empty. lia.
  - intros k r. by rewrite lookup_empty.
  - intros k p. by rewrite lookup_empty.
Qed.

Lemma bounded_dropped {E} payload : keeps o I (apply_send_dropped (E := E) payload).
Proof. unfold apply_send_dropped. bounded. all: apply bounded_note_drops. Qed.

Lemma bounded_no_such_nick {E} nick : keeps o I (no_such_nick (E := E) nick).
Proof.
  assert (forall keys, keeps o I (fail_waiting (E := E) keys)) as Hall.
  { induction keys as [|key keys IH]; cbn [fail_waiting]; unfold drop_pending; bounded.
    all: first [apply bounded_fail_send | exact IH]. }
  unfold no_such_nick. bounded. apply Hall.
Qed.

Lemma bounded_replace_master nick master : keeps o I (replace_peer_master nick master).
Proof.
  unfold replace_peer_master, forget_peer_devices, drop_pending, store_step. bounded.
  all: first [apply bounded_fail_send | apply bounded_save_trust].
Qed.

Lemma bounded_local op :
  match op with
  | ExpireQueue | EndSession | DroppedFrame _ | NoSuchNick _ | ReplaceMaster _ _ | ConfirmSas _ _
  | ConfirmKey _ _ | ReleaseStale _ => keeps o I (engine_step client token server_protocol op)
  | _ => True
  end.
Proof.
  destruct op; try exact Logic.I; cbn [engine_step].
  - apply keeps_bind; [apply bounded_expire|intros ?; apply keeps_ret].
  - apply keeps_bind; [apply bounded_end|intros ?; apply keeps_ret].
  - apply keeps_bind; [apply bounded_dropped|intros ?; apply keeps_ret].
  - apply keeps_bind; [apply bounded_no_such_nick|intros ?; apply keeps_ret].
  - apply bounded_replace_master.
  - unfold confirm_sas. bounded. apply bounded_save_trust.
  - unfold confirm_key. bounded. apply bounded_save_trust.
  - unfold release_stale_try. bounded.
Qed.

(** A claim posts no copy. *)
Lemma bounded_claim_tries tries network did request :
  keeps o I (claim_tries client token server_protocol tries network did request).
Proof.
  induction tries as [|tries IH]; cbn [claim_tries]; bounded; auto. calls claim_call.
Qed.

Lemma bounded_session identity own_nick did key :
  keeps o I (sibling_session client token server_protocol identity own_nick did key).
Proof.
  unfold sibling_session, claim_sibling_key. bounded. apply bounded_claim_tries.
Qed.
End Count.

(** ** Copies *)

(** A copy posts once at most, as its last step. *)
Lemma copy_to_posts own_nick job did key copies w :
  holds copies w ->
  wp o (copy_to client token server_protocol own_nick job did key)
    (fun _ w' => holds (Datatypes.S copies) w') w.
Proof.
  assert (forall w1, holds copies w1 -> holds (Datatypes.S copies) w1) as Hmore.
  { intros w1 [? ?]. split; [done|lia]. }
  intros Hw. unfold copy_to. apply wp_store, wp_mem.
  apply wp_read; [by auto|]. intros identity _. apply wp_read; [by auto|]. intros own _.
  eapply wp_seq; [by apply bounded_session| |by intros err w1 [? _]; auto].
  intros x w1 [Hw1 _].
  eapply wp_seq; [by apply holds_draw| |by intros err w2 [? _]; auto]. intros seed w2 [Hw2 _].
  apply wp_need; [by auto|]. intros [x' message] _.
  destruct (copy_payload own did message) as [verb payload].
  destruct (negb _); [by apply wp_raise; auto|]. apply wp_read; [by auto|]. intros r _.
  eapply wp_seq; [by apply keeps_with_err; [apply engine_holds_on_store|]| |by intros err w3 [? _]; auto].
  intros _ w3 [Hw3 _]. eapply wp_seq with (R := fun _ w4 => holds (Datatypes.S copies) w4);
    [|by intros|by intros].
  apply wp_with_err. eapply wp_mono; [apply copy_call|].
  intros res w4 [[-> _]|(q & [_ Hq] & -> & _)]; [by auto|].
  destruct Hw3 as [He Hl]. split; [done|]. cbn [log record]. rewrite copies_snoc. cbn. rewrite Hq. lia.
Qed.
End Holds.
(** A sibling that was tried takes one of the sends that the job has left. *)
Lemma sum_drop (f g : string -> nat) l x :
  x ∈ l -> (forall y, f y <= g y) -> f x + 1 <= g x ->
  sum_list_with f l + 1 <= sum_list_with g l.
Proof.
  intros Hx Hle Hlt. assert (forall l, sum_list_with f l <= sum_list_with g l) as Hall.
  { clear Hx l. intros l. induction l as [|y l IH]; cbn; [lia|]. specialize (Hle y). lia. }
  induction Hx as [y l|y z l Hx IH]; cbn; [specialize (Hall l)|specialize (Hle z)]; lia.
Qed.

Definition tried (job job' : CopyJob.t) : Prop :=
  job_ok job' /\ CopyJob.recipients job' = CopyJob.recipients job /\
  due_job job' + 1 <= due_job job.

Definition open_for (did : string) (job : CopyJob.t) : Prop :=
  job_ok job /\ did ∈ CopyJob.recipients job /\ did ∉ CopyJob.finished job.

Lemma open_due did job : open_for did job -> 1 <= due_to job did.
Proof.
  intros (Hok & _ & Hnot). unfold due_to. rewrite bool_decide_false by done.
  destruct (CopyJob.tries job !! did) as [n|] eqn:Hn; cbn; [|by compute; lia].
  destruct (Hok did n Hn) as [_ Hlt]. specialize (Hlt Hnot). unfold md3_pacing.MAX_SENDS in *. lia.
Qed.

Lemma due_drop did job job' :
  open_for did job -> job_ok job' -> CopyJob.recipients job' = CopyJob.recipients job ->
  (forall d, d <> did -> due_to job' d <= due_to job d) -> due_to job' did + 1 <= due_to job did ->
  tried job job'.
Proof.
  intros (_ & Hin & _) Hok Hrec Hle Hlt. split_and!; [done|done|]. unfold due_job. rewrite Hrec.
  apply (sum_drop _ _ _ did); [by apply elem_of_elements| |done].
  intros d. destruct (decide (d = did)) as [->|]; [lia|by apply Hle].
Qed.

Lemma done_tried did job job1 :
  open_for did job -> CopyJob.recipients job1 = CopyJob.recipients job ->
  CopyJob.finished job1 = CopyJob.finished job ->
  (forall d, d <> did -> CopyJob.tries job1 !! d = CopyJob.tries job !! d) ->
  (forall n, CopyJob.tries job1 !! did = Some n -> (n <= md3_pacing.MAX_SENDS)%N) ->
  tried job (with_done did job1).
Proof.
  intros Hopen Hrec Hfin Htries Hdid. pose proof (open_due did job Hopen) as Hdue.
  apply (due_drop did); [done| |done| |].
  - intros d n Hn. cbn in Hn |- *. destruct (decide (d = did)) as [->|Hd].
    + split; [by apply Hdid|]. set_solver.
    + rewrite Htries in Hn by done. destruct Hopen as [Hok _]. destruct (Hok d n Hn).
      rewrite Hfin. split; [done|]. set_solver.
  - intros d Hd. unfold due_to. cbn. rewrite Htries, Hfin by done.
    rewrite (bool_decide_ext (d ∈ {[did]} ∪ CopyJob.finished job) (d ∈ CopyJob.finished job));
      [done|]. set_solver.
  - unfold due_to at 1. cbn. rewrite bool_decide_true by set_solver. lia.
Qed.

Lemma after_step_tried did step job r job' r' open :
  open_for did job -> after_step did step job r = (job', r', open) -> tried job job'.
Proof.
  intros Hopen. assert (tried job (with_done did job)) as Hdone.
  { apply done_tried; try done. destruct Hopen as [Hok _]. intros n Hn. by destruct (Hok did n Hn). }
  unfold after_step, with_try. set (tries := ((_ + 1) mod 256)%N).
  assert (tries = default 0 (CopyJob.tries job !! did) + 1 /\
    tries <= md3_pacing.MAX_SENDS)%N as [Heq Htries].
  { unfold tries. destruct Hopen as (Hok & _ & Hnot).
    destruct (CopyJob.tries job !! did) as [n|] eqn:Hn; [|done].
    change (default 0%N (Some n)) with n. destruct (Hok did n Hn) as [_ Hlt]. specialize (Hlt Hnot).
    unfold md3_pacing.MAX_SENDS in *. rewrite N.mod_small; lia. }
  assert (forall b job2 (r2 : CopyReport.t), (let '(job3, r3, open3) :=
    if (md3_pacing.MAX_SENDS <=? tries)%N
    then (with_done did (CopyJob.mk (CopyJob.id job) (CopyJob.peer job) (CopyJob.text job)
            (CopyJob.created_at job) (CopyJob.recipients job) (CopyJob.finished job)
            (<[did := tries]> (CopyJob.tries job))), report_failed did CopyFailure.Failed r, false)
    else (CopyJob.mk (CopyJob.id job) (CopyJob.peer job) (CopyJob.text job)
            (CopyJob.created_at job) (CopyJob.recipients job) (CopyJob.finished job)
            (<[did := tries]> (CopyJob.tries job)), r, true) in
    (job3, CopyReport.mk (CopyReport.queued r3) (CopyReport.failed r3)
       (CopyReport.needs_sync r3 || b), open3)) = (job2, r2, open) -> tried job job2) as Htry.
  { intros b job2 r2. destruct (_ <=? tries)%N eqn:Hle; intros [= <- _ _].
    - apply done_tried; try done; cbn.
      + intros d Hd. by rewrite lookup_insert_ne.
      + intros n. rewrite lookup_insert_eq. by intros [= <-].
    - apply N.leb_gt in Hle. pose proof (open_due did job Hopen) as Hdue.
      apply (due_drop did); [done| |done| |]; cbn.
      + intros d n. cbn. intros [[<- <-]|[Hne Hn]]%lookup_insert_Some; [done|].
        destruct Hopen as [Hok _]. by apply Hok.
      + intros d Hd. unfold due_to. cbn. by rewrite lookup_insert_ne.
      + destruct Hopen as (_ & _ & Hnot). unfold due_to in *. cbn.
        rewrite bool_decide_false in * by done. rewrite lookup_insert_eq. cbn. lia. }
  destruct step; [by intros [= <- _ _]|apply Htry|apply Htry].
Qed.

(** ** The account of the copies *)

Section Account.
Context (Ps Pp : string -> string -> N -> Prop) (total : nat).

(** What is posted and what is left is [total] at most; the jobs are taken out
    of the engine in the meantime. *)
Definition account (left : nat) w : Prop :=
  engine_holds Ps Pp (fun _ => False) (mem w) /\ copies_posted (log w) + left <= total.

Lemma account_less left left' w : left' <= left -> account left w -> account left' w.
Proof. intros Hle [He Hl]. split; [done|lia]. Qed.

Lemma account_holds left w :
  account left w <-> left <= total /\ holds Ps Pp (fun _ => False) (total - left) w.
Proof. unfold account, holds. split; [intros [? ?]; split_and!; [lia|done|lia]|intros (? & ? & ?); split; [done|lia]]. Qed.

Lemma account_keeps {E V} left (m : eng E V) w (Q : result V E -> world E2eEngine.t -> Prop) :
  (forall copies, keeps o (holds Ps Pp (fun _ => False) copies) m) -> account left w ->
  (forall r w', account left w' -> Q r w') -> wp o m Q w.
Proof.
  intros Hm [Hle Hw]%account_holds HQ. eapply wp_mono; [by apply Hm|].
  intros r w' [Hw' _]. apply HQ, account_holds. by split.
Qed.
(** One turn over a sibling: at most one copy, for one of its sends. *)
Lemma sibling_account {E} own_nick now expired job r did key left w :
  job_ok job -> account (due_job job + left) w ->
  wp o (copy_sibling (E := E) client token server_protocol own_nick now expired job r did key)
    (fun res w' => match res with
     | Ok (job', _, _) => job_ok job' /\ account (due_job job' + left) w'
     | Err _ => account left w'
     end) w.
Proof.
  intros Hok Hw. unfold copy_sibling. destruct (bool_decide (did ∈ CopyJob.finished job)) eqn:Hfin;
    [by apply wp_ret|]. apply bool_decide_eq_false in Hfin. cbn [orb].
  destruct (bool_decide (did ∈ CopyJob.recipients job)) eqn:Hin; [|by apply wp_ret].
  apply bool_decide_eq_true in Hin. cbn [negb].
  destruct (CopyReport.needs_sync r); [by apply wp_ret|].
  assert (open_for did job) as Hopen by done.
  assert (forall job', tried job job' -> due_job job' + left + 1 <= due_job job + left) as Hless.
  { intros job' (_ & _ & Hdue). lia. }
  eapply wp_seq with (R := fun _ w1 => forall job', tried job job' ->
    account (due_job job' + left) w1).
  - assert (forall w1 k, account k w1 -> due_job job + left <= k + 1 -> forall job',
      tried job job' -> account (due_job job' + left) w1) as Hany.
    { intros w1 k Hk Hle job' Ht. eapply account_less; [|exact Hk]. specialize (Hless job' Ht). lia. }
    destruct expired; [apply wp_ret; eapply Hany; [exact Hw|lia]|]. apply wp_attempt.
    apply account_holds in Hw as [Hle Hw]. eapply wp_mono; [by apply copy_to_posts|].
    intros res w1 [He Hl] job' Ht. specialize (Hless job' Ht). split; [done|lia].
  - intros [u|step] w1 Hw1.
    + assert (tried job (with_done did job)) as Hdone.
      { apply done_tried; try done. intros n Hn. by destruct (Hok did n Hn). }
      specialize (Hw1 _ Hdone). eapply wp_seq with (R := fun _ w2 => account (due_job (with_done did job) + left) w2).
      * eapply account_keeps; [|exact Hw1|done]. intros copies. apply holds_modify. intros e He.
        by apply (bounded_same _ _ _ e).
      * intros _ w2 Hw2. apply wp_ret. split; [apply Hdone|done].
      * intros err w2 Hw2. eapply account_less; [|exact Hw2]. lia.
    + apply wp_ret. destruct (after_step did step job r) as [[job' r'] open] eqn:Ha.
      apply (after_step_tried did) in Ha as Ht; [|done]. split; [apply Ht|by apply Hw1].
  - intros err w1 Hw1. assert (tried job (with_done did job)) as Hdone.
    { apply done_tried; try done. intros n Hn. by destruct (Hok did n Hn). }
    eapply account_less; [|by apply (Hw1 _ Hdone)]. lia.
Qed.

Lemma siblings_account {E} own_nick now expired siblings job r left w :
  job_ok job -> account (due_job job + left) w ->
  wp o (copy_siblings (E := E) client token server_protocol own_nick now expired siblings job r)
    (fun res w' => match res with
     | Ok (job', _, _) => job_ok job' /\ account (due_job job' + left) w'
     | Err _ => account left w'
     end) w.
Proof.
  revert job r w. induction siblings as [|[did key] siblings IH]; intros job r w Hok Hw;
    cbn [copy_siblings]; [by apply wp_ret|].
  eapply wp_seq; [by apply sibling_account| |done].
  intros [[job' r'] open] w1 [Hok1 Hw1]. eapply wp_seq; [by apply IH| |done].
  intros [[job'' r''] more] w2 Hw2. by apply wp_ret.
Qed.

Lemma jobs_account {E} own_nick now jobs r left w :
  Forall job_ok jobs -> account (due_jobs jobs + left) w ->
  wp o (copy_jobs_loop (E := E) client token server_protocol own_nick now jobs r)
    (fun res w' => match res with
     | Ok (kept, _) => length kept <= length jobs /\ Forall job_ok kept /\
         account (due_jobs kept + left) w'
     | Err _ => account left w'
     end) w.
Proof.
  revert r left w. induction jobs as [|job jobs IH]; intros r left w; cbn [copy_jobs_loop];
    [by intros; apply wp_ret|].
  intros [Hjob Hjobs]%Forall_cons Hw. apply wp_data, wp_mem.
  change (due_jobs (job :: jobs)) with (due_job job + due_jobs jobs) in Hw. rewrite <-Nat.add_assoc in Hw.
  eapply wp_seq; [by apply siblings_account| |intros err w1; apply account_less; lia].
  intros [[job' r'] open] w1 [Hok1 Hw1].
  rewrite Nat.add_assoc, (Nat.add_comm (due_job job')), <-Nat.add_assoc in Hw1.
  eapply wp_seq; [by apply IH| |intros err w2; apply account_less; lia].
  intros [kept r''] w2 (Hlen & Hkept & Hw2). apply wp_ret. destruct open; cbn.
  - split_and!; [lia|by constructor|]. eapply account_less; [|exact Hw2].
    unfold due_jobs in *. cbn. lia.
  - split_and!; [lia|done|]. eapply account_less; [|exact Hw2]. unfold due_jobs. lia.
Qed.
End Account.

(** The copies that a call posts are sends that its jobs had left. *)
Definition copies_paid w w' : Prop :=
  copies_posted (log w') + due_jobs (E2eEngine.copy_jobs (mem w')) <=
  copies_posted (log w) + due_jobs (E2eEngine.copy_jobs (mem w)).

Lemma send_copies_paid {E} Ps Pp own_nick now w :
  engine_holds Ps Pp job_ok (mem w) ->
  wp o (send_copies (E := E) client token server_protocol own_nick now) (fun _ w' =>
    engine_holds Ps Pp job_ok (mem w') /\ copies_paid w w') w.
Proof.
  intros [H1 H2 H3 H4 H5]. unfold send_copies. apply wp_mem.
  set (total := copies_posted (log w) + due_jobs (E2eEngine.copy_jobs (mem w))).
  eapply wp_seq with (R := fun r w1 => is_ok r = true /\
    account Ps Pp total (due_jobs (E2eEngine.copy_jobs (mem w)) + 0) w1); [| |by intros ? ? []].
  { split; [done|]. split; [by split|]. cbn [log]. lia. }
  intros _ w1 [_ Hw1].
  assert (forall w2, account Ps Pp total 0 w2 -> engine_holds Ps Pp job_ok (mem w2) /\
    copies_paid w w2) as Herr.
  { intros w2 [[G1 G2 G3 G4 G5] Hl]. unfold copies_paid.
    destruct (E2eEngine.copy_jobs (mem w2)) eqn:Hj; [|by apply Forall_cons in G5 as [[] _]].
    split; [split; try done; by rewrite Hj|]. cbn. lia. }
  eapply wp_seq; [by apply jobs_account| |intros err w2; apply Herr].
  intros [kept r] w2 (Hlen & Hkept & Hw2). eapply wp_seq with (R := fun _ w3 =>
    engine_holds Ps Pp job_ok (mem w3) /\ copies_paid w w3); [|done|done].
  unfold wp, modify. destruct Hw2 as [[G1 G2 G3 G4 G5] Hl]. split.
  - split; try done. cbn. unfold lenN in *. lia.
  - unfold copies_paid. cbn [mem log]. cbn [E2eEngine.copy_jobs E2eEngine.set_copy_jobs]. lia.
Qed.

(** ** All the calls *)

(** What a call needs to keep the counts. *)
Definition allows (Ps Pp : string -> string -> N -> Prop) (Pj : CopyJob.t -> Prop)
    (op : engine_op) : Prop :=
  let fresh := forall id peer text now recipients,
    Pj (CopyJob.mk id peer text now recipients ∅ ∅) in
  match op with
  | SendText _ text _ => fresh /\ forall row, Ps text row 1%N
  | SendOrQueue _ text _ => fresh /\ (forall row, Ps text row 1%N) /\ forall row, Pp text row 1%N
  | FlushQueue _ => fresh /\ forall text row sends, Pp text row sends -> Ps text row sends
  | HandleEvent _ _ | Drain _ _ => forall text row sends, Ps text row sends ->
      (sends < md3_pacing.MAX_SENDS)%N -> Pp text row (sends + 1)%N
  | SendCopies _ _ => False
  | _ => True
  end.

Lemma step_holds Ps Pp Pj copies op :
  allows Ps Pp Pj op ->
  keeps o (holds Ps Pp Pj copies) (engine_step client token server_protocol op).
Proof.
  intros Hop. pose proof (bounded_local Ps Pp Pj copies op) as Hlocal.
  destruct op; try exact Hlocal; cbn [engine_step allows] in *;
    try (apply keeps_bind; [|intros ?; apply keeps_ret]).
  - destruct Hop. by apply bounded_send_text.
  - destruct Hop as (? & ? & ?). by apply bounded_send_or_queue.
  - destruct Hop. by apply bounded_flush_queue.
  - apply bounded_list_messages.
  - apply bounded_request_keys.
  - done.
  - by apply bounded_event.
  - by apply bounded_drain.
  - apply bounded_claim_keys.
  - apply bounded_sync.
Qed.

Lemma step_bounded op w :
  engine_bounded (mem w) ->
  engine_bounded (mem (engine_step client token server_protocol op o w).1).
Proof.
  intros Hw. enough (wp o (engine_step client token server_protocol op)
    (fun _ w' => engine_bounded (mem w')) w) as Hk.
  { unfold wp in Hk. by destruct (engine_step _ _ _ _ _ _). }
  assert (allows few_sends few_sends job_ok op \/ exists own_nick now, op = SendCopies own_nick now)
    as [Hop|(own_nick & now & ->)].
  { assert (forall id peer text now recipients, job_ok (CopyJob.mk id peer text now recipients ∅ ∅)).
    { intros ? ? ? ? ? did n. cbn. by rewrite lookup_empty. }
    destruct op; try (by right; eauto); left; cbn; unfold few_sends; split_and?; try done.
    all: intros _ _ sends [? _] ?; lia. }
  - eapply wp_mono; [apply (step_holds _ _ _ (copies_posted (log w)) op Hop); by split|].
    by intros r w' [[? _] _].
  - cbn [engine_step]. eapply wp_seq; [by apply send_copies_paid|by intros ? ? []|by intros ? ? []].
Qed.

Lemma engine_run_bounded ops w :
  engine_bounded (mem w) ->
  engine_bounded (mem (engine_run client token server_protocol ops o w).1).
Proof.
  intros Hw. enough (keeps o (in_mem engine_bounded) (engine_run client token server_protocol ops))
    as Hk.
  { specialize (Hk w Hw). unfold wp in Hk. destruct (engine_run _ _ _ _ _ _). apply Hk. }
  unfold engine_run. apply keeps_for_each. intros op _ w1 Hw1.
  pose proof (step_bounded op w1 Hw1) as Hs. unfold wp, bind, attempt.
  destruct (engine_step _ _ _ op o w1) as [w2 r]. cbn in *. by destruct r.
Qed.

(** A text with its row and its number of sends, in a record of the sent ones
    or among the waiting ones. *)
Definition from_record e (text row : string) (sends : N) : Prop :=
  exists msgid r, E2eEngine.sent e !! msgid = Some r /\
    SentRecord.text r = text /\ SentRecord.row_id r = row /\ SentRecord.sends r = sends.

Definition from_waiting e (text row : string) (sends : N) : Prop :=
  exists key p, E2eEngine.pending e !! key = Some p /\
    PendingText.text p = text /\ PendingText.row_id p = row /\ PendingText.sends p = sends.

(** The records, the waiting texts and the jobs that a call may leave. *)
Definition record_after (op : engine_op) e (text row : string) (sends : N) : Prop :=
  from_record e text row sends \/
  match op with
  | FlushQueue _ => from_waiting e text row sends
  | SendText _ new _ | SendOrQueue _ new _ => text = new /\ sends = 1%N
  | _ => False
  end.

Definition waiting_after (op : engine_op) e (text row : string) (sends : N) : Prop :=
  from_waiting e text row sends \/
  match op with
  | HandleEvent _ _ | Drain _ _ => exists before, from_record e text row before /\
      (before < md3_pacing.MAX_SENDS)%N /\ sends = (before + 1)%N
  | SendOrQueue _ new _ => text = new /\ sends = 1%N
  | _ => False
  end.

Definition job_after (op : engine_op) e (job : CopyJob.t) : Prop :=
  match op with
  | SendCopies _ _ => job_ok job
  | SendText _ _ _ | SendOrQueue _ _ _ | FlushQueue _ =>
      job ∈ E2eEngine.copy_jobs e \/ CopyJob.finished job = ∅ /\ CopyJob.tries job = ∅
  | _ => job ∈ E2eEngine.copy_jobs e
  end.

Lemma counts_start op e (Pj : CopyJob.t -> Prop) :
  engine_bounded e -> Forall Pj (E2eEngine.copy_jobs e) ->
  engine_holds (record_after op e) (waiting_after op e) Pj e.
Proof.
  intros [H1 H2 H3 H4 H5] Hj. split; try done.
  - intros msgid r Hr. left. by exists msgid, r.
  - intros key p Hp. left. by exists key, p.
Qed.

Lemma step_counts op w :
  engine_bounded (mem w) ->
  wp o (engine_step client token server_protocol op) (fun _ w' =>
    engine_holds (record_after op (mem w)) (waiting_after op (mem w)) (job_after op (mem w)) (mem w') /\
    match op with
    | SendCopies _ _ => copies_paid w w'
    | _ => copies_posted (log w') <= copies_posted (log w)
    end) w.
Proof.
  intros Hw.
  assert (allows (record_after op (mem w)) (waiting_after op (mem w)) (job_after op (mem w)) op \/
    exists own_nick now, op = SendCopies own_nick now) as [Hop|(own_nick & now & ->)].
  { destruct op; try (by right; eauto); left; cbn; unfold record_after, waiting_after; split_and?;
      try done; try (by intros; right).
    - intros text row sends [Hr|[]]. by right.
    - intros text ? sends [Hr|[]] ?. right. by exists sends.
    - intros text ? sends [Hr|[]] ?. right. by exists sends. }
  - eapply wp_mono; [apply (step_holds _ _ _ (copies_posted (log w)) op Hop)|].
    + split; [|done]. apply counts_start; [done|]. apply Forall_forall. intros job Hjob.
      destruct op; try done; by left.
    + intros r w' [[Hk Hl] _]. split; [done|]. by destruct op.
  - cbn [engine_step].
    eapply wp_seq; [apply send_copies_paid, counts_start; [done|apply Hw]| |];
      intros ? ? [? ?]; by split.
Qed.

(** C15. What an engine holds stays bounded, and its counts are those of what
    went out. From a new engine, whatever calls run in whatever order, and
    whatever the server answers and the disk fails, it holds at most 1200
    records of sent texts and 16 waiting copies; every text that waits or went
    out is at its second send at most; and a copy is tried at most twice for a
    device, and never once it is settled. Any next call counts on: a text that
    goes out of the queue is recorded with the sends that it waited with, and a
    text waits again only with one more send than its record has, a second one
    at most; a typed text starts at one, and a new copy with no try. The
    requests that carry a copy are paid: the call that sends the copies posts
    at most as many as the sends that its jobs had left and have no more, and
    no other call posts one. *)
Theorem engine_memory_bounded (network : string) (s : Store.t) (h : E2eHistoryStore.t)
    (e : E2eEngine.t) (d : disk) (l : list event) (ops : list engine_op)
    (Hnew : E2eEngine.new network s h = Ok e) :
  let w := (engine_run client token server_protocol ops o (mk_world d s e l)).1 in
  (N.of_nat (size (E2eEngine.sent (mem w))) <= 1200)%N /\
  (lenN (E2eEngine.copy_jobs (mem w)) <= 16)%N /\
  engine_bounded (mem w) /\
  forall op, let w' := (engine_step client token server_protocol op o w).1 in
    engine_holds (record_after op (mem w)) (waiting_after op (mem w)) (job_after op (mem w))
      (mem w') /\
    match op with
    | SendCopies _ _ => copies_paid w w'
    | _ => copies_posted (log w') <= copies_posted (log w)
    end.
Proof.
  assert (engine_bounded e) as He.
  { unfold E2eEngine.new in Hnew. repeat (apply rbind_ok in Hnew as (? & _ & Hnew)).
    injection Hnew as <-. split; cbn; [done| | |done|by constructor].
    - intros k r. by rewrite lookup_empty.
    - intros k p. by rewrite lookup_empty. }
  pose proof (engine_run_bounded ops (mk_world d s e l) He) as Hb. intros w. fold w in Hb.
  split_and!; [apply Hb|apply Hb|done|]. intros op. pose proof (step_counts op w Hb) as Hk.
  unfold wp in Hk. by destruct (engine_step _ _ _ op o w).
Qed.

(** ** NACK *)

Section Nack.
Context (p : gmap SendKey.t PendingText.t) (sent : gmap string SentRecord.t).
Definition waits e : Prop := E2eEngine.pending e = p /\ E2eEngine.sent e = sent.

Ltac still_waits :=
  eng_parts;
  try first [ apply mem_modify; intros ? [? ?]; split; cbn; repeat case_match; cbn; done
            | apply mem_clock | apply mem_on_store ].

Lemma waits_fail_send {E} key reason : keeps o (in_mem waits) (fail_send (E := E) key reason).
Proof. unfold fail_send, note_drops, note_drop, note_changed. still_waits. Qed.

(** The nick of the session with the device of a NACK: the one that its cached
    keys came under, else the one that the text went to. *)
Definition session_nick e (record : SentRecord.t) (nacked : string) : string :=
  match E2eEngine.peers e !! nacked with
  | Some entry => PeerEntry.nick entry
  | None => SentRecord.nick record
  end.

(** The re-send of one record to one device: the text waits with one more
    send, and of the stored sessions just the failed one is gone. *)
Definition waits_again w (record : SentRecord.t) (nacked : string) w' : Prop :=
  exists key,
    E2eEngine.pending (mem w') =
      <[key := PendingText.mk (SentRecord.text record) (SentRecord.sends record + 1)
                 (SentRecord.row_id record) (Some nacked)]> p /\
    SendKey.network key = E2eEngine.network (mem w) /\
    SendKey.target key = SentRecord.nick record /\
    StateData.sessions (data_of w') =
      delete (peer_device_key (E2eEngine.network (mem w))
                (session_nick (mem w) record nacked) nacked) (StateData.sessions (data_of w)).

(** What the re-send reads stays. *)
Definition same_links w w' : Prop :=
  E2eEngine.network (mem w') = E2eEngine.network (mem w) /\
  E2eEngine.peers (mem w') = E2eEngine.peers (mem w) /\ data_of w' = data_of w.

Lemma waits_again_same w w1 record nacked w' :
  same_links w w1 -> waits_again w1 record nacked w' -> waits_again w record nacked w'.
Proof.
  intros (Hn & Hp & Hd) (key & H1 & H2 & H3 & H4). exists key.
  unfold session_nick in *. rewrite Hn, Hp, Hd in H4. by rewrite Hn in H2.
Qed.

Lemma queue_again_once {E} key record nacked w :
  waits (mem w) ->
  wp o (queue_again (E := E) key record nacked) (fun _ w' =>
    E2eEngine.sent (mem w') = sent /\
    (E2eEngine.pending (mem w') = p \/ waits_again w record nacked w')) w.
Proof.
  intros Hw. unfold queue_again. apply wp_mem.
  assert (forall w1, waits (mem w1) ->
    wp o (let! _ := fail_send (E := E) key DropReason.SendFailed in ret tt) (fun _ w' =>
      E2eEngine.sent (mem w') = sent /\
      (E2eEngine.pending (mem w') = p \/ waits_again w record nacked w')) w1) as Hfail.
  { intros w1 Hw1. eapply wp_mono; [refine ((_ : keeps o (in_mem waits) _) w1 Hw1)|].
    - apply keeps_bind; [apply waits_fail_send|intros ?; apply keeps_ret].
    - intros r w' [[? ?] _]. auto. }
  fold (session_nick (mem w) record nacked).
  eapply wp_seq with (R := fun r w1 => is_ok r = true /\ mem w1 = mem w /\ (r = Ok (Ok tt) ->
    StateData.sessions (data_of w1) =
      delete (peer_device_key (E2eEngine.network (mem w)) (session_nick (mem w) record nacked)
                nacked) (StateData.sessions (data_of w)))); [| |by intros err w1 [? _]].
  { apply wp_attempt. eapply wp_mono; [apply on_store_moves, commits_remove_peer_session|].
    intros [[]|err] w1 [Hm Hs]; (split_and!; [done|done|]); [intros _|by intros].
    by destruct Hs as [-> _]. }
  intros [[]|err] w1 (_ & Hm & Hs); [specialize (Hs eq_refl)|by apply Hfail; rewrite Hm].
  set (same w2 := waits (mem w2) /\ data_of w2 = data_of w1).
  eapply wp_seq with (R := fun _ w2 => same w2); [split; [by rewrite <-Hm in Hw|done]| |intros err w' [[? ?] _]; auto].
  intros _ w2 Hw2. eapply wp_seq with (R := fun _ w3 => same w3); [exact Hw2| |intros err w' [[? ?] _]; auto].
  intros now w3 Hw3. destruct (clocked _ _) as [queue pushed].
  eapply wp_seq with (R := fun _ w4 => same w4); [exact Hw3| |intros err w' [[? ?] _]; auto].
  intros _ w4 [Hw4 Hd4]. destruct pushed; cbn [negb]; [|by apply Hfail].
  destruct Hw4 as [Hp4 Hsent4]. unfold wp, bind, modify, want_keys. cbn.
  split; [done|]. right. eexists. cbn. split_and!; [by rewrite Hp4|done|done|].
  by rewrite Hd4, Hs.
Qed.
End Nack.

Lemma taken_nacked reference nacked record e r :
  E2eEngine.sent (take_nacked reference nacked record e) !! reference = Some r ->
  nacked ∉ SentRecord.dids r.
Proof.
  unfold take_nacked. cbn. destruct (other_devices record nacked) as [|d ds] eqn:Ho.
  - by rewrite lookup_delete_eq.
  - rewrite lookup_insert_eq. intros [= <-]. cbn. rewrite <-Ho. unfold other_devices.
    rewrite list_elem_of_In, filter_In, bool_decide_true by done. naive_solver.
Qed.

(** The rest of a NACK, when it took the right of its device. *)
Lemma nack_taken {E} rekey cm key record nacked w1 :
  wp o (let fail := let! _ := fail_send (E := E) key DropReason.SendFailed in ret tt in
        if (md3_pacing.MAX_SENDS <=? SentRecord.sends record)%N then fail else
        let! now := clock_now in
        let '(rekey, acquired) :=
          IntervalLimiter.try_acquire rekey (SentRecord.nick record) cm now in
        modify (E2eEngine.set_rekey rekey) ;!
        if negb acquired then fail else queue_again key record nacked)
    (fun _ w' => E2eEngine.sent (mem w') = E2eEngine.sent (mem w1) /\
       (E2eEngine.pending (mem w') = E2eEngine.pending (mem w1) \/
        (SentRecord.sends record < md3_pacing.MAX_SENDS)%N /\
        waits_again (E2eEngine.pending (mem w1)) w1 record nacked w')) w1.
Proof.
  cbv zeta. set (p := E2eEngine.pending (mem w1)). set (sent := E2eEngine.sent (mem w1)).
  assert (forall w2, waits p sent (mem w2) ->
    wp o (let! _ := fail_send (E := E) key DropReason.SendFailed in ret tt) (fun _ w' =>
      E2eEngine.sent (mem w') = sent /\ (E2eEngine.pending (mem w') = p \/
        (SentRecord.sends record < md3_pacing.MAX_SENDS)%N /\ waits_again p w1 record nacked w')) w2)
    as Hfail.
  { intros w2 Hw2. eapply wp_mono; [refine ((_ : keeps o (in_mem (waits p sent)) _) w2 Hw2)|].
    - apply keeps_bind; [apply waits_fail_send|intros ?; apply keeps_ret].
    - intros r w' [[? ?] _]. auto. }
  destruct (_ <=? _)%N eqn:Hle; [by apply Hfail|]. apply N.leb_gt in Hle.
  eapply wp_seq with (R := fun _ w2 => waits p sent (mem w2) /\ same_links w1 w2);
    [done| |intros err w' [[? ?] _]; auto].
  intros now w2 Hw2. destruct (IntervalLimiter.try_acquire _ _ _ _) as [limiter acquired].
  eapply wp_seq with (R := fun _ w3 => waits p sent (mem w3) /\ same_links w1 w3);
    [exact Hw2| |intros err w' [[? ?] _]; auto].
  intros _ w3 [Hw3 Hl3]. destruct acquired; cbn [negb]; [|by apply Hfail].
  eapply wp_mono; [by apply queue_again_once|]. intros r w' [Hs [Hp|Hp]]; [auto|].
  split; [done|]. right. split; [done|]. by eapply waits_again_same.
Qed.

(** A NACK for a device that never had the text: the record goes. *)
Lemma nack_unreadable {E} reference key w1 :
  wp o (modify (fun e => E2eEngine.set_sent (delete reference (E2eEngine.sent e)) e) ;!
        let! _ := fail_send (E := E) key DropReason.Unreadable in ret tt) (fun _ w' =>
    E2eEngine.pending (mem w') = E2eEngine.pending (mem w1) /\
    E2eEngine.sent (mem w') !! reference = None) w1.
Proof.
  set (p := E2eEngine.pending (mem w1)). set (sent := delete reference (E2eEngine.sent (mem w1))).
  eapply wp_seq with (R := fun r w2 => is_ok r = true /\ waits p sent (mem w2));
    [done| |by intros ? ? [? _]].
  intros _ w2 [_ Hw2]. eapply wp_mono; [refine ((_ : keeps o (in_mem (waits p sent)) _) w2 Hw2)|].
  - apply keeps_bind; [apply waits_fail_send|intros ?; apply keeps_ret].
  - intros r w' [[? ->] _]. split; [done|]. apply lookup_delete_eq.
Qed.

(** C13. A NACK makes a text wait again at most once. It adds at most one waiting
    text, and only when the engine still holds the record that it names, the
    device of the NACK was one of its devices, the nick is the one that the
    text went to, and the text went out once only; the text then waits for this
    device alone, counted as sent once more, and of the stored sessions just
    the one with this device is gone. After it this device has no right to a
    NACK of this message. *)
Theorem nack_resends_once {E} row w :
  let w' := (on_nack (E := E) row o w).1 in
  (E2eEngine.pending (mem w') = E2eEngine.pending (mem w) \/
   exists reference record,
     nack_reference (InboxRow.payload row) = Some reference /\
     E2eEngine.sent (mem w) !! reference = Some record /\
     InboxRow.from_did row ∈ SentRecord.dids record /\ InboxRow.from_did row <> WILDCARD /\
     folded (mem w) (SentRecord.nick record) = folded (mem w) (InboxRow.from row) /\
     (SentRecord.sends record < md3_pacing.MAX_SENDS)%N /\
     waits_again (E2eEngine.pending (mem w)) w record (InboxRow.from_did row) w') /\
  (forall reference r, nack_reference (InboxRow.payload row) = Some reference ->
     E2eEngine.sent (mem w') !! reference = Some r ->
     folded (mem w) (SentRecord.nick r) = folded (mem w) (InboxRow.from row) ->
     InboxRow.from_did row ∉ SentRecord.dids r).
Proof.
  enough (wp o (on_nack (E := E) row) (fun _ w' =>
    (E2eEngine.pending (mem w') = E2eEngine.pending (mem w) \/
     exists reference record,
       nack_reference (InboxRow.payload row) = Some reference /\
       E2eEngine.sent (mem w) !! reference = Some record /\
       InboxRow.from_did row ∈ SentRecord.dids record /\ InboxRow.from_did row <> WILDCARD /\
       folded (mem w) (SentRecord.nick record) = folded (mem w) (InboxRow.from row) /\
       (SentRecord.sends record < md3_pacing.MAX_SENDS)%N /\
       waits_again (E2eEngine.pending (mem w)) w record (InboxRow.from_did row) w') /\
    (forall reference r, nack_reference (InboxRow.payload row) = Some reference ->
       E2eEngine.sent (mem w') !! reference = Some r ->
       folded (mem w) (SentRecord.nick r) = folded (mem w) (InboxRow.from row) ->
       InboxRow.from_did row ∉ SentRecord.dids r)) w) as Hw.
  { unfold wp in Hw. by destruct (on_nack row o w). }
  unfold on_nack. eapply wp_seq with (R := fun r w1 => is_ok r = true /\
    E2eEngine.pending (mem w1) = E2eEngine.pending (mem w) /\ same_links w w1 /\
    (forall nick, folded (mem w1) nick = folded (mem w) nick) /\
    forall k r, E2eEngine.sent (mem w1) !! k = Some r -> E2eEngine.sent (mem w) !! k = Some r);
    [split_and!; [done|done|done|done|apply trim_sent_bound]| |by intros ? ? [? _]].
  intros _ w1 (_ & Hp & Hlinks & Hfold & Hsub). apply wp_mem.
  destruct (nack_reference _) as [reference|]; [|apply wp_ret; split; [by left|by intros]].
  destruct (E2eEngine.sent (mem w1) !! reference) as [record|] eqn:Hrec.
  2: { apply wp_ret. split; [by left|]. intros k r [= <-]. by rewrite Hrec. }
  rewrite !Hfold. destruct (bool_decide (folded (mem w) _ = _)) eqn:Hnick; cbn [negb].
  2: { apply wp_ret. apply bool_decide_eq_false in Hnick. split; [by left|].
       intros k r [= <-]. rewrite Hrec. by intros [= <-]. }
  apply bool_decide_eq_true in Hnick. match goal with |- context [if ?b || _ then _ else _] =>
    destruct b eqn:Hwild end; cbn [orb].
  2: destruct (contains (SentRecord.dids record) (InboxRow.from_did row)) eqn:Hin; cbn [negb andb].
  2: { apply bool_decide_eq_false in Hwild. apply contains_spec in Hin.
       eapply wp_seq with (R := fun r w2 => is_ok r = true /\ w2 = mk_world (files w1) (store w1)
         (take_nacked reference (InboxRow.from_did row) record (mem w1)) (log w1));
         [done| |by intros ? ? [? _]].
       intros _ w2 [_ Hw2]. eapply wp_mono; [apply nack_taken|]. intros r w' [Hs Hpend]. split.
       - assert (E2eEngine.pending (mem w2) = E2eEngine.pending (mem w)) as Heq by (by subst w2).
         rewrite Heq in Hpend. destruct Hpend as [Hpend|[Hlt Hagain]]; [by left|]. right.
         exists reference, record. split_and!; auto.
         eapply waits_again_same; [|exact Hagain]. by subst w2.
       - intros k r' [= <-]. rewrite Hs. subst w2. intros Hr' _. by eapply taken_nacked. }
  - eapply wp_mono; [apply nack_unreadable|]. intros r w' [Hpend Hs]. rewrite Hpend.
    split; [by left|]. intros k r' [= <-]. by rewrite Hs.
  - destruct (negb _).
    + eapply wp_mono; [apply nack_unreadable|]. intros r w' [Hpend Hs]. rewrite Hpend.
      split; [by left|]. intros k r' [= <-]. by rewrite Hs.
    + apply wp_ret. split; [by left|]. intros k r [= <-]. rewrite Hrec. intros [= <-] _ Hc.
      apply contains_spec in Hc. congruence.
Qed.
End Bounds.
