(* ===== verification/EngineCopyFacts.v ===== *)
(** * The own devices

    What the engine takes as the own list, which key of an own device it uses,
    and which devices get the copies of a text. *)

From S2P Require Import Prelude.
From S2P Require Import RustStr.
From S2P Require Import Interfaces.
From S2P Require Import Isupport.
From S2P Require Import Wire.
From S2P Require Import Device.
From S2P Require Import Manage.
From S2P Require Import ListMigration.
From S2P Require Import DeviceFacts.
From S2P Require Import Trust.
From S2P Require Import Peer.
From S2P Require Import Files.
From S2P Require Import History.
From S2P Require Import State.
From S2P Require Import DeviceRoutes.
From S2P Require Import Pacing.
From S2P Require Import PairingFlow.
From S2P Require Import PairingGrant.
From S2P Require Import Refusal.
From S2P Require Import IdentityRoutes.
From S2P Require Import Protocol.
From S2P Require Import SendDoor.
From S2P Require Import SelfCopy.
From S2P Require Import Effects.
From S2P Require Import Client.
From S2P Require Import EffectsFacts.
From S2P Require Import EngineTypes.
From S2P Require Import Engine.
From S2P Require Import EngineCopies.
From S2P Require Import EngineFacts.
From stdpp Require Import options.

#[local] Open Scope eff_scope.

Section Own.
Context {C : Crypto} {J : Json} {U : UrlLib} {T : StateText} {A : Aead} {O : Olm}.
Context {H : HistoryText} {X : EngineText} {S : OlmSessions}.
Context (client : GrappaClient.t) (token : string) (server_protocol : option N) (o : outside).
Implicit Types (w : world E2eEngine.t) (e : E2eEngine.t).

(** ** The own list *)

Lemma own_list_ok data list master :
  own_list data = Some (list, master) ->
  StateData.signed_list data = Some list /\
  VersionedDeviceCertificate.master_ed25519 <$> StateData.device_certificate data = Some master /\
  verify_signed_list (SignedList.version list) (SignedList.keys list) master
    (SignedList.signature list) = Ok tt.
Proof.
  unfold own_list. intros (l & Hl & Ho)%bind_Some. apply bind_Some in Ho as (m & Hm & Ho).
  apply bind_Some in Ho as ([] & Hv & [= <- <-]). split_and!; [done|done|].
  by destruct (verify_signed_list _ _ _ _) as [[]|].
Qed.

(** What a sync of the own list leaves. *)
Definition synced w (r : result bool EngineError.t) w' : Prop :=
  mem w' = mem w /\
  match r with
  | Ok true => exists list master new,
      own_list (data_of w) = Some (list, master) /\
      data_of w' = StateData.set_list (Some new) (StateData.list_pending (data_of w))
                     (StateData.list_migrated (data_of w)) (data_of w) /\
      own_list (data_of w') = Some (new, master) /\
      (SignedList.version list < SignedList.version new)%N /\
      E2eEngine.own_ed25519 (mem w) ∈ SignedList.keys new
  | _ => data_of w' = data_of w
  end.

(** C17. The own list changes only for a newer one of the own master. Whatever the
    server answers: a sync that tells of a new list saved a list that the
    master of this device signed, above the version of the old one, and that
    still has this device; and any other end of it, errors included, leaves
    the state as it was. *)
Theorem sync_own_list_sound w :
  let '(w', r) := sync_own_list client token server_protocol o w in synced w r w'.
Proof.
  change (wp o (sync_own_list client token server_protocol) (synced w) w).
  unfold sync_own_list, synced. apply wp_data, wp_mem.
  apply wp_need; [by intros|]. intros [list master] Hown.
  eapply wp_seq with (R := fun _ w1 => mem w1 = mem w /\ store w1 = store w).
  { apply wp_with_err. eapply wp_mono; [apply fetch_list_call|].
    intros r w1 [[-> _]|(q & _ & -> & _)]; done. }
  2: { intros err w1 [-> ->]. done. }
  intros held w1 [Hm Hs]. destruct (bool_decide _) eqn:Hmaster; cbn [negb].
  2: { apply wp_raise. by rewrite Hm, Hs. }
  apply bool_decide_eq_true in Hmaster. set (new := HeldList.list held).
  apply wp_read; [by rewrite Hm, Hs|]. intros [] Hnew.
  destruct (_ || _) eqn:Hold; [apply wp_ret; by rewrite Hm, Hs|].
  apply orb_false_iff in Hold as [Hver%N.leb_gt Hkey%contains_negb_false].
  eapply wp_seq with (R := fun r w2 => mem w2 = mem w /\ data_of w2 = match r with
    | Ok _ => StateData.set_list (Some new) (StateData.list_pending (data_of w))
                (StateData.list_migrated (data_of w)) (data_of w)
    | Err _ => data_of w end).
  - unfold store_step. apply wp_with_err. eapply wp_mono;
      [apply on_store_moves, commits_set_signed_list|].
    intros [[]|err] w2 [Hm2 Hs2]; rewrite Hm2, Hm; split; try done.
    + destruct Hs2 as [-> _]. cbn. by rewrite Hs.
    + destruct Hs2 as [-> _]. by rewrite Hs.
  - intros [] w2 [Hm2 Hd2]. apply wp_ret. split; [done|]. exists list, master, new.
    split_and!; [done|done| |done|done].
    apply own_list_ok in Hown as (_ & Hcert & _). rewrite Hd2. unfold own_list. cbn.
    rewrite Hcert. cbn. by rewrite Hnew.
  - intros err w2 [? ?]. done.
Qed.

(** ** A key of an own device *)

(** The claimed keys of a sibling: its device is in the list of the answer,
    which has the version of the own list and is signed by the own master, and
    it signed both keys. *)
Definition sibling_checked (data : StateData.t) (ed25519 curve one_time : string) : Prop :=
  exists list master devices list_sig id_sig key_sig key_text,
    own_list data = Some (list, master) /\
    verify_signed_list (SignedList.version list) devices master list_sig = Ok tt /\
    ed25519 ∈ devices /\
    verify_signature ed25519 id_sig (device_id_signed_text curve master) = Ok tt /\
    bundle_key_signed_text one_time = Ok key_text /\
    verify_signature ed25519 key_sig key_text = Ok tt.

Lemma sibling_entry_checked data ed25519 keys entry :
  sibling_entry data ed25519 keys = Ok entry ->
  sibling_checked data ed25519 (IdBlock.curve25519 (KeysEntry.id entry))
    (OneTimeKey.key (KeysEntry.otk entry)).
Proof.
  unfold sibling_entry. intros ([list master] & Hown & Hs)%rbind_ok.
  apply ok_or_ok in Hown. apply rbind_ok in Hs as (payload & _ & Hs).
  set (block := KeysPayload.master payload) in *.
  apply rbind_ok in Hs as ([] & Hlist%map_err_ok & Hs).
  destruct (bool_decide (MasterBlock.ed25519 block = master)) eqn:Hmaster; [|done].
  apply bool_decide_eq_true in Hmaster. cbn [negb] in Hs.
  destruct (_ && _) eqn:Hremoved; [done|]. destruct (negb (_ =? _)%N) eqn:Hver; [done|].
  apply negb_false_iff, N.eqb_eq in Hver.
  apply rbind_ok in Hs as (found & Hfound%ok_or_ok & Hs).
  apply List.find_some in Hfound as [_ Hed%bool_decide_eq_true].
  apply rbind_ok in Hs as ([] & Hid%map_err_ok & Hs).
  apply rbind_ok in Hs as (text & Htext%map_err_ok & Hs).
  apply rbind_ok in Hs as ([] & Hkey%map_err_ok & [= <-]).
  rewrite Hed in *. rewrite Hver, Hmaster in Hlist. rewrite Hver in Hremoved.
  rewrite N.leb_refl in Hremoved. apply negb_false_iff, contains_spec in Hremoved.
  repeat eexists; eauto.
Qed.

(** Only requests went out, [n] at most. *)
Definition asked (n : nat) w w' : Prop :=
  store w' = store w /\ mem w' = mem w /\
  exists es, log w' = log w ++ es /\ length es <= n /\
    Forall (fun ev => exists q a r, ev = Sent q a /\ body q = Body.Claim r) es.

Lemma claim_tries_asks tries network did request w :
  wp o (claim_tries client token server_protocol tries network did request)
    (fun _ w' => asked tries w w') w.
Proof.
  assert (forall w1 n, asked n w1 w1) as Hrefl.
  { intros w1 n. split_and!; [done|done|]. exists []. rewrite app_nil_r.
    split_and!; [done|cbn; lia|by constructor]. }
  revert w. induction tries as [|tries IH]; intros w; cbn [claim_tries]; [by apply wp_raise|].
  eapply wp_seq with (R := fun _ w1 => asked 1 w w1).
  - apply wp_attempt. eapply wp_mono; [apply claim_call|].
    intros r w1 [[-> _]|(q & [_ Hq] & -> & _)]; [done|]. split_and!; [done|done|].
    eexists. split_and!; [done|cbn; lia|]. apply Forall_singleton. eauto.
  - assert (forall w1, asked 1 w w1 -> asked (Datatypes.S tries) w w1) as Hone.
    { intros w1 (? & ? & es & ? & ? & ?). split_and!; [done|done|]. exists es.
      split_and!; [done|lia|done]. }
    intros answer w1 Hw1.
    destruct answer as [keys|[]]; try (by apply wp_ret, Hone); try (by apply wp_raise, Hone).
    destruct refusal; try (by apply wp_raise, Hone).
    eapply wp_mono; [apply IH|]. intros r w2 (Hs2 & Hm2 & es2 & Hl2 & Hn2 & Hf2).
    destruct Hw1 as (Hs1 & Hm1 & es1 & Hl1 & Hn1 & Hf1). split_and!; [congruence|congruence|].
    exists (es1 ++ es2). rewrite Hl2, Hl1, app_assoc, length_app. split_and!; [done|lia|].
    by apply Forall_app.
  - intros err w1 (? & ? & es & ? & ? & ?). split_and!; [done|done|]. exists es.
    split_and!; [done|lia|done].
Qed.

Lemma claim_sibling_spec did ed25519 w :
  wp o (claim_sibling_key client token server_protocol did ed25519) (fun r w' =>
    asked 2 w w' /\
    match r with
    | Ok (curve, one_time) => sibling_checked (data_of w) ed25519 curve one_time
    | Err _ => True
    end) w.
Proof.
  assert (asked 2 w w) as Hrefl.
  { split_and!; [done|done|]. exists []. rewrite app_nil_r.
    split_and!; [done|cbn; lia|by constructor]. }
  unfold claim_sibling_key. apply wp_mem. apply wp_read; [by intros|]. intros request _.
  eapply wp_seq; [apply claim_tries_asks| |by intros].
  intros answer w1 Hw1. apply wp_data.
  assert (data_of w1 = data_of w) as Hd by (destruct Hw1 as [Hs _]; by rewrite Hs).
  rewrite Hd. unfold wp, bind, lift, ret.
  destruct (sibling_entry _ _ _) as [entry|step] eqn:He; [|done].
  split; [done|]. by eapply sibling_entry_checked.
Qed.

(** Only a checked key of an own device is used. A claim gives a curve key and
    a one-time key of a sibling only when the answer has the own list at its
    version, signed by the own master, with the sibling in it, and the sibling
    signed both; a claim asks the server twice at most, and changes nothing
    else. *)
Theorem claim_sibling_key_sound did ed25519 w :
  let '(w', r) := claim_sibling_key client token server_protocol did ed25519 o w in
  asked 2 w w' /\
  match r with
  | Ok (curve, one_time) => sibling_checked (data_of w) ed25519 curve one_time
  | Err _ => True
  end.
Proof. apply claim_sibling_spec. Qed.

(** ** Who gets a copy *)

Section Copies.
Context (w0 : world E2eEngine.t) (own_nick : string) (now : Z).
Notation e0 := (mem w0).
Notation siblings := (sibling_dids e0 (data_of w0)).

(** The session of a copy: a saved one of this sibling, or a new one with a
    checked key of it. *)
Definition session_from (before : list event) (did key : string) (x : session) : Prop :=
  (exists s, Store.key s = Store.key (store w0) /\
     (Store.data s = data_of w0 \/ Saved (Store.data s) ∈ before) /\
     Store.peer_session s (E2eEngine.network e0) own_nick did = Ok (Some x)) \/
  (exists seed identity curve one_time, sibling_checked (data_of w0) key curve one_time /\
     outbound_session seed identity curve one_time = Some x).

(** A copy request: the text of a waiting job that is not late, sealed for one
    sibling that is a recipient of the job and not done. *)
Definition copy_for (before : list event) (r : CopyRequest.t) : Prop :=
  exists job did key x x' seed lv message own,
    job ∈ E2eEngine.copy_jobs e0 /\ job_expired (CopyJob.created_at job) now = false /\
    (did, key) ∈ siblings /\ did ∈ CopyJob.recipients job /\ did ∉ CopyJob.finished job /\
    session_from before did key x /\
    session_encrypt seed x (copy_text (CopyOut.mk "copy" (CopyJob.peer job) (CopyJob.text job)
      (CopyJob.id job) lv (if has_received_message x then None
         else Some (recipient_binding (E2eEngine.own_ed25519 e0) key)))) = Some (x', message) /\
    copy_payload own did message = (CopyRequest.verb r, CopyRequest.payload r).

Definition copies_only (before : list event) (ev : event) : Prop :=
  match ev with
  | Sent q _ => match body q with Body.Copy r => copy_for before r | Body.Claim _ => True
                | _ => False end
  | _ => True
  end.

(** What the copies leave as it was. *)
Record same_own w : Prop := {
  own_siblings : sibling_dids (mem w) (data_of w) = siblings;
  own_listed : own_list (data_of w) = own_list (data_of w0);
  own_key : E2eEngine.own_ed25519 (mem w) = E2eEngine.own_ed25519 e0;
  own_net : E2eEngine.network (mem w) = E2eEngine.network e0;
  own_secret : Store.key (store w) = Store.key (store w0);
  own_data : data_of w = data_of w0 \/ Saved (data_of w) ∈ log w;
}.

Definition K w : Prop := logs copies_only (log w0) w /\ same_own w.

Lemma K_record w ev :
  copies_only (log w) ev -> K w -> K (record w ev).
Proof.
  intros Hev [Hl Hs]. split; [by apply logs_snoc|]. destruct Hs as [? ? ? ? ? Hd]. split; try done.
  cbn. destruct Hd as [?|?]; [by left|]. right. apply elem_of_app. by left.
Qed.

Lemma K_modify {E} (f : E2eEngine.t -> E2eEngine.t) :
  (forall e, sibling_dids (f e) = sibling_dids e /\
     E2eEngine.own_ed25519 (f e) = E2eEngine.own_ed25519 e /\
     E2eEngine.network (f e) = E2eEngine.network e) -> keeps o K (modify (E := E) f).
Proof.
  intros Hf. apply keeps_modify. intros w [Hl Hs]. split; [by eapply logs_same|].
  destruct Hs. destruct (Hf (mem w)) as (H1 & H2 & H3). by split; cbn; rewrite ?H1, ?H2, ?H3.
Qed.

Lemma sibling_checked_same w key curve one_time :
  K w -> sibling_checked (data_of w) key curve one_time ->
  sibling_checked (data_of w0) key curve one_time.
Proof. intros [_ [_ Hl _ _ _ _]]. unfold sibling_checked. by rewrite Hl. Qed.

Lemma asked_keeps n w w' : asked n w w' -> K w -> K w'.
Proof.
  intros (Hs & Hm & es & Hlog & _ & Hes). destruct w' as [d s m l]. cbn in *. subst s m l.
  intros HK. assert (K (mk_world d (store w) (mem w) (log w))) as HK0.
  { destruct HK as [Hl [? ? ? ? ? ?]]. split; [by eapply logs_same|by split]. }
  clear HK. induction es as [|ev es IH] using rev_ind; [by rewrite app_nil_r|].
  apply Forall_app in Hes as [Hes Hev]. apply Forall_singleton in Hev as (q & a & r & -> & Hq).
  rewrite app_assoc. apply (K_record (mk_world d (store w) (mem w) (log w ++ es))); [|by apply IH].
  unfold copies_only. by rewrite Hq.
Qed.

(** The session of a sibling, with what it needs of the log. *)
Lemma sibling_session_from identity did key w :
  K w ->
  wp o (sibling_session client token server_protocol identity own_nick did key) (fun r w' =>
    K w' /\ forall x, r = Ok x -> session_from (log w') did key x) w.
Proof.
  intros HK. unfold sibling_session. apply wp_store, wp_mem.
  apply wp_read; [by intros|]. intros held Hheld. destruct held as [x|].
  { apply wp_ret. split; [done|]. intros ? [= <-]. left. exists (store w).
    destruct HK as [_ [_ _ _ Hn Hk Hd]]. rewrite <-Hn. split_and!; done. }
  eapply wp_seq; [apply claim_sibling_spec| |].
  - intros [curve one_time] w1 [Hask Hc]. pose proof (asked_keeps _ _ _ Hask HK) as HK1.
    apply (sibling_checked_same w) in Hc; [|done].
    destruct (negb _); [by apply wp_raise|].
    eapply wp_seq with (R := fun _ w2 => K w2); [by apply K_record| |by intros].
    intros seed w2 HK2. unfold wp, lift. split; [done|]. intros x Hx%ok_or_ok. right. eauto 10.
  - intros step w1 [Hask _]. split; [by eapply asked_keeps|done].
Qed.

Lemma session_from_more log more did key x :
  session_from log did key x -> session_from (log ++ more) did key x.
Proof.
  intros [(s & Hk & Hd & Hs)|Hx]; [left|by right]. exists s. split_and!; [done| |done].
  destruct Hd as [?|?]; [by left|]. right. apply elem_of_app. by left.
Qed.

Lemma K_save_session did x w :
  K w -> wp o (on_store (fun env d s =>
      Store.set_peer_session env d s (E2eEngine.network (mem w)) own_nick did x))
    (fun r w' => K w' /\ exists more, log w' = log w ++ more) w.
Proof.
  intros [Hl Hs]. unfold wp, on_store, Store.set_peer_session, Store.set_session, Store.commit.
  destruct (seal _ _ _) as [raw|err]; [|by split; [apply K_record|eexists]].
  destruct (Store.writer _ _ _ _ _) as [d [u|err]]; (split; [|by eexists]).
  - split; [by apply logs_snoc|]. destruct Hs. split; try done. right. apply elem_of_app.
    right. by left.
  - by apply (K_record (mk_world d (store w) (mem w) (log w))); [|split; [by eapply logs_same|destruct Hs; by split]].
Qed.

(** A job in its course: what is done only grows. *)
Definition continues (job0 job : CopyJob.t) : Prop :=
  CopyJob.id job = CopyJob.id job0 /\ CopyJob.peer job = CopyJob.peer job0 /\
  CopyJob.text job = CopyJob.text job0 /\ CopyJob.created_at job = CopyJob.created_at job0 /\
  CopyJob.recipients job = CopyJob.recipients job0 /\
  CopyJob.finished job0 ⊆ CopyJob.finished job.

Lemma copy_new own_did verb payload r :
  CopyRequest.new own_did verb payload = Ok r ->
  CopyRequest.verb r = verb /\ CopyRequest.payload r = payload.
Proof.
  unfold CopyRequest.new. destruct (negb _); [done|]. destruct (_ <? _)%N; [done|].
  destruct (check_compact_json _); cbn; [|done]. by intros [= <-].
Qed.

Lemma K_copy_to job0 job did key :
  job0 ∈ E2eEngine.copy_jobs e0 -> continues job0 job ->
  job_expired (CopyJob.created_at job) now = false ->
  (did, key) ∈ siblings -> did ∈ CopyJob.recipients job -> did ∉ CopyJob.finished job ->
  keeps o K (copy_to client token server_protocol own_nick job did key).
Proof.
  intros Hjob (Hid & Hpeer & Htext & Hcreated & Hrec & Hfin) Hlate Hsib Hin Hnot w HK.
  unfold copy_to. apply wp_store, wp_mem. apply wp_read; [by split|]. intros identity _.
  apply wp_read; [by split|]. intros own _.
  assert (E2eEngine.own_ed25519 (mem w) = E2eEngine.own_ed25519 e0 /\
    E2eEngine.network (mem w) = E2eEngine.network e0) as [Hown Hnet] by (by destruct HK as [_ []]).
  eapply wp_seq; [by apply sibling_session_from| |by intros err w1 [? _]].
  intros x w1 [HK1 Hx]. specialize (Hx x eq_refl).
  eapply wp_seq with (R := fun _ w2 => K w2 /\ exists more, log w2 = log w1 ++ more);
    [split; [by apply K_record|by eexists]| |by intros err w2 [? _]].
  intros seed w2 [HK2 [more2 Hmore2]]. apply wp_need; [by split|]. intros [x' message] Hmsg.
  destruct (copy_payload own did message) as [verb payload] eqn:Hp.
  destruct (negb _); [by apply wp_raise|]. apply wp_read; [by split|]. intros r Hr.
  apply copy_new in Hr as [Hv Hpay].
  eapply wp_seq with (R := fun _ w3 => K w3 /\ exists more, log w3 = log w2 ++ more);
    [| |by intros err w3 [? _]].
  { apply wp_with_err. assert (E2eEngine.network (mem w) = E2eEngine.network (mem w2)) as ->
      by (destruct HK2 as [_ []]; congruence). by apply K_save_session. }
  intros _ w3 [HK3 [more3 Hmore3]]. eapply wp_seq with (R := fun _ w4 => K w4); [|by intros|by intros].
  apply wp_with_err. eapply wp_mono; [apply copy_call|].
  intros res w4 [[-> _]|(q & [_ Hq] & -> & _)]; [done|]. apply K_record; [|done].
  unfold copies_only. rewrite Hq.
  exists job0, did, key, x, x', seed, (OwnWire.lv own), message, own.
  split_and!; [done|by rewrite <-Hcreated|done|by rewrite <-Hrec|set_solver| | |by rewrite Hp, Hv, Hpay].
  - rewrite Hmore3, Hmore2, <-app_assoc. by apply session_from_more.
  - by rewrite <-Hpeer, <-Htext, <-Hid, <-Hown.
Qed.

Lemma after_step_continues job0 did step job r job' r' open :
  continues job0 job -> after_step did step job r = (job', r', open) -> continues job0 job'.
Proof.
  intros (?&?&?&?&?&?). assert (continues job0 (with_done did job)) as Hdone.
  { split_and!; try done. cbn. set_solver. }
  unfold after_step, with_try. destruct step; cbn; [by intros [= <- _ _]| |];
    destruct (_ <=? _)%N; intros [= <- _ _]; split_and!; try done; cbn; set_solver.
Qed.

Lemma siblings_keep {E} job0 l job r :
  job0 ∈ E2eEngine.copy_jobs e0 -> (forall p, p ∈ l -> p ∈ siblings) -> continues job0 job ->
  gives o K (fun p => continues job0 p.1.1)
    (copy_siblings (E := E) client token server_protocol own_nick now
       (job_expired (CopyJob.created_at job0) now) l job r).
Proof.
  intros Hjob. revert job r. induction l as [|[did key] l IH]; intros job r Hl Hc;
    cbn [copy_siblings]; [by apply gives_ret|].
  eapply gives_bind with (V := fun p => continues job0 p.1.1).
  - unfold copy_sibling. destruct (bool_decide (did ∈ CopyJob.finished job)) eqn:Hfin;
      [by apply gives_ret|]. apply bool_decide_eq_false in Hfin. cbn [orb].
    destruct (bool_decide (did ∈ CopyJob.recipients job)) eqn:Hrec; [|by apply gives_ret].
    apply bool_decide_eq_true in Hrec. cbn [negb].
    destruct (CopyReport.needs_sync r); [by apply gives_ret|].
    eapply gives_bind with (V := fun _ => True).
    { destruct (job_expired _ _) eqn:Hlate; [apply keeps_ret|]. apply keeps_attempt.
      eapply K_copy_to; try done; [|apply Hl; by left].
      destruct Hc as (_ & _ & _ & -> & _). done. }
    intros [u|step] _.
    + eapply gives_bind with (V := fun _ => True); [by apply K_modify|]. intros _ _.
      apply gives_ret. cbn. destruct Hc as (?&?&?&?&?&?). split_and!; try done. cbn. set_solver.
    + apply gives_ret. destruct (after_step did step job r) as [[job' r'] open] eqn:Ha. cbn.
      by eapply after_step_continues.
  - intros [[job' r'] open] Hc'. eapply gives_bind; [apply IH; [|exact Hc']|].
    + intros p Hp. apply Hl. by right.
    + intros [[job'' r''] more] Hc''. by apply gives_ret.
Qed.

Lemma jobs_keep {E} jobs r :
  (forall job, job ∈ jobs -> job ∈ E2eEngine.copy_jobs e0) ->
  keeps o K (copy_jobs_loop (E := E) client token server_protocol own_nick now jobs r).
Proof.
  revert r. induction jobs as [|job jobs IH]; intros r Hin; cbn [copy_jobs_loop]; [apply keeps_ret|].
  intros w HK. apply wp_data, wp_mem.
  assert (sibling_dids (mem w) (data_of w) = siblings) as -> by (by destruct HK as [_ []]).
  refine ((_ : keeps o K _) w HK). eapply gives_bind.
  - apply siblings_keep; [apply Hin; by left|done|]. by split_and!.
  - intros [[job' r'] open] _. apply keeps_bind.
    + apply IH. intros x Hx. apply Hin. by right.
    + intros [kept r'']. apply keeps_ret.
Qed.
End Copies.

(** C14. Copies go to the own devices only. Each copy that [send_copies] sends is the
    text of a waiting job, sealed for a sibling in the verified own list that
    is no revoked one, is a recipient of this job and has no copy of it yet,
    before the job is late; its session is the saved one of this sibling, or a
    new one with a key of it that passed the checks; the other requests of it
    are claims of keys. *)
Theorem copies_to_siblings {E} own_nick now w :
  exists es, log (send_copies (E := E) client token server_protocol own_nick now o w).1 =
      log w ++ es /\
    forall before ev rest, es = before ++ ev :: rest ->
      copies_only w own_nick now (log w ++ before) ev.
Proof.
  assert (K w own_nick now w) as HK.
  { split; [destruct w; apply logs_start|]. split; try done. by left. }
  enough (wp o (send_copies (E := E) client token server_protocol own_nick now)
    (fun _ w' => K w own_nick now w') w) as Hk.
  { unfold wp in Hk. destruct (send_copies _ _ _ _ _ _ _) as [w' r]. by destruct Hk as [Hl _]. }
  unfold send_copies. apply wp_mem.
  match goal with |- wp _ ?m _ _ => eapply wp_mono; [refine ((_ : keeps o (K w own_nick now) m) w HK)
    |by intros ? ? []] end.
  apply keeps_bind; [by apply K_modify|]. intros _. apply keeps_bind; [by apply jobs_keep|].
  intros [kept report]. apply keeps_bind; [by apply K_modify|]. intros _. apply keeps_ret.
Qed.
End Own.
