(* ===== verification/EngineExamples.v ===== *)
(** * Concrete runs of the engine

    The rows of one peer with one device, read by an engine with concrete
    instances of the outside components, for the theorems that have
    hypotheses. *)

From S2P Require Import Prelude.
From S2P Require Import RustStr.
From S2P Require Import Interfaces.
From S2P Require Import Concrete.
From S2P Require Import Isupport.
From S2P Require Import Wire.
From S2P Require Import Device.
From S2P Require Import Manage.
From S2P Require Import Trust.
From S2P Require Import Peer.
From S2P Require Import TrustFacts.
From S2P Require Import Files.
From S2P Require Import History.
From S2P Require Import HistoryFacts.
From S2P Require Import State.
From S2P Require Import StateFacts.
From S2P Require Import DeviceRoutes.
From S2P Require Import Pacing.
From S2P Require Import Refusal.
From S2P Require Import Protocol.
From S2P Require Import SendDoor.
From S2P Require Import Effects.
From S2P Require Import Client.
From S2P Require Import EffectsFacts.
From S2P Require Import EffectsExamples.
From S2P Require Import EngineTypes.
From S2P Require Import Engine.
From S2P Require Import EngineReceive.
From S2P Require Import EngineSend.
From S2P Require Import EngineFacts.
From S2P Require Import EngineSendFacts.
From S2P Require Import EngineReceiveFacts.
From S2P Require Import EngineTrustFacts.
From S2P Require Import EngineBoundsFacts.
From stdpp Require Import options.

(** ** Instances *)

(** The parser knows the empty object, for a payload, and the words of one
    inner message. *)
#[local] Instance engine_json : Json := {|
  value := json;
  as_str v := match v with JStr s => Some s | _ => None end;
  as_u64 := json_as_u64;
  as_i64 := json_as_i64;
  as_f64 v := match v with JNum z => Some (z, 0%Z) | _ => None end;
  as_bool v := match v with JBool b => Some b | _ => None end;
  as_array v := match v with JArr l => Some l | _ => None end;
  as_object_map v := match v with JObj l => Some (list_to_map l) | _ => None end;
  is_null v := match v with JNull => true | _ => false end;
  from_str text :=
    if decide (text = "ciao") then Some (JObj [("t", JStr "text"); ("body", JStr "ciao")])
    else json_from_str text;
|}.

#[local] Instance any_state_text : StateText := {|
  state_to_vec _ := Ok "state";
  state_from_slice _ := None;
|}.

#[local] Instance any_history_text : HistoryText := {|
  message_to_vec _ := Ok "row";
  message_from_slice _ := None;
  fold_case text := text;
|}.

(** ** A peer with one device *)

Definition luna_did : string := did_of 6.
Definition own_did_text : string := did_of 5.

Definition luna_list : SignedList.t := TrustFacts.sample_list 1 [6%N].

Definition luna_block : MasterBlock.t :=
  MasterBlock.mk (sample_key 1) (MasterList.mk (SignedList.version luna_list) (SignedList.keys luna_list))
    (SignedList.signature luna_list).

Definition luna_entry : KeysEntry.t :=
  KeysEntry.mk
    (IdBlock.mk (sample_key 106) (sample_key 6)
       (sample_sign 6 (device_id_signed_text (sample_key 106) (sample_key 1))))
    (OneTimeKey.mk (sample_key 206) false
       (sample_sign 6 (default "" (result_ok (bundle_key_signed_text (sample_key 206)))))).

Definition luna_keys : KeysPayload.t := KeysPayload.mk PAYLOAD_VERSION luna_block [luna_entry].

Definition luna_message : MsgPayload.t :=
  MsgPayload.mk PAYLOAD_VERSION (sample_key 106) {[own_did_text := "body"]}.

#[local] Instance engine_text : EngineText := {|
  keys_payload _ _ := Some luna_keys;
  prekey_payload _ _ := None;
  msg_payload _ := Some luna_message;
  master_block _ _ := None;
  prekey_text _ := "{}";
  msg_text _ := "{}";
  inner_text _ := "ciao";
  copy_text _ := "{}";
  master_value _ := JNull;
  str_value := JStr;
  u32_value n := JNum (Z.of_N n);
  object_text _ := "{}";
|}.

#[local] Instance engine_sessions : OlmSessions := {|
  curve_ok _ := true;
  prekey_session_id _ := None;
  message_ok _ := true;
  session_id x := x;
  has_received_message _ := true;
  outbound_session _ _ _ _ := Some "x";
  inbound_session _ _ _ := None;
  session_encrypt _ x text := Some (x, OlmNormal text);
  session_decrypt x _ := Some (x, "ciao");
|}.

(** ** Worlds *)

(** A device with an account and, perhaps, the session of the peer. *)
Definition engine_data (sessions : gmap string string) : StateData.t :=
  StateData.set_sessions sessions
    (StateData.set_account (Some (account_pickle (str_repeat "k" 32) own_account)) StateData.initial).

Definition new_engine (d : StateData.t) : result E2eEngine.t EngineError.t :=
  E2eEngine.new "azzurra" (sample_store d) empty_history.

Definition engine_outside : outside := {|
  reply _ q := Answered 204 None (Err "");
  io_of _ := sample_env WriteOk;
  random _ := "seed";
  wall _ := 0%Z;
  appends _ := appending_env AppendOk;
  rewrites _ := copying_env WriteOk;
  clock log := N.of_nat (length log);
|}.

Definition no_engine : E2eEngine.t :=
  E2eEngine.mk "" "" "" empty_history ∅ ∅ SendBook.new (KeyReqPacer.new 0) CaseMapping.Rfc1459 None
    ∅ [] [] OutgoingQueue.new ∅ ∅ (IntervalLimiter.new 0) ∅ ∅ [] [] 0 [] ∅ ∅ [] ∅
    (IntervalLimiter.new 0) ∅.

Definition engine_world (sessions : gmap string string) : world E2eEngine.t :=
  let d := engine_data sessions in
  mk_world ∅ (sample_store d) (default no_engine (result_ok (new_engine d))) [].

Definition fresh_world : world E2eEngine.t := engine_world ∅.
Definition paired_world : world E2eEngine.t :=
  engine_world {[peer_device_key "azzurra" "luna" luna_did := str_repeat "k" 32 +:+ "x"]}.

Definition luna_row (verb : InboxVerb.t) : InboxRow.t :=
  InboxRow.mk 7 "azzurra" "luna" luna_did own_did_text verb "m1" "{}" false.

Example keys_run : (accept_keys "luna" "{}" engine_outside fresh_world).2 = Ok [luna_did].
Proof. by_vm. Qed.

Example row_run :
  (handle_row (E := EngineError.t) (luna_row InboxVerb.Msg) 9 engine_outside paired_world).2 =
  Ok RowOutcome.Stored.
Proof. by_vm. Qed.

(** ** Witnesses *)

Lemma acknowledged_means_written_witness :
  let '(w', r) := handle_row (E := EngineError.t) (luna_row InboxVerb.Msg) 9 engine_outside
                    paired_world in
  r = Ok RowOutcome.Stored /\
  exists es, log w' = log paired_world ++ es /\ Forall write_ok es.
Proof.
  destruct (handle_row (E := EngineError.t) (luna_row InboxVerb.Msg) 9 engine_outside paired_world)
    as [w' r] eqn:E.
  assert (r = Ok RowOutcome.Stored) as -> by (pose proof row_run as Hr; rewrite E in Hr; exact Hr).
  split; [reflexivity|].
  apply (acknowledged_means_written engine_outside (luna_row InboxVerb.Msg) 9 paired_world w'
    RowOutcome.Stored); [discriminate|exact E|reflexivity].
Defined.

Lemma accept_keys_sound_witness :
  let '(w', r) := accept_keys "luna" "{}" engine_outside fresh_world in
  r = Ok [luna_did] /\ keys_accepted "luna" luna_keys [luna_did] fresh_world w'.
Proof.
  destruct (accept_keys "luna" "{}" engine_outside fresh_world) as [w' r] eqn:E.
  assert (r = Ok [luna_did]) as -> by (pose proof keys_run as Hr; rewrite E in Hr; exact Hr).
  split; [reflexivity|].
  destruct (accept_keys_sound engine_outside "luna" "{}" [luna_did] fresh_world w' E)
    as (payload & Hread & Hk).
  assert (read_keys "{}" = Ok luna_keys) as Heq by by_vm.
  rewrite Heq in Hread. injection Hread as <-. exact Hk.
Defined.

Lemma engine_memory_bounded_witness :
  let ops := [HandleEvent (luna_row InboxVerb.Keys) 9; SendOrQueue "luna" "ciao" 10;
              SendOrQueue "sole" "ciao" 11; SendCopies "io" 12; EndSession] in
  let w := (engine_run grappa "token" (Some 50%N) ops engine_outside fresh_world).1 in
  (N.of_nat (size (E2eEngine.sent (mem w))) <= 1200)%N /\
  (lenN (E2eEngine.copy_jobs (mem w)) <= 16)%N /\
  engine_bounded (mem w) /\
  forall op, let w' := (engine_step grappa "token" (Some 50%N) op engine_outside w).1 in
    engine_holds (record_after op (mem w)) (waiting_after op (mem w)) (job_after op (mem w))
      (mem w') /\
    match op with
    | SendCopies _ _ => copies_paid w w'
    | _ => copies_posted (log w') <= copies_posted (log w)
    end.
Proof.
  intros ops. destruct (new_engine (engine_data ∅)) as [e|err] eqn:E.
  - pose proof (engine_memory_bounded grappa "token" (Some 50%N) engine_outside "azzurra"
      (sample_store (engine_data ∅)) empty_history e ∅ [] ops E) as Hb.
    unfold fresh_world, engine_world. rewrite E. exact Hb.
  - exfalso. assert (is_ok (new_engine (engine_data ∅)) = true) as Hok by by_vm.
    rewrite E in Hok. discriminate.
Defined.

(** An inbox with one row, then nothing after it. *)
Definition row_json : json :=
  JObj [("kind", JStr "e2e_message"); ("id", JNum 3); ("network", JStr "azzurra"); ("from", JStr "luna");
        ("from_did", JStr luna_did); ("to_did", JStr own_did_text); ("verb", JStr "keys");
        ("msgid", JStr "m1"); ("payload", JStr "{}")].

Definition inbox_outside : outside := {|
  reply _ q :=
    if decide ("after" ∈ address q) then Answered 200 None (Ok (JObj [("messages", JArr [])]))
    else Answered 200 None (Ok (JObj [("messages", JArr [row_json])]));
  io_of _ := sample_env WriteOk;
  random _ := "seed";
  wall _ := 0%Z;
  appends _ := appending_env AppendOk;
  rewrites _ := copying_env WriteOk;
  clock log := N.of_nat (length log);
|}.

Example inbox_run :
  match GrappaClient.fetch_e2e_inbox (M := unit) grappa "token" "azzurra" luna_did None (Some 50%N)
          inbox_outside (mk_world ∅ (sample_store (engine_data ∅)) tt []) with
  | (_, Ok page) => InboxRow.id <$> page
  | _ => []
  end = [3%N].
Proof. by_vm. Qed.

Definition inbox_row : InboxRow.t :=
  InboxRow.mk 3 "azzurra" "luna" luna_did own_did_text InboxVerb.Keys "m1" "{}" false.

(** What the call gives for a page. *)
Lemma inbox_call_gives q v rows (w : world E2eEngine.t) :
  reply inbox_outside (log w) q = Answered 200 None (Ok v) ->
  InboxRow.page_from_value v (Some 50%N) = Ok rows ->
  (GrappaClient.call q (fun v => InboxRow.page_from_value v (Some 50%N)) inbox_outside w).2 = Ok rows.
Proof.
  intros Hr Hp. unfold GrappaClient.call, GrappaClient.send_e2e_device_request, bind, with_err, send,
    now, lift. rewrite Hr. unfold read_answer, GrappaClient.wire_ok. cbn -[InboxRow.page_from_value].
  by rewrite Hp.
Qed.

Lemma inbox_forward : pages_forward grappa "token" (Some 50%N) inbox_outside 3.
Proof.
  intros network did after w w' page. unfold GrappaClient.fetch_e2e_inbox, bind at 1, lift.
  destruct (GrappaClient.e2e_device_url _ _ _ _ _) as [u|err]; [|discriminate].
  match goal with |- GrappaClient.call ?q _ _ _ = _ -> _ => set (request := q) end.
  intros Hf. apply (f_equal snd) in Hf. cbn [snd] in Hf.
  destruct (decide ("after" ∈ address request)) as [Hin|Hnot].
  - rewrite (inbox_call_gives request (JObj [("messages", JArr [])]) [] w) in Hf.
    + injection Hf as <-. constructor.
    + cbn [reply inbox_outside]. by rewrite decide_True.
    + by_vm.
  - rewrite (inbox_call_gives request (JObj [("messages", JArr [row_json])]) [inbox_row] w) in Hf.
    + injection Hf as <-. constructor; [|constructor]. split; [|cbn; lia].
      destruct after as [a|]; [|exact I]. destruct Hnot. cbn. apply elem_of_app. right. left.
    + cbn [reply inbox_outside]. by rewrite decide_False.
    + by_vm.
Qed.

Lemma drain_ends_witness :
  (drain grappa "token" (Some 50%N) 5 9 inbox_outside fresh_world).2 <> Ok None.
Proof.
  apply (drain_ends grappa "token" (Some 50%N) inbox_outside 3 5 9 fresh_world).
  - exact inbox_forward.
  - cbn. lia.
Defined.
