(* ===== verification/Slash.v ===== *)
(** * Slash commands (crates/cordiale-core/src/slash.rs)

    The methods of [str] that the commands use beside those of RustStr, the
    commands of the compose line with their parser, and the aliases. *)

From S2P Require Import Prelude.
From S2P Require Import RustStr.
From S2P Require Import Isupport.
From S2P Require Import SendDoor.
From stdpp Require Import options.

(** [str::to_ascii_lowercase], [str::to_ascii_uppercase] and
    [str::eq_ignore_ascii_case]. *)
Definition is_ascii_lower_letter (c : ascii) : bool := in_range "a" "z" c.
Definition ascii_upper (c : ascii) : ascii :=
  if is_ascii_lower_letter c then byte_of (code c - 32) else c.
Definition str_lower : string -> string := CaseMapping.str_map to_ascii_lowercase.
Definition str_upper : string -> string := CaseMapping.str_map ascii_upper.
Definition eq_ignore_case (a b : string) : bool := bool_decide (str_lower a = str_lower b).

(** [str::trim_start]. *)
Definition trim_start (s : string) : string := str_concat (skip_white_space (utf8_chars s)).

(** The characters before the first white space, and the rest from it. *)
Fixpoint span_word (chars : list string) : list string * list string :=
  match chars with
  | [] => ([], [])
  | ch :: rest =>
      if is_whitespace ch then ([], chars)
      else let '(word, rest) := span_word rest in (ch :: word, rest)
  end.

(** [str::split_once(char::is_whitespace)]. *)
Definition split_once_white (s : string) : option (string * string) :=
  match span_word (utf8_chars s) with
  | (word, _ :: rest) => Some (str_concat word, str_concat rest)
  | (_, []) => None
  end.

(** [str::split_whitespace]: [word] holds the characters of the open word, the
    last one first. *)
Definition close_word (word : list string) (words : list string) : list string :=
  match word with [] => words | _ => str_concat (rev word) :: words end.

Fixpoint split_words (word chars : list string) : list string :=
  match chars with
  | [] => close_word word []
  | ch :: rest =>
      if is_whitespace ch then close_word word (split_words [] rest)
      else split_words (ch :: word) rest
  end.

Definition split_whitespace (s : string) : list string := split_words [] (utf8_chars s).

(** [str::ends_with]. *)
Definition ends_with (suffix s : string) : bool :=
  match strip_suffix suffix s with Some _ => true | None => false end.

(** ** Lemmas *)

Lemma str_concat_cons a l : str_concat (a :: l) = a +:+ str_concat l.
Proof. unfold str_concat. destruct l; simpl; [by rewrite str_app_nil_r|done]. Qed.

Lemma str_concat_app l l' : str_concat (l ++ l') = str_concat l +:+ str_concat l'.
Proof.
  induction l as [|a l IH]; [done|]. simpl (_ ++ _).
  by rewrite !str_concat_cons, IH, str_app_assoc.
Qed.

Lemma utf8_chars_concat s : str_concat (utf8_chars s) = s.
Proof.
  induction s as [|a s IH]; [done|]. simpl. destruct (utf8_chars s) as [|[|b t] cs] eqn:E.
  - rewrite <-IH. done.
  - rewrite str_concat_cons, IH. done.
  - destruct (is_continuation b).
    + rewrite str_concat_cons in *. rewrite str_app_cons in *. by rewrite <-IH.
    + rewrite str_concat_cons. rewrite IH. done.
Qed.

(** An ASCII character that is no white space starts a character of its own,
    so the text is trimmed already. *)
Lemma utf8_chars_not_nil s a : utf8_chars (String a s) <> [].
Proof. simpl. destruct (utf8_chars s) as [|[|b t] cs]; [done..|by destruct (is_continuation b)]. Qed.

Lemma span_word_app chars :
  (span_word chars).1 ++ (span_word chars).2 = chars.
Proof.
  induction chars as [|ch rest IH]; [done|]. simpl. destruct (is_whitespace ch); [done|].
  destruct (span_word rest) as [w r]. simpl in *. by rewrite IH.
Qed.

Lemma span_word_free chars : Forall (fun ch => is_whitespace ch = false) (span_word chars).1.
Proof.
  induction chars as [|ch rest IH]; [constructor|]. simpl.
  destruct (is_whitespace ch) eqn:E; [constructor|].
  destruct (span_word rest) as [w r]. simpl in *. by constructor.
Qed.

Module E2ePairAction.
Inductive t := Start | Join (link : string) | Code (typed : string) | Cancel | Accept | Decline.

#[global] Instance eq_dec : EqDecision t.
Proof. solve_decision. Defined.
End E2ePairAction.

Module E2eManageAction.
Inductive t := Devices | Revoke (did : string) | Reset | ResetConfirm | Forget | ForgetConfirm.

#[global] Instance eq_dec : EqDecision t.
Proof. solve_decision. Defined.
End E2eManageAction.

Module SlashCommand.
Inductive t :=
| Say (text : string)
| Action (text : string)
| Msg (target text : string)
| ServiceConsole (service : string)
| Notice (target text : string)
| Query (nick : option string)
| Join (channels : string) (key : option string)
| Part (channel reason : option string)
| Cycle (channel reason : option string)
| TopicSet (channel : option string) (text : string)
| TopicClear (channel : option string)
| TopicShow (channel : option string)
| ModeShow (channel : option string)
| Nick (nick : string)
| Away (reason : option string)
| Ctcp (target verb : string) (args : option string)
| Ping (target : string)
| NickModes (verb : string) (nicks : list string)
| Kick (nick reason : string)
| KickBan (nick reason : string)
| Ban (mask : string)
| Unban (mask : string)
| Mode (target : option string) (modes : string) (params : list string)
| Umode (modes : string)
| UmodeShow
| Names (channel : option string)
| Raw (line : string)
| Oper (name password : string)
| Connect (network : string)
| Disconnect (network reason : option string)
| Reconnect (network reason : option string)
| Quit (reason : option string)
| Highlight (add : bool) (pattern : string)
| Ignore (add : bool) (mask : string) (text_pattern : option string)
| NowPlaying
| Notify (nicks : list string)
| Beep (sound : option string)
| AliasDefine (name expansion : string)
| Unalias (name : string)
| FanOut (action : bool) (text : string)
| Usage (hint : string)
| Unknown (name : string)
| E2ePair (action : E2ePairAction.t)
| E2eManage (action : E2eManageAction.t).

#[global] Instance eq_dec : EqDecision t.
Proof. solve_decision. Defined.
End SlashCommand.
Import (canonicals, coercions) SlashCommand.
Notation command := SlashCommand.t.

(** ** Arguments *)

Definition is_prefix_only_channel (name : string) : bool :=
  is_channel name && (length (utf8_chars name) =? 1).

Definition is_service_nick (nick : string) : bool :=
  (4 <? str_len nick)%N && ends_with "serv" (str_lower nick).

Definition split_word (text : string) : string * string :=
  let '(word, rest) := span_word (skip_white_space (utf8_chars text)) in
  (str_concat word, trim (str_concat rest)).

Definition non_empty (text : string) : option string :=
  if is_empty text then None else Some text.

Definition channel_reason (args : string) : option string * option string :=
  let '(first, rest) := split_word args in
  if is_channel first then (Some first, non_empty rest) else (None, non_empty args).

Definition network_reason (args : string) : option string * option string :=
  let '(first, rest) := split_word args in (non_empty first, non_empty rest).

Definition words (args : string) : list string := split_whitespace args.

(** The entries after the first one, each with its own sigil. *)
Definition listed_channel (channel : string) : bool :=
  is_channel channel && negb (is_prefix_only_channel channel).

Definition join_channels (list : string) : option string :=
  match split_char "," list with
  | [] => None
  | head :: channels =>
      if is_empty head then None
      else if is_prefix_only_channel head then None
      else if forallb listed_channel channels
      then let head := if is_channel head then head else "#" +:+ head in
           Some (head +:+ str_concat ((fun c => "," +:+ c) <$> channels))
      else None
  end.

Definition service_nick (verb : string) : option string :=
  if decide (verb = "cs") then Some "ChanServ"
  else if decide (verb = "ns") then Some "NickServ"
  else if decide (verb = "ms") then Some "MemoServ"
  else if decide (verb = "os") then Some "OperServ"
  else if decide (verb = "hs") then Some "HelpServ"
  else if decide (verb = "rs") then Some "RootServ"
  else None.

(** ** The parser

    The arms of the [match] on the verb, in groups. *)

Notation in_verbs l verb := (contains l%list verb) (only parsing).

Definition JOIN_USAGE : string := "/join <#channel>[,<#channel>] [key]".

(** Messages and private windows. *)
Definition parse_talk (verb args : string) : option command :=
  if decide (verb = "me") then Some (SlashCommand.Action args)
  else if decide (verb = "msg") then
    let '(target, text) := split_word args in
    let bare_channel_target := is_channel target && negb (is_statusmsg_target target) in
    Some (if is_empty target || is_empty text || bare_channel_target
          then SlashCommand.Usage "/msg <nick> <text>"
          else SlashCommand.Msg target text)
  else if decide (verb = "notice") then
    let '(target, text) := split_word args in
    Some (if is_empty target || is_empty text
          then SlashCommand.Usage "/notice <target> <text>"
          else SlashCommand.Notice target text)
  else if in_verbs ["query"; "q"] verb then
    Some (match words args with
          | [] => SlashCommand.Query None
          | [nick] => if is_channel nick then SlashCommand.Usage "/query <nick>"
                      else SlashCommand.Query (Some nick)
          | _ => SlashCommand.Usage "/query <nick>"
          end)
  else None.

Definition join_command (list : string) (key : option string) : command :=
  match join_channels list with
  | Some channels => SlashCommand.Join channels key
  | None => SlashCommand.Usage JOIN_USAGE
  end.

Definition topic_target (args : string) : option string * string :=
  let '(first, rest) := split_word args in
  if is_channel first && (1 <? str_len first)%N then (Some first, rest)
  else if decide (first = "#") then (None, rest)
  else (None, args).

(** Channels and their topic; nick, away and CTCP. *)
Definition parse_channel (verb args : string) : option command :=
  if in_verbs ["join"; "j"] verb then
    Some (match split_whitespace args with
          | [list] => join_command list None
          | [list; key] => join_command list (Some key)
          | _ => SlashCommand.Usage JOIN_USAGE
          end)
  else if decide (verb = "part") then
    let '(channel, reason) := channel_reason args in Some (SlashCommand.Part channel reason)
  else if decide (verb = "cycle") then
    let '(channel, reason) := channel_reason args in Some (SlashCommand.Cycle channel reason)
  else if decide (verb = "topic") then
    let '(channel, text) := topic_target args in
    Some (if decide (text = "-delete") then SlashCommand.TopicClear channel
          else if is_empty text then SlashCommand.TopicShow channel
          else SlashCommand.TopicSet channel text)
  else if decide (verb = "nick") then
    Some (match words args with
          | [nick] => SlashCommand.Nick nick
          | _ => SlashCommand.Usage "/nick <nick>"
          end)
  else if decide (verb = "away") then
    Some (SlashCommand.Away (non_empty (trim (default args (strip_prefix ":" args)))))
  else if decide (verb = "ctcp") then
    let '(target, rest) := split_word args in
    let '(ctcp_verb, ctcp_args) := split_word rest in
    Some (if is_empty target || is_empty ctcp_verb
          then SlashCommand.Usage "/ctcp <target> <VERB> [args]"
          else SlashCommand.Ctcp target (str_upper ctcp_verb) (non_empty ctcp_args))
  else if decide (verb = "ping") then
    Some (match words args with
          | [target] => SlashCommand.Ping target
          | _ => SlashCommand.Usage "/ping <target>"
          end)
  else None.

(** Members and modes. *)
Definition parse_members (verb args : string) : option command :=
  if in_verbs ["op"; "deop"; "voice"; "devoice"] verb then
    Some (match words args with
          | [] => SlashCommand.Usage "/op <nick> [nick...]"
          | nicks => SlashCommand.NickModes verb nicks
          end)
  else if decide (verb = "kick") then
    let '(nick, reason) := split_word args in
    Some (if is_empty nick then SlashCommand.Usage "/kick <nick> [reason]"
          else SlashCommand.Kick nick reason)
  else if in_verbs ["kb"; "kickban"] verb then
    let '(nick, reason) := split_word args in
    Some (if is_empty nick then SlashCommand.Usage "/kb <nick> [reason]"
          else SlashCommand.KickBan nick reason)
  else if in_verbs ["ban"; "unban"] verb then
    let banning := bool_decide (verb = "ban") in
    Some (match words args with
          | [mask] => if banning then SlashCommand.Ban mask else SlashCommand.Unban mask
          | _ => if banning then SlashCommand.Usage "/ban <nick-or-mask>"
                 else SlashCommand.Usage "/unban <mask>"
          end)
  else if decide (verb = "mode") then
    let signed (first : string) := starts_with "+" first || starts_with "-" first in
    Some (match words args with
          | [] => SlashCommand.ModeShow None
          | [first] =>
              if signed first then SlashCommand.Mode None first []
              else if is_channel first then SlashCommand.ModeShow (Some first)
              else SlashCommand.Usage "/mode [target] <modes> [params]"
          | first :: ((modes :: params) as rest) =>
              if signed first then SlashCommand.Mode None first rest
              else SlashCommand.Mode (Some first) modes params
          end)
  else if decide (verb = "umode") then
    Some (match words args with
          | [] => SlashCommand.UmodeShow
          | [modes] => SlashCommand.Umode modes
          | _ => SlashCommand.Usage "/umode [modes]"
          end)
  else if decide (verb = "names") then
    Some (match words args with
          | [] => SlashCommand.Names None
          | [channel] => SlashCommand.Names (Some channel)
          | _ => SlashCommand.Usage "/names [#channel]"
          end)
  else None.

(** Raw lines, networks and the end of the session. *)
Definition parse_server (verb args : string) : option command :=
  if in_verbs ["quote"; "raw"] verb then
    Some (match non_empty args with
          | Some line => SlashCommand.Raw line
          | None => SlashCommand.Usage "/quote <raw IRC line>"
          end)
  else if decide (verb = "oper") then
    Some (match words args with
          | [name; password] => SlashCommand.Oper name password
          | _ => SlashCommand.Usage "/oper <name> <password>"
          end)
  else if decide (verb = "kill") then
    let '(nick, reason) := split_word args in
    Some (if is_empty nick then SlashCommand.Usage "/kill <nick> [reason]"
          else if is_empty reason then SlashCommand.Raw ("KILL " +:+ nick)
          else SlashCommand.Raw ("KILL " +:+ nick +:+ " :" +:+ reason))
  else if in_verbs ["stats"; "rehash"] verb then
    Some (match words args with
          | [] => SlashCommand.Raw (str_upper verb)
          | params => SlashCommand.Raw (str_upper verb +:+ " " +:+ join " " params)
          end)
  else if decide (verb = "connect") then
    Some (match words args with
          | [network] => SlashCommand.Connect network
          | _ => SlashCommand.Usage "/connect <network>"
          end)
  else if decide (verb = "disconnect") then
    let '(network, reason) := network_reason args in
    Some (SlashCommand.Disconnect network reason)
  else if decide (verb = "reconnect") then
    let '(network, reason) := network_reason args in
    Some (SlashCommand.Reconnect network reason)
  else if decide (verb = "quit") then Some (SlashCommand.Quit (non_empty args))
  else None.

Definition E2E_USAGE : string :=
  "/e2e pair | join <link> | accept | decline | code <nn> | cancel | devices | revoke <id> | reset | forget".

Definition e2e_command (steps : list string) : command :=
  match steps with
  | [step] =>
      if decide (step = "pair") then SlashCommand.E2ePair E2ePairAction.Start
      else if decide (step = "cancel") then SlashCommand.E2ePair E2ePairAction.Cancel
      else if decide (step = "accept") then SlashCommand.E2ePair E2ePairAction.Accept
      else if decide (step = "decline") then SlashCommand.E2ePair E2ePairAction.Decline
      else if decide (step = "devices") then SlashCommand.E2eManage E2eManageAction.Devices
      else if decide (step = "reset") then SlashCommand.E2eManage E2eManageAction.Reset
      else if decide (step = "forget") then SlashCommand.E2eManage E2eManageAction.Forget
      else SlashCommand.Usage E2E_USAGE
  | [step; arg] =>
      if decide (step = "join") then SlashCommand.E2ePair (E2ePairAction.Join arg)
      else if decide (step = "code") then SlashCommand.E2ePair (E2ePairAction.Code arg)
      else if decide (step = "revoke") then SlashCommand.E2eManage (E2eManageAction.Revoke arg)
      else if bool_decide (step = "reset") && bool_decide (arg = "yes")
      then SlashCommand.E2eManage E2eManageAction.ResetConfirm
      else if bool_decide (step = "forget") && bool_decide (arg = "yes")
      then SlashCommand.E2eManage E2eManageAction.ForgetConfirm
      else SlashCommand.Usage E2E_USAGE
  | _ => SlashCommand.Usage E2E_USAGE
  end.

Definition ignore_command (add : bool) (args : string) : command :=
  let rest := trim args in
  if is_empty rest then SlashCommand.Usage "/ignore <nick!user@host> [text pattern]"
  else match split_once_white rest with
       | None => SlashCommand.Ignore add rest None
       | Some (mask, pattern) => SlashCommand.Ignore add mask (non_empty (trim pattern))
       end.

(** The own devices, and the lists of the account. *)
Definition parse_account (verb args : string) : option command :=
  if decide (verb = "e2e") then Some (e2e_command (words args))
  else if in_verbs ["hilight"; "highlight"; "dehilight"] verb then
    Some (match non_empty args with
          | Some pattern => SlashCommand.Highlight (bool_decide (verb <> "dehilight")) pattern
          | None => SlashCommand.Usage "/hilight <pattern>"
          end)
  else if in_verbs ["ignore"; "unignore"] verb then
    Some (ignore_command (bool_decide (verb = "ignore")) args)
  else if decide (verb = "np") then Some SlashCommand.NowPlaying
  else if decide (verb = "beep") then
    Some (match words args with
          | [] => SlashCommand.Beep None
          | [sound] => SlashCommand.Beep (Some (str_lower sound))
          | _ => SlashCommand.Usage "/beep [sound]"
          end)
  else if in_verbs ["notify"; "watch"] verb then
    Some (match words args with
          | [] => SlashCommand.Usage "/notify <nick> [nick...]"
          | nicks => SlashCommand.Notify nicks
          end)
  else if decide (verb = "alias") then
    let '(name, expansion) := split_word args in
    let name := str_lower (trim_start_matches "/" name) in
    let expansion := trim_start_matches "/" expansion in
    Some (if is_empty name || is_empty expansion
          then SlashCommand.Usage "/alias <name> <expansion>"
          else SlashCommand.AliasDefine name expansion)
  else if decide (verb = "unalias") then
    Some (match words args with
          | [name] => SlashCommand.Unalias (str_lower (trim_start_matches "/" name))
          | _ => SlashCommand.Usage "/unalias <name>"
          end)
  else if in_verbs ["ame"; "amsg"] verb then
    let action := bool_decide (verb = "ame") in
    Some (match non_empty args with
          | Some text => SlashCommand.FanOut action text
          | None => SlashCommand.Usage (if action then "/ame <text>" else "/amsg <text>")
          end)
  else None.

(** The last arm. *)
Definition parse_service (verb args : string) : command :=
  match service_nick verb with
  | Some service => if is_empty args then SlashCommand.ServiceConsole service
                    else SlashCommand.Msg service args
  | None => SlashCommand.Unknown ("/" +:+ verb)
  end.

Definition parse_verb (verb args : string) : command :=
  match parse_talk verb args with Some c => c | None =>
  match parse_channel verb args with Some c => c | None =>
  match parse_members verb args with Some c => c | None =>
  match parse_server verb args with Some c => c | None =>
  match parse_account verb args with Some c => c | None => parse_service verb args
  end end end end end.

Definition parse (input : string) : option command :=
  match strip_prefix "/" (trim input) with
  | None => None
  | Some rest =>
      if starts_with "/" rest then Some (SlashCommand.Say rest)
      else let '(verb, args) := split_word rest in
           if is_empty verb then None else Some (parse_verb (str_lower verb) args)
  end.

(** ** Aliases *)

Definition MAX_ALIAS_DEPTH : nat := 5.
Definition BUILTIN_ALIASES : list (string * string) := [("onotice", "notice @$C $*")].

Module AliasError.
Inductive t := TooDeep (chain : string) | NoTarget (alias : string).

#[global] Instance eq_dec : EqDecision t.
Proof. solve_decision. Defined.
End AliasError.

(** The loop over the template: the text made from the rest of it, and whether
    a placeholder of the arguments was in it. *)
Definition copied (c : ascii) (after : option (string * bool)) : option (string * bool) :=
  '(out, substituted) ← after; Some (String c out, substituted).
Definition placed (text : string) (after : option (string * bool)) : option (string * bool) :=
  '(out, _) ← after; Some (text +:+ out, true).
Definition placed_target (target : option string) (after : option (string * bool))
    : option (string * bool) :=
  target ← target; '(out, substituted) ← after; Some (target +:+ out, substituted).

Fixpoint fill_template (rest : string) (args : list string) (target : option string)
    (template : string) : option (string * bool) :=
  match template with
  | "" => Some ("", false)
  | String a tail =>
      match tail with
      | String c after =>
          if negb (ascii_eqb a "$") then copied a (fill_template rest args target tail)
          else if ascii_eqb c "*" then placed rest (fill_template rest args target after)
          else if in_range "1" "9" c then
            let position := N.to_nat (code c - code "1") in
            match after with
            | String b beyond =>
                if ascii_eqb b "-"
                then placed (join " " (drop position args)) (fill_template rest args target beyond)
                else placed (default "" (args !! position)) (fill_template rest args target after)
            | "" => placed (default "" (args !! position)) (Some ("", false))
            end
          else if ascii_eqb c "C" then placed_target target (fill_template rest args target after)
          else copied a (fill_template rest args target tail)
      | "" => copied a (Some ("", false))
      end
  end.

Definition substitute_alias (template rest : string) (target : option string) : option string :=
  '(out, substituted) ← fill_template rest (split_whitespace rest) target template;
  Some (if (substituted : bool) || is_empty rest then out else out +:+ " " +:+ rest).

(** The expansion of a name. [aliases] are the entries of the map of the user,
    in the order in which the map gives them. *)
Definition alias_template (aliases : list (string * string)) (lower : string) : option string :=
  match list_find (fun a => eq_ignore_case (trim_start_matches "/" a.1) lower = true) aliases with
  | Some (_, (_, expansion)) => Some expansion
  | None => snd <$> (snd <$> list_find (fun a => a.1 = lower) BUILTIN_ALIASES)
  end.

Definition CHAIN_ARROW : string := utf8_of [32; 226; 134; 146; 32]%N.

(** The loop: [more] is the number of expansions that may still be made. *)
Fixpoint expand_chain (aliases : list (string * string)) (target : option string) (more : nat)
    (verb rest : string) (chain : list string) (expanded_any : bool)
    : result (string * string * bool) AliasError.t :=
  let lower := str_lower verb in
  if in_verbs ["alias"; "unalias"] lower then Ok (verb, rest, expanded_any) else
  match alias_template aliases lower with
  | None => Ok (verb, rest, expanded_any)
  | Some template =>
      match more with
      | 0 => Err (AliasError.TooDeep (join CHAIN_ARROW chain))
      | S more =>
          match substitute_alias (trim_start_matches "/" template) rest target with
          | None => Err (AliasError.NoTarget lower)
          | Some expanded =>
              let '(verb, rest) := split_word (trim expanded) in
              expand_chain aliases target more verb rest (chain ++ [str_lower verb]) true
          end
      end
  end.

Definition short_form (lower : string) : option string :=
  if decide (lower = "w") then Some "whois"
  else if decide (lower = "n") then Some "names"
  else None.

Definition expand_aliases (input : string) (aliases : list (string * string))
    (target : option string) : result string AliasError.t :=
  match strip_prefix "/" (trim input) with
  | None => Ok input
  | Some stripped =>
      if starts_with "/" stripped then Ok input else
      let '(verb, rest) := split_word stripped in
      let? (verb, rest, expanded_any) :=
        expand_chain aliases target MAX_ALIAS_DEPTH verb rest [str_lower verb] false in
      let short := short_form (str_lower verb) in
      if negb expanded_any && bool_decide (short = None) then Ok input else
      let verb := default verb short in
      Ok (if is_empty rest then "/" +:+ verb else "/" +:+ verb +:+ " " +:+ rest)
  end.
