(* ===== verification/E2eView.v ===== *)
(** * The data of the E2E views (crates/cordiale-ui/src/e2e_view.rs)

    The state of a message, the local search and the delete of the history,
    the two windows of a peer, the state of a locked chat, the status keys of
    pairing, revoke and reset, the rows of the own devices and the reasons why
    a device cannot use the identity. *)

From S2P Require Import Prelude.
From S2P Require Import RustStr.
From S2P Require Import Interfaces.
From S2P Require Import Pairing.
From S2P Require Import PairingFlow.
From S2P Require Import History.
From S2P Require Import Files.
From S2P Require Import IdentityRoutes.
From S2P Require Import Refusal.
From S2P Require Import Pacing.
From S2P Require Import Client.
From S2P Require Import Provision.
From S2P Require Import Revoke.
From S2P Require Import PairingDrive.
From S2P Require Import EngineTypes.
From stdpp Require Import options.

(** The crate [chrono]: a protocol time in the local zone with a day and a
    minute, a number of seconds as a local time of day, and a protocol time in
    milliseconds. *)
Class Chrono := {
  activity_time : string -> option string;
  clock_text : Z -> option string;
  rfc3339_millis : string -> option Z;
}.

Module MessageState.
Inductive t := Encrypted | Pending | Failed | Unavailable.

#[global] Instance eq_dec : EqDecision t.
Proof. solve_decision. Defined.

Definition key (s : t) : string :=
  match s with
  | Encrypted => "e2e-state-encrypted"
  | Pending => "e2e-state-pending"
  | Failed => "e2e-state-failed"
  | Unavailable => "e2e-state-unavailable"
  end.

Definition ALL : list t := [Encrypted; Pending; Failed; Unavailable].

Definition from_key (text : string) : option t :=
  snd <$> list_find (fun s => key s = text) ALL.

Definition shows_text (s : t) : bool := bool_decide (s = Encrypted).
End MessageState.

(** ** The local history *)

Module DeletePlan.
Record t := mk { conversation_id : option string; conversations : N; messages : N }.
End DeletePlan.

Section HistoryViews.
Context {T : HistoryText} {A : Aead}.

Definition messages_in (store : E2eHistoryStore.t) (id : string) : N :=
  lenN (E2eHistoryStore.messages_of store id).

Definition delete_plan (store : E2eHistoryStore.t) (conversation_id : option string)
    : DeletePlan.t :=
  match conversation_id with
  | Some id =>
      let messages := messages_in store id in
      DeletePlan.mk (Some id) (if (0 <? messages)%N then 1 else 0) messages
  | None =>
      let ids := E2eHistoryStore.conversation_ids store in
      DeletePlan.mk None (lenN ids) (foldr N.add 0%N (messages_in store <$> ids))
  end.

Definition delete_confirmed (rewriting : rewrite_env) (removing : option io_error) (d : disk)
    (store : E2eHistoryStore.t) (plan : DeletePlan.t) (confirmed : bool)
    : disk * E2eHistoryStore.t * result bool E2eStoreError.t :=
  if negb confirmed then (d, store, Ok false) else
  let '(d, store, deleted) :=
    match DeletePlan.conversation_id plan with
    | Some id => E2eHistoryStore.delete_conversation rewriting d store id
    | None => E2eHistoryStore.delete_all removing d store
    end in
  (d, store, rmap (fun _ => true) deleted).

Definition search_history (store : E2eHistoryStore.t) (conversation_id : option string)
    (needle : string) : list E2eMessage.t := E2eHistoryStore.search store conversation_id needle.

Definition search_history_in_view (store : E2eHistoryStore.t) (conversation_id : option string)
    (needle : string) (ciphertext : bool) : list E2eMessage.t :=
  if ciphertext then E2eHistoryStore.search_captures store conversation_id needle
  else E2eHistoryStore.search store conversation_id needle.
End HistoryViews.

(** ** Status keys *)

Definition pairing_end_key (reason : EndReason) : string :=
  match reason with
  | EndCancelled | EndClosed (Pairing.Closed | Pairing.Replaced) => "e2e-pair-cancelled"
  | EndTimeout | EndClosed Pairing.Expired => "e2e-pair-timeout"
  | EndWrongCode => "e2e-pair-wrong-code"
  | EndBadChannel | EndBadMessage | EndFailed => "e2e-pair-failed"
  end.

Definition pairing_status_key (status : PairingStatus) : string * string :=
  match status with
  | StatusWaiting => ("e2e-pair-waiting", "")
  | StatusCode code => ("e2e-pair-code", code)
  | StatusAwaitingPeer => ("e2e-pair-await", "")
  | StatusDone => ("e2e-pair-done", "")
  | StatusEnded reason => (pairing_end_key reason, "")
  end.

Definition pairing_error_key (error : DriveError.t) : string :=
  match error with
  | DriveError.Call PairingCallError.Unavailable => "e2e-pair-unavailable"
  | DriveError.Flow FlowError.WrongCode => "e2e-pair-wrong-code"
  | DriveError.Flow FlowError.ListFull => "e2e-pair-full"
  | DriveError.Flow (FlowError.NotActive | FlowError.NoChannel) => "e2e-pair-none"
  | _ => "e2e-pair-failed"
  end.

Definition revoke_status_key (r : result Revoked.t RevokeError.t) : string * string :=
  match r with
  | Ok done => ("e2e-revoke-done", Revoked.did done)
  | Err (RevokeError.Route E2eRouteError.Unavailable) => ("e2e-revoke-unavailable", "")
  | Err (RevokeError.Route _ | RevokeError.Store _) => ("e2e-revoke-pending", "")
  | Err _ => ("e2e-revoke-failed", "")
  end.

Definition reset_status_key (r : result unit RevokeError.t) : string :=
  match r with
  | Ok _ => "e2e-reset-done"
  | Err (RevokeError.Route E2eRouteError.Unavailable) => "e2e-reset-unavailable"
  | Err (RevokeError.Route _ | RevokeError.Store _) => "e2e-reset-pending"
  | Err _ => "e2e-reset-failed"
  end.

(** ** The two windows of a peer *)

Inductive QueryLane := LanePlain | LaneLocked.

#[global] Instance QueryLane_eq_dec : EqDecision QueryLane.
Proof. solve_decision. Defined.

Module LocalQuery.
Record t := new { network : string; lane : QueryLane; nick : string }.

#[global] Instance eq_dec : EqDecision t.
Proof. solve_decision. Defined.

Definition from_window (network window_name : string) : t :=
  match route_for_window window_name with
  | SendRoute.Encrypted nick => new network LaneLocked nick
  | SendRoute.Plain nick => new network LanePlain nick
  end.

Definition window_name (q : t) : string :=
  match lane q with
  | LanePlain => nick q
  | LaneLocked => locked_label (nick q)
  end.

Definition key (q : t) : string * string := (network q, window_name q).
Definition is_locked (q : t) : bool := bool_decide (lane q = LaneLocked).
End LocalQuery.

(** ** The state of a chat *)

Module ChatState.
Inductive t :=
| ClearText
| Reset
| Unavailable
| TrustAlarm
| Pairing
| Revoked
| MissingKeys
| KeyRequestAccepted
| KeyRequestWaiting
| KeyRequestFailed
| SendFailed
| Expired
| Unreadable
| NoSuchNick
| SasPending
| Active.

#[global] Instance eq_dec : EqDecision t.
Proof. solve_decision. Defined.

Definition key (s : t) : string :=
  match s with
  | ClearText => "e2e-chat-clear"
  | Reset => "e2e-chat-reset"
  | Unavailable => "e2e-chat-unavailable"
  | TrustAlarm => "e2e-chat-trust"
  | Pairing => "e2e-chat-pairing"
  | Revoked => "e2e-chat-revoked"
  | MissingKeys => "e2e-chat-keys"
  | KeyRequestAccepted => "e2e-chat-keys-accepted"
  | KeyRequestWaiting => "e2e-chat-keys-waiting"
  | KeyRequestFailed => "e2e-chat-keys-failed"
  | SendFailed => "e2e-chat-send-failed"
  | Expired => "e2e-chat-expired"
  | Unreadable => "e2e-chat-unreadable"
  | NoSuchNick => "e2e-chat-no-such-nick"
  | SasPending => "e2e-chat-sas"
  | Active => "e2e-chat-active"
  end.
End ChatState.

Module KeyRequest.
Inductive t := NotSent | Accepted | Waiting | Failed.

#[global] Instance eq_dec : EqDecision t.
Proof. solve_decision. Defined.
End KeyRequest.

Module ChatSignals.
Record t := mk {
  key_request : KeyRequest.t;
  reset : bool;
  engine : bool;
  trust_alarm : bool;
  pairing : bool;
  peer_revoked : bool;
  ready : bool;
  sas_verified : bool;
  key_verified : bool;
  last_drop : option DropReason.t;
}.
End ChatSignals.

Definition locked_chat_state (signals : ChatSignals.t) : ChatState.t :=
  if ChatSignals.reset signals then ChatState.Reset
  else if negb (ChatSignals.engine signals) then ChatState.Unavailable
  else if ChatSignals.trust_alarm signals then ChatState.TrustAlarm
  else if ChatSignals.pairing signals then ChatState.Pairing
  else if negb (ChatSignals.ready signals) && ChatSignals.peer_revoked signals
       then ChatState.Revoked
  else if decide (ChatSignals.last_drop signals = Some DropReason.Unreadable)
       then ChatState.Unreadable
  else if decide (ChatSignals.last_drop signals = Some DropReason.NoSuchNick)
       then ChatState.NoSuchNick
  else if negb (ChatSignals.ready signals) then
    match ChatSignals.key_request signals with
    | KeyRequest.NotSent => ChatState.MissingKeys
    | KeyRequest.Accepted => ChatState.KeyRequestAccepted
    | KeyRequest.Waiting => ChatState.KeyRequestWaiting
    | KeyRequest.Failed => ChatState.KeyRequestFailed
    end
  else if match ChatSignals.last_drop signals with
          | Some (DropReason.SendFailed | DropReason.SessionEnded) => true
          | _ => false
          end then ChatState.SendFailed
  else if decide (ChatSignals.last_drop signals = Some DropReason.Late) then ChatState.Expired
  else if negb (ChatSignals.sas_verified signals) && negb (ChatSignals.key_verified signals)
       then ChatState.SasPending
  else ChatState.Active.

(** The text of an undeliverable row; [own] are the registered own devices. *)
Definition undeliverable_text_for `{J : Json} (payload : value) (peer : string)
    (own : gset string) : option string :=
  meta ← json_get payload "meta";
  count ← json_get meta "e2e_undeliverable" ≫= as_u64;
  let messages := if (count =? 1)%N then "message" else "messages" in
  let here := "*** " +:+ peer +:+ " sent you " +:+ N_display count +:+ " encrypted "
                +:+ messages +:+ " that cannot be read here" in
  match json_get meta "e2e_device" ≫= as_str with
  | Some did =>
      if bool_decide (did ∈ own) then Some here
      else Some ("*** " +:+ peer +:+ " sent " +:+ N_display count +:+ " encrypted " +:+ messages
                   +:+ " that cannot be read on your other device " +:+ did)
  | None => Some here
  end.

(** ** The own devices *)

Module DeviceRow.
Record t := mk { did : string; mine : bool; kind : string; time : string; added : string }.
End DeviceRow.

Section Rows.
Context {Ch : Chrono}.

Definition activity_of (last_seen : LastSeen.t) : string * string :=
  match last_seen with
  | LastSeen.NotSent => ("not-sent", "")
  | LastSeen.Never => ("never", "")
  | LastSeen.Unreadable => ("unreadable", "")
  | LastSeen.At raw =>
      match activity_time raw with
      | Some time => ("at", time)
      | None => ("unreadable", "")
      end
  end.

Definition record_of (records : option (list DeviceRecord.t)) (did : string)
    : option DeviceRecord.t :=
  list ← records; snd <$> list_find (fun record => DeviceRecord.did record = did) list.

Definition device_row (own : string) (records : option (list DeviceRecord.t)) (did : string)
    : DeviceRow.t :=
  let record := record_of records did in
  let '(kind, time) :=
    match record with
    | Some record => activity_of (DeviceRecord.last_seen record)
    | None => ("unknown", "")
    end in
  DeviceRow.mk did (bool_decide (did = own)) kind time
    (default "" (record ← record; raw ← DeviceRecord.inserted_at record; activity_time raw)).

Definition device_rows (ids : list string) (own : string)
    (records : option (list DeviceRecord.t)) : list DeviceRow.t :=
  device_row own records <$> ids.
End Rows.

(** ** Recovery *)

Module RecoveryReason.
Inductive t := NoKeys | Replaced | LeftOut | NoList.

#[global] Instance eq_dec : EqDecision t.
Proof. solve_decision. Defined.

Definition status_key (r : t) : string :=
  match r with
  | NoKeys => "e2e-recovery-no-keys"
  | Replaced => "e2e-recovery-replaced"
  | LeftOut => "e2e-recovery-left-out"
  | NoList => "e2e-recovery-no-list"
  end.
End RecoveryReason.

Definition recovery_for_provision (error : ProvisionError.t) : option RecoveryReason.t :=
  match error with
  | ProvisionError.NeedsPairing => Some RecoveryReason.NoKeys
  | ProvisionError.MasterMismatch => Some RecoveryReason.Replaced
  | _ => None
  end.

Definition recovery_for_list (own : string) (ids : option (list string))
    : option RecoveryReason.t :=
  match ids with
  | None => Some RecoveryReason.NoList
  | Some ids => if negb (contains ids own) then Some RecoveryReason.LeftOut else None
  end.

Definition devices_reason (saved : option RecoveryReason.t) (own : string)
    (ids : option (list string)) : option (RecoveryReason.t * bool) :=
  match saved with
  | Some reason => Some (reason, false)
  | None => (fun reason => (reason, true)) <$> recovery_for_list own ids
  end.

Definition pairing_help (rows : option (list DeviceRow.t)) : string :=
  match rows with
  | None => "unknown"
  | Some rows => if existsb (fun row => negb (DeviceRow.mine row)) rows then "pair" else "none"
  end.
