(* ===== verification/Runtime.v ===== *)
(** * The engines of a session and its locked windows
    (crates/cordiale-ui/src/e2e_runtime.rs)

    The state that the worker keeps for end-to-end encryption, [E2eRuntime],
    with each of its methods: the offers of a pairing, the locked windows and
    their views, the key requests, the consent requests and the rows of the
    messages that are on their way. *)

From S2P Require Import Prelude.
From S2P Require Import RustStr.
From S2P Require Import Slash.
From S2P Require Import Interfaces.
From S2P Require Import Isupport.
From S2P Require Import Trust.
From S2P Require Import Peer.
From S2P Require Import Device.
From S2P Require Import History.
From S2P Require Import State.
From S2P Require Import Versions.
From S2P Require Import DeviceRoutes.
From S2P Require Import Pacing.
From S2P Require Import Pairing.
From S2P Require Import PairingFlow.
From S2P Require Import PairingGrant.
From S2P Require Import SendDoor.
From S2P Require Import EngineTypes.
From S2P Require Import Engine.
From S2P Require Import E2eView.
From stdpp Require Import options.

(** ** Data *)

(** An engine with the state store that it owns. *)
Module Held.
Record t := mk { state : Store.t; engine : E2eEngine.t }.
End Held.

Module PendingIncoming.
Record t := mk { network : string; nick : string; from_did : string; msgid : string }.

#[global] Instance eq_dec : EqDecision t.
Proof. solve_decision. Defined.

Definition matches (r : t) (network_ from_did_ msgid_ : string) : bool :=
  bool_decide (network r = network_) && bool_decide (from_did r = from_did_)
  && bool_decide (msgid r = msgid_).
End PendingIncoming.

Definition SEEN_OFFERS_MAX : nat := 32.

Inductive OfferDecision :=
| OfferShow | OfferUnsupported | OfferExpired | OfferDuplicate | OfferOwn | OfferWrongNetwork
| OfferAlreadyPaired | OfferBusy.

#[global] Instance OfferDecision_eq_dec : EqDecision OfferDecision.
Proof. solve_decision. Defined.

Module SasCheck.
Record t := mk { network : string; nick : string; master : string }.

#[global] Instance eq_dec : EqDecision t.
Proof. solve_decision. Defined.
End SasCheck.

Module SasStep.
Inductive t := Start | Confirm | Reject | Cancel.

#[global] Instance eq_dec : EqDecision t.
Proof. solve_decision. Defined.

Definition parse (name : string) : option t :=
  if decide (name = "start") then Some Start
  else if decide (name = "confirm") then Some Confirm
  else if decide (name = "reject") then Some Reject
  else if decide (name = "cancel") then Some Cancel
  else None.
End SasStep.

Module PeerKeyStep.
Inductive t := Open | Close | Verify.

#[global] Instance eq_dec : EqDecision t.
Proof. solve_decision. Defined.

Definition parse (name : string) : option t :=
  if decide (name = "open") then Some Open
  else if decide (name = "close") then Some Close
  else if decide (name = "verify") then Some Verify
  else None.
End PeerKeyStep.

(** A row of a window (main.rs). *)
Module RenderedMessage.
Record t := mk {
  timestamp : string;
  nick : option string;
  text : string;
  italic : bool;
  message_id : option Z;
  server_time : option Z;
  presence_noise : bool;
  rename_to : option string;
  encrypted : bool;
}.

#[global] Instance eq_dec : EqDecision t.
Proof. solve_decision. Defined.
End RenderedMessage.

(** The order of pairs of texts, and of a sorted set or list of them. *)
Definition pair_le (a b : string * string) : Prop :=
  (a.1 <> b.1 /\ String.le a.1 b.1) \/ (a.1 = b.1 /\ String.le a.2 b.2).
#[global] Instance pair_le_dec a b : Decision (pair_le a b) := ltac:(unfold pair_le; apply _).

(** A [BTreeSet] as a list; [sort] and [dedup]. *)
Definition sorted_pairs (l : list (string * string)) : list (string * string) :=
  merge_sort pair_le (remove_dups l).

(** The sidebar row of a query (main.rs); a locked one has no time and no id. *)
Module QueryWindow.
Record t := mk {
  network : string;
  target_nick : string;
  opened_at : string;
  dm_conversation_id : option Z;
}.
End QueryWindow.

(** ** Rows of a locked window *)

(** [INCOMING_ROW_TEXT] (main.rs). *)
Definition INCOMING_ROW_TEXT : string := NUL +:+ "e2e-incoming".
Definition NO_CIPHERTEXT_TEXT : string := "[No ciphertext on this device]".

(** The warning sign of a dropped row and the space after it. *)
Definition WARNING_MARK : string := utf8_of [226; 154; 160; 32]%N.

(** [checked_mul] of an [i64]. *)
Definition checked_mul_i64 (a b : Z) : option Z :=
  if in_i64 (a * b) then Some (a * b)%Z else None.

Section Rows.
Context {Ch : Chrono}.

Definition locked_row_with_drop (message : E2eMessage.t) (own_nick peer : string)
    (dropped : option DropReason.t) : RenderedMessage.t :=
  let nick := if decide (E2eMessage.sender_device message = OWN_DEVICE) then own_nick else peer in
  let action := action_body (E2eMessage.text message) in
  let shown := match action with
               | Some words => "* " +:+ nick +:+ " " +:+ words
               | None => E2eMessage.text message
               end in
  RenderedMessage.mk (default "" (clock_text (E2eMessage.sent_at message)))
    (match action with Some _ => None | None => Some nick end)
    (match dropped with Some _ => WARNING_MARK +:+ shown | None => shown end)
    (bool_decide (is_Some dropped) || bool_decide (is_Some action))
    None (checked_mul_i64 (E2eMessage.sent_at message) 1000) false None true.

(** The line of a captured payload in the ciphertext view. A verb is one of the
    ASCII names of [inbox_verb_name] and [send_verb_name], so its upper case is
    the one of ASCII. *)
Definition capture_line (mark : string) (dropped : option DropReason.t) (capture : E2eCapture.t)
    : string :=
  let msgid := default "-" (E2eCapture.msgid capture) in
  let verb := str_upper (E2eCapture.verb capture) in
  match dropped with
  | Some reason => mark +:+ "E2E " +:+ verb +:+ " " +:+ msgid +:+ " [dropped: "
                     +:+ DropReason.wire_name reason +:+ "; not sent]"
  | None => "E2E " +:+ verb +:+ " " +:+ msgid +:+ " " +:+ E2eCapture.payload capture
  end.

Definition ciphertext_lines (message : E2eMessage.t) (dropped : option DropReason.t)
    : list string :=
  let mark := match dropped with Some _ => WARNING_MARK | None => "" end in
  match E2eMessage.captures message with
  | [] => [mark +:+ NO_CIPHERTEXT_TEXT]
  | captures => capture_line mark dropped <$> captures
  end.

Definition locked_rows_for_view (message : E2eMessage.t) (own_nick peer : string)
    (dropped : option DropReason.t) (ciphertext : bool) : list RenderedMessage.t :=
  let plain := locked_row_with_drop message own_nick peer dropped in
  if negb ciphertext then [plain] else
  let nick := if decide (E2eMessage.sender_device message = OWN_DEVICE) then own_nick else peer in
  (fun text =>
     RenderedMessage.mk (RenderedMessage.timestamp plain) (Some nick) text
       (bool_decide (is_Some dropped)) (RenderedMessage.message_id plain)
       (RenderedMessage.server_time plain) (RenderedMessage.presence_noise plain)
       (RenderedMessage.rename_to plain) (RenderedMessage.encrypted plain))
  <$> ciphertext_lines message dropped.
End Rows.

(** [stamp] is the local time of day. *)
Definition incoming_progress_row (nick stamp : string) : RenderedMessage.t :=
  RenderedMessage.mk stamp (Some nick) INCOMING_ROW_TEXT true None None false None false.

(** ** The session state *)

Module ActivePairing.
Section Active.
Context {EC : EciesChannel}.
Record t := mk { network : string; session : PairingSession.t; manual_code : option string }.
End Active.
#[global] Arguments t : clear implicits.
#[global] Arguments t {EC}.
End ActivePairing.

Module E2eRuntime.
Section Runtime.
Context {EC : EciesChannel}.

Record t := mk {
  engines : gmap string Held.t;
  histories : gmap string E2eHistoryStore.t;
  unavailable : gset string;
  locked : gset (string * string);
  key_requests : gmap (string * string) KeyRequest.t;
  requests : gmap (string * N) E2eRequest.t;
  activated_requests : gset (string * N);
  pairing : option ActivePairing.t;
  stale_pairings : list (string * StalePairing.t);
  reset_asked : option string;
  forget_asked : option string;
  forgotten : gset string;
  reset : gset string;
  trust_alarm : gset (string * string);
  read_incoming : gmap (string * string) N;
  cipher_view : gset (string * string);
  provisioned : gset string;
  sas_check : option SasCheck.t;
  needs_pairing : gset string;
  offer : option PairingOffer.t;
  seen_offers : list string;
  recovery : gmap string RecoveryReason.t;
  incoming : list PendingIncoming.t;
}.

(** Assignments to single fields. *)
Definition set_engines (x : gmap string Held.t) (r : t) : t :=
  mk x (histories r) (unavailable r) (locked r) (key_requests r) (requests r)
    (activated_requests r) (pairing r) (stale_pairings r) (reset_asked r) (forget_asked r)
    (forgotten r) (reset r) (trust_alarm r) (read_incoming r) (cipher_view r) (provisioned r)
    (sas_check r) (needs_pairing r) (offer r) (seen_offers r) (recovery r) (incoming r).
Definition set_histories (x : gmap string E2eHistoryStore.t) (r : t) : t :=
  mk (engines r) x (unavailable r) (locked r) (key_requests r) (requests r)
    (activated_requests r) (pairing r) (stale_pairings r) (reset_asked r) (forget_asked r)
    (forgotten r) (reset r) (trust_alarm r) (read_incoming r) (cipher_view r) (provisioned r)
    (sas_check r) (needs_pairing r) (offer r) (seen_offers r) (recovery r) (incoming r).
Definition set_unavailable (x : gset string) (r : t) : t :=
  mk (engines r) (histories r) x (locked r) (key_requests r) (requests r) (activated_requests r)
    (pairing r) (stale_pairings r) (reset_asked r) (forget_asked r) (forgotten r) (reset r)
    (trust_alarm r) (read_incoming r) (cipher_view r) (provisioned r) (sas_check r)
    (needs_pairing r) (offer r) (seen_offers r) (recovery r) (incoming r).
Definition set_locked (x : gset (string * string)) (r : t) : t :=
  mk (engines r) (histories r) (unavailable r) x (key_requests r) (requests r)
    (activated_requests r) (pairing r) (stale_pairings r) (reset_asked r) (forget_asked r)
    (forgotten r) (reset r) (trust_alarm r) (read_incoming r) (cipher_view r) (provisioned r)
    (sas_check r) (needs_pairing r) (offer r) (seen_offers r) (recovery r) (incoming r).
Definition set_key_requests (x : gmap (string * string) KeyRequest.t) (r : t) : t :=
  mk (engines r) (histories r) (unavailable r) (locked r) x (requests r) (activated_requests r)
    (pairing r) (stale_pairings r) (reset_asked r) (forget_asked r) (forgotten r) (reset r)
    (trust_alarm r) (read_incoming r) (cipher_view r) (provisioned r) (sas_check r)
    (needs_pairing r) (offer r) (seen_offers r) (recovery r) (incoming r).
Definition set_requests (x : gmap (string * N) E2eRequest.t) (r : t) : t :=
  mk (engines r) (histories r) (unavailable r) (locked r) (key_requests r) x
    (activated_requests r) (pairing r) (stale_pairings r) (reset_asked r) (forget_asked r)
    (forgotten r) (reset r) (trust_alarm r) (read_incoming r) (cipher_view r) (provisioned r)
    (sas_check r) (needs_pairing r) (offer r) (seen_offers r) (recovery r) (incoming r).
Definition set_activated_requests (x : gset (string * N)) (r : t) : t :=
  mk (engines r) (histories r) (unavailable r) (locked r) (key_requests r) (requests r) x
    (pairing r) (stale_pairings r) (reset_asked r) (forget_asked r) (forgotten r) (reset r)
    (trust_alarm r) (read_incoming r) (cipher_view r) (provisioned r) (sas_check r)
    (needs_pairing r) (offer r) (seen_offers r) (recovery r) (incoming r).
Definition set_pairing (x : option ActivePairing.t) (r : t) : t :=
  mk (engines r) (histories r) (unavailable r) (locked r) (key_requests r) (requests r)
    (activated_requests r) x (stale_pairings r) (reset_asked r) (forget_asked r) (forgotten r)
    (reset r) (trust_alarm r) (read_incoming r) (cipher_view r) (provisioned r) (sas_check r)
    (needs_pairing r) (offer r) (seen_offers r) (recovery r) (incoming r).
Definition set_stale_pairings (x : list (string * StalePairing.t)) (r : t) : t :=
  mk (engines r) (histories r) (unavailable r) (locked r) (key_requests r) (requests r)
    (activated_requests r) (pairing r) x (reset_asked r) (forget_asked r) (forgotten r)
    (reset r) (trust_alarm r) (read_incoming r) (cipher_view r) (provisioned r) (sas_check r)
    (needs_pairing r) (offer r) (seen_offers r) (recovery r) (incoming r).
Definition set_reset_asked (x : option string) (r : t) : t :=
  mk (engines r) (histories r) (unavailable r) (locked r) (key_requests r) (requests r)
    (activated_requests r) (pairing r) (stale_pairings r) x (forget_asked r) (forgotten r)
    (reset r) (trust_alarm r) (read_incoming r) (cipher_view r) (provisioned r) (sas_check r)
    (needs_pairing r) (offer r) (seen_offers r) (recovery r) (incoming r).
Definition set_forget_asked (x : option string) (r : t) : t :=
  mk (engines r) (histories r) (unavailable r) (locked r) (key_requests r) (requests r)
    (activated_requests r) (pairing r) (stale_pairings r) (reset_asked r) x (forgotten r)
    (reset r) (trust_alarm r) (read_incoming r) (cipher_view r) (provisioned r) (sas_check r)
    (needs_pairing r) (offer r) (seen_offers r) (recovery r) (incoming r).
Definition set_forgotten (x : gset string) (r : t) : t :=
  mk (engines r) (histories r) (unavailable r) (locked r) (key_requests r) (requests r)
    (activated_requests r) (pairing r) (stale_pairings r) (reset_asked r) (forget_asked r) x
    (reset r) (trust_alarm r) (read_incoming r) (cipher_view r) (provisioned r) (sas_check r)
    (needs_pairing r) (offer r) (seen_offers r) (recovery r) (incoming r).
Definition set_reset (x : gset string) (r : t) : t :=
  mk (engines r) (histories r) (unavailable r) (locked r) (key_requests r) (requests r)
    (activated_requests r) (pairing r) (stale_pairings r) (reset_asked r) (forget_asked r)
    (forgotten r) x (trust_alarm r) (read_incoming r) (cipher_view r) (provisioned r)
    (sas_check r) (needs_pairing r) (offer r) (seen_offers r) (recovery r) (incoming r).
Definition set_trust_alarm (x : gset (string * string)) (r : t) : t :=
  mk (engines r) (histories r) (unavailable r) (locked r) (key_requests r) (requests r)
    (activated_requests r) (pairing r) (stale_pairings r) (reset_asked r) (forget_asked r)
    (forgotten r) (reset r) x (read_incoming r) (cipher_view r) (provisioned r) (sas_check r)
    (needs_pairing r) (offer r) (seen_offers r) (recovery r) (incoming r).
Definition set_read_incoming (x : gmap (string * string) N) (r : t) : t :=
  mk (engines r) (histories r) (unavailable r) (locked r) (key_requests r) (requests r)
    (activated_requests r) (pairing r) (stale_pairings r) (reset_asked r) (forget_asked r)
    (forgotten r) (reset r) (trust_alarm r) x (cipher_view r) (provisioned r) (sas_check r)
    (needs_pairing r) (offer r) (seen_offers r) (recovery r) (incoming r).
Definition set_cipher_view (x : gset (string * string)) (r : t) : t :=
  mk (engines r) (histories r) (unavailable r) (locked r) (key_requests r) (requests r)
    (activated_requests r) (pairing r) (stale_pairings r) (reset_asked r) (forget_asked r)
    (forgotten r) (reset r) (trust_alarm r) (read_incoming r) x (provisioned r) (sas_check r)
    (needs_pairing r) (offer r) (seen_offers r) (recovery r) (incoming r).
Definition set_provisioned (x : gset string) (r : t) : t :=
  mk (engines r) (histories r) (unavailable r) (locked r) (key_requests r) (requests r)
    (activated_requests r) (pairing r) (stale_pairings r) (reset_asked r) (forget_asked r)
    (forgotten r) (reset r) (trust_alarm r) (read_incoming r) (cipher_view r) x (sas_check r)
    (needs_pairing r) (offer r) (seen_offers r) (recovery r) (incoming r).
Definition set_sas_check (x : option SasCheck.t) (r : t) : t :=
  mk (engines r) (histories r) (unavailable r) (locked r) (key_requests r) (requests r)
    (activated_requests r) (pairing r) (stale_pairings r) (reset_asked r) (forget_asked r)
    (forgotten r) (reset r) (trust_alarm r) (read_incoming r) (cipher_view r) (provisioned r) x
    (needs_pairing r) (offer r) (seen_offers r) (recovery r) (incoming r).
Definition set_needs_pairing (x : gset string) (r : t) : t :=
  mk (engines r) (histories r) (unavailable r) (locked r) (key_requests r) (requests r)
    (activated_requests r) (pairing r) (stale_pairings r) (reset_asked r) (forget_asked r)
    (forgotten r) (reset r) (trust_alarm r) (read_incoming r) (cipher_view r) (provisioned r)
    (sas_check r) x (offer r) (seen_offers r) (recovery r) (incoming r).
Definition set_offer (x : option PairingOffer.t) (r : t) : t :=
  mk (engines r) (histories r) (unavailable r) (locked r) (key_requests r) (requests r)
    (activated_requests r) (pairing r) (stale_pairings r) (reset_asked r) (forget_asked r)
    (forgotten r) (reset r) (trust_alarm r) (read_incoming r) (cipher_view r) (provisioned r)
    (sas_check r) (needs_pairing r) x (seen_offers r) (recovery r) (incoming r).
Definition set_seen_offers (x : list string) (r : t) : t :=
  mk (engines r) (histories r) (unavailable r) (locked r) (key_requests r) (requests r)
    (activated_requests r) (pairing r) (stale_pairings r) (reset_asked r) (forget_asked r)
    (forgotten r) (reset r) (trust_alarm r) (read_incoming r) (cipher_view r) (provisioned r)
    (sas_check r) (needs_pairing r) (offer r) x (recovery r) (incoming r).
Definition set_recovery (x : gmap string RecoveryReason.t) (r : t) : t :=
  mk (engines r) (histories r) (unavailable r) (locked r) (key_requests r) (requests r)
    (activated_requests r) (pairing r) (stale_pairings r) (reset_asked r) (forget_asked r)
    (forgotten r) (reset r) (trust_alarm r) (read_incoming r) (cipher_view r) (provisioned r)
    (sas_check r) (needs_pairing r) (offer r) (seen_offers r) x (incoming r).
Definition set_incoming (x : list PendingIncoming.t) (r : t) : t :=
  mk (engines r) (histories r) (unavailable r) (locked r) (key_requests r) (requests r)
    (activated_requests r) (pairing r) (stale_pairings r) (reset_asked r) (forget_asked r)
    (forgotten r) (reset r) (trust_alarm r) (read_incoming r) (cipher_view r) (provisioned r)
    (sas_check r) (needs_pairing r) (offer r) (seen_offers r) (recovery r) x.

(** [E2eRuntime::default]. *)
Definition new : t :=
  mk ∅ ∅ ∅ ∅ ∅ ∅ ∅ None [] None None ∅ ∅ ∅ ∅ ∅ ∅ None ∅ None [] ∅ [].

(** ** Pairing offers *)

Definition remember_offer (id : string) (r : t) : t :=
  if contains (seen_offers r) id then r else
  let seen := seen_offers r ++ [id] in
  set_seen_offers (drop (length seen - SEEN_OFFERS_MAX) seen) r.

Definition can_take_offer (r : t) (network : string) : bool :=
  negb (bool_decide (network ∈ provisioned r))
  && (bool_decide (network ∈ needs_pairing r) || bool_decide (network ∈ reset r)).

Definition eligible_networks (r : t) (known : list string) : list string :=
  merge_sort String.le (remove_dups (List.filter (can_take_offer r) known)).

Definition is_own_rendezvous (r : t) (id : string) : bool :=
  match pairing r with
  | Some active => bool_decide (PairingSession.rendezvous_id (ActivePairing.session active) = id)
  | None => false
  end.

Definition admit_offer (r : t) (offer : PairingOffer.t) (known : list string)
    (server_protocol : option N) (now : Z) : t * OfferDecision :=
  if negb (pairing_offer_available server_protocol) then (r, OfferUnsupported) else
  let id := PairingOffer.rendezvous_id offer in
  if negb (PairingOffer.is_current offer now) then (r, OfferExpired)
  else if contains (seen_offers r) id then (r, OfferDuplicate)
  else if is_own_rendezvous r id then (r, OfferOwn)
  else if bool_decide (known = []) then (r, OfferWrongNetwork)
  else if bool_decide (eligible_networks r known = []) then (r, OfferAlreadyPaired)
  else if bool_decide (is_Some (pairing r)) then (r, OfferBusy)
  else (set_offer (Some offer) (remember_offer id r), OfferShow).

(** The candidate networks and the code of the offer for the join. *)
Definition take_offer (r : t) (known : list string) (now : Z)
    : t * option (list string * string) :=
  match offer r with
  | None => (r, None)
  | Some o =>
      let r := set_offer None r in
      if negb (PairingOffer.is_current o now) || bool_decide (is_Some (pairing r)) then (r, None)
      else match eligible_networks r known with
           | [] => (r, None)
           | candidates => (r, Some (candidates, PairingLink.code (PairingOffer.link o)))
           end
  end.

Definition expire_offer (r : t) (now : Z) : t * bool :=
  match offer r with
  | Some o => if negb (PairingOffer.is_current o now) then (set_offer None r, true) else (r, false)
  | None => (r, false)
  end.

Definition drop_offer_of (r : t) (id : string) : t * bool :=
  match offer r with
  | Some o => if decide (PairingOffer.rendezvous_id o = id) then (set_offer None r, true)
              else (r, false)
  | None => (r, false)
  end.

Definition close_offer_of (r : t) (id : string) : t * bool :=
  drop_offer_of (remember_offer id r) id.

(** ** Locked windows *)

Definition locked_windows (r : t) : list QueryWindow.t :=
  (fun '(network, nick) =>
     QueryWindow.mk network
       (LocalQuery.window_name (LocalQuery.new network LaneLocked nick)) "" None)
  <$> sorted_pairs (elements (locked r)).

Definition add_locked (network nick : string) (r : t) : t * bool :=
  (set_locked ({[ (network, nick) ]} ∪ locked r) r, negb (bool_decide ((network, nick) ∈ locked r))).

Definition shows_ciphertext (r : t) (network nick : string) : bool :=
  bool_decide ((network, nick) ∈ cipher_view r).

Definition toggle_ciphertext (network nick : string) (r : t) : t * bool :=
  let key := (network, nick) in
  if decide (key ∈ cipher_view r) then (set_cipher_view (cipher_view r ∖ {[ key ]}) r, false)
  else (set_cipher_view ({[ key ]} ∪ cipher_view r) r, true).

Definition clear_ciphertext_views (network : string) (r : t) : t :=
  set_cipher_view (filter (fun key => key.1 <> network) (cipher_view r)) r.

(** ** Key requests *)

Definition key_request (r : t) (network nick : string) : KeyRequest.t :=
  default KeyRequest.NotSent (key_requests r !! (network, nick)).

Definition next_key_request (current : KeyRequest.t) (answer : result unit EngineError.t)
    : KeyRequest.t :=
  match answer with
  | Ok _ => KeyRequest.Accepted
  | Err (EngineError.Paced _) =>
      match current with
      | KeyRequest.NotSent => current
      | KeyRequest.Failed => KeyRequest.Failed
      | _ => KeyRequest.Waiting
      end
  | Err EngineError.PeerNotCapable => current
  | Err _ => KeyRequest.Failed
  end.

Definition note_key_request (network nick : string) (answer : result unit EngineError.t) (r : t)
    : t :=
  let next := next_key_request (key_request r network nick) answer in
  if decide (next = KeyRequest.NotSent) then r
  else set_key_requests (<[(network, nick) := next]> (key_requests r)) r.

Definition mark_key_request_failed_for_peer (network nick : string) (casemapping : CaseMapping.t)
    (r : t) : t :=
  set_key_requests (map_imap (fun '(known_network, known_nick) status =>
    Some (if bool_decide (known_network = network) && CaseMapping.nick_eq casemapping known_nick nick
             && negb (bool_decide (status = KeyRequest.NotSent))
          then KeyRequest.Failed else status)) (key_requests r)) r.

Definition note_engine_error (network nick : string) (error : EngineError.t) (r : t) : t :=
  match error with
  | EngineError.Device E2eError.MasterChanged => set_trust_alarm ({[ (network, nick) ]} ∪ trust_alarm r) r
  | _ => r
  end.

(** ** Consent requests *)

Definition put_request (network : string) (request : E2eRequest.t) (r : t) : t :=
  set_requests (<[(network, E2eRequest.id request) := request]> (requests r)) r.

Definition remove_request (network : string) (id : N) (r : t) : t :=
  set_activated_requests (activated_requests r ∖ {[ (network, id) ]})
    (set_requests (delete (network, id) (requests r)) r).

Definition replace_requests (network : string) (listed : list E2eRequest.t) (r : t) : t :=
  let r := set_requests (filter (fun kv => kv.1.1 <> network) (requests r)) r in
  let r := set_activated_requests (filter (fun key => key.1 <> network) (activated_requests r)) r in
  foldl (fun r request => put_request network request r) r listed.

Definition of_peer (network peer : string) (casemapping : CaseMapping.t)
    (kv : (string * N) * E2eRequest.t) : bool :=
  bool_decide (kv.1.1 = network) && CaseMapping.nick_eq casemapping (E2eRequest.peer kv.2) peer.

(** [max_by_key] on the id: no two requests of a network have one id. *)
Definition newer_request (best : option ((string * N) * E2eRequest.t))
    (kv : (string * N) * E2eRequest.t) : option ((string * N) * E2eRequest.t) :=
  match best with
  | Some old => if (kv.1.2 <? old.1.2)%N then Some old else Some kv
  | None => Some kv
  end.

Definition request_for_peer (r : t) (network peer : string) (casemapping : CaseMapping.t)
    : option E2eRequest.t :=
  snd <$> foldl newer_request None
            (List.filter (of_peer network peer casemapping) (map_to_list (requests r))).

(** True when the request was used before. *)
Definition request_was_activated (network : string) (id : N) (r : t) : t * bool :=
  (set_activated_requests ({[ (network, id) ]} ∪ activated_requests r) r,
   bool_decide ((network, id) ∈ activated_requests r)).

Definition remove_outgoing_request_for_peer (network peer : string) (casemapping : CaseMapping.t)
    (r : t) : t :=
  let ids := (fun kv : (string * N) * E2eRequest.t => kv.1.2) <$>
    List.filter (fun kv => of_peer network peer casemapping kv
                   && bool_decide (E2eRequest.state kv.2 = E2eRequestState.Outgoing))
      (map_to_list (requests r)) in
  foldl (fun r id => remove_request network id r) r ids.

(** ** Messages on their way *)

Definition note_incoming (event : IncomingEvent.t) (own_did : string) (r : t)
    : t * option string :=
  if negb (IncomingEvent.is_for event own_did)
     || existsb (fun row => PendingIncoming.matches row (IncomingEvent.network event)
                   (IncomingEvent.from_did event) (IncomingEvent.msgid event)) (incoming r)
  then (r, None)
  else (set_incoming (incoming r ++
          [PendingIncoming.mk (IncomingEvent.network event) (IncomingEvent.from event)
             (IncomingEvent.from_did event) (IncomingEvent.msgid event)]) r,
        Some (IncomingEvent.from event)).

(** [Vec::remove] at the first row that matches. *)
Fixpoint remove_first (p : PendingIncoming.t -> bool) (rows : list PendingIncoming.t)
    : option (PendingIncoming.t * list PendingIncoming.t) :=
  match rows with
  | [] => None
  | row :: rows =>
      if p row then Some (row, rows)
      else '(found, rows) ← remove_first p rows; Some (found, row :: rows)
  end.

Definition take_incoming (network from_did msgid : string) (r : t) : t * option string :=
  match remove_first (fun row => PendingIncoming.matches row network from_did msgid)
          (incoming r) with
  | None => (r, None)
  | Some (row, rows) => (set_incoming rows r, Some (PendingIncoming.nick row))
  end.

Definition note_incoming_lost (event : IncomingLostEvent.t) (own_did : string) (r : t)
    : t * option string :=
  if negb (IncomingLostEvent.is_for event own_did) then (r, None)
  else take_incoming (IncomingLostEvent.network event) (IncomingLostEvent.from_did event)
         (IncomingLostEvent.msgid event) r.

Definition clear_incoming (r : t) : t * list (string * string) :=
  (set_incoming [] r,
   sorted_pairs ((fun row => (PendingIncoming.network row, PendingIncoming.nick row))
                   <$> incoming r)).

Definition incoming_rows (r : t) (network nick stamp : string) : list RenderedMessage.t :=
  (fun row => incoming_progress_row (PendingIncoming.nick row) stamp) <$>
  List.filter (fun row => bool_decide (PendingIncoming.network row = network)
                 && eq_ignore_case (PendingIncoming.nick row) nick) (incoming r).

(** ** The history of a network *)

Definition history_of (r : t) (network : string) : option E2eHistoryStore.t :=
  match engines r !! network with
  | Some held => Some (E2eEngine.history (Held.engine held))
  | None => histories r !! network
  end.
End Runtime.
#[global] Arguments t : clear implicits.
#[global] Arguments t {EC}.
End E2eRuntime.
