(* ===== verification/Session.v ===== *)
(** * The worker of a session and its steps

    The parts of [WorkerState] (main.rs) that end-to-end encryption reads and
    writes, what goes to the interface, and the type [act] of a handler of the
    worker. A handler never fails: it changes the state of the worker, shows
    something, and runs steps of the engines, which are of type [eff] on the
    disk and the events of the same session. *)

From S2P Require Import Prelude.
From S2P Require Import RustStr.
From S2P Require Import Slash.
From S2P Require Import Interfaces.
From S2P Require Import Isupport.
From S2P Require Import Files.
From S2P Require Import History.
From S2P Require Import State.
From S2P Require Import Pacing.
From S2P Require Import PairingFlow.
From S2P Require Import Effects.
From S2P Require Import Client.
From S2P Require Import EngineTypes.
From S2P Require Import Engine.
From S2P Require Import EngineCopies.
From S2P Require Import E2eView.
From S2P Require Import Runtime.
From stdpp Require Import options.

(** A followed nick of a query window (queries.rs). *)
Module QueryPeerLink.
Record t := mk { network : string; anchor : string; peers : list string }.

Definition current_peer (l : t) : string := default (anchor l) (last (peers l)).
End QueryPeerLink.

(** What a handler shows, and its calls of other parts of the worker. *)
Module UiEvent.
Inductive t :=
| Status (kind hint message : string)
| LockedState (key : string)
| Consent (state id : string) (can_start can_accept has_locked : bool)
| LockedRows (network nick : string) (rows : list RenderedMessage.t)
| LockedWindow (network nick key : string)
| ClosedWindow
(** [close_directory] (main.rs). *)
| DirectoryClosed
| Groups
| FollowBottom
| OfferDialog (visible : bool)
| PairDialog (visible offered : bool)
| SasCode (code : string)
| PeerKey (open : bool) (network nick key : string) (verified : bool)
| Devices (own : string) (rows : list DeviceRow.t)
| Recovery (reason : RecoveryReason.t) (rows : option (list DeviceRow.t))
| IdentityPanel (state session network account key : string)
(** A push on the user topic with a target. *)
| UserVerb (network verb target : string)
(** The window that was open is left: its rows are trimmed. *)
| WindowLeft (key : string * string)
| MembersUpdate (key : string * string)
(** A frame for another handler. *)
| OtherFrame (topic kind : string)
(** A plain window is read: its cursor and its counts move. *)
| PlainRead (key : string * string).
End UiEvent.

Module WorkerState.
Section Worker.
Context {EC : EciesChannel}.
Record t := mk {
  client : option GrappaClient.t;
  token : option string;
  identifier : option string;
  guest_session : bool;
  server_protocol_version : option N;
  own_nicks : gmap string string;
  network_ids : gmap string Z;
  isupport_by_network : gmap string IsupportState;
  current_channel : option (string * string);
  current_query : bool;
  current_query_ready : bool;
  chat_visible : bool;
  chat_follow_bottom : bool;
  e2e_sends : SendBook.t;
  query_windows : list QueryWindow.t;
  query_peer_links : list QueryPeerLink.t;
  messages : gmap (string * string) (list RenderedMessage.t);
  pending_query_focus : option (string * string * N * (string * string));
  (** The static [OWN_DEVICES] of e2e_view.rs. *)
  own_devices : gset string;
  e2e : E2eRuntime.t;
}.

(** Assignments to the fields that the handlers change. *)
Definition set_window (current : option (string * string)) (query ready : bool) (s : t) : t :=
  mk (client s) (token s) (identifier s) (guest_session s) (server_protocol_version s)
    (own_nicks s) (network_ids s) (isupport_by_network s) current query ready (chat_visible s)
    (chat_follow_bottom s) (e2e_sends s) (query_windows s) (query_peer_links s) (messages s)
    (pending_query_focus s) (own_devices s) (e2e s).
Definition set_view (visible follow : bool) (s : t) : t :=
  mk (client s) (token s) (identifier s) (guest_session s) (server_protocol_version s)
    (own_nicks s) (network_ids s) (isupport_by_network s) (current_channel s) (current_query s)
    (current_query_ready s) visible follow (e2e_sends s) (query_windows s) (query_peer_links s) (messages s)
    (pending_query_focus s) (own_devices s) (e2e s).
Definition set_messages (x : gmap (string * string) (list RenderedMessage.t)) (s : t) : t :=
  mk (client s) (token s) (identifier s) (guest_session s) (server_protocol_version s)
    (own_nicks s) (network_ids s) (isupport_by_network s) (current_channel s) (current_query s)
    (current_query_ready s) (chat_visible s) (chat_follow_bottom s) (e2e_sends s) (query_windows s)
    (query_peer_links s) x (pending_query_focus s) (own_devices s) (e2e s).
Definition set_pending_query_focus (x : option (string * string * N * (string * string))) (s : t) : t :=
  mk (client s) (token s) (identifier s) (guest_session s) (server_protocol_version s)
    (own_nicks s) (network_ids s) (isupport_by_network s) (current_channel s) (current_query s)
    (current_query_ready s) (chat_visible s) (chat_follow_bottom s) (e2e_sends s) (query_windows s)
    (query_peer_links s) (messages s) x (own_devices s) (e2e s).
Definition set_own_devices (x : gset string) (s : t) : t :=
  mk (client s) (token s) (identifier s) (guest_session s) (server_protocol_version s)
    (own_nicks s) (network_ids s) (isupport_by_network s) (current_channel s) (current_query s)
    (current_query_ready s) (chat_visible s) (chat_follow_bottom s) (e2e_sends s) (query_windows s)
    (query_peer_links s) (messages s) (pending_query_focus s) x (e2e s).
Definition set_e2e (x : E2eRuntime.t) (s : t) : t :=
  mk (client s) (token s) (identifier s) (guest_session s) (server_protocol_version s)
    (own_nicks s) (network_ids s) (isupport_by_network s) (current_channel s) (current_query s)
    (current_query_ready s) (chat_visible s) (chat_follow_bottom s) (e2e_sends s) (query_windows s)
    (query_peer_links s) (messages s) (pending_query_focus s) (own_devices s) x.
Definition set_isupport (x : gmap string IsupportState) (s : t) : t :=
  mk (client s) (token s) (identifier s) (guest_session s) (server_protocol_version s)
    (own_nicks s) (network_ids s) x (current_channel s) (current_query s)
    (current_query_ready s) (chat_visible s) (chat_follow_bottom s) (e2e_sends s) (query_windows s)
    (query_peer_links s) (messages s) (pending_query_focus s) (own_devices s) (e2e s).
Definition set_e2e_sends (x : SendBook.t) (s : t) : t :=
  mk (client s) (token s) (identifier s) (guest_session s) (server_protocol_version s)
    (own_nicks s) (network_ids s) (isupport_by_network s) (current_channel s) (current_query s)
    (current_query_ready s) (chat_visible s) (chat_follow_bottom s) x (query_windows s)
    (query_peer_links s) (messages s) (pending_query_focus s) (own_devices s) (e2e s).
Definition set_protocol_version (x : option N) (s : t) : t :=
  mk (client s) (token s) (identifier s) (guest_session s) x
    (own_nicks s) (network_ids s) (isupport_by_network s) (current_channel s) (current_query s)
    (current_query_ready s) (chat_visible s) (chat_follow_bottom s) (e2e_sends s) (query_windows s)
    (query_peer_links s) (messages s) (pending_query_focus s) (own_devices s) (e2e s).
End Worker.
#[global] Arguments t : clear implicits.
#[global] Arguments t {EC}.
End WorkerState.

(** ** Handlers *)

Section Session.
Context {J : Json} {U : UrlLib} {EC : EciesChannel}.

Record session := mk_session {
  drive : disk;
  worker : WorkerState.t;
  shown : list UiEvent.t;
  done : list event;
}.

Definition act (A : Type) : Type := outside -> session -> session * A.

Definition act_ret {A} (a : A) : act A := fun _ s => (s, a).
Definition act_bind {A B} (m : act A) (k : A -> act B) : act B := fun o s =>
  let '(s, a) := m o s in k a o s.

Definition get_worker : act WorkerState.t := fun _ s => (s, worker s).
Definition get_e2e : act E2eRuntime.t := fun _ s => (s, WorkerState.e2e (worker s)).

Definition change_worker (f : WorkerState.t -> WorkerState.t) : act unit := fun _ s =>
  (mk_session (drive s) (f (worker s)) (shown s) (done s), tt).

(** A method of [E2eRuntime], with its result or without one. *)
Definition change_e2e (f : E2eRuntime.t -> E2eRuntime.t) : act unit :=
  change_worker (fun w => WorkerState.set_e2e (f (WorkerState.e2e w)) w).
Definition on_e2e {A} (f : E2eRuntime.t -> E2eRuntime.t * A) : act A := fun _ s =>
  let '(r, a) := f (WorkerState.e2e (worker s)) in
  (mk_session (drive s) (WorkerState.set_e2e r (worker s)) (shown s) (done s), a).

Definition show (e : UiEvent.t) : act unit := fun _ s =>
  (mk_session (drive s) (worker s) (shown s ++ [e]) (done s), tt).

(** [e2e_now]: whole seconds since 1970. *)
Definition e2e_now : act Z := fun o s => (s, (wall o (done s) / 1000000000)%Z).

(** A step with effects on a state store and a memory that the handler holds. *)
Definition run_step {M E A} (store_ : Store.t) (mem_ : M) (m : eff M E A)
    : act (Store.t * M * result A E) := fun o s =>
  let '(w, r) := m o (mk_world (drive s) store_ mem_ (done s)) in
  (mk_session (files w) (worker s) (shown s) (log w), (store w, mem w, r)).

(** A step of an engine, and a step of its state store alone. *)
Definition with_held {E A} (h : Held.t) (m : eff E2eEngine.t E A) : act (Held.t * result A E) :=
  act_bind (run_step (Held.state h) (Held.engine h) m) (fun '(s, e, r) =>
  act_ret (Held.mk s e, r)).
Definition with_state {M E A} (h : Held.t) (mem_ : M) (m : eff M E A)
    : act (Held.t * M * result A E) :=
  act_bind (run_step (Held.state h) mem_ m) (fun '(s, x, r) =>
  act_ret (Held.mk s (Held.engine h), x, r)).

(** A step that has no error. *)
Definition sure {A} (r : result A Empty_set) : A :=
  match r with Ok a => a | Err e => match e with end end.
Definition with_held_sure {A} (h : Held.t) (m : eff E2eEngine.t Empty_set A) : act (Held.t * A) :=
  act_bind (with_held h m) (fun '(h, r) => act_ret (h, sure r)).

(** A call of the client touches no state store. *)
Definition no_store : Store.t := Store.mk "" "" StateData.initial (fun _ d _ _ => (d, Ok tt)).
Definition call_client {E A} (m : eff unit E A) : act (result A E) :=
  act_bind (run_step no_store tt m) (fun '(_, _, r) => act_ret r).

(** [engines.remove] and [engines.insert]. *)
Definition take_held (network : string) : act (option Held.t) :=
  on_e2e (fun r => (E2eRuntime.set_engines (delete network (E2eRuntime.engines r)) r,
                    E2eRuntime.engines r !! network)).
Definition put_held (network : string) (h : Held.t) : act unit :=
  change_e2e (fun r => E2eRuntime.set_engines (<[network := h]> (E2eRuntime.engines r)) r).
Definition held_of (network : string) : act (option Held.t) :=
  act_bind get_e2e (fun r => act_ret (E2eRuntime.engines r !! network)).

(** A loop over a list. *)
Fixpoint act_each {A} (f : A -> act unit) (l : list A) : act unit :=
  match l with
  | [] => act_ret tt
  | x :: l => act_bind (f x) (fun _ => act_each f l)
  end.
End Session.

Declare Scope act_scope.
Delimit Scope act_scope with act.
Notation "'let*' p := m 'in' k" := (act_bind m (fun p => k))
  (at level 10, p pattern, m at level 100, k at level 200) : act_scope.
Notation "m ;* k" := (act_bind m (fun _ => k)) (at level 60, right associativity) : act_scope.
#[global] Arguments session {J U EC}.
#[global] Arguments act {J U EC} A.
