(* ===== verification/SessionViews.v ===== *)
(** * What the locked windows show (crates/cordiale-ui/src/e2e_runtime.rs)

    The state of a locked window and of the consent controls, read from the
    engine and the session; the unread counts; the rows of a window; and the
    redraw of the open one. *)

From S2P Require Import Prelude.
From S2P Require Import RustStr.
From S2P Require Import Slash.
From S2P Require Import Interfaces.
From S2P Require Import Isupport.
From S2P Require Import Trust.
From S2P Require Import History.
From S2P Require Import State.
From S2P Require Import Versions.
From S2P Require Import Pacing.
From S2P Require Import PairingFlow.
From S2P Require Import SendDoor.
From S2P Require Import Effects.
From S2P Require Import Client.
From S2P Require Import EngineTypes.
From S2P Require Import Engine.
From S2P Require Import E2eView.
From S2P Require Import Runtime.
From S2P Require Import Session.
From stdpp Require Import options.

#[local] Open Scope act_scope.

(** ** Windows *)

Definition is_locked_name (name : string) : bool :=
  match route_for_window name with SendRoute.Encrypted _ => true | SendRoute.Plain _ => false end.

Definition ascii_fold_channel : string -> string := str_lower.
Definition query_window_key (network nick : string) : string * string :=
  (network, ascii_fold_channel nick).
Definition window_counts_key (network channel : string) : string * string :=
  (network, ascii_fold_channel channel).

Definition find_query_window (windows : list QueryWindow.t) (network nick : string)
    : option QueryWindow.t :=
  snd <$> list_find (fun w =>
    query_window_key (QueryWindow.network w) (QueryWindow.target_nick w)
      = query_window_key network nick) windows.

(** The status key of a failed send. *)
Definition e2e_send_error_kind (error : EngineError.t) : string :=
  match error with
  | EngineError.NotReady | EngineError.Paced _ | EngineError.PeerNotCapable => "e2e-not-ready"
  | _ => "e2e-send-failed"
  end.

Definition incoming_count (history : E2eHistoryStore.t) (network nick : string) : N :=
  lenN (List.filter (fun m => negb (bool_decide (E2eMessage.sender_device m = OWN_DEVICE)))
          (E2eHistoryStore.messages_of history (conversation_id network nick))).

Definition locked_chat_passed_key_request (state : ChatState.t) : bool :=
  match state with ChatState.SasPending | ChatState.Active => true | _ => false end.

Definition identity_session_id (server account : option string) : string :=
  match server, account with
  | Some server, Some account => server +:+ NUL +:+ account
  | _, _ => ""
  end.

Definition identity_reply_applies (requested current : string) : bool :=
  negb (is_empty current) && bool_decide (requested = current).

Section Views.
Context {C : Crypto} {J : Json} {U : UrlLib} {T : StateText} {A : Aead} {O : Olm}.
Context {H : HistoryText} {X : EngineText} {EC : EciesChannel} {Ch : Chrono}.
Implicit Types (w : WorkerState.t) (r : E2eRuntime.t).

Notation runtime w := (WorkerState.e2e w).

Definition open_locked_window w : option (string * string) :=
  if negb (WorkerState.current_query w) then None else
  '(network, name) ← WorkerState.current_channel w;
  match route_for_window name with
  | SendRoute.Encrypted nick => Some (network, nick)
  | SendRoute.Plain _ => None
  end.

Definition network_casemapping w (network : string) : CaseMapping.t :=
  match WorkerState.isupport_by_network w !! network with
  | Some isupport => casemapping isupport
  | None => CaseMapping.Rfc1459
  end.

Definition link_for_anchor w (network anchor : string) : option QueryPeerLink.t :=
  snd <$> list_find (fun link =>
    (bool_decide (QueryPeerLink.network link = network)
     && CaseMapping.nick_eq (network_casemapping w network) (QueryPeerLink.anchor link) anchor)
      = true) (WorkerState.query_peer_links w).

Definition query_send_target w (network window_nick : string) : string :=
  match link_for_anchor w network window_nick with
  | Some link => QueryPeerLink.current_peer link
  | None => window_nick
  end.

(** ** Unread counts *)

Definition unread_of r (key : string * string) : option ((string * string) * N) :=
  let '(network, nick) := key in
  history ← E2eRuntime.history_of r network;
  let seen := default 0%N (E2eRuntime.read_incoming r !! key) in
  let unread := (incoming_count history network nick - seen)%N in
  let name := LocalQuery.window_name (LocalQuery.new network LaneLocked nick) in
  if (0 <? unread)%N then Some (window_counts_key network name, unread) else None.

Definition locked_unread_counts w : gmap (string * string) N :=
  list_to_map (rev (omap (unread_of (runtime w))
                      (sorted_pairs (elements (E2eRuntime.locked (runtime w)))))).

Definition mark_locked_read (network nick : string) r : E2eRuntime.t * bool :=
  let seen := match E2eRuntime.history_of r network with
              | Some history => incoming_count history network nick
              | None => 0%N
              end in
  (E2eRuntime.set_read_incoming (<[(network, nick) := seen]> (E2eRuntime.read_incoming r)) r,
   negb (bool_decide (E2eRuntime.read_incoming r !! (network, nick) = Some seen))).

(** ** The state of a locked window *)

(** The drop reason of the newest own row of the conversation. *)
Definition last_own_drop (e : E2eEngine.t) (network nick : string) : option DropReason.t :=
  match list_find (fun m => E2eMessage.sender_device m = OWN_DEVICE)
          (rev (E2eHistoryStore.messages_of (E2eEngine.history e) (conversation_id network nick)))
  with
  | Some (_, message) => dropped_reason e (E2eMessage.id message)
  | None => None
  end.

Definition chat_signals w (network nick : string) : ChatSignals.t :=
  let r := runtime w in
  let held := E2eRuntime.engines r !! network in
  let trusts (f : PeerTrust.t -> string -> string -> bool) : bool :=
    match held with
    | Some h => f (StateData.trust (Store.data (Held.state h))) network nick
    | None => false
    end in
  ChatSignals.mk (E2eRuntime.key_request r network nick)
    (bool_decide (network ∈ E2eRuntime.reset r))
    (bool_decide (is_Some held))
    (bool_decide ((network, nick) ∈ E2eRuntime.trust_alarm r))
    match E2eRuntime.pairing r with
    | Some active => bool_decide (ActivePairing.network active = network)
    | None => false
    end
    (trusts PeerTrust.has_revoked_devices)
    match held with Some h => is_ready (Held.engine h) (Held.state h) nick | None => false end
    (trusts PeerTrust.is_sas_verified)
    (trusts PeerTrust.is_key_verified)
    (held ≫= fun h => last_own_drop (Held.engine h) network nick).

Definition locked_entry_state w (network nick : string) : ChatState.t :=
  locked_chat_state (chat_signals w network nick).

Definition plain_entry_state_key w (network : string) : string :=
  if bool_decide (is_Some (E2eRuntime.engines (runtime w) !! network))
  then ChatState.key ChatState.ClearText else "".

(** ** Consent *)

(** [now] is the time in milliseconds. *)
Definition request_view_state (now : Z) (request : E2eRequest.t) : string :=
  let expired :=
    match E2eRequest.expires_at request ≫= rfc3339_millis with
    | Some expires => (expires <=? now)%Z
    | None => false
    end in
  match E2eRequest.state request, expired with
  | E2eRequestState.Incoming, true => "gone"
  | E2eRequestState.Outgoing, true => "expired"
  | state, _ => E2eRequestState.as_str state
  end.

Definition consent_available (server_protocol : option N) : bool :=
  at_least CONSENT_MIN_PROTOCOL server_protocol.

Definition has_locked_entry w (network peer : string) : bool :=
  existsb (fun '(known_network, nick) =>
    bool_decide (known_network = network)
    && CaseMapping.nick_eq (network_casemapping w network) nick peer)
    (elements (E2eRuntime.locked (runtime w))).

Definition can_consent w (network : string) : bool :=
  match E2eRuntime.engines (runtime w) !! network with
  | Some h => is_ok (own_consent_line (Held.engine h) (Held.state h))
  | None => false
  end.

(** The state and the id of the request card, and the three controls. *)
Definition consent_view_for (now : Z) w (network peer : string)
    (locked_state : option ChatState.t) : string * string * bool * bool * bool :=
  let stale := match locked_state with
               | Some state => locked_chat_passed_key_request state
               | None => false
               end in
  let request :=
    request ← E2eRuntime.request_for_peer (runtime w) network peer (network_casemapping w network);
    if bool_decide (request_view_state now request = "gone") || stale then None
    else Some request in
  let can_accept := can_consent w network in
  (match request with Some request => request_view_state now request | None => "" end,
   match request with Some request => N_display (E2eRequest.id request) | None => "" end,
   consent_available (WorkerState.server_protocol_version w) && can_accept,
   can_accept, bool_decide (is_Some locked_state)).

Definition query_consent_view (now : Z) w (network peer : string)
    : string * string * bool * bool * bool :=
  let locked_state :=
    if has_locked_entry w network peer then Some (locked_entry_state w network peer) else None in
  consent_view_for now w network peer locked_state.

(** [Utc::now().timestamp_millis()]. *)
Definition now_millis : act Z := fun o s => (s, (wall o (done s) / 1000000)%Z).

Definition push_open_query_consent : act unit :=
  let* w := get_worker in
  if negb (WorkerState.current_query w) then act_ret tt else
  match WorkerState.current_channel w with
  | None => act_ret tt
  | Some (network, window) =>
      match route_for_window window with
      | SendRoute.Encrypted _ => act_ret tt
      | SendRoute.Plain nick =>
          let* now := now_millis in
          let '(state, id, can_start, can_accept, has_locked) :=
            query_consent_view now w network (query_send_target w network nick) in
          show (UiEvent.Consent state id can_start can_accept has_locked)
      end
  end.

(** ** Redraws *)

Definition status (kind : string) : act unit := show (UiEvent.Status kind "" "").
Definition refresh_network_groups : act unit := show UiEvent.Groups.

Definition close_peer_key : act unit := show (UiEvent.PeerKey false "" "" "" false).

Definition push_open_locked_state : act unit :=
  let* w := get_worker in
  match open_locked_window w with
  | None => act_ret tt
  | Some (network, nick) =>
      let state := locked_entry_state w network nick in
      (if decide (state = ChatState.TrustAlarm) then close_peer_key else act_ret tt) ;*
      show (UiEvent.LockedState (ChatState.key state))
  end.

(** [Local::now] as a time of day. *)
Definition now_stamp : act string := fun o s =>
  (s, default "" (clock_text (wall o (done s) / 1000000000))).

Definition locked_rows w (network nick stamp : string) : list RenderedMessage.t :=
  let r := runtime w in
  let own_nick := default "me" (WorkerState.own_nicks w !! network) in
  let rows_of (message : E2eMessage.t) :=
    locked_rows_for_view message own_nick nick
      (E2eRuntime.engines r !! network ≫= fun h =>
         dropped_reason (Held.engine h) (E2eMessage.id message))
      (E2eRuntime.shows_ciphertext r network nick) in
  match E2eRuntime.history_of r network with
  | Some history =>
      concat (rows_of <$> E2eHistoryStore.messages_of history (conversation_id network nick))
  | None => []
  end ++ E2eRuntime.incoming_rows r network nick stamp.

Definition locked_key (network nick : string) : string * string :=
  LocalQuery.key (LocalQuery.new network LaneLocked nick).

Definition load_locked_rows (network nick : string) : act unit :=
  let* stamp := now_stamp in
  change_worker (fun w =>
    WorkerState.set_messages
      (<[locked_key network nick := locked_rows w network nick stamp]> (WorkerState.messages w)) w).

Definition show_locked_rows (network nick : string) : act unit :=
  let* w := get_worker in
  show (UiEvent.LockedRows network nick
          (default [] (WorkerState.messages w !! locked_key network nick))).

Definition show_locked_window (network nick : string) : act unit :=
  let* w := get_worker in
  show (UiEvent.LockedWindow network nick (ChatState.key (locked_entry_state w network nick))) ;*
  show_locked_rows network nick.

Definition set_chat_follow_bottom : act unit :=
  change_worker (fun w => WorkerState.set_view (WorkerState.chat_visible w) true w) ;*
  show UiEvent.FollowBottom.

(** A plain window has its own read state, which is not of this file; no
    handler of it uses the result. *)
Definition mark_active_window_read : act bool :=
  let* w := get_worker in
  if negb (WorkerState.chat_visible w) || negb (WorkerState.chat_follow_bottom w)
  then act_ret false else
  match open_locked_window w, WorkerState.current_channel w with
  | Some (network, nick), _ =>
      let* changed := on_e2e (mark_locked_read network nick) in
      (if changed : bool then refresh_network_groups else act_ret tt) ;*
      act_ret changed
  | None, None => act_ret false
  | None, Some key => show (UiEvent.PlainRead key) ;* act_ret true
  end.

Definition is_open_locked w (network nick : string) : bool :=
  bool_decide (open_locked_window w = Some (network, nick)).

Definition refresh_locked_view (network nick : string) : act unit :=
  let* w := get_worker in
  if negb (is_open_locked w network nick) then act_ret tt else
  let* _ := mark_active_window_read in
  load_locked_rows network nick ;*
  show_locked_rows network nick.

(** ** Selection *)

Definition prepare_window_selection (key : string * string) (is_query : bool) (w : WorkerState.t)
    : WorkerState.t :=
  let same_window := bool_decide (WorkerState.current_query w = is_query)
                     && bool_decide (WorkerState.current_channel w = Some key) in
  WorkerState.set_view true (WorkerState.chat_follow_bottom w || negb same_window) w.

(** The window that is left, if another one was open. *)
Definition open_window (key : string * string) : act unit :=
  let* w := get_worker in
  change_worker (WorkerState.set_window (Some key) (WorkerState.current_query w)
                   (WorkerState.current_query_ready w)) ;*
  match WorkerState.current_channel w with
  | Some previous => if decide (previous = key) then act_ret tt
                     else show (UiEvent.WindowLeft previous)
  | None => act_ret tt
  end.

Definition handle_select_locked_query (network label : string) : act unit :=
  change_worker (WorkerState.set_pending_query_focus None) ;*
  match route_for_window label with
  | SendRoute.Plain _ => act_ret tt
  | SendRoute.Encrypted nick =>
      let* r := get_e2e in
      if negb (bool_decide ((network, nick) ∈ E2eRuntime.locked r)) then act_ret tt else
      let key := (network, label) in
      show UiEvent.DirectoryClosed ;*
      change_worker (prepare_window_selection key true) ;*
      change_worker (fun w => WorkerState.set_window (WorkerState.current_channel w) true true w) ;*
      change_e2e (E2eRuntime.set_sas_check None) ;*
      show (UiEvent.SasCode "") ;*
      close_peer_key ;*
      open_window key ;*
      load_locked_rows network nick ;*
      refresh_network_groups ;*
      show_locked_window network nick ;*
      let* _ := mark_active_window_read in
      act_ret tt
  end.

(** The locked windows that show ciphertext, by their labels. *)
Definition ciphertext_view_windows w : gset (string * string) :=
  set_map (fun '(network, nick) =>
    (network, LocalQuery.window_name (LocalQuery.new network LaneLocked nick)))
    (E2eRuntime.cipher_view (runtime w)).

Definition toggle_ciphertext_view (network label : string) : act bool :=
  match route_for_window label with
  | SendRoute.Plain _ => act_ret false
  | SendRoute.Encrypted nick =>
      let* r := get_e2e in
      if negb (bool_decide ((network, nick) ∈ E2eRuntime.locked r)) then act_ret false else
      let* _ := on_e2e (E2eRuntime.toggle_ciphertext network nick) in
      refresh_locked_view network nick ;*
      refresh_network_groups ;*
      act_ret true
  end.

Definition close_locked_query (network label : string) : act bool :=
  match route_for_window label with
  | SendRoute.Plain _ => act_ret false
  | SendRoute.Encrypted nick =>
      let* w := get_worker in
      let was_open := is_open_locked w network nick in
      change_e2e (fun r =>
        let r := E2eRuntime.set_cipher_view (E2eRuntime.cipher_view r ∖ {[ (network, nick) ]}) r in
        E2eRuntime.set_locked (E2eRuntime.locked r ∖ {[ (network, nick) ]}) r) ;*
      change_worker (fun w =>
        WorkerState.set_messages (delete (network, label) (WorkerState.messages w)) w) ;*
      (if was_open : bool
       then change_worker (WorkerState.set_window None false false) ;* show UiEvent.ClosedWindow
       else act_ret tt) ;*
      refresh_network_groups ;*
      push_open_query_consent ;*
      act_ret true
  end.
End Views.
