(* ===== verification/SessionEngines.v ===== *)
(** * The engines of a session (crates/cordiale-ui/src/e2e_runtime.rs)

    The opening of the engine of a network, its provisioning, the reading of
    its inbox, the sending of a text of a locked window, and what follows each
    call of an engine. *)

From S2P Require Import Prelude.
From S2P Require Import RustStr.
From S2P Require Import Slash.
From S2P Require Import Interfaces.
From S2P Require Import Isupport.
From S2P Require Import Wire.
From S2P Require Import Files.
From S2P Require Import History.
From S2P Require Import State.
From S2P Require Import Account.
From S2P Require Import IdentityRoutes.
From S2P Require Import DeviceRoutes.
From S2P Require Import Pacing.
From S2P Require Import Protocol.
From S2P Require Import Pairing.
From S2P Require Import PairingFlow.
From S2P Require Import PairingGrant.
From S2P Require Import SendDoor.
From S2P Require Import Effects.
From S2P Require Import Client.
From S2P Require Import Provision.
From S2P Require Import EngineTypes.
From S2P Require Import Engine.
From S2P Require Import EngineReceive.
From S2P Require Import EngineSend.
From S2P Require Import EngineCopies.
From S2P Require Import E2eView.
From S2P Require Import Runtime.
From S2P Require Import Session.
From S2P Require Import SessionViews.
From stdpp Require Import options.

#[local] Open Scope act_scope.

(** [provision_device] in the middle of a session: the events before it are
    part of what the outside answers by. *)
Definition after_events `{J : Json, U : UrlLib} (before : list event) (o : outside) : outside := {|
  reply es := reply o (before ++ es);
  io_of es := io_of o (before ++ es);
  random es := random o (before ++ es);
  wall es := wall o (before ++ es);
  appends es := appends o (before ++ es);
  rewrites es := rewrites o (before ++ es);
  clock es := clock o (before ++ es);
|}.

(** The frames of the session (session.rs). *)
Section Frames.
Context {C : Crypto} {J : Json}.

Definition kind_is (payload : value) (kind : string) : bool :=
  bool_decide (json_get payload "kind" ≫= as_str = Some kind).

Definition route_e2e_message (payload : value) (server_protocol : option N)
    : option InboxRow.t :=
  if negb (kind_is payload "e2e_message") then None
  else result_ok (InboxRow.from_value payload server_protocol).

Definition route_e2e_incoming (payload : value) : option IncomingEvent.t :=
  if negb (kind_is payload "e2e_incoming") then None
  else result_ok (IncomingEvent.from_value payload).

Definition route_e2e_incoming_lost (payload : value) : option IncomingLostEvent.t :=
  if negb (kind_is payload "e2e_incoming_lost") then None
  else result_ok (IncomingLostEvent.from_value payload).

Definition route_e2e_pairing (payload : value) : option PairingPush.t :=
  PairingPush.from_value payload.

Definition route_e2e_pairing_offer (payload : value) : option PairingOffer.t :=
  PairingOffer.from_value payload.
End Frames.

Section Engines.
Context {C : Crypto} {J : Json} {U : UrlLib} {T : StateText} {A : Aead} {O : Olm}.
Context {H : HistoryText} {X : EngineText} {S : OlmSessions} {K : OlmKeys}.
Context {EC : EciesChannel} {P : PendingText} {Ch : Chrono}.
(** What the opening of a file meets, and the number of turns for which a
    drain of an inbox is followed. *)
Context (opening : list event -> engine_env) (turns : nat).

(** ** Opening *)

(** An operation on the disk that opens a file. *)
Definition open_files {V} (f : engine_env -> disk -> disk * V) : act V := fun _ s =>
  let '(d, v) := f (opening (done s)) (drive s) in
  (mk_session d (worker s) (shown s) (done s), v).

Definition engine_routes (protocol : option N) : bool :=
  forallb (fun route => E2eOperation.available route protocol)
    [E2eOperation.SendMessage; E2eOperation.InboxFetch; E2eOperation.InboxAck].

(** A locked window for each peer of a history, with its rows as read. *)
Definition add_history_peers (network : string) (peers : list string)
    (history : E2eHistoryStore.t) (r : E2eRuntime.t) : E2eRuntime.t :=
  foldl (fun r peer =>
    let '(r, _) := E2eRuntime.add_locked network peer r in
    E2eRuntime.set_read_incoming
      (<[(network, peer) := incoming_count history network peer]> (E2eRuntime.read_incoming r)) r)
    r peers.

Definition open_history_only (network : string) : act unit :=
  let* w := get_worker in
  match WorkerState.client w, WorkerState.identifier w with
  | Some client, Some account =>
      let* opened := open_files (fun env d =>
        (d, open_history_for_network env d (GrappaClient.base_url client) account network)) in
      match opened with
      | Ok (Some history) =>
          change_e2e (add_history_peers network (history_peers_of history network) history) ;*
          change_e2e (fun r =>
            E2eRuntime.set_histories (<[network := history]> (E2eRuntime.histories r)) r)
      | _ => act_ret tt
      end
  | _, _ => act_ret tt
  end.

Definition take_stale (h : Held.t) (network : string) : act Held.t :=
  let* (h, _, stale) := with_state h tt (on_store (fun env d s => take_stale_pairing env d s)) in
  match stale with
  | Ok (Some record) =>
      change_e2e (fun r => E2eRuntime.set_stale_pairings
                             (E2eRuntime.stale_pairings r ++ [(network, record)]) r) ;*
      act_ret h
  | _ => act_ret h
  end.

(** The ISUPPORT snapshot of the network, when it came before the engine. *)
Definition with_isupport (isupport : option IsupportState) (e : E2eEngine.t) : E2eEngine.t :=
  match isupport with
  | Some isupport =>
      E2eEngine.set_frame_budget_base (Some (frame_budget_base isupport))
        (E2eEngine.set_casemapping (casemapping isupport) e)
  | None => e
  end.

Definition install_engine (network : string) (h : Held.t) : act unit :=
  let* w := get_worker in
  let e := with_isupport (WorkerState.isupport_by_network w !! network) (Held.engine h) in
  change_worker (fun w => WorkerState.set_own_devices
                            ({[ E2eEngine.own_did e ]} ∪ WorkerState.own_devices w) w) ;*
  change_e2e (add_history_peers network (history_peers e) (E2eEngine.history e)) ;*
  let* h := take_stale (Held.mk (Held.state h) e) network in
  put_held network h.

Definition forget_history (network : string) : act unit :=
  change_e2e (fun r => E2eRuntime.set_histories (delete network (E2eRuntime.histories r)) r).

(** [HashSet::insert] and [remove] of a set of networks. *)
Definition mark_unavailable (network : string) : act unit :=
  change_e2e (fun r => E2eRuntime.set_unavailable ({[ network ]} ∪ E2eRuntime.unavailable r) r).
Definition unmark_unavailable (network : string) : act unit :=
  change_e2e (fun r => E2eRuntime.set_unavailable (E2eRuntime.unavailable r ∖ {[ network ]}) r).

Definition ensure_engine (network : string) : act bool :=
  let* w := get_worker in
  let r := WorkerState.e2e w in
  if bool_decide (network ∈ E2eRuntime.reset r) then act_ret false
  else if bool_decide (is_Some (E2eRuntime.engines r !! network)) then act_ret true
  else if bool_decide (network ∈ E2eRuntime.unavailable r) then act_ret false
  else if negb (engine_routes (WorkerState.server_protocol_version w)) then act_ret false
  else match WorkerState.client w, WorkerState.identifier w with
  | Some client, Some account =>
      if WorkerState.guest_session w then act_ret false else
      forget_history network ;*
      let* opened := open_files (fun env d =>
        open_for_network env d (GrappaClient.base_url client) account network) in
      match opened with
      | Ok (state, e) => install_engine network (Held.mk state e) ;* act_ret true
      | Err _ => mark_unavailable network ;* open_history_only network ;* act_ret false
      end
  | _, _ => act_ret false
  end.

(** ** Provisioning *)

(** Without an engine the run opens the state file itself. *)
Definition provision_files (client : GrappaClient.t) (token account network : string)
    (protocol : option N) : act (result Provisioned.t ProvisionError.t) := fun o s =>
  let '(d, es, r) :=
    provision_for_network (opening (done s)) client token (GrappaClient.base_url client) account
      network protocol (after_events (done s) o) (drive s) in
  (mk_session d (worker s) (shown s) (done s ++ default [] es), r).

Definition provision_network (network : string) : act unit :=
  let* w := get_worker in
  let r := WorkerState.e2e w in
  if bool_decide (network ∈ E2eRuntime.reset r) || bool_decide (network ∈ E2eRuntime.provisioned r)
     || WorkerState.guest_session w
  then act_ret tt else
  match WorkerState.client w, WorkerState.token w, WorkerState.identifier w with
  | Some client, Some token, Some account =>
      let protocol := WorkerState.server_protocol_version w in
      let* held := take_held network in
      let* provisioned :=
        match held with
        | Some h =>
            let* (h, _, r) := with_state h tt (provision_device client token network protocol) in
            put_held network h ;* act_ret r
        | None => provision_files client token account network protocol
        end in
      match provisioned with
      | Ok _ =>
          change_e2e (fun r =>
            let r := E2eRuntime.set_needs_pairing (E2eRuntime.needs_pairing r ∖ {[ network ]}) r in
            let r := E2eRuntime.set_recovery (delete network (E2eRuntime.recovery r)) r in
            E2eRuntime.set_provisioned ({[ network ]} ∪ E2eRuntime.provisioned r) r) ;*
          unmark_unavailable network
      | Err error =>
          (if decide (error = ProvisionError.NeedsPairing)
           then change_e2e (fun r => E2eRuntime.set_needs_pairing
                                       ({[ network ]} ∪ E2eRuntime.needs_pairing r) r)
           else act_ret tt) ;*
          match recovery_for_provision error with
          | Some reason =>
              change_e2e (fun r => E2eRuntime.set_recovery
                                     (<[network := reason]> (E2eRuntime.recovery r)) r)
          | None => act_ret tt
          end
      end
  | _, _, _ => act_ret tt
  end.
End Engines.
