(* ===== verification/SessionInbox.v ===== *)
(** * The inbox and the sends of a session (crates/cordiale-ui/src/e2e_runtime.rs)

    What the worker does with an inbox row, with a text of a locked window,
    with a timer and with the end of a session; and the checks of a peer by
    the user. *)

From S2P Require Import Prelude.
From S2P Require Import RustStr.
From S2P Require Import Slash.
From S2P Require Import Interfaces.
From S2P Require Import Isupport.
From S2P Require Import History.
From S2P Require Import State.
From S2P Require Import Account.
From S2P Require Import Versions.
From S2P Require Import DeviceRoutes.
From S2P Require Import Pacing.
From S2P Require Import Pairing.
From S2P Require Import PairingFlow.
From S2P Require Import PairingGrant.
From S2P Require Import SendDoor.
From S2P Require Import SelfCopy.
From S2P Require Import Effects.
From S2P Require Import Client.
From S2P Require Import EngineTypes.
From S2P Require Import Engine.
From S2P Require Import EngineReceive.
From S2P Require Import EngineSend.
From S2P Require Import EngineCopies.
From S2P Require Import E2eView.
From S2P Require Import Runtime.
From S2P Require Import Session.
From S2P Require Import SessionViews.
From S2P Require Import SessionEngines.
From stdpp Require Import options.

#[local] Open Scope act_scope.

Section Inbox.
Context {C : Crypto} {J : Json} {U : UrlLib} {T : StateText} {A : Aead} {O : Olm}.
Context {H : HistoryText} {X : EngineText} {S : OlmSessions} {K : OlmKeys}.
Context {EC : EciesChannel} {P : PendingText} {Ch : Chrono}.
Context (opening : list event -> engine_env) (turns : nat).

(** The client and the token of the session, when it has both. *)
Definition client_token (w : WorkerState.t) : option (GrappaClient.t * string) :=
  client ← WorkerState.client w; token ← WorkerState.token w; Some (client, token).

(** ** After a call of an engine *)

Definition raise_alarms (network : string) (nicks : list string) (r : E2eRuntime.t) : E2eRuntime.t :=
  foldl (fun r nick =>
    E2eRuntime.set_trust_alarm ({[ (network, nick) ]} ∪ E2eRuntime.trust_alarm r) r) r nicks.

(** The copies of the sent texts, with one more run after the own list was
    read again. *)
Fixpoint copy_runs (runs : nat) (client : GrappaClient.t) (token : string)
    (protocol : option N) (own_nick : string) (h : Held.t) : act Held.t :=
  match runs with
  | 0 => act_ret h
  | Datatypes.S runs =>
      let* now := e2e_now in
      let* (h, report) :=
        with_held_sure h (EngineCopies.send_copies client token protocol own_nick now) in
      if negb (CopyReport.needs_sync report) then act_ret h else
      let* (h, _) := with_held h (sync_own_list client token protocol) in
      copy_runs runs client token protocol own_nick h
  end.

Definition send_copies (network : string) (client : GrappaClient.t) (token : string) (h : Held.t)
    : act Held.t :=
  let* w := get_worker in
  if negb (has_pending_copies (Held.engine h)) then act_ret h else
  copy_runs 2 client token (WorkerState.server_protocol_version w)
    (default "" (WorkerState.own_nicks w !! network)) h.

(** What waits in the engine goes out or ends. *)
Definition flush_engine (network : string) (client : GrappaClient.t) (token : string)
    (h : Held.t) : act Held.t :=
  let* (h, late) := with_held_sure h expire_queue in
  let* now := e2e_now in
  let* (h, dropped) := with_held_sure h (flush_queue client token now) in
  (if decide (late ++ dropped = []) then act_ret tt else status "e2e-send-failed") ;*
  let* h := send_copies network client token h in
  let* (h, _) := with_held_sure h (send_list_messages client token) in
  act_ret h.

(** The keys of the senders whose rows could not be read. *)
Fixpoint ask_keys (network : string) (client : GrappaClient.t) (token : string)
    (nicks : list string) (h : Held.t) : act Held.t :=
  match nicks with
  | [] => act_ret h
  | nick :: nicks =>
      let* (h, answer) := with_held h (request_keys client token nick) in
      change_e2e (E2eRuntime.note_key_request network nick answer) ;*
      match answer with
      | Err error => change_e2e (E2eRuntime.note_engine_error network nick error)
      | Ok _ => act_ret tt
      end ;*
      ask_keys network client token nicks h
  end.

(** Adds the locked windows; true when one of them is new. *)
Fixpoint add_all_locked (network : string) (nicks : list string) : act bool :=
  match nicks with
  | [] => act_ret false
  | nick :: nicks =>
      let* added := on_e2e (E2eRuntime.add_locked network nick) in
      let* more := add_all_locked network nicks in
      act_ret ((added : bool) || more)
  end.

Definition settle_engine (network : string) (h : Held.t) : act unit :=
  let* w := get_worker in
  let session := client_token w in
  let* h := match session with
            | Some (client, token) => flush_engine network client token h
            | None => act_ret h
            end in
  let* (h, wanted) := with_held_sure h take_keys_wanted in
  let* h := match session with
            | Some (client, token) => ask_keys network client token wanted h
            | None => act_ret h
            end in
  let* (h, alarmed) := with_held_sure h take_trust_changed in
  change_e2e (raise_alarms network alarmed) ;*
  let* (h, changed) := with_held_sure h take_changed_peers in
  let own_nick := default "" (WorkerState.own_nicks w !! network) in
  let ready := List.filter (fun nick => negb (eq_ignore_case nick own_nick))
                 (ready_peers (Held.engine h) (Held.state h)) in
  put_held network h ;*
  let* sidebar_changed := add_all_locked network (changed ++ ready) in
  act_each (refresh_locked_view network) changed ;*
  (if (sidebar_changed : bool) || negb (bool_decide (changed = []))
   then refresh_network_groups else act_ret tt) ;*
  push_open_locked_state ;*
  push_open_query_consent.

(** ** The inbox *)

(** The rows of an outcome that waits for a newer own list. *)
Fixpoint release_stale (outcomes : list (N * RowOutcome.t)) (h : Held.t) : act Held.t :=
  match outcomes with
  | [] => act_ret h
  | (id, outcome) :: outcomes =>
      if decide (outcome = RowOutcome.StaleList) then
        let* (h, _) := with_held_sure h (release_stale_try id) in
        release_stale outcomes h
      else release_stale outcomes h
  end.

Definition is_stale (outcomes : list (N * RowOutcome.t)) : bool :=
  existsb (fun o => bool_decide (o.2 = RowOutcome.StaleList)) outcomes.

(** A drain, and one more after the own list was read again. *)
Fixpoint drain_runs (runs : nat) (client : GrappaClient.t) (token : string)
    (protocol : option N) (h : Held.t) : act Held.t :=
  match runs with
  | 0 => act_ret h
  | Datatypes.S runs =>
      let* now := e2e_now in
      let* (h, drained) := with_held h (drain client token protocol turns now) in
      match drained with
      | Ok (Some outcomes) =>
          if negb (is_stale outcomes) then act_ret h else
          let* (h, synced) := with_held h (sync_own_list client token protocol) in
          match synced with
          | Ok _ => drain_runs runs client token protocol h
          | Err _ => release_stale outcomes h
          end
      | _ => act_ret h
      end
  end.

Definition drain_network (network : string) : act unit :=
  let* w := get_worker in
  match client_token w with
  | None => act_ret tt
  | Some (client, token) =>
      let* held := take_held network in
      match held with
      | None => act_ret tt
      | Some h =>
          let* h := drain_runs 2 client token (WorkerState.server_protocol_version w) h in
          settle_engine network h
      end
  end.

Fixpoint row_runs (runs : nat) (client : GrappaClient.t) (token : string)
    (protocol : option N) (row : InboxRow.t) (h : Held.t) : act Held.t :=
  match runs with
  | 0 => act_ret h
  | Datatypes.S runs =>
      let* now := e2e_now in
      let* (h, read) := with_held h (handle_event client token protocol row now) in
      match read with
      | Ok RowOutcome.StaleList =>
          let* (h, synced) := with_held h (sync_own_list client token protocol) in
          match synced with
          | Ok _ => row_runs runs client token protocol row h
          | Err _ =>
              let* (h, _) := with_held_sure h (release_stale_try (InboxRow.id row)) in
              act_ret h
          end
      | Ok _ => act_ret h
      | Err error =>
          change_e2e (E2eRuntime.note_engine_error (InboxRow.network row) (InboxRow.from row)
                        error) ;*
          act_ret h
      end
  end.

Definition read_e2e_row (row : InboxRow.t) : act unit :=
  let* w := get_worker in
  let protocol := WorkerState.server_protocol_version w in
  let* opened := ensure_engine opening (InboxRow.network row) in
  if negb opened then act_ret tt else
  match client_token w with
  | None => act_ret tt
  | Some (client, token) =>
      let* held := take_held (InboxRow.network row) in
      match held with
      | None => act_ret tt
      | Some h =>
          let* h := row_runs 2 client token protocol row h in
          settle_engine (InboxRow.network row) h
      end
  end.

Definition handle_e2e_message (payload : value) : act unit :=
  let* w := get_worker in
  match route_e2e_message payload (WorkerState.server_protocol_version w) with
  | None => act_ret tt
  | Some row =>
      let* settled := on_e2e (E2eRuntime.take_incoming (InboxRow.network row)
                                (InboxRow.from_did row) (InboxRow.msgid row)) in
      read_e2e_row row ;*
      match settled with
      | Some nick => refresh_locked_view (InboxRow.network row) nick
      | None => act_ret tt
      end
  end.

(** The redraw for the sender of a progress row that came or went. *)
Definition refresh_for (network : string) (nick : option string) : act unit :=
  match nick with
  | Some nick => refresh_locked_view network nick
  | None => act_ret tt
  end.

Definition handle_e2e_incoming (payload : value) : act unit :=
  match route_e2e_incoming payload with
  | None => act_ret tt
  | Some event =>
      let* held := held_of (IncomingEvent.network event) in
      match held with
      | None => act_ret tt
      | Some h =>
          let* nick := on_e2e (E2eRuntime.note_incoming event
                                 (E2eEngine.own_did (Held.engine h))) in
          refresh_for (IncomingEvent.network event) nick
      end
  end.

Definition handle_e2e_incoming_lost (payload : value) : act unit :=
  match route_e2e_incoming_lost payload with
  | None => act_ret tt
  | Some event =>
      let* held := held_of (IncomingLostEvent.network event) in
      match held with
      | None => act_ret tt
      | Some h =>
          let* nick := on_e2e (E2eRuntime.note_incoming_lost event
                                 (E2eEngine.own_did (Held.engine h))) in
          refresh_for (IncomingLostEvent.network event) nick
      end
  end.

(** ** Sending *)

Definition handle_send_locked (network nick body : string) : act unit :=
  if is_empty (trim body) then act_ret tt else
  let* w := get_worker in
  match client_token w with
  | None => status "e2e-not-ready"
  | Some (client, token) =>
      if bool_decide (network ∈ E2eRuntime.reset (WorkerState.e2e w))
      then status "e2e-not-ready" else
      let* held := take_held network in
      match held with
      | None => status "e2e-not-ready"
      | Some h =>
          let* now := e2e_now in
          let* (h, sent) := with_held h (send_or_queue client token nick body now) in
          match sent with
          | Ok _ => set_chat_follow_bottom
          | Err error =>
              status (e2e_send_error_kind error) ;*
              change_e2e (E2eRuntime.note_engine_error network nick error)
          end ;*
          settle_engine network h ;*
          if is_ok sent then let* _ := mark_active_window_read in act_ret tt else act_ret tt
      end
  end.

Definition handle_send_locked_action (network nick words : string) : act unit :=
  if is_empty (trim words) then act_ret tt
  else handle_send_locked network nick (action_text words).

(** ** Timers and the end of a session *)

(** [keys().cloned()] and [sort]. *)
Definition engine_networks (r : E2eRuntime.t) : list string :=
  merge_sort String.le (fst <$> map_to_list (E2eRuntime.engines r)).

Definition tick_e2e_engine (network : string) : act unit :=
  let* r := get_e2e in
  if bool_decide (network ∈ E2eRuntime.reset r) then act_ret tt else
  match E2eRuntime.engines r !! network with
  | None => act_ret tt
  | Some h =>
      if negb (has_queued_text (Held.engine h) || has_pending_copies (Held.engine h))
      then act_ret tt else
      let* _ := take_held network in
      settle_engine network h
  end.

Definition tick_e2e_engines : act unit :=
  let* r := get_e2e in act_each tick_e2e_engine (engine_networks r).

(** True when a send was dropped. *)
Fixpoint end_engines (networks : list string) : act bool :=
  match networks with
  | [] => act_ret false
  | network :: networks =>
      let* held := held_of network in
      let* any :=
        match held with
        | None => act_ret false
        | Some h =>
            let* (h, drops) := with_held_sure h end_session in
            let* (h, changed) := with_held_sure h take_changed_peers in
            put_held network h ;*
            act_each (refresh_locked_view network) changed ;*
            act_ret (negb (bool_decide (drops = [])))
        end in
      let* more := end_engines networks in
      act_ret ((any : bool) || more)
  end.

Definition offer_gone : act unit :=
  show (UiEvent.OfferDialog false) ;* show (UiEvent.Status "e2e-pair-offer-none" "" "").

Definition end_e2e_sessions : act unit :=
  let* r := get_e2e in
  change_e2e (E2eRuntime.set_offer None) ;*
  (if bool_decide (is_Some (E2eRuntime.offer r)) then offer_gone else act_ret tt) ;*
  let* any := end_engines (engine_networks r) in
  let* windows := on_e2e E2eRuntime.clear_incoming in
  act_each (fun '(network, nick) => refresh_locked_view network nick) windows ;*
  if any : bool then status "e2e-send-failed" else act_ret tt.

Definition handle_no_such_nick_push (payload : value) : act unit :=
  let* w := get_worker in
  if negb (at_least NO_SUCH_NICK_MIN_PROTOCOL (WorkerState.server_protocol_version w))
  then act_ret tt else
  match json_get payload "network" ≫= as_str, json_get payload "nick" ≫= as_str with
  | Some network, Some nick =>
      let* held := held_of network in
      let* changed :=
        match held with
        | None => act_ret []
        | Some h =>
            let* (h, drops) := with_held_sure h (no_such_nick nick) in
            (if decide (drops = []) then act_ret tt else status "e2e-no-such-nick") ;*
            let* (h, changed) := with_held_sure h take_changed_peers in
            put_held network h ;* act_ret changed
        end in
      act_each (refresh_locked_view network) changed ;*
      let casemapping := network_casemapping w network in
      change_e2e (E2eRuntime.remove_outgoing_request_for_peer network nick casemapping) ;*
      change_e2e (E2eRuntime.mark_key_request_failed_for_peer network nick casemapping) ;*
      push_open_locked_state ;*
      push_open_query_consent
  | _, _ => act_ret tt
  end.

(** ** The checks of a peer *)

(** The kind of the status after a confirm, a reject or a cancel of [check]. *)
Definition end_sas_check (step : SasStep.t) (check : option SasCheck.t) (alarm : bool)
    (network nick : string) : act (option string) :=
  match step, check with
  | SasStep.Cancel, _ => act_ret None
  | SasStep.Reject, _ => act_ret (Some "e2e-sas-rejected")
  | _, None => act_ret (Some "e2e-sas-unavailable")
  | _, Some check =>
      if alarm then act_ret (Some "e2e-sas-failed") else
      let* held := held_of network in
      match held with
      | None => act_ret (Some "e2e-sas-failed")
      | Some h =>
          let* (h, saved) := with_held h (confirm_sas nick (SasCheck.master check)) in
          put_held network h ;*
          act_ret (Some (match saved with Ok _ => "e2e-sas-verified" | Err _ => "e2e-sas-failed" end))
      end
  end.

(** The master and the code of it that a start shows. *)
Definition sas_shown (r : E2eRuntime.t) (network nick : string) (alarm : bool)
    : option (string * string) :=
  h ← E2eRuntime.engines r !! network;
  if alarm then None else
  master ← sas_master (Held.engine h) (Store.data (Held.state h)) nick;
  code ← engine_sas_code (Held.engine h) (Held.state h) nick;
  Some (master, code).

Definition handle_e2e_sas (step : SasStep.t) : act unit :=
  let* w := get_worker in
  match open_locked_window w with
  | None => act_ret tt
  | Some (network, nick) =>
      let r := WorkerState.e2e w in
      let alarm := bool_decide ((network, nick) ∈ E2eRuntime.trust_alarm r) in
      let* kind :=
        match step with
        | SasStep.Start =>
            match sas_shown r network nick alarm with
            | Some (master, code) =>
                change_e2e (E2eRuntime.set_sas_check (Some (SasCheck.mk network nick master))) ;*
                show (UiEvent.SasCode code) ;*
                act_ret None
            | None => act_ret (Some "e2e-sas-unavailable")
            end
        | _ =>
            change_e2e (E2eRuntime.set_sas_check None) ;*
            show (UiEvent.SasCode "") ;*
            end_sas_check step
              (check ← E2eRuntime.sas_check r;
               if bool_decide (SasCheck.network check = network)
                  && bool_decide (SasCheck.nick check = nick) then Some check else None)
              alarm network nick
        end in
      match kind with
      | None => act_ret tt
      | Some kind => status kind ;* push_open_locked_state
      end
  end.

Definition peer_key_facts (r : E2eRuntime.t) (network nick : string) : option (string * bool) :=
  if bool_decide ((network, nick) ∈ E2eRuntime.trust_alarm r) then None else
  h ← E2eRuntime.engines r !! network;
  let data := Store.data (Held.state h) in
  master ← sas_master (Held.engine h) data nick;
  Some (master, is_key_verified (Held.engine h) data nick).

Definition verify_peer_key (network nick key : string) : act bool :=
  let* r := get_e2e in
  match peer_key_facts r network nick, E2eRuntime.engines r !! network with
  | Some _, Some h =>
      let* (h, confirmed) := with_held h (confirm_key nick key) in
      put_held network h ;* act_ret (is_ok confirmed)
  | _, _ => act_ret false
  end.

(** The view of the key, or its close. *)
Definition show_peer_key (network nick : string) : act unit :=
  let* r := get_e2e in
  match peer_key_facts r network nick with
  | Some (master, verified) => show (UiEvent.PeerKey true network nick master verified)
  | None => close_peer_key
  end.

Definition handle_e2e_peer_key (step : PeerKeyStep.t) (network nick key : string) : act unit :=
  let* w := get_worker in
  match step with
  | PeerKeyStep.Close => close_peer_key
  | _ =>
      if negb (is_open_locked w network nick) then act_ret tt else
      match step with
      | PeerKeyStep.Verify =>
          let* verified := verify_peer_key network nick key in
          show_peer_key network nick ;*
          status (if verified : bool then "e2e-key-verified" else "e2e-key-failed") ;*
          push_open_locked_state
      | _ => show_peer_key network nick
      end
  end.
End Inbox.
