(* ===== verification/SessionPairing.v ===== *)
(** * The pairings of a session (crates/cordiale-ui/src/e2e_runtime.rs)

    The steps of [/e2e pair], [join], [code], [cancel], [accept] and [decline],
    the offers and the events of the relay, and the move of a joiner to the
    network that the holder names. *)

From S2P Require Import Prelude.
From S2P Require Import RustStr.
From S2P Require Import Slash.
From S2P Require Import Interfaces.
From S2P Require Import Isupport.
From S2P Require Import Wire.
From S2P Require Import Device.
From S2P Require Import Manage.
From S2P Require Import Files.
From S2P Require Import History.
From S2P Require Import State.
From S2P Require Import Account.
From S2P Require Import Versions.
From S2P Require Import IdentityRoutes.
From S2P Require Import DeviceRoutes.
From S2P Require Import Refusal.
From S2P Require Import Pacing.
From S2P Require Import Pairing.
From S2P Require Import PairingFlow.
From S2P Require Import PairingGrant.
From S2P Require Import SendDoor.
From S2P Require Import Effects.
From S2P Require Import Client.
From S2P Require Import Provision.
From S2P Require Import Revoke.
From S2P Require Import PairingDrive.
From S2P Require Import EngineTypes.
From S2P Require Import Engine.
From S2P Require Import EngineReceive.
From S2P Require Import EngineSend.
From S2P Require Import EngineCopies.
From S2P Require Import E2eView.
From S2P Require Import Runtime.
From S2P Require Import Session.
From S2P Require Import SessionViews.
From S2P Require Import SessionEngines.
From S2P Require Import SessionInbox.
From stdpp Require Import options.

#[local] Open Scope act_scope.

Section Pair.
Context {C : Crypto} {J : Json} {U : UrlLib} {T : StateText} {A : Aead} {O : Olm}.
Context {H : HistoryText} {X : EngineText} {S : OlmSessions} {K : OlmKeys}.
Context {EC : EciesChannel} {EK : EciesKeys} {W : PairingText} {P : PendingText}.
Context {PA : PairingAnswers} {Ch : Chrono}.
Context (opening : list event -> engine_env) (turns : nat).

Notation ensure_engine := (ensure_engine opening).

(** ** Engines of a pairing *)

Definition open_pairing_engine (network : string) : act bool :=
  let* w := get_worker in
  match WorkerState.client w, WorkerState.identifier w with
  | Some client, Some account =>
      if WorkerState.guest_session w then act_ret false else
      forget_history network ;*
      let* opened := open_files opening (fun env d =>
        open_for_pairing env d (GrappaClient.base_url client) account network) in
      match opened with
      | Ok (state, e) =>
          unmark_unavailable network ;* put_held network (Held.mk state e) ;* act_ret true
      | Err _ => open_history_only opening network ;* act_ret false
      end
  | _, _ => act_ret false
  end.

Definition take_pairing_engine (network : string) (create : bool) : act (option Held.t) :=
  let* r := get_e2e in
  (if create && bool_decide (network ∈ E2eRuntime.reset r)
   then let* _ := take_held network in act_ret tt else act_ret tt) ;*
  let* held := held_of network in
  match held with
  | Some _ => take_held network
  | None =>
      let* opened := if create then open_pairing_engine network else ensure_engine network in
      if opened : bool then take_held network else act_ret None
  end.

(** ** What the user sees *)

Definition show_pairing_kind (kind hint : string) : act unit :=
  show (UiEvent.Status kind hint "").

Definition show_pairing (status : PairingStatus) : act unit :=
  let '(kind, hint) := pairing_status_key status in show_pairing_kind kind hint.

Definition show_pairing_dialog (offered : bool) : act unit := show (UiEvent.PairDialog true offered).
Definition clear_pairing_dialog : act unit := show (UiEvent.PairDialog false false).
Definition set_offer_dialog (visible : bool) : act unit := show (UiEvent.OfferDialog visible).

(** ** The steps of the open pairing *)

Definition put_pairing (active : option ActivePairing.t) : act unit :=
  change_e2e (E2eRuntime.set_pairing active).

(** [pairing.take()]. *)
Definition take_pairing : act (option ActivePairing.t) :=
  on_e2e (fun r => (E2eRuntime.set_pairing None r, E2eRuntime.pairing r)).

Definition with_session (active : ActivePairing.t) (session : PairingSession.t) : ActivePairing.t :=
  ActivePairing.mk (ActivePairing.network active) session (ActivePairing.manual_code active).

(** A driver of the session [active] on the store of [h]. *)
Definition drive_pairing {V} (active : ActivePairing.t) (h : Held.t)
    (m : eff PairingSession.t DriveError.t V)
    : act (ActivePairing.t * Held.t * result V DriveError.t) :=
  let* (h, session, r) := with_state h (ActivePairing.session active) m in
  act_ret (with_session active session, h, r).

Definition context_of (w : WorkerState.t) (client : GrappaClient.t) (token network : string)
    : PairingContext.t :=
  PairingContext.mk client token (WorkerState.server_protocol_version w) network.

Definition end_active_pairing : act unit :=
  let* w := get_worker in
  match client_token w with
  | None => act_ret tt
  | Some (client, token) =>
      let* active := take_pairing in
      match active with
      | None => act_ret tt
      | Some active =>
          let network := ActivePairing.network active in
          let* held := take_pairing_engine network false in
          match held with
          | None => act_ret tt
          | Some h =>
              let* (_, h, _) := drive_pairing active h (cancel (context_of w client token network)) in
              put_held network h
          end
      end
  end.

(** Without an engine of the offered network the pairing is cancelled. *)
Definition cancel_first (client : GrappaClient.t) (token : string) (active : ActivePairing.t)
    : act ActivePairing.t :=
  let* w := get_worker in
  let first := ActivePairing.network active in
  let* old := take_pairing_engine first false in
  match old with
  | None => act_ret active
  | Some old =>
      let* (active, old, _) := drive_pairing active old (cancel (context_of w client token first)) in
      put_held first old ;* act_ret active
  end.

Definition rebind_joiner (active : ActivePairing.t)
    : act (ActivePairing.t * result unit DriveError.t) :=
  let* w := get_worker in
  let offered := PairingSession.network (ActivePairing.session active) in
  let first := ActivePairing.network active in
  if bool_decide (offered = first) || negb (PairingSession.is_active (ActivePairing.session active))
  then act_ret (active, Ok tt) else
  match client_token w with
  | None => act_ret (active, Ok tt)
  | Some (client, token) =>
      let* held := take_pairing_engine offered true in
      match held with
      | None =>
          let* active := cancel_first client token active in
          act_ret (active, Err (DriveError.Flow FlowError.Store))
      | Some h =>
          let* old := held_of first in
          match old with
          | Some old =>
              let* (old, _, _) := with_state old tt (on_store (fun env d s => clear_pending env d s)) in
              put_held first old
          | None => act_ret tt
          end ;*
          let* (active, h, bound) := drive_pairing active h (bind_joiner (context_of w client token offered)) in
          put_held offered h ;*
          act_ret (ActivePairing.mk offered (ActivePairing.session active)
                     (ActivePairing.manual_code active), bound)
      end
  end.

Definition follow_offered_network (active : ActivePairing.t) (r : result unit DriveError.t)
    : act (ActivePairing.t * option DriveError.t) :=
  match r with
  | Err error => act_ret (active, Some error)
  | Ok _ =>
      let* (active, bound) := rebind_joiner active in
      act_ret (active, match bound with Err error => Some error | Ok _ => None end)
  end.

(** A finished join gave the device a new identity. *)
Definition identity_paired (network : string) (r : E2eRuntime.t) : E2eRuntime.t :=
  let r := E2eRuntime.set_needs_pairing (E2eRuntime.needs_pairing r ∖ {[ network ]}) r in
  let r := E2eRuntime.set_recovery (delete network (E2eRuntime.recovery r)) r in
  let r := E2eRuntime.set_reset (E2eRuntime.reset r ∖ {[ network ]}) r in
  let r := E2eRuntime.set_forgotten (E2eRuntime.forgotten r ∖ {[ network ]}) r in
  E2eRuntime.clear_ciphertext_views network r.

Definition finish_pairing_step (active : ActivePairing.t) (error : option DriveError.t) : act unit :=
  let session := ActivePairing.session active in
  let status := PairingSession.status session in
  match error, ActivePairing.manual_code active, status with
  | Some error, _, _ => show_pairing_kind (pairing_error_key error) ""
  | None, Some code, StatusWaiting => show_pairing_kind "e2e-pair-manual" code
  | None, _, _ => show_pairing status
  end ;*
  match status with
  | StatusDone => change_e2e (identity_paired (ActivePairing.network active))
  | _ => act_ret tt
  end ;*
  (if PairingSession.is_active session then put_pairing (Some active) else clear_pairing_dialog) ;*
  push_open_locked_state.

(** A driver of the open pairing, with the engine of its network. *)
Definition step_pairing (client : GrappaClient.t) (token : string) (active : ActivePairing.t)
    (h : Held.t) (m : PairingContext.t -> eff PairingSession.t DriveError.t unit) : act unit :=
  let* w := get_worker in
  let network := ActivePairing.network active in
  let* (active, h, r) := drive_pairing active h (m (context_of w client token network)) in
  put_held network h ;*
  let* (active, error) := follow_offered_network active r in
  finish_pairing_step active error.

Definition pump_pairing : act unit :=
  let* w := get_worker in
  match client_token w with
  | None => act_ret tt
  | Some (client, token) =>
      let* active := take_pairing in
      match active with
      | None => act_ret tt
      | Some active =>
          if negb (PairingSession.is_active (ActivePairing.session active))
          then clear_pairing_dialog else
          let* held := take_pairing_engine (ActivePairing.network active) false in
          match held with
          | None => put_pairing (Some active)
          | Some h => step_pairing client token active h pump
          end
      end
  end.

(** A closed rendezvous, or the first message of a joiner, ends its offer. *)
Definition push_ends_offer (push : PairingPush.t) (r : E2eRuntime.t) : E2eRuntime.t * bool :=
  match push with
  | PairingPush.Closed rendezvous_id _ => E2eRuntime.close_offer_of r rendezvous_id
  | PairingPush.Message rendezvous_id _ _ => E2eRuntime.drop_offer_of r rendezvous_id
  end.

Definition handle_e2e_pairing (payload : value) : act unit :=
  match route_e2e_pairing payload with
  | None => act_ret tt
  | Some push =>
      let* dropped := on_e2e (push_ends_offer push) in
      (if dropped : bool then offer_gone else act_ret tt) ;*
      let* w := get_worker in
      match client_token w with
      | None => act_ret tt
      | Some (client, token) =>
          let* active := take_pairing in
          match active with
          | None => act_ret tt
          | Some active =>
              let* held := take_pairing_engine (ActivePairing.network active) false in
              match held with
              | None => act_ret tt
              | Some h => step_pairing client token active h (fun ctx => on_push ctx push)
              end
          end
      end
  end.

Definition retire_expired_offer : act unit :=
  let* now := e2e_now in
  let* ended := on_e2e (fun r => E2eRuntime.expire_offer r now) in
  if ended : bool then offer_gone else act_ret tt.

Definition known_networks (w : WorkerState.t) : list string :=
  fst <$> map_to_list (WorkerState.own_nicks w).

Definition handle_e2e_pairing_offer (topic : string) (payload : value) : act unit :=
  let* w := get_worker in
  match WorkerState.identifier w with
  | None => act_ret tt
  | Some user =>
      if negb (bool_decide (topic = "grappa:user:" +:+ user)) || WorkerState.guest_session w
      then act_ret tt else
      match route_e2e_pairing_offer payload with
      | None => act_ret tt
      | Some offer =>
          let* now := e2e_now in
          let* decision := on_e2e (fun r =>
            E2eRuntime.admit_offer r offer (known_networks w)
              (WorkerState.server_protocol_version w) now) in
          if decide (decision = OfferShow) then set_offer_dialog true else act_ret tt
      end
  end.

Definition tick_pairing : act unit :=
  retire_expired_offer ;*
  let* w := get_worker in
  match client_token w with
  | None => act_ret tt
  | Some (client, token) =>
      let* active := take_pairing in
      match active with
      | None => act_ret tt
      | Some active =>
          let network := ActivePairing.network active in
          let* held := take_pairing_engine network false in
          match held with
          | None => put_pairing (Some active)
          | Some h =>
              let* now := e2e_now in
              let* (active, h, ended) :=
                drive_pairing active h (tick (context_of w client token network) now) in
              put_held network h ;*
              (if decide (ended = Ok true)
               then clear_pairing_dialog ;*
                    show_pairing (PairingSession.status (ActivePairing.session active))
               else put_pairing (Some active)) ;*
              push_open_locked_state
          end
      end
  end.

Definition close_stale_pairings : act unit :=
  let* stale := on_e2e (fun r => (E2eRuntime.set_stale_pairings [] r, E2eRuntime.stale_pairings r)) in
  let* w := get_worker in
  match client_token w with
  | None => act_ret tt
  | Some (client, token) =>
      act_each (fun '(network, record) =>
        let* _ := call_client (close_stale (context_of w client token network) record) in
        act_ret tt) stale
  end.
(** ** The steps of the user *)

(** The candidates of an accepted offer and its code; the offer is used up. *)
Definition accept_offer : act (option (list string * string)) :=
  let* w := get_worker in
  let* now := e2e_now in
  let* taken := on_e2e (fun r => E2eRuntime.take_offer r (known_networks w) now) in
  set_offer_dialog false ;*
  act_ret taken.

(** A new start replaces the open pairing and drops a waiting offer. *)
Definition replace_pairing : act unit :=
  change_e2e (E2eRuntime.set_offer None) ;*
  set_offer_dialog false ;*
  clear_pairing_dialog ;*
  end_active_pairing.

Definition start_pairing (client : GrappaClient.t) (token network : string) (now : Z) : act unit :=
  let* w := get_worker in
  if bool_decide (network ∈ E2eRuntime.reset (WorkerState.e2e w))
  then show_pairing_kind "e2e-not-ready" "" else
  let* held := take_pairing_engine network false in
  match held with
  | None => show_pairing_kind "e2e-not-ready" ""
  | Some h =>
      let* (h, _, started) := with_state h tt (start_creator (context_of w client token network) now) in
      put_held network h ;*
      match started with
      | Err error => show_pairing_kind (pairing_error_key error) ""
      | Ok (session, link) =>
          let offered := pairing_offer_available (WorkerState.server_protocol_version w) in
          let manual_code := if offered then None else Some (PairingLink.code link) in
          put_pairing (Some (ActivePairing.mk network session manual_code)) ;*
          push_open_locked_state ;*
          match manual_code with
          | Some code => show_pairing_kind "e2e-pair-manual" code
          | None => show_pairing_kind "e2e-pair-offered" ""
          end ;*
          show_pairing_dialog offered
      end
  end.

Definition join_pairing (client : GrappaClient.t) (token network text : string)
    (candidates : list string) (now : Z) : act unit :=
  let* w := get_worker in
  let* held := take_pairing_engine network true in
  match held with
  | None => show_pairing_kind "e2e-not-ready" ""
  | Some h =>
      let* (h, _, joined) :=
        with_state h tt (start_joiner_any (context_of w client token network) text candidates now) in
      put_held network h ;*
      match joined with
      | Err error => show_pairing_kind (pairing_error_key error) ""
      | Ok session =>
          show_pairing (PairingSession.status session) ;*
          put_pairing (Some (ActivePairing.mk network session None)) ;*
          push_open_locked_state
      end
  end.

(** The pairing changes the list of its own network, not the one of the open
    window. *)
Definition type_code (client : GrappaClient.t) (token typed : string) : act unit :=
  let* w := get_worker in
  let* active := take_pairing in
  match active with
  | None => show_pairing_kind "e2e-pair-none" ""
  | Some active =>
      let network := ActivePairing.network active in
      let* held := take_pairing_engine network false in
      match held with
      | None => show_pairing_kind "e2e-pair-failed" ""
      | Some h =>
          let* (active, h, confirmed) :=
            drive_pairing active h (confirm (context_of w client token network) typed) in
          put_held network h ;*
          finish_pairing_step active (match confirmed with Err error => Some error | Ok _ => None end)
      end
  end.

Definition cancel_pairing : act unit :=
  let* r := get_e2e in
  match E2eRuntime.pairing r with
  | None => show_pairing_kind "e2e-pair-none" ""
  | Some _ =>
      clear_pairing_dialog ;*
      end_active_pairing ;*
      push_open_locked_state ;*
      show_pairing (StatusEnded EndCancelled)
  end.

Definition run_e2e_pair (network : string) (action : E2ePairAction.t) : act unit :=
  let* w := get_worker in
  match client_token w with
  | None => act_ret tt
  | Some (client, token) =>
      let* now := e2e_now in
      match action with
      | E2ePairAction.Accept =>
          let* taken := accept_offer in
          match taken with
          | Some ((first :: _) as candidates, code) =>
              replace_pairing ;* join_pairing client token first code candidates now
          | _ => show_pairing_kind "e2e-pair-offer-none" ""
          end
      | E2ePairAction.Decline =>
          change_e2e (E2eRuntime.set_offer None) ;*
          set_offer_dialog false ;*
          show_pairing_kind "e2e-pair-offer-none" ""
      | E2ePairAction.Start => replace_pairing ;* start_pairing client token network now
      | E2ePairAction.Join text => replace_pairing ;* join_pairing client token network text [] now
      | E2ePairAction.Code typed => type_code client token typed
      | E2ePairAction.Cancel => cancel_pairing
      end
  end.

Definition answer_pairing_offer (accept : bool) : act unit :=
  run_e2e_pair "" (if accept then E2ePairAction.Accept else E2ePairAction.Decline).
End Pair.
