(* ===== verification/SessionManage.v ===== *)
(** * The own identity in a session (crates/cordiale-ui/src/e2e_runtime.rs)

    The steps [/e2e devices], [revoke], [reset] and [forget] with their
    questions, the end of a reset or a revoke that an earlier run left open,
    the identity page, and what runs when a session connects. *)

From S2P Require Import Prelude.
From S2P Require Import RustStr.
From S2P Require Import Slash.
From S2P Require Import Interfaces.
From S2P Require Import Isupport.
From S2P Require Import Wire.
From S2P Require Import Device.
From S2P Require Import Manage.
From S2P Require Import Files.
From S2P Require Import History.
From S2P Require Import State.
From S2P Require Import Account.
From S2P Require Import Versions.
From S2P Require Import IdentityRoutes.
From S2P Require Import DeviceRoutes.
From S2P Require Import Refusal.
From S2P Require Import Pacing.
From S2P Require Import Pairing.
From S2P Require Import PairingFlow.
From S2P Require Import PairingGrant.
From S2P Require Import SendDoor.
From S2P Require Import Effects.
From S2P Require Import Client.
From S2P Require Import Provision.
From S2P Require Import Revoke.
From S2P Require Import PairingDrive.
From S2P Require Import EngineTypes.
From S2P Require Import Engine.
From S2P Require Import EngineReceive.
From S2P Require Import EngineSend.
From S2P Require Import EngineCopies.
From S2P Require Import E2eView.
From S2P Require Import Runtime.
From S2P Require Import Session.
From S2P Require Import SessionViews.
From S2P Require Import SessionEngines.
From S2P Require Import SessionInbox.
From S2P Require Import SessionPairing.
From stdpp Require Import options.

#[local] Open Scope act_scope.

Definition identity_panel_state (key : option string) : string :=
  match key with Some _ => "key" | None => "none" end.

Section Manage.
Context {C : Crypto} {J : Json} {U : UrlLib} {T : StateText} {A : Aead} {O : Olm}.
Context {H : HistoryText} {X : EngineText} {S : OlmSessions} {K : OlmKeys}.
Context {EC : EciesChannel} {EK : EciesKeys} {W : PairingText} {P : PendingText}.
Context {PA : PairingAnswers} {Ch : Chrono}.
Context (opening : list event -> engine_env) (turns : nat).

Notation ensure_engine := (ensure_engine opening).

Definition show_manage_kind (kind hint message : string) : act unit :=
  show (UiEvent.Status kind hint message).
Definition not_ready : act unit := show_manage_kind "e2e-not-ready" "" "".

(** ** After a reset *)

Definition mark_reset (network : string) (r : E2eRuntime.t) : E2eRuntime.t :=
  let r := E2eRuntime.set_provisioned (E2eRuntime.provisioned r ∖ {[ network ]}) r in
  let r := E2eRuntime.set_reset ({[ network ]} ∪ E2eRuntime.reset r) r in
  let r := E2eRuntime.set_forgotten (E2eRuntime.forgotten r ∖ {[ network ]}) r in
  let r := E2eRuntime.set_recovery (delete network (E2eRuntime.recovery r)) r in
  E2eRuntime.clear_ciphertext_views network r.

Definition settle_reset (network : string) (h : Held.t) : act unit :=
  let* (h, _) := with_held_sure h end_session in
  let* (h, changed) := with_held_sure h take_changed_peers in
  put_held network h ;*
  change_e2e (mark_reset network) ;*
  act_each (refresh_locked_view network) changed.

Definition routes_of (w : WorkerState.t) (client : GrappaClient.t) (token network own_nick : string)
    : OwnRoutes.t :=
  OwnRoutes.mk client token network own_nick (WorkerState.server_protocol_version w).

(** The status of a revoke that an earlier run left open. *)
Definition show_finished_revoke (r : result (option Revoked.t) RevokeError.t) : act unit :=
  match r with
  | Ok None => act_ret tt
  | Ok (Some done) =>
      let '(kind, hint) := revoke_status_key (Ok done) in show_manage_kind kind hint ""
  | Err error =>
      let '(kind, hint) := revoke_status_key (Err error) in show_manage_kind kind hint ""
  end.

Definition resume_pending_manage (network : string) : act unit :=
  let* w := get_worker in
  match client_token w, WorkerState.own_nicks w !! network with
  | Some (client, token), Some own_nick =>
      let* held := take_held network in
      match held with
      | None => act_ret tt
      | Some h =>
          let routes := routes_of w client token network own_nick in
          let* (h, _, resumed) := with_state h tt (resume_reset routes) in
          match resumed with
          | Ok true =>
              show_manage_kind "e2e-reset-done" "" "" ;*
              settle_reset network h
          | Ok false =>
              let* (h, _, finished) := with_state h tt (finish_pending_revoke routes) in
              show_finished_revoke finished ;*
              put_held network h
          | Err error =>
              show_manage_kind (reset_status_key (Err error)) "" "" ;*
              put_held network h
          end
      end
  | _, _ => act_ret tt
  end.

(** ** Devices and recovery *)

Definition read_device_records (w : WorkerState.t) (client : GrappaClient.t)
    (token network : string) : act (option (list DeviceRecord.t)) :=
  let* records := call_client (GrappaClient.list_e2e_devices client token network
                                 (WorkerState.server_protocol_version w)) in
  act_ret (result_ok records).

Definition show_recovery (client : GrappaClient.t) (token network own : string)
    (reason : RecoveryReason.t) (signed_ids : option (list string)) : act unit :=
  let* w := get_worker in
  let* records := read_device_records w client token network in
  let ids := match signed_ids with
             | Some ids => Some ids
             | None => List.map DeviceRecord.did <$> records
             end in
  show (UiEvent.Recovery reason ((fun ids => device_rows ids own records) <$> ids)).

(** The ids of the signed list of the store. *)
Definition signed_ids (h : Held.t) : option (list string) :=
  (fun l => omap (fun key => result_ok (did_from_key_text key)) (SignedList.keys l))
    <$> StateData.signed_list (Store.data (Held.state h)).

Definition show_devices (client : GrappaClient.t) (token network : string) : act unit :=
  let* w := get_worker in
  let r := WorkerState.e2e w in
  match E2eRuntime.engines r !! network with
  | None => not_ready
  | Some h =>
      let own := E2eEngine.own_did (Held.engine h) in
      let ids := signed_ids h in
      match devices_reason (E2eRuntime.recovery r !! network) own ids with
      | Some (reason, from_signed_list) =>
          show_recovery client token network own reason (if from_signed_list : bool then ids else None)
      | None =>
          let* records := read_device_records w client token network in
          show (UiEvent.Devices own (device_rows (default [] ids) own records))
      end
  end.

(** ** Revoke, reset and forget *)

Definition run_revoke (client : GrappaClient.t) (token network own_nick did : string) : act unit :=
  let* w := get_worker in
  let* held := take_held network in
  match held with
  | None => not_ready
  | Some h =>
      let* (h, _, revoked) :=
        with_state h tt (revoke_device (routes_of w client token network own_nick) did) in
      put_held network h ;*
      let '(kind, hint) := revoke_status_key revoked in
      show_manage_kind kind hint ""
  end.

Definition ask_reset (network : string) : act unit :=
  change_e2e (E2eRuntime.set_reset_asked (Some network)) ;*
  show_manage_kind "e2e-reset-confirm" "" "".

(** [asked] is the network of the question that was open. *)
Definition confirm_reset (client : GrappaClient.t) (token network own_nick : string)
    (asked : option string) : act unit :=
  if bool_decide (asked <> Some network) then ask_reset network else
  let* w := get_worker in
  let* held := take_held network in
  match held with
  | None => not_ready
  | Some h =>
      let* (h, _, r) := with_state h tt (reset_identity (routes_of w client token network own_nick)) in
      match r with
      | Err _ => put_held network h
      | Ok _ => settle_reset network h
      end ;*
      show_manage_kind (reset_status_key r) "" ""
  end.

Definition run_e2e_forget (network own_nick : string) (confirmed : bool) : act unit :=
  let* r := get_e2e in
  if bool_decide (E2eRuntime.recovery r !! network <> Some RecoveryReason.Replaced)
  then show_manage_kind "e2e-forget-not-needed" "" ""
  else if negb confirmed then
    change_e2e (E2eRuntime.set_forget_asked (Some network)) ;*
    show_manage_kind "e2e-forget-confirm" "" ""
  else
    let* held := take_pairing_engine opening network true in
    match held with
    | None => show_manage_kind "e2e-forget-failed" "" ""
    | Some h =>
        let* (h, _, forgot) :=
          with_state h tt (on_store (fun env d s => Store.finish_reset env d s network own_nick)) in
        match forgot with
        | Ok _ =>
            settle_reset network h ;*
            change_e2e (fun r =>
              E2eRuntime.set_forgotten ({[ network ]} ∪ E2eRuntime.forgotten r) r) ;*
            show_manage_kind "e2e-forget-done" "" ""
        | Err _ =>
            put_held network h ;*
            show_manage_kind "e2e-forget-failed" "" ""
        end
    end.

Definition forgotten_reset_step (r : E2eRuntime.t) (network : string)
    (action : E2eManageAction.t) : bool :=
  match action with
  | E2eManageAction.Reset | E2eManageAction.ResetConfirm =>
      bool_decide (network ∈ E2eRuntime.forgotten r)
      && bool_decide (is_Some (E2eRuntime.engines r !! network))
  | _ => false
  end.

(** The two questions that were open; they are closed. *)
Definition take_questions : act (option string * option string) :=
  on_e2e (fun r =>
    (E2eRuntime.set_forget_asked None (E2eRuntime.set_reset_asked None r),
     (E2eRuntime.reset_asked r, E2eRuntime.forget_asked r))).

(** The step on a network whose engine is open. *)
Definition manage_step (client : GrappaClient.t) (token network own_nick : string)
    (asked : option string) (action : E2eManageAction.t) : act unit :=
  match action with
  | E2eManageAction.Devices => show_devices client token network
  | E2eManageAction.Revoke did => run_revoke client token network own_nick did
  | E2eManageAction.Forget | E2eManageAction.ForgetConfirm => act_ret tt
  | E2eManageAction.Reset => ask_reset network
  | E2eManageAction.ResetConfirm => confirm_reset client token network own_nick asked
  end.

Definition run_e2e_manage (network : string) (action : E2eManageAction.t) : act unit :=
  let* (asked, forget_asked) := take_questions in
  let* w := get_worker in
  match client_token w with
  | None => act_ret tt
  | Some (client, token) =>
      match WorkerState.own_nicks w !! network with
      | None => not_ready
      | Some own_nick =>
          match action with
          | E2eManageAction.Forget => run_e2e_forget network own_nick false
          | E2eManageAction.ForgetConfirm =>
              run_e2e_forget network own_nick (bool_decide (forget_asked = Some network))
          | _ =>
              let* ready :=
                if forgotten_reset_step (WorkerState.e2e w) network action then act_ret true
                else ensure_engine network in
              if ready : bool then manage_step client token network own_nick asked action else
              let* r := get_e2e in
              match action, E2eRuntime.recovery r !! network with
              | E2eManageAction.Devices, Some reason =>
                  show_recovery client token network "" reason None
              | _, _ => not_ready
              end
          end
      end
  end.

(** ** The identity page *)

Definition current_identity_session (w : WorkerState.t) : string :=
  identity_session_id (GrappaClient.base_url <$> WorkerState.client w) (WorkerState.identifier w).

Definition show_e2e_identity (network requested_session : string) : act unit :=
  let* w := get_worker in
  let session := current_identity_session w in
  if negb (identity_reply_applies requested_session session) then act_ret tt else
  let* opened := ensure_engine network in
  let* r := get_e2e in
  let key := if opened : bool
             then h ← E2eRuntime.engines r !! network;
                  result_ok (Store.master_public_key (Held.state h)) ≫= id
             else None in
  show (UiEvent.IdentityPanel (identity_panel_state key) session network (default "" (WorkerState.identifier w))
          (default "" key)).
End Manage.
