(* ===== verification/SessionConsent.v ===== *)
(** * The consent requests of a session (crates/cordiale-ui/src/e2e_runtime.rs)

    The requests to start an encrypted chat: what a push or a sync of the
    server changes, what an accepted request starts, and each action of the
    user on a request; and what runs when a session connects. *)

From S2P Require Import Prelude.
From S2P Require Import RustStr.
From S2P Require Import Slash.
From S2P Require Import Interfaces.
From S2P Require Import Isupport.
From S2P Require Import Wire.
From S2P Require Import Device.
From S2P Require Import Manage.
From S2P Require Import Files.
From S2P Require Import History.
From S2P Require Import State.
From S2P Require Import Account.
From S2P Require Import Versions.
From S2P Require Import IdentityRoutes.
From S2P Require Import DeviceRoutes.
From S2P Require Import Refusal.
From S2P Require Import Pacing.
From S2P Require Import Pairing.
From S2P Require Import PairingFlow.
From S2P Require Import PairingGrant.
From S2P Require Import SendDoor.
From S2P Require Import Effects.
From S2P Require Import Client.
From S2P Require Import Provision.
From S2P Require Import Revoke.
From S2P Require Import PairingDrive.
From S2P Require Import EngineTypes.
From S2P Require Import Engine.
From S2P Require Import EngineReceive.
From S2P Require Import EngineSend.
From S2P Require Import EngineCopies.
From S2P Require Import E2eView.
From S2P Require Import Runtime.
From S2P Require Import Session.
From S2P Require Import SessionViews.
From S2P Require Import SessionEngines.
From S2P Require Import SessionInbox.
From S2P Require Import SessionPairing.
From S2P Require Import SessionManage.
From stdpp Require Import options.

#[local] Open Scope act_scope.

Section Consent.
Context {C : Crypto} {J : Json} {U : UrlLib} {T : StateText} {A : Aead} {O : Olm}.
Context {H : HistoryText} {X : EngineText} {S : OlmSessions} {K : OlmKeys}.
Context {EC : EciesChannel} {EK : EciesKeys} {W : PairingText} {P : PendingText}.
Context {PA : PairingAnswers} {Ch : Chrono}.
Context (opening : list event -> engine_env) (turns : nat).

Notation ensure_engine := (ensure_engine opening).

(** ** Requests of the server *)

Definition ensure_plain_query_for_request (network peer : string) : act unit :=
  let* w := get_worker in
  match find_query_window (WorkerState.query_windows w) network peer with
  | None => show (UiEvent.UserVerb network "open_query_window" peer)
  | Some _ => act_ret tt
  end.

(** The plain window of the peer is the open one. *)
Definition plain_window_open (w : WorkerState.t) (network peer : string) : bool :=
  WorkerState.current_query w &&
  match WorkerState.current_channel w with
  | Some (current_network, window) =>
      bool_decide (current_network = network) &&
      match route_for_window window with
      | SendRoute.Plain nick => CaseMapping.nick_eq (network_casemapping w network) nick peer
      | SendRoute.Encrypted _ => false
      end
  | None => false
  end.

Definition push_both : act unit := push_open_locked_state ;* push_open_query_consent.

(** The key request of an accepted request, and its dismissal. *)
Definition start_encrypted (client : GrappaClient.t) (token network : string)
    (request : E2eRequest.t) : act unit :=
  let peer := E2eRequest.peer request in
  let* held := held_of network in
  let* answer :=
    match held with
    | Some h => let* (h, answer) := with_held h (request_keys client token peer) in
                put_held network h ;* act_ret answer
    | None => act_ret (Err EngineError.NotReady)
    end in
  change_e2e (E2eRuntime.note_key_request network peer answer) ;*
  match answer with
  | Err error =>
      change_e2e (E2eRuntime.note_engine_error network peer error) ;*
      push_both
  | Ok _ =>
      let* w := get_worker in
      let* dismissed := call_client
        (GrappaClient.dismiss_e2e_request client token network (E2eRequest.id request)
           (WorkerState.server_protocol_version w) None) in
      match dismissed with
      | Ok _ => change_e2e (E2eRuntime.remove_request network (E2eRequest.id request))
      | Err _ => act_ret tt
      end ;*
      push_both
  end.

Definition activate_accepted_request (network : string) (request : E2eRequest.t) : act unit :=
  let id := E2eRequest.id request in
  let peer := E2eRequest.peer request in
  let* r := get_e2e in
  if bool_decide ((network, id) ∈ E2eRuntime.activated_requests r) then act_ret tt else
  let* opened := ensure_engine network in
  if negb opened then status "e2e-request-no-identity" else
  let* used := on_e2e (E2eRuntime.request_was_activated network id) in
  if used : bool then act_ret tt else
  let* added := on_e2e (E2eRuntime.add_locked network peer) in
  (if added : bool then refresh_network_groups else act_ret tt) ;*
  let* w := get_worker in
  (if plain_window_open w network peer
   then handle_select_locked_query network (locked_label peer) else act_ret tt) ;*
  match client_token w with
  | None => push_open_query_consent
  | Some (client, token) => start_encrypted client token network request
  end.

(** An accepted request is activated, any other one has a plain window. *)
Definition take_request (network : string) (request : E2eRequest.t) : act unit :=
  if decide (E2eRequest.state request = E2eRequestState.Accepted)
  then activate_accepted_request network request
  else ensure_plain_query_for_request network (E2eRequest.peer request).

Definition sync_e2e_requests (network : string) : act unit :=
  let* w := get_worker in
  match WorkerState.server_protocol_version w with
  | None => act_ret tt
  | Some protocol =>
      if (protocol <? CONSENT_MIN_PROTOCOL)%N
      then change_e2e (E2eRuntime.replace_requests network []) else
      match client_token w with
      | None => act_ret tt
      | Some (client, token) =>
          let* fetched := call_client
            (GrappaClient.fetch_e2e_requests client token network (Some protocol)) in
          match fetched with
          | Err _ => act_ret tt
          | Ok requests =>
              change_e2e (E2eRuntime.replace_requests network requests) ;*
              act_each (take_request network) requests ;*
              push_open_query_consent
          end
      end
  end.

Definition handle_e2e_request_push (payload : value) : act unit :=
  let* w := get_worker in
  if negb (consent_available (WorkerState.server_protocol_version w)) then act_ret tt else
  match json_get payload "network" ≫= as_str,
        (v ← json_get payload "request"; result_ok (E2eRequest.from_value v)) with
  | Some network, Some request =>
      change_e2e (E2eRuntime.put_request network request) ;*
      take_request network request ;*
      push_open_query_consent
  | _, _ => act_ret tt
  end.

Definition handle_e2e_request_gone_push (payload : value) : act unit :=
  match json_get payload "network" ≫= as_str, json_get payload "id" ≫= as_u64 with
  | Some network, Some id =>
      change_e2e (E2eRuntime.remove_request network id) ;*
      push_open_query_consent
  | _, _ => act_ret tt
  end.

(** ** Actions of the user *)

Definition consent_context (w : WorkerState.t) (network : string)
    : option (GrappaClient.t * string * N * E2eConsentLine.t) :=
  protocol ← WorkerState.server_protocol_version w;
  if (protocol <? CONSENT_MIN_PROTOCOL)%N then None else
  '(client, token) ← client_token w;
  h ← E2eRuntime.engines (WorkerState.e2e w) !! network;
  line ← result_ok (own_consent_line (Held.engine h) (Held.state h));
  Some (client, token, protocol, line).

Definition handle_e2e_rekey (network peer : string) : act unit :=
  let* w := get_worker in
  match client_token w with
  | None => status "e2e-not-ready"
  | Some (client, token) =>
      let* held := held_of network in
      let* answer :=
        match held with
        | Some h => let* (h, answer) := with_held h (request_keys client token peer) in
                    put_held network h ;* act_ret answer
        | None => act_ret (Err EngineError.NotReady)
        end in
      change_e2e (E2eRuntime.note_key_request network peer answer) ;*
      match answer with
      | Err error =>
          change_e2e (E2eRuntime.note_engine_error network peer error) ;*
          status "e2e-request-failed"
      | Ok _ => act_ret tt
      end ;*
      push_open_locked_state
  end.

Definition stored_request (r : E2eRuntime.t) (network : string) (id : option N)
    : option E2eRequest.t := id ← id; E2eRuntime.requests r !! (network, id).

Definition action_open (network peer : string) (id : option N) : act unit :=
  let* r := get_e2e in
  match stored_request r network id with
  | Some request =>
      if decide (E2eRequest.state request = E2eRequestState.Accepted) then
        change_e2e (fun r => E2eRuntime.set_activated_requests
          (E2eRuntime.activated_requests r ∖ {[ (network, E2eRequest.id request) ]}) r) ;*
        activate_accepted_request network request
      else handle_select_locked_query network (locked_label peer)
  | None => handle_select_locked_query network (locked_label peer)
  end.

(** A request may be made again when it expired or was refused. *)
Definition retryable (now : Z) (r : E2eRuntime.t) (network : string) (id : N) : bool :=
  match E2eRuntime.requests r !! (network, id) with
  | Some request => contains ["expired"; "refused"] (request_view_state now request)
  | None => false
  end.

Definition create_request (client : GrappaClient.t) (token network peer : string) (protocol : N)
    (line : E2eConsentLine.t) : act unit :=
  match E2eRequestCreate.new peer line with
  | Err _ => status "e2e-request-failed"
  | Ok request =>
      let* created := call_client
        (GrappaClient.create_e2e_request client token network (Some protocol) request) in
      match created with
      | Err _ => status "e2e-request-failed"
      | Ok request =>
          change_e2e (E2eRuntime.put_request network request) ;*
          ensure_plain_query_for_request network (E2eRequest.peer request) ;*
          if decide (E2eRequest.state request = E2eRequestState.Accepted)
          then activate_accepted_request network request
          else push_open_query_consent
      end
  end.

Definition action_start (retry : bool) (network peer : string) (id : option N) : act unit :=
  let* w := get_worker in
  if has_locked_entry w network peer
  then handle_select_locked_query network (locked_label peer) else
  match consent_context w network with
  | None => status "e2e-request-no-identity"
  | Some (client, token, protocol, line) =>
      let* now := now_millis in
      if retry && negb match id with
                       | Some id => retryable now (WorkerState.e2e w) network id
                       | None => false
                       end
      then act_ret tt
      else create_request client token network peer protocol line
  end.

Definition with_state_of (state : E2eRequestState.t) (r : E2eRequest.t) : E2eRequest.t :=
  E2eRequest.mk (E2eRequest.id r) (E2eRequest.peer r) state (E2eRequest.payload r)
    (E2eRequest.at_ r) (E2eRequest.expires_at r).

Definition action_accept (network : string) (id : N) : act unit :=
  let* w := get_worker in
  match consent_context w network with
  | None => status "e2e-request-no-identity"
  | Some (client, token, protocol, line) =>
      match E2eRuntime.requests (WorkerState.e2e w) !! (network, id) with
      | None => act_ret tt
      | Some request =>
          if negb (bool_decide (E2eRequest.state request = E2eRequestState.Incoming))
          then act_ret tt else
          let* accepted := call_client
            (GrappaClient.accept_e2e_request client token network id (Some protocol) line) in
          match accepted with
          | Err _ => status "e2e-request-failed"
          | Ok _ =>
              let request := with_state_of E2eRequestState.Accepted request in
              change_e2e (E2eRuntime.put_request network request) ;*
              activate_accepted_request network request
          end
      end
  end.

Definition action_refuse (network : string) (id : N) : act unit :=
  let* w := get_worker in
  match client_token w, WorkerState.server_protocol_version w with
  | Some (client, token), Some protocol =>
      if (protocol <? CONSENT_MIN_PROTOCOL)%N then act_ret tt else
      let* refused := call_client
        (GrappaClient.refuse_e2e_request client token network id (Some protocol)) in
      match refused with
      | Ok _ => change_e2e (E2eRuntime.remove_request network id) ;* push_open_query_consent
      | Err _ => act_ret tt
      end
  | _, _ => act_ret tt
  end.

(** The line that a cancel of an own request goes with: [None] when the device
    has no identity to make it. *)
Definition dismiss_line (w : WorkerState.t) (cancelling : bool) (network : string)
    (request : E2eRequest.t) : option (option E2eConsentLine.t) :=
  if cancelling && bool_decide (E2eRequest.state request = E2eRequestState.Outgoing)
  then h ← E2eRuntime.engines (WorkerState.e2e w) !! network;
       line ← result_ok (own_consent_line (Held.engine h) (Held.state h));
       Some (Some line)
  else Some None.

Definition action_dismiss (cancelling : bool) (network : string) (id : N) : act unit :=
  let* w := get_worker in
  match E2eRuntime.requests (WorkerState.e2e w) !! (network, id), client_token w,
        WorkerState.server_protocol_version w with
  | Some request, Some (client, token), Some protocol =>
      match dismiss_line w cancelling network request with
      | None => status "e2e-request-no-identity"
      | Some line =>
          let* dismissed := call_client
            (GrappaClient.dismiss_e2e_request client token network id (Some protocol) line) in
          match dismissed with
          | Ok _ => change_e2e (E2eRuntime.remove_request network id) ;* push_open_query_consent
          | Err _ => status "e2e-request-failed"
          end
      end
  | _, _, _ => act_ret tt
  end.

Definition CONSENT_ACTIONS : list string :=
  ["start"; "retry"; "accept"; "refuse"; "cancel"; "dismiss"].

(** Another request of the peer is the newest one: the click was late. *)
Definition other_request (w : WorkerState.t) (network peer : string) (id : option N) : bool :=
  match E2eRuntime.request_for_peer (WorkerState.e2e w) network peer
          (network_casemapping w network) with
  | Some request => negb (bool_decide (E2eRequest.id request = default 0%N id))
  | None => false
  end.

Definition handle_e2e_request_action (action network peer request_id : string) : act unit :=
  let* w := get_worker in
  if contains CONSENT_ACTIONS action
     && negb (consent_available (WorkerState.server_protocol_version w))
  then status "e2e-request-unsupported" else
  let id := id ← parse_unsigned U64_MAX request_id; if (0 <? id)%N then Some id else None in
  if negb (contains ["start"; "open"; "rekey"] action) && bool_decide (id = None) then act_ret tt
  else if negb (contains ["rekey"; "open"] action) && other_request w network peer id
  then act_ret tt
  else if decide (action = "open") then action_open network peer id
  else if decide (action = "rekey") then handle_e2e_rekey network peer
  else if decide (action = "start") then action_start false network peer id
  else match id with
  | None => act_ret tt
  | Some id =>
      if decide (action = "retry") then action_start true network peer (Some id)
      else if decide (action = "accept") then action_accept network id
      else if decide (action = "refuse") then action_refuse network id
      else if decide (action = "cancel") then action_dismiss true network id
      else if decide (action = "dismiss") then action_dismiss false network id
      else act_ret tt
  end.

(** ** The connect of a session *)

Definition start_network (network : string) : act unit :=
  provision_network opening network ;*
  let* opened := ensure_engine network in
  let* r := get_e2e in
  (if opened : bool then
     resume_pending_manage network ;*
     drain_network turns network
   else if bool_decide (network ∈ E2eRuntime.forgotten r)
   then resume_pending_manage network
   else act_ret tt) ;*
  sync_e2e_requests network.

Definition start_e2e_engines : act unit :=
  retire_expired_offer ;*
  let* w := get_worker in
  act_each start_network (merge_sort String.le (known_networks w)) ;*
  close_stale_pairings ;*
  pump_pairing opening ;*
  refresh_network_groups.
End Consent.
