(* ===== verification/SessionFrames.v ===== *)
(** * The frames and the commands of a session (crates/cordiale-ui/src/frames.rs, main.rs)

    The kinds of the pushed events (crates/cordiale-core/src/wire_event.rs), and
    what the worker does with a frame of the server and with a command of the
    interface, as far as end-to-end encryption is concerned: the dispatch by
    the kind of the event, the ISUPPORT snapshot, the drop of a send, the
    timer, the connect and the end of a session. *)

From S2P Require Import Prelude.
From S2P Require Import RustStr.
From S2P Require Import Interfaces.
From S2P Require Import Isupport.
From S2P Require Import Wire.
From S2P Require Import Device.
From S2P Require Import Manage.
From S2P Require Import Files.
From S2P Require Import History.
From S2P Require Import State.
From S2P Require Import Versions.
From S2P Require Import DeviceRoutes.
From S2P Require Import Pacing.
From S2P Require Import Pairing.
From S2P Require Import PairingFlow.
From S2P Require Import PairingGrant.
From S2P Require Import Refusal.
From S2P Require Import IdentityRoutes.
From S2P Require Import Account.
From S2P Require Import SendDoor.
From S2P Require Import Effects.
From S2P Require Import Client.
From S2P Require Import Provision.
From S2P Require Import Revoke.
From S2P Require Import PairingDrive.
From S2P Require Import EngineTypes.
From S2P Require Import Engine.
From S2P Require Import EngineReceive.
From S2P Require Import EngineSend.
From S2P Require Import EngineCopies.
From S2P Require Import Slash.
From S2P Require Import E2eView.
From S2P Require Import Runtime.
From S2P Require Import Session.
From S2P Require Import SessionViews.
From S2P Require Import SessionEngines.
From S2P Require Import SessionInbox.
From S2P Require Import SessionPairing.
From S2P Require Import SessionManage.
From S2P Require Import SessionConsent.
From stdpp Require Import options.

Inductive EventCarrier := CarrierUser | CarrierChannel | CarrierRequester.

#[global] Instance EventCarrier_eq_dec : EqDecision EventCarrier.
Proof. solve_decision. Defined.

Module ClientEventKind.
Inductive t :=
| ArchiveChanged | ArchivePurged | AutoAwayDebounceChanged | AutoAwayReasonChanged
| AwayConfirmed | AwayNickSuffixChanged | BanlistBundle | BundleHash | ChannelCreated
| ChannelModesChanged | ChannelsChanged | ConnectionProgress | ConnectionStateChanged | DccOffer
| DccOfferResolved | DirectoryComplete | DirectoryFailed | DirectoryProgress | E2eIncoming
| E2eIncomingLost | E2eMessage | E2ePairingClosed | E2ePairingMessage | E2eRequest
| E2eRequestGone | E2eSendDropped | InviteAck | IsupportChanged | Joined | JoinFailed | Kicked
| LinksBundle | LusersBundle | MembersSeeded | MentionsBundle | Message | NamesReply | NoSuchNick
| NetworkAttached | NetworkDetached | NotifyList | OwnNickChanged | PeerAway | PresenceChanged
| PresenceError | PresenceSnapshot | QueryWindowsList | QuitPartReasonChanged | ReadCursorSet
| RecoverProgress | RecoverResult | ServerReply | ServerSettingsChanged | SessionIdentityChanged
| SupportedUmodesChanged | TopicChanged | UmodeChanged | WebSessionSevered | WhoReply
| WhoisAvatarReady | WhoisBundle | WhowasBundle | WindowCounts | WindowInviteDeclined
| WindowInvited | WindowPending.

#[global] Instance eq_dec : EqDecision t.
Proof. solve_decision. Defined.

Definition as_wire_name (kind : t) : string :=
  match kind with
  | ArchiveChanged => "archive_changed"
  | ArchivePurged => "archive_purged"
  | AutoAwayDebounceChanged => "auto_away_debounce_changed"
  | AutoAwayReasonChanged => "auto_away_reason_changed"
  | AwayConfirmed => "away_confirmed"
  | AwayNickSuffixChanged => "away_nick_suffix_changed"
  | BanlistBundle => "banlist_bundle"
  | BundleHash => "bundle_hash"
  | ChannelCreated => "channel_created"
  | ChannelModesChanged => "channel_modes_changed"
  | ChannelsChanged => "channels_changed"
  | ConnectionProgress => "connection_progress"
  | ConnectionStateChanged => "connection_state_changed"
  | DccOffer => "dcc_offer"
  | DccOfferResolved => "dcc_offer_resolved"
  | DirectoryComplete => "directory_complete"
  | DirectoryFailed => "directory_failed"
  | DirectoryProgress => "directory_progress"
  | E2eIncoming => "e2e_incoming"
  | E2eIncomingLost => "e2e_incoming_lost"
  | E2eMessage => "e2e_message"
  | E2ePairingClosed => "e2e_pairing_closed"
  | E2ePairingMessage => "e2e_pairing_message"
  | E2eRequest => "e2e_request"
  | E2eRequestGone => "e2e_request_gone"
  | E2eSendDropped => "e2e_send_dropped"
  | InviteAck => "invite_ack"
  | IsupportChanged => "isupport_changed"
  | Joined => "joined"
  | JoinFailed => "join_failed"
  | Kicked => "kicked"
  | LinksBundle => "links_bundle"
  | LusersBundle => "lusers_bundle"
  | MembersSeeded => "members_seeded"
  | MentionsBundle => "mentions_bundle"
  | Message => "message"
  | NamesReply => "names_reply"
  | NoSuchNick => "no_such_nick"
  | NetworkAttached => "network_attached"
  | NetworkDetached => "network_detached"
  | NotifyList => "notify_list"
  | OwnNickChanged => "own_nick_changed"
  | PeerAway => "peer_away"
  | PresenceChanged => "presence_changed"
  | PresenceError => "presence_error"
  | PresenceSnapshot => "presence_snapshot"
  | QueryWindowsList => "query_windows_list"
  | QuitPartReasonChanged => "quit_part_reason_changed"
  | ReadCursorSet => "read_cursor_set"
  | RecoverProgress => "recover_progress"
  | RecoverResult => "recover_result"
  | ServerReply => "server_reply"
  | ServerSettingsChanged => "server_settings_changed"
  | SessionIdentityChanged => "session_identity_changed"
  | SupportedUmodesChanged => "supported_umodes_changed"
  | TopicChanged => "topic_changed"
  | UmodeChanged => "umode_changed"
  | WebSessionSevered => "web_session_severed"
  | WhoReply => "who_reply"
  | WhoisAvatarReady => "whois_avatar_ready"
  | WhoisBundle => "whois_bundle"
  | WhowasBundle => "whowas_bundle"
  | WindowCounts => "window_counts"
  | WindowInviteDeclined => "window_invite_declined"
  | WindowInvited => "window_invited"
  | WindowPending => "window_pending"
  end.

(** The names of the source in its order, each with its kind. *)
Definition NAMES : list (string * t) := [
  ("archive_changed", ArchiveChanged);
  ("archive_purged", ArchivePurged);
  ("auto_away_debounce_changed", AutoAwayDebounceChanged);
  ("auto_away_reason_changed", AutoAwayReasonChanged);
  ("away_confirmed", AwayConfirmed);
  ("away_nick_suffix_changed", AwayNickSuffixChanged);
  ("banlist_bundle", BanlistBundle);
  ("bundle_hash", BundleHash);
  ("channel_created", ChannelCreated);
  ("channel_modes_changed", ChannelModesChanged);
  ("channels_changed", ChannelsChanged);
  ("connection_progress", ConnectionProgress);
  ("connection_state_changed", ConnectionStateChanged);
  ("dcc_offer", DccOffer);
  ("dcc_offer_resolved", DccOfferResolved);
  ("directory_complete", DirectoryComplete);
  ("directory_failed", DirectoryFailed);
  ("directory_progress", DirectoryProgress);
  ("e2e_incoming", E2eIncoming);
  ("e2e_incoming_lost", E2eIncomingLost);
  ("e2e_message", E2eMessage);
  ("e2e_pairing_closed", E2ePairingClosed);
  ("e2e_pairing_message", E2ePairingMessage);
  ("e2e_request", E2eRequest);
  ("e2e_request_gone", E2eRequestGone);
  ("e2e_send_dropped", E2eSendDropped);
  ("invite_ack", InviteAck);
  ("isupport_changed", IsupportChanged);
  ("joined", Joined);
  ("join_failed", JoinFailed);
  ("kicked", Kicked);
  ("links_bundle", LinksBundle);
  ("lusers_bundle", LusersBundle);
  ("members_seeded", MembersSeeded);
  ("mentions_bundle", MentionsBundle);
  ("message", Message);
  ("names_reply", NamesReply);
  ("no_such_nick", NoSuchNick);
  ("network_attached", NetworkAttached);
  ("network_detached", NetworkDetached);
  ("notify_list", NotifyList);
  ("own_nick_changed", OwnNickChanged);
  ("peer_away", PeerAway);
  ("presence_changed", PresenceChanged);
  ("presence_error", PresenceError);
  ("presence_snapshot", PresenceSnapshot);
  ("query_windows_list", QueryWindowsList);
  ("quit_part_reason_changed", QuitPartReasonChanged);
  ("read_cursor_set", ReadCursorSet);
  ("recover_progress", RecoverProgress);
  ("recover_result", RecoverResult);
  ("server_reply", ServerReply);
  ("server_settings_changed", ServerSettingsChanged);
  ("session_identity_changed", SessionIdentityChanged);
  ("supported_umodes_changed", SupportedUmodesChanged);
  ("topic_changed", TopicChanged);
  ("umode_changed", UmodeChanged);
  ("web_session_severed", WebSessionSevered);
  ("who_reply", WhoReply);
  ("whois_avatar_ready", WhoisAvatarReady);
  ("whois_bundle", WhoisBundle);
  ("whowas_bundle", WhowasBundle);
  ("window_counts", WindowCounts);
  ("window_invite_declined", WindowInviteDeclined);
  ("window_invited", WindowInvited);
  ("window_pending", WindowPending)
].

Definition from_wire_name (name : string) : option t :=
  snd ∘ snd <$> list_find (fun row => row.1 = name) NAMES.

Definition from_payload `{J : Json} (payload : value) : option t :=
  v ← json_get payload "kind"; name ← as_str v; from_wire_name name.

Definition carrier (kind : t) : EventCarrier :=
  match kind with
  | BanlistBundle | LinksBundle | NamesReply | ServerReply | WhoReply | WhoisBundle
  | WhowasBundle => CarrierRequester
  | ChannelCreated | ChannelModesChanged | MembersSeeded | Message | ReadCursorSet
  | TopicChanged | WindowCounts => CarrierChannel
  | _ => CarrierUser
  end.

(** ** The table *)

Lemma from_as kind : from_wire_name (as_wire_name kind) = Some kind.
Proof. by destruct kind. Qed.

Lemma as_from name kind : from_wire_name name = Some kind -> as_wire_name kind = name.
Proof.
  unfold from_wire_name. intros H. apply fmap_Some in H as ([i row] & Hrow & ->).
  apply list_find_Some in Hrow as (Hi & <- & _).
  apply list_elem_of_lookup_2 in Hi.
  assert (Forall (fun row => as_wire_name row.2 = row.1) NAMES) as Hall by repeat constructor.
  rewrite Forall_forall in Hall. by apply Hall.
Qed.

(** The name of no kind: a pushed pairing offer. *)
Lemma offer_kind_unknown : from_wire_name "e2e_pairing_offered" = None.
Proof. by vm_compute. Qed.
End ClientEventKind.

#[local] Open Scope act_scope.

(** A frame of the socket, without its references (phoenix.rs). *)
Module PhoenixMessage.
Record t `{J : Json} := mk { topic : string; event : string; payload : value }.
End PhoenixMessage.

(** admin.rs *)
Definition ADMIN_EVENTS_TOPIC : string := "grappa:admin:events".

(** A network map with two slugs of one id, or with an id that is none, is
    refused. *)
Definition network_slugs_by_id (network_ids : gmap string Z) : option (gmap Z string) :=
  foldl (fun slugs row =>
    slugs ← slugs;
    let '(slug, id) := row in
    if (id <=? 0)%Z then None else
    match slugs !! id with
    | Some previous => if decide (previous = slug) then Some (<[id := slug]> slugs) else None
    | None => Some (<[id := slug]> slugs)
    end) (Some ∅) (map_to_list network_ids).

Section Frames.
Context {C : Crypto} {J : Json} {U : UrlLib} {T : StateText} {A : Aead} {O : Olm}.
Context {H : HistoryText} {X : EngineText} {S : OlmSessions} {K : OlmKeys}.
Context {EC : EciesChannel} {EK : EciesKeys} {W : PairingText} {P : PendingText}.
Context {PA : PairingAnswers} {Ch : Chrono}.
Context (opening : list event -> engine_env) (turns : nat).

(** ** Frames *)

Definition handle_isupport_changed (carrier_topic : string) (payload : value) : act unit :=
  let* w := get_worker in
  match WorkerState.identifier w with
  | None => act_ret tt
  | Some user =>
      if negb (bool_decide (carrier_topic = "grappa:user:" +:+ user)) then act_ret tt else
      match parse_isupport_changed payload, network_slugs_by_id (WorkerState.network_ids w) with
      | Some event, Some slugs =>
          match slugs !! network_id event with
          | None => act_ret tt
          | Some network =>
              let isupport := state event in
              change_worker (fun w => WorkerState.set_isupport
                (<[network := isupport]> (WorkerState.isupport_by_network w)) w) ;*
              let* held := held_of network in
              match held with
              | Some h => put_held network (Held.mk (Held.state h)
                                              (with_isupport (Some isupport) (Held.engine h)))
              | None => act_ret tt
              end
          end
      | _, _ => act_ret tt
      end
  end.

(** The local status of a send that the server dropped. *)
Definition handle_send_dropped (payload : value) : act unit :=
  change_worker (fun w => WorkerState.set_e2e_sends
    (SendBook.apply_dropped_event (WorkerState.e2e_sends w) payload).1 w) ;*
  match json_get payload "network" ≫= as_str with
  | None => act_ret tt
  | Some network =>
      let* held := held_of network in
      match held with
      | None => act_ret tt
      | Some h =>
          let* (h, dropped) := with_held_sure h (apply_send_dropped payload) in
          put_held network h ;*
          match dropped with Some _ => status "e2e-send-failed" | None => act_ret tt end
      end
  end.

(** The list of members of an open channel is drawn again. *)
Definition push_members_update : act unit :=
  let* w := get_worker in
  match WorkerState.current_channel w, WorkerState.current_query w with
  | Some key, false => show (UiEvent.MembersUpdate key)
  | _, _ => act_ret tt
  end.

(** The branches of [handle_frame] for the kinds that encryption uses. The
    other kinds go to other handlers. *)
Definition handle_kind (topic payload_kind : string) (payload : value) : act unit :=
  if decide (payload_kind = "isupport_changed") then
    handle_isupport_changed topic payload ;* push_members_update
  else if decide (payload_kind = "e2e_message") then handle_e2e_message opening payload
  else if decide (payload_kind = "e2e_incoming") then handle_e2e_incoming payload
  else if decide (payload_kind = "e2e_incoming_lost") then handle_e2e_incoming_lost payload
  else if decide (payload_kind = "e2e_request") then handle_e2e_request_push opening payload
  else if decide (payload_kind = "e2e_request_gone") then handle_e2e_request_gone_push payload
  else if decide (payload_kind = "no_such_nick") then handle_no_such_nick_push payload
  else if decide (payload_kind = "e2e_pairing_offered") then
    handle_e2e_pairing_offer topic payload
  else if bool_decide (payload_kind = "e2e_pairing_message")
       || bool_decide (payload_kind = "e2e_pairing_closed") then
    handle_e2e_pairing opening payload
  else if decide (payload_kind = "e2e_send_dropped") then handle_send_dropped payload
  else show (UiEvent.OtherFrame topic payload_kind).

(** A frame. A reply to a command and a frame of the administration go to other
    handlers, and a frame of an unknown kind is dropped. *)
Definition handle_frame (frame : PhoenixMessage.t) : act unit :=
  let topic := PhoenixMessage.topic frame in
  let payload := PhoenixMessage.payload frame in
  if bool_decide (topic = ADMIN_EVENTS_TOPIC) || bool_decide (PhoenixMessage.event frame = "phx_reply")
  then show (UiEvent.OtherFrame topic (PhoenixMessage.event frame)) else
  match ClientEventKind.from_payload payload with
  | None => act_ret tt
  | Some event_kind => handle_kind topic (ClientEventKind.as_wire_name event_kind) payload
  end.

(** ** The worker *)

(** The events of a session, the timer and the commands that encryption has a
    part in (main.rs). *)
Inductive worker_event :=
| Frame (frame : PhoenixMessage.t)
| Connected (protocol_version : option N)
| Ended
| SignedOut
| E2eTick
| SendLocked (network nick body : string)
| SendLockedAction (network nick words : string)
| E2ePair (network : string) (action : E2ePairAction.t)
| E2eManage (network : string) (action : E2eManageAction.t)
| SelectLocked (network label : string)
| CloseQuery (network label : string)
| ToggleCiphertextView (network label : string)
| E2eSas (step : SasStep.t)
| E2ePairOffer (accept : bool)
| E2ePeerKey (step : PeerKeyStep.t) (network nick key : string)
| E2eRequestAction (action network peer request_id : string)
| AdminE2eIdentity (network session : string).

(** A connect keeps the protocol version that it does not bring. *)
Definition handle_connected (protocol_version : option N) : act unit :=
  match protocol_version with
  | Some _ => change_worker (WorkerState.set_protocol_version protocol_version)
  | None => act_ret tt
  end ;*
  status "signed-in" ;*
  start_e2e_engines opening turns.

Definition handle_worker_event (e : worker_event) : act unit :=
  match e with
  | Frame frame => handle_frame frame
  | Connected protocol_version => handle_connected protocol_version
  | Ended => end_e2e_sessions
  | SignedOut => change_e2e (fun _ => E2eRuntime.new)
  | E2eTick => tick_e2e_engines ;* tick_pairing opening
  | SendLocked network nick body => handle_send_locked network nick body
  | SendLockedAction network nick words => handle_send_locked_action network nick words
  | E2ePair network action => run_e2e_pair opening network action
  | E2eManage network action => run_e2e_manage opening network action
  | SelectLocked network label => handle_select_locked_query network label
  | CloseQuery network label => let* _ := close_locked_query network label in act_ret tt
  | ToggleCiphertextView network label =>
      let* _ := toggle_ciphertext_view network label in act_ret tt
  | E2eSas step => handle_e2e_sas step
  | E2ePairOffer accept => answer_pairing_offer opening accept
  | E2ePeerKey step network nick key => handle_e2e_peer_key step network nick key
  | E2eRequestAction action network peer request_id =>
      handle_e2e_request_action opening action network peer request_id
  | AdminE2eIdentity network session => show_e2e_identity opening network session
  end.

(** The worker takes one event after the other. *)
Definition run_worker (events : list worker_event) : act unit := act_each handle_worker_event events.
End Frames.
