(* ===== verification/Compose.v ===== *)
(** * The compose line (crates/cordiale-ui/src/main.rs and slash.rs)

    What a line of the compose field becomes: a text of a locked window for
    the engine, a command, or a plain message; and the messages that a command
    posts as plain text. Then the theorems: what a line of a locked window may
    become. *)

From S2P Require Import Prelude.
From S2P Require Import RustStr.
From S2P Require Import Interfaces.
From S2P Require Import Isupport.
From S2P Require Import Wire.
From S2P Require Import Device.
From S2P Require Import Manage.
From S2P Require Import Files.
From S2P Require Import History.
From S2P Require Import State.
From S2P Require Import Versions.
From S2P Require Import DeviceRoutes.
From S2P Require Import Pacing.
From S2P Require Import Pairing.
From S2P Require Import PairingFlow.
From S2P Require Import PairingGrant.
From S2P Require Import Refusal.
From S2P Require Import IdentityRoutes.
From S2P Require Import Account.
From S2P Require Import SendDoor.
From S2P Require Import Effects.
From S2P Require Import Client.
From S2P Require Import Provision.
From S2P Require Import Revoke.
From S2P Require Import PairingDrive.
From S2P Require Import EngineTypes.
From S2P Require Import Engine.
From S2P Require Import EngineReceive.
From S2P Require Import EngineSend.
From S2P Require Import EngineCopies.
From S2P Require Import Slash.
From S2P Require Import E2eView.
From S2P Require Import Runtime.
From S2P Require Import Session.
From S2P Require Import SessionViews.
From S2P Require Import SessionEngines.
From S2P Require Import SessionInbox.
From S2P Require Import SessionPairing.
From stdpp Require Import options.

#[local] Open Scope act_scope.

(** [SERVER_WINDOW_NAME] (main.rs): the window of the server messages. *)
Definition SERVER_WINDOW_NAME : string := "$server".

(** ** Input of a locked window *)

Module LockedInput.
Inductive t := Text (text : string) | Action (words : string) | NowPlaying | Command | Reject.

#[global] Instance eq_dec : EqDecision t.
Proof. solve_decision. Defined.
End LockedInput.

Definition is_slash_line (body : string) : bool := starts_with "/" (trim_start body).

Definition classify_locked_input (body : string) : LockedInput.t :=
  if negb (is_slash_line body) then LockedInput.Text body else
  match parse body with
  | Some (SlashCommand.Say text) => LockedInput.Text text
  | Some (SlashCommand.Action text) => LockedInput.Action text
  | Some SlashCommand.NowPlaying => LockedInput.NowPlaying
  | Some _ => LockedInput.Command
  | None => LockedInput.Reject
  end.

Definition locked_ctcp_action (body peer : string) (casemapping : CaseMapping.t) : option string :=
  match parse body with
  | Some (SlashCommand.Ctcp target verb args) =>
      if bool_decide (verb = "ACTION") && CaseMapping.nick_eq casemapping target peer
      then Some (default "" args) else None
  | _ => None
  end.

(** ** Commands that the interface answers *)

Definition parse_list_command (body : string) : option string :=
  let trimmed := trim body in
  let '(command, rest) := default (trimmed, "") (split_once_white trimmed) in
  if eq_ignore_case command "/list" then Some (trim rest) else None.

(** A field of the payload of a push: a text, a constant or [null]. *)
Notation fields := (list (string * option string)).

Module ReplyCommand.
Inductive t := Request (verb : string) (payload : fields) | Usage.
End ReplyCommand.

Definition looks_like_channel (name : string) : bool :=
  match name with
  | String c _ => one_of ["#"; "&"; "!"]%char c
  | "" => false
  end.

Definition banlist_command (args : list string) (current_target : string) : ReplyCommand.t :=
  let '(channel, rest) :=
    match args with
    | first :: rest => if looks_like_channel first then (first, rest) else (current_target, args)
    | [] => (current_target, args)
    end in
  if negb (looks_like_channel channel) then ReplyCommand.Usage else
  let mode := match rest with mode :: _ => trim_start_matches "+" mode | [] => "" end in
  ReplyCommand.Request "banlist"
    (("channel", Some channel) :: (if is_empty mode then [] else [("mode", Some mode)])).

Definition parse_reply_command (body current_target : string) : option ReplyCommand.t :=
  match split_whitespace body with
  | [] => None
  | word :: args =>
      let command := str_lower word in
      let with_nick (k : string -> ReplyCommand.t) : ReplyCommand.t :=
        match args with nick :: _ => k nick | [] => ReplyCommand.Usage end in
      if decide (command = "/who") then
        let target := match args with target :: _ => target | [] => current_target end in
        Some (if is_empty target then ReplyCommand.Usage
              else ReplyCommand.Request "who" [("channel", Some target)])
      else if decide (command = "/info") then Some (ReplyCommand.Request "info" [])
      else if decide (command = "/version") then Some (ReplyCommand.Request "version" [])
      else if decide (command = "/whois") then
        Some (with_nick (fun nick => ReplyCommand.Request "whois"
                [("nick", Some nick); ("server", args !! 1); ("source", Some "user")]))
      else if decide (command = "/whowas") then
        Some (with_nick (fun nick => ReplyCommand.Request "whowas" [("nick", Some nick)]))
      else if decide (command = "/banlist") then Some (banlist_command args current_target)
      else if decide (command = "/motd") then
        Some (ReplyCommand.Request "motd"
                match args with target :: _ => [("target", Some target)] | [] => [] end)
      else if decide (command = "/admin") then
        Some (ReplyCommand.Request "admin"
                match args with target :: _ => [("target", Some target)] | [] => [] end)
      else if decide (command = "/invite") then
        Some (with_nick (fun nick =>
          let channel := default current_target (args !! 1) in
          if negb (looks_like_channel channel) then ReplyCommand.Usage
          else ReplyCommand.Request "invite" [("channel", Some channel); ("nick", Some nick)]))
      else if decide (command = "/lusers") then
        Some (ReplyCommand.Request "lusers"
                (omap (fun kv => (fun v => (kv.1, Some v)) <$> kv.2)
                   [("mask", args !! 0); ("server", args !! 1)]))
      else None
  end.

(** ** The messages of a command *)

Module SendMessageRequest.
Record t := mk {
  body : string;
  ctcp_target : option string;
  notice_target : option string;
  statusmsg_target : option string;
}.

#[global] Instance eq_dec : EqDecision t.
Proof. solve_decision. Defined.

Definition plain (body : string) : t := mk body None None None.
Definition ctcp (target verb : string) (args : option string) : t :=
  let body := match args with
              | Some args => String SOH (verb +:+ " " +:+ args +:+ String SOH "")
              | None => String SOH (verb +:+ String SOH "")
              end in
  mk body (Some target) None None.
Definition statusmsg (target body : string) : t := mk body None None (Some target).
Definition notice (target body : string) : t := mk body None (Some target) None.
End SendMessageRequest.

(** The longest leading run of prefix symbols over a channel. *)
Fixpoint peel_prefixes (chars prefix_symbols : list string) : option string :=
  match chars with
  | [] => None
  | symbol :: rest =>
      if negb (contains prefix_symbols symbol) then None else
      let channel := str_concat rest in
      match peel_prefixes rest prefix_symbols with
      | Some longer => Some longer
      | None => if is_channel channel then Some channel else None
      end
  end.

Definition peel_statusmsg_target (target : string) (prefix_symbols : list string)
    : option string := peel_prefixes (utf8_chars target) prefix_symbols.

(** The posts of plain text of a command, each with the window that it is
    posted to. [channel] is the target of the open window, [joined] are the
    joined channels, [np] is the line of [/np] and [stamp] the time of a ping. *)
Definition slash_posts (prefix_symbols : list string) (channel : string) (joined : list string)
    (np : option string) (stamp : string) (command : command)
    : list (string * SendMessageRequest.t) :=
  let server_window := bool_decide (channel = SERVER_WINDOW_NAME) in
  match command with
  | SlashCommand.Say text =>
      if server_window then [] else [(channel, SendMessageRequest.plain text)]
  | SlashCommand.Action text =>
      if server_window then [] else [(channel, SendMessageRequest.plain (action_text text))]
  | SlashCommand.Msg target text =>
      match peel_statusmsg_target target prefix_symbols with
      | Some peeled => [(peeled, SendMessageRequest.statusmsg target text)]
      | None => [(target, SendMessageRequest.plain text)]
      end
  | SlashCommand.Notice target text => [(channel, SendMessageRequest.notice target text)]
  | SlashCommand.Ctcp target verb args =>
      if decide (verb = "ACTION")
      then [(target, SendMessageRequest.plain (action_text (default "" args)))]
      else [(channel, SendMessageRequest.ctcp target verb args)]
  | SlashCommand.Ping target => [(channel, SendMessageRequest.ctcp target "PING" (Some stamp))]
  | SlashCommand.NowPlaying =>
      match np with
      | Some line => [(channel, SendMessageRequest.plain (action_text line))]
      | None => []
      end
  | SlashCommand.FanOut action text =>
      let body := if action then action_text text else text in
      (fun target => (target, SendMessageRequest.plain body)) <$> joined
  | SlashCommand.ServiceConsole service => [(service, SendMessageRequest.plain "help")]
  | _ => []
  end.

(** ** The line *)

Module ComposeRoute.
(** What becomes of a line. *)
Inductive t :=
| Encrypted (network nick text : string)
| EncryptedAction (network nick words : string)
| Status (kind hint : string)
| Nothing
| Links (network : string)
| Recover (network : string)
| Mentions (network : string)
| Archive (network : string)
| Directory (network query : string)
| Reply (network : string) (command : ReplyCommand.t)
| Slash (network channel : string) (command : SlashCommand.t) (label : string)
| Plain (network target body : string).
End ComposeRoute.

Section Compose.
Context {C : Crypto} {J : Json} {U : UrlLib} {T : StateText} {A : Aead} {O : Olm}.
Context {H : HistoryText} {X : EngineText} {EC : EciesChannel} {Ch : Chrono}.
Implicit Types (w : WorkerState.t).

(** What the target of an alias means in the open window. *)
Definition alias_target w : option string :=
  match open_locked_window w with
  | Some (network, nick) => Some (query_send_target w network nick)
  | None =>
      '(network, channel) ← WorkerState.current_channel w;
      if WorkerState.current_query w then Some (query_send_target w network channel)
      else if decide (channel = SERVER_WINDOW_NAME) then None
      else Some channel
  end.

(** The commands of the interface, in the order of the tests. *)
Definition route_command (network channel body : string) : option ComposeRoute.t :=
  let trimmed := trim body in
  if decide (trimmed = "/links") then Some (ComposeRoute.Links network)
  else if decide (trimmed = "/recover") then Some (ComposeRoute.Recover network)
  else if eq_ignore_case trimmed "/mentions" then Some (ComposeRoute.Mentions network)
  else if eq_ignore_case trimmed "/archive" then Some (ComposeRoute.Archive network)
  else match parse_list_command body with
  | Some query => Some (ComposeRoute.Directory network query)
  | None =>
      match parse_reply_command body channel with
      | Some command => Some (ComposeRoute.Reply network command)
      | None =>
          match parse body with
          | Some command =>
              Some (ComposeRoute.Slash network channel command
                      (default "" (head (split_whitespace body))))
          | None => None
          end
      end
  end.

(** The part of a locked window: [None] goes on as a command. [np] is the line
    of [/np], or the status that tells why there is none. *)
Definition route_locked w (network nick body : string) (np : result string (string * string))
    : option ComposeRoute.t :=
  match locked_ctcp_action body nick (network_casemapping w network) with
  | Some words => Some (ComposeRoute.EncryptedAction network nick words)
  | None =>
      match classify_locked_input body with
      | LockedInput.Text text => Some (ComposeRoute.Encrypted network nick text)
      | LockedInput.Action words => Some (ComposeRoute.EncryptedAction network nick words)
      | LockedInput.NowPlaying =>
          match np with
          | Ok line => Some (ComposeRoute.EncryptedAction network nick line)
          | Err (kind, station) => Some (ComposeRoute.Status kind station)
          end
      | LockedInput.Reject => Some (ComposeRoute.Status "e2e-text-only" "")
      | LockedInput.Command => None
      end
  end.

(** The line after the expansion of its alias. *)
Definition route_line w (body : string) (np : result string (string * string)) : ComposeRoute.t :=
  let locked := open_locked_window w in
  match WorkerState.client w, WorkerState.token w, WorkerState.current_channel w with
  | Some _, Some _, Some (network, window) =>
      let channel := match locked with Some (_, nick) => nick | None => window end in
      match locked ≫= fun '(locked_network, nick) => route_locked w locked_network nick body np with
      | Some route => route
      | None =>
          if bool_decide (channel = SERVER_WINDOW_NAME) && negb (is_slash_line body)
          then ComposeRoute.Status "server-window-commands-only" "" else
          match route_command network channel body with
          | Some route => route
          | None =>
              match locked with
              | Some _ => ComposeRoute.Status "e2e-text-only" ""
              | None =>
                  ComposeRoute.Plain network
                    (if WorkerState.current_query w then query_send_target w network channel
                     else channel) body
              end
          end
      end
  | _, _, _ => ComposeRoute.Status "no-active-network" ""
  end.

(** [handle_send_message] up to the call of the handler of the route. *)
Definition route_message w (aliases : list (string * string))
    (np : result string (string * string)) (body : string) : ComposeRoute.t :=
  match open_locked_window w with
  | Some (network, nick) =>
      if negb (is_slash_line body) then ComposeRoute.Encrypted network nick body
      else match expand_aliases body aliases (alias_target w) with
           | Ok line => route_line w line np
           | Err (AliasError.TooDeep chain) => ComposeRoute.Status "alias-too-deep" chain
           | Err (AliasError.NoTarget alias) => ComposeRoute.Status "alias-no-target" alias
           end
  | None =>
      if WorkerState.current_query w && negb (WorkerState.current_query_ready w)
      then ComposeRoute.Nothing
      else if negb (is_slash_line body) then route_line w body np
      else match expand_aliases body aliases (alias_target w) with
           | Ok line => route_line w line np
           | Err (AliasError.TooDeep chain) => ComposeRoute.Status "alias-too-deep" chain
           | Err (AliasError.NoTarget alias) => ComposeRoute.Status "alias-no-target" alias
           end
  end.
End Compose.

(** ** White space *)

(** What [trim_start] leaves of a text, and what [trim] leaves of it. *)
Lemma skip_white_space_suffix chars : exists white, chars = white ++ skip_white_space chars.
Proof.
  induction chars as [|ch rest [white IH]]; [by exists []|]. simpl.
  destruct (is_whitespace ch); [|by exists []]. exists (ch :: white). simpl. by rewrite <-IH.
Qed.

Lemma trim_prefix s : exists rest, trim_start s = trim s +:+ rest.
Proof.
  unfold trim, trim_start. set (l := skip_white_space (utf8_chars s)).
  destruct (skip_white_space_suffix (rev l)) as [white Hw].
  exists (str_concat (rev white)). rewrite <-str_concat_app, <-rev_app_distr, <-Hw.
  by rewrite rev_involutive.
Qed.

Lemma trim_slash s rest : strip_prefix "/" (trim s) = Some rest -> is_slash_line s = true.
Proof.
  intros Hs. apply strip_prefix_Some in Hs. destruct (trim_prefix s) as [tail Ht].
  unfold is_slash_line. rewrite Ht, Hs, str_app_assoc. apply starts_with_app.
Qed.

Lemma utf8_chars_head a s : exists t cs, utf8_chars (String a s) = String a t :: cs.
Proof.
  simpl. destruct (utf8_chars s) as [|[|b t] cs]; [by eexists _, _..|].
  destruct (is_continuation b); by eexists _, _.
Qed.

Lemma slash_not_white t : is_whitespace (String "/" t) = false.
Proof.
  apply contains_false. unfold unicode_white_space. simpl. intros Hin.
  repeat (apply elem_of_cons in Hin as [Hin|Hin]; [discriminate Hin|]). by apply not_elem_of_nil in Hin.
Qed.

Lemma slash_line s : is_slash_line (String "/" s) = true.
Proof.
  unfold is_slash_line, trim_start. destruct (utf8_chars_head "/" s) as (t & cs & Hc).
  pose proof (utf8_chars_concat (String "/" s)) as Hs. rewrite Hc in Hs |- *. cbn [skip_white_space].
  rewrite slash_not_white, Hs. apply (starts_with_app "/" s).
Qed.

(** ** Aliases *)

(** A line of a command is a line of a command after its expansion. *)
Lemma expand_keeps_slash input aliases target line :
  is_slash_line input = true -> expand_aliases input aliases target = Ok line ->
  is_slash_line line = true.
Proof.
  intros Hi. unfold expand_aliases. destruct (strip_prefix "/" (trim input)); [|naive_solver].
  destruct (starts_with "/" _); [naive_solver|]. destruct (split_word _) as [verb rest].
  intros H. inv_result. destruct a as [[verb' rest'] any]. case_match; [naive_solver|].
  simplify_eq. case_match; apply slash_line.
Qed.

(** A chain of expansions ends after at most five of them. *)
Lemma expand_chain_depth aliases target more verb rest chain any chain_text :
  expand_chain aliases target more verb rest chain any = Err (AliasError.TooDeep chain_text) ->
  exists verbs, length verbs = more /\ chain_text = join CHAIN_ARROW (chain ++ verbs).
Proof.
  revert verb rest chain any. induction more as [|more IH]; intros verb rest chain any; simpl;
    (case_match; [done|]); (case_match; [|done]).
  - intros [= <-]. exists []. by rewrite app_nil_r.
  - case_match; [|done]. destruct (split_word _) as [v r]. intros Hdeep.
    apply IH in Hdeep as (verbs & <- & ->). exists (str_lower v :: verbs). by rewrite <-app_assoc.
Qed.

(** The verbs of the definition of aliases are never expanded. *)
Lemma expand_chain_fixed aliases target more verb rest chain any :
  str_lower verb = "alias" \/ str_lower verb = "unalias" ->
  expand_chain aliases target more verb rest chain any = Ok (verb, rest, any).
Proof. intros [H|H]; destruct more; simpl; rewrite H; done. Qed.

(** ** Commands *)

(** A line is a command exactly when it starts with a slash and names a verb. *)
Lemma parse_None input :
  parse input = None <->
  match strip_prefix "/" (trim input) with
  | None => True
  | Some rest => starts_with "/" rest = false /\ (split_word rest).1 = ""
  end.
Proof.
  unfold parse. destruct (strip_prefix "/" (trim input)) as [rest|]; [|done].
  destruct (starts_with "/" rest); [naive_solver|]. destruct (split_word rest) as [verb args]. simpl.
  destruct verb; naive_solver.
Qed.

Section Locked.
Context {C : Crypto} {J : Json} {U : UrlLib} {T : StateText} {A : Aead} {O : Olm}.
Context {H : HistoryText} {X : EngineText} {EC : EciesChannel} {Ch : Chrono}.
Implicit Types (w : WorkerState.t).

(** What a locked window of [nick] may make of a line. *)
Definition locked_route_ok w (network nick : string) (route : ComposeRoute.t) : Prop :=
  match route with
  | ComposeRoute.Encrypted n k _ | ComposeRoute.EncryptedAction n k _ => n = network /\ k = nick
  | ComposeRoute.Plain _ _ _ | ComposeRoute.Nothing => False
  | ComposeRoute.Slash n channel command _ =>
      n = network /\ channel = nick /\
      match command with
      | SlashCommand.Say _ | SlashCommand.Action _ | SlashCommand.NowPlaying => False
      | SlashCommand.Ctcp target verb _ =>
          verb = "ACTION" -> CaseMapping.nick_eq (network_casemapping w network) target nick = false
      | _ => True
      end
  | _ => True
  end.

Lemma route_locked_command w network nick body np :
  route_locked w network nick body np = None ->
  is_slash_line body = true /\
  forall command, parse body = Some command ->
    locked_route_ok w network nick (ComposeRoute.Slash network nick command "").
Proof.
  unfold route_locked. destruct (locked_ctcp_action _ _ _) eqn:Hctcp; [done|].
  unfold classify_locked_input. destruct (is_slash_line body); simpl; [|done].
  intros Hr. split; [done|]. intros command Hp. unfold locked_ctcp_action in Hctcp.
  rewrite Hp in Hr, Hctcp. split_and!; [done..|].
  destruct command; try done; try (by destruct np as [|[]]).
  intros ->. rewrite bool_decide_true in Hctcp by done. simpl in Hctcp.
  by destruct (CaseMapping.nick_eq _ _ _).
Qed.

Lemma route_locked_ok w network nick body np route :
  route_locked w network nick body np = Some route -> locked_route_ok w network nick route.
Proof. unfold route_locked, classify_locked_input. intros Hr. case_all; done. Qed.

Lemma route_line_locked w network nick line np :
  open_locked_window w = Some (network, nick) -> is_slash_line line = true ->
  locked_route_ok w network nick (route_line w line np).
Proof.
  intros Ho Hs. unfold route_line. rewrite Ho. simpl.
  destruct (WorkerState.client w); [|done]. destruct (WorkerState.token w); [|done].
  unfold open_locked_window in Ho.
  destruct (WorkerState.current_query w); [|done]. simpl in Ho.
  destruct (WorkerState.current_channel w) as [[current window]|]; [|done]. simpl in Ho.
  assert (current = network) as -> by (destruct (route_for_window window); naive_solver).
  destruct (route_locked w network nick line np) eqn:Hr; [by eapply route_locked_ok|].
  apply route_locked_command in Hr as [_ Hc]. rewrite Hs, andb_false_r.
  unfold route_command. repeat case_match; simplify_eq; try done.
  by apply Hc.
Qed.

(** What a command posts as plain text to the peer of the window. *)
Lemma locked_posts w network nick symbols joined np stamp command label where_ text :
  locked_route_ok w network nick (ComposeRoute.Slash network nick command label) ->
  (where_, SendMessageRequest.plain text) ∈ slash_posts symbols nick joined np stamp command ->
  CaseMapping.nick_eq (network_casemapping w network) where_ nick = true ->
  command = SlashCommand.Msg where_ text \/ where_ ∈ joined \/
  (command = SlashCommand.ServiceConsole where_ /\ text = "help").
Proof.
  intros (_ & _ & Hok) Hin Hpeer. unfold slash_posts in Hin. destruct command; try done.
  all: repeat case_match; try set_solver.
  apply list_elem_of_singleton in Hin as [= -> _]. by rewrite Hok in Hpeer.
Qed.

(** C3. Nothing typed in a locked window leaves as plain text by itself. A line
    that is no command becomes, as it is typed, an encrypted text for the peer of
    this window. A command becomes an encrypted text or action for this peer, a
    message of the status bar, or a command that names what it does: never a
    plain message, and never [//text], [/me] or [/np] or a CTCP ACTION to this
    peer, also after any expansion of aliases. The plain posts of such a command
    reach this peer only as a [/msg] that names it, as the help of a service, or
    through a list of joined targets that has it. *)
Theorem locked_line_sealed w network nick aliases np body :
  open_locked_window w = Some (network, nick) ->
  let route := route_message w aliases np body in
  (is_slash_line body = false -> route = ComposeRoute.Encrypted network nick body) /\
  locked_route_ok w network nick route /\
  forall n channel command label symbols joined line stamp where_ text,
    route = ComposeRoute.Slash n channel command label ->
    (where_, SendMessageRequest.plain text)
      ∈ slash_posts symbols channel joined line stamp command ->
    CaseMapping.nick_eq (network_casemapping w network) where_ nick = true ->
    command = SlashCommand.Msg where_ text \/ where_ ∈ joined \/
    (command = SlashCommand.ServiceConsole where_ /\ text = "help").
Proof.
  intros Ho route.
  assert ((is_slash_line body = false -> route = ComposeRoute.Encrypted network nick body) /\
          locked_route_ok w network nick route) as [Hplain Hok].
  { subst route. unfold route_message. rewrite Ho.
    destruct (is_slash_line body) eqn:Hs; simpl; (split; [done|]); [|done].
    destruct (expand_aliases _ _ _) as [line|[]] eqn:He; [|done..].
    apply route_line_locked; [done|]. by eapply expand_keeps_slash. }
  split_and!; [done..|]. intros n channel command label symbols joined line stamp where_ text Hr.
  rewrite Hr in Hok. destruct (id Hok) as (-> & -> & _). by eapply locked_posts.
Qed.
End Locked.
