(* ===== verification/RuntimeFacts.v ===== *)
(** * The state of the locked windows, the offers and the rows

    The pairing offers of a session, the rows of the messages on their way,
    the two windows of a peer and the ciphertext view. *)

From S2P Require Import Prelude.
From S2P Require Import RustStr.
From S2P Require Import Slash.
From S2P Require Import Interfaces.
From S2P Require Import Isupport.
From S2P Require Import Trust.
From S2P Require Import History.
From S2P Require Import HistoryFacts.
From S2P Require Import State.
From S2P Require Import Versions.
From S2P Require Import DeviceRoutes.
From S2P Require Import Pacing.
From S2P Require Import Pairing.
From S2P Require Import PairingFlow.
From S2P Require Import SendDoor.
From S2P Require Import Effects.
From S2P Require Import Client.
From S2P Require Import EngineTypes.
From S2P Require Import Engine.
From S2P Require Import E2eView.
From S2P Require Import Runtime.
From S2P Require Import Session.
From S2P Require Import SessionViews.
From stdpp Require Import options.

Section Offers.
Context {EC : EciesChannel}.
Implicit Types (r : E2eRuntime.t).

(** ** Pairing offers *)

(** What a session does with its offers. [Known] networks, the protocol and
    the time come with each step. *)
Inductive offer_op :=
| Admit (offer : PairingOffer.t) (known : list string) (protocol : option N) (now : Z)
| Take (known : list string) (now : Z)
| Expire (now : Z)
| CloseOf (id : string)
| DropOf (id : string)
| Decline.

(** An offer that the dialog shows, and one whose join data was taken. *)
Inductive offer_event :=
| Shown (offer : PairingOffer.t)
| Taken (candidates : list string) (code : string).

Definition offer_step (op : offer_op) r : E2eRuntime.t * list offer_event :=
  match op with
  | Admit offer known protocol now =>
      let '(r, decision) := E2eRuntime.admit_offer r offer known protocol now in
      (r, if decide (decision = OfferShow) then [Shown offer] else [])
  | Take known now =>
      let '(r, taken) := E2eRuntime.take_offer r known now in
      (r, match taken with Some (candidates, code) => [Taken candidates code] | None => [] end)
  | Expire now => ((E2eRuntime.expire_offer r now).1, [])
  | CloseOf id => ((E2eRuntime.close_offer_of r id).1, [])
  | DropOf id => ((E2eRuntime.drop_offer_of r id).1, [])
  | Decline => (E2eRuntime.set_offer None r, [])
  end.

Fixpoint offer_run (ops : list offer_op) r : E2eRuntime.t * list offer_event :=
  match ops with
  | [] => (r, [])
  | op :: ops =>
      let '(r, events) := offer_step op r in
      let '(r, more) := offer_run ops r in (r, events ++ more)
  end.

(** The offer of the last event, when it was shown and not taken. *)
Definition waiting (before : option PairingOffer.t) (events : list offer_event)
    : option PairingOffer.t :=
  foldl (fun w e => match e with Shown o => Some o | Taken _ _ => None end) before events.

(** Each taken code is the one of the offer that was shown last, and an offer
    that was shown is taken at most once. *)
Fixpoint taken_once (w : option PairingOffer.t) (events : list offer_event) : Prop :=
  match events with
  | [] => True
  | Shown o :: events => taken_once (Some o) events
  | Taken _ code :: events =>
      (exists o, w = Some o /\ code = PairingLink.code (PairingOffer.link o)) /\
      taken_once None events
  end.

Definition seen_ok r : Prop :=
  NoDup (E2eRuntime.seen_offers r) /\ (length (E2eRuntime.seen_offers r) <= SEEN_OFFERS_MAX)%nat.

Lemma remember_seen id r : seen_ok r -> seen_ok (E2eRuntime.remember_offer id r).
Proof.
  intros [Hd Hl]. unfold E2eRuntime.remember_offer.
  destruct (contains (E2eRuntime.seen_offers r) id) eqn:Hc; [done|]. unfold seen_ok. cbn.
  set (l := E2eRuntime.seen_offers r) in *.
  assert (id ∉ l) as Hid by (by apply contains_false).
  split.
  - apply (sublist_NoDup _ (l ++ [id])); [|apply sublist_drop].
    apply NoDup_app. split_and!; [done| |by repeat constructor; set_solver]. set_solver.
  - rewrite length_drop. lia.
Qed.

Lemma remember_offer_same id r :
  E2eRuntime.offer (E2eRuntime.remember_offer id r) = E2eRuntime.offer r.
Proof. unfold E2eRuntime.remember_offer. by destruct (contains _ _). Qed.

(** An offer is shown exactly when the server speaks its protocol, it is open
    for some time, it is new and of another device, a known network can take
    it, and no pairing runs. *)
Lemma admit_shows r offer known protocol now r' :
  E2eRuntime.admit_offer r offer known protocol now = (r', OfferShow) ->
  pairing_offer_available protocol = true /\ PairingOffer.is_current offer now = true /\
  PairingOffer.rendezvous_id offer ∉ E2eRuntime.seen_offers r /\
  E2eRuntime.is_own_rendezvous r (PairingOffer.rendezvous_id offer) = false /\
  E2eRuntime.eligible_networks r known <> [] /\ E2eRuntime.pairing r = None /\
  r' = E2eRuntime.set_offer (Some offer)
         (E2eRuntime.remember_offer (PairingOffer.rendezvous_id offer) r).
Proof.
  unfold E2eRuntime.admit_offer. intros Ha. repeat case_match; simplify_eq.
  split_and!; try done; try by apply negb_false_iff.
  - by apply contains_false.
  - by eapply bool_decide_eq_false_1.
  - destruct (E2eRuntime.pairing r); [|done]. by rewrite bool_decide_true in * by eauto.
Qed.

Lemma admit_same r offer known protocol now r' decision :
  E2eRuntime.admit_offer r offer known protocol now = (r', decision) ->
  decision <> OfferShow -> r' = r.
Proof. unfold E2eRuntime.admit_offer. intros Ha Hd. by repeat case_match; simplify_eq. Qed.

Lemma take_gives r known now r' candidates code :
  E2eRuntime.take_offer r known now = (r', Some (candidates, code)) ->
  exists o, E2eRuntime.offer r = Some o /\ code = PairingLink.code (PairingOffer.link o) /\
    candidates = E2eRuntime.eligible_networks r known.
Proof.
  unfold E2eRuntime.take_offer. intros Ht. destruct (E2eRuntime.offer r) as [o|]; [|done].
  repeat case_match; simplify_eq. eexists. split_and!; done.
Qed.

Lemma take_offer_clears r known now :
  E2eRuntime.offer (E2eRuntime.take_offer r known now).1 = None /\
  E2eRuntime.seen_offers (E2eRuntime.take_offer r known now).1 = E2eRuntime.seen_offers r.
Proof. unfold E2eRuntime.take_offer. by repeat case_match. Qed.

(** The offer of the state is the one that was shown last. *)
Definition last_shown (w : option PairingOffer.t) r : Prop :=
  forall o, E2eRuntime.offer r = Some o -> w = Some o.

Lemma offer_step_ok op r w r' events :
  offer_step op r = (r', events) -> seen_ok r -> last_shown w r ->
  seen_ok r' /\ taken_once w events /\ last_shown (waiting w events) r'.
Proof.
  intros Hs Hok Hw. unfold last_shown in *.
  destruct op as [offer known protocol now|known now|now|id|id|]; simpl in Hs.
  - destruct (E2eRuntime.admit_offer _ _ _ _ _) as [r1 decision] eqn:Ha.
    destruct (decide (decision = OfferShow)) as [->|Hd]; simplify_eq.
    + apply admit_shows in Ha as (_ & _ & _ & _ & _ & _ & ->).
      split_and!; [by apply (remember_seen (PairingOffer.rendezvous_id offer)) in Hok|done|].
      by intros o [= <-].
    + rewrite (admit_same _ _ _ _ _ _ _ Ha Hd). done.
  - destruct (E2eRuntime.take_offer _ _ _) as [r1 taken] eqn:Ht.
    pose proof (take_offer_clears r known now) as [Hno Hseen]. rewrite Ht in Hno, Hseen. cbn in *.
    destruct taken as [[candidates code]|]; simplify_eq.
    + apply take_gives in Ht as (o & Ho & -> & _). unfold seen_ok. rewrite Hseen.
      split_and!; [by apply Hok..| |by rewrite Hno]. cbn. split; [|done]. exists o. auto.
    + unfold seen_ok. rewrite Hseen, Hno. by split_and!; [apply Hok..| |].
  - injection Hs as <- <-. unfold E2eRuntime.expire_offer.
    destruct (E2eRuntime.offer r) as [o|] eqn:Ho; [destruct (negb _)|]; cbn; split_and!; try done;
      by rewrite Ho.
  - injection Hs as <- <-. unfold E2eRuntime.close_offer_of, E2eRuntime.drop_offer_of.
    pose proof (remember_seen id r Hok) as Hok'. pose proof (remember_offer_same id r) as Hsame.
    destruct (E2eRuntime.offer (E2eRuntime.remember_offer id r)) as [o|] eqn:Ho;
      [destruct (decide _)|]; cbn; split_and!; try done; rewrite ?Ho, <-?Hsame; naive_solver.
  - injection Hs as <- <-. unfold E2eRuntime.drop_offer_of.
    destruct (E2eRuntime.offer r) as [o|] eqn:Ho; [destruct (decide _)|]; cbn; split_and!; try done;
      by rewrite Ho.
  - injection Hs as <- <-. by split_and!.
Qed.

Lemma taken_once_app w es fs :
  taken_once w es -> taken_once (waiting w es) fs -> taken_once w (es ++ fs).
Proof. revert w. induction es as [|[o|candidates code] es IH]; intros w; cbn; naive_solver. Qed.

Lemma waiting_app w es fs : waiting w (es ++ fs) = waiting (waiting w es) fs.
Proof. apply foldl_app. Qed.

(** The ids that a run puts among the remembered ones. *)
Definition noted_by (op : offer_op) r : list string :=
  match op with
  | Admit offer known protocol now =>
      if decide ((E2eRuntime.admit_offer r offer known protocol now).2 = OfferShow)
      then [PairingOffer.rendezvous_id offer] else []
  | CloseOf id => if contains (E2eRuntime.seen_offers r) id then [] else [id]
  | _ => []
  end.

Fixpoint noted (ops : list offer_op) r : list string :=
  match ops with
  | [] => []
  | op :: ops => noted_by op r ++ noted ops (offer_step op r).1
  end.

(** The last [SEEN_OFFERS_MAX] ids. *)
Definition last_ids (l : list string) : list string := drop (length l - SEEN_OFFERS_MAX) l.

Lemma last_ids_app l m : last_ids (last_ids l ++ m) = last_ids (l ++ m).
Proof.
  unfold last_ids. destruct (decide (length l <= SEEN_OFFERS_MAX)%nat) as [Hl|Hl].
  - by replace (length l - SEEN_OFFERS_MAX)%nat with 0%nat by lia.
  - set (k := (length l - SEEN_OFFERS_MAX)%nat).
    assert (l ++ m = take k l ++ drop k l ++ m) as -> by (by rewrite app_assoc, take_drop).
    rewrite (drop_app_ge (take k l)) by (rewrite !length_app, length_take, length_drop; lia).
    f_equal. rewrite !length_app, length_take, length_drop. lia.
Qed.

Lemma last_ids_in l id m :
  (length m < SEEN_OFFERS_MAX)%nat -> id ∈ last_ids ((l ++ [id]) ++ m).
Proof.
  intros Hm. unfold last_ids. rewrite <-app_assoc. rewrite !length_app. cbn.
  destruct (decide (length l <= length l + S (length m) - SEEN_OFFERS_MAX)%nat) as [Hl|Hl].
  - rewrite drop_app_ge by done.
    replace (_ - length l)%nat with 0%nat by lia. by left.
  - rewrite drop_app_le by lia. apply elem_of_app. right. by left.
Qed.

Lemma step_seen op r :
  seen_ok r ->
  E2eRuntime.seen_offers (offer_step op r).1 = last_ids (E2eRuntime.seen_offers r ++ noted_by op r).
Proof.
  intros [_ Hl]. set (seen := E2eRuntime.seen_offers r) in *.
  assert (last_ids (seen ++ []) = seen) as Hsame.
  { rewrite app_nil_r. unfold last_ids. by replace (_ - _)%nat with 0%nat by lia. }
  destruct op as [offer known protocol now|known now|now|id|id|]; cbn [noted_by offer_step].
  - destruct (E2eRuntime.admit_offer _ _ _ _ _) as [r' decision] eqn:Ha. cbn.
    destruct (decide _) as [->|Hd]; [|by rewrite Hsame, (admit_same _ _ _ _ _ _ _ Ha Hd)].
    apply admit_shows in Ha as (_ & _ & Hnew & _ & _ & _ & ->). cbn.
    unfold E2eRuntime.remember_offer. apply contains_false in Hnew. by rewrite Hnew.
  - rewrite Hsame. pose proof (take_offer_clears r known now) as [_ Hs].
    by destruct (E2eRuntime.take_offer _ _ _).
  - rewrite Hsame. cbn. unfold E2eRuntime.expire_offer. by repeat case_match.
  - cbn. unfold E2eRuntime.close_offer_of, E2eRuntime.drop_offer_of, E2eRuntime.remember_offer.
    fold seen. destruct (contains seen id); [rewrite Hsame|]; by repeat case_match.
  - rewrite Hsame. cbn. unfold E2eRuntime.drop_offer_of. by repeat case_match.
  - by rewrite Hsame.
Qed.

Lemma step_seen_ok op r : seen_ok r -> seen_ok (offer_step op r).1.
Proof.
  intros Hok. destruct (offer_step op r) as [r' es] eqn:Hs.
  by destruct (offer_step_ok op r (E2eRuntime.offer r) r' es Hs Hok) as [? _]; [intros o|].
Qed.

Lemma run_seen ops r :
  seen_ok r ->
  seen_ok (offer_run ops r).1 /\
  E2eRuntime.seen_offers (offer_run ops r).1 = last_ids (E2eRuntime.seen_offers r ++ noted ops r).
Proof.
  revert r. induction ops as [|op ops IH]; intros r Hok; cbn [offer_run noted].
  - split; [done|]. rewrite app_nil_r. unfold last_ids. destruct Hok as [_ Hl].
    by replace (_ - _)%nat with 0%nat by lia.
  - pose proof (step_seen_ok op r Hok) as Hok1. pose proof (step_seen op r Hok) as Hs.
    destruct (offer_step op r) as [r1 es]. cbn in *. destruct (IH r1 Hok1) as [Hok2 Hs2].
    destruct (offer_run ops r1) as [r2 more]. cbn in *.
    by rewrite Hs2, Hs, last_ids_app, app_assoc.
Qed.

Lemma shown_again o known p now mid o' known' p' now' r :
  seen_ok r ->
  let r1 := (offer_step (Admit o known p now) r).1 in
  (offer_step (Admit o known p now) r).2 = [Shown o] ->
  (offer_step (Admit o' known' p' now') (offer_run mid r1).1).2 = [Shown o'] ->
  PairingOffer.rendezvous_id o = PairingOffer.rendezvous_id o' ->
  (SEEN_OFFERS_MAX <= length (noted mid r1))%nat.
Proof.
  intros Hok r1 Hshown Hagain Hid. pose proof (step_seen (Admit o known p now) r Hok) as Hs.
  destruct (run_seen mid r1 (step_seen_ok _ _ Hok)) as [_ Hs2]. fold r1 in Hs. rewrite Hs in Hs2.
  clear Hs. subst r1.
  cbn [offer_step noted_by] in *.
  destruct (E2eRuntime.admit_offer r o known p now) as [r' decision]. cbn in Hs2, Hshown.
  destruct (decide (decision = OfferShow)); [|done].
  destruct (E2eRuntime.admit_offer _ o' _ _ _) as [r2 decision'] eqn:Ha.
  cbn in Hagain. destruct (decide (decision' = OfferShow)) as [->|]; [|done].
  apply admit_shows in Ha as (_ & _ & Hnew & _). apply Nat.nlt_ge. intros Hlt. apply Hnew.
  cbn [fst] in *. rewrite Hs2, last_ids_app, <-Hid. by apply last_ids_in.
Qed.

(** C35. A pairing starts from an offer only once and only from the one that the
    user saw. Whatever offers come and whatever is done with them, each code
    that an accept takes is the one of the offer that was shown last, and a
    showing is taken at most once; and the same offer is not shown again before
    32 more ids were remembered. The session remembers at most 32 ids, each
    once. *)
Theorem offers_taken_once (ops : list offer_op) r w :
  seen_ok r -> last_shown w r ->
  (let '(r', events) := offer_run ops r in
   seen_ok r' /\ taken_once w events /\ last_shown (waiting w events) r') /\
  forall pre o known p now mid o' known' p' now' post,
    ops = pre ++ Admit o known p now :: mid ++ Admit o' known' p' now' :: post ->
    let before := (offer_run pre r).1 in
    let after := (offer_step (Admit o known p now) before).1 in
    (offer_step (Admit o known p now) before).2 = [Shown o] ->
    (offer_step (Admit o' known' p' now') (offer_run mid after).1).2 = [Shown o'] ->
    PairingOffer.rendezvous_id o = PairingOffer.rendezvous_id o' ->
    (SEEN_OFFERS_MAX <= length (noted mid after))%nat.
Proof.
  intros Hok Hw. split.
  - revert r w Hok Hw. induction ops as [|op ops IH]; intros r w Hok Hw; cbn [offer_run]; [done|].
    destruct (offer_step op r) as [r1 es] eqn:Hs.
    destruct (offer_step_ok op r w r1 es Hs Hok Hw) as (Hok1 & Ht1 & Hw1).
    specialize (IH r1 _ Hok1 Hw1). destruct (offer_run ops r1) as [r2 more].
    destruct IH as (? & ? & ?). split_and!; [done|by apply taken_once_app|by rewrite waiting_app].
  - intros pre o known p now mid o' known' p' now' post _ before after. apply shown_again.
    by apply run_seen.
Qed.
End Offers.

(** ** Rows of messages on their way *)

Section Incoming.
Context {EC : EciesChannel}.
Implicit Types (r : E2eRuntime.t).

Definition incoming_key (row : PendingIncoming.t) : string * string * string :=
  (PendingIncoming.network row, PendingIncoming.from_did row, PendingIncoming.msgid row).

(** What the server and the inbox tell of a message that comes in parts. *)
Inductive incoming_op :=
| Begins (event : IncomingEvent.t) (own_did : string)
| Lost (event : IncomingLostEvent.t) (own_did : string)
| Arrived (network from_did msgid : string)
| SessionEnds.

Definition incoming_step (op : incoming_op) r : E2eRuntime.t :=
  match op with
  | Begins event own_did => (E2eRuntime.note_incoming event own_did r).1
  | Lost event own_did => (E2eRuntime.note_incoming_lost event own_did r).1
  | Arrived network from_did msgid => (E2eRuntime.take_incoming network from_did msgid r).1
  | SessionEnds => (E2eRuntime.clear_incoming r).1
  end.

Lemma matches_key row network from_did msgid :
  PendingIncoming.matches row network from_did msgid = true <->
  incoming_key row = (network, from_did, msgid).
Proof.
  unfold PendingIncoming.matches, incoming_key. rewrite !andb_true_iff, !bool_decide_eq_true.
  split; [by intros [[-> ->] ->]|by intros [= -> -> ->]].
Qed.

Lemma remove_first_spec p rows found rest :
  E2eRuntime.remove_first p rows = Some (found, rest) ->
  p found = true /\ exists l1 l2, rows = l1 ++ found :: l2 /\ rest = l1 ++ l2 /\
    Forall (fun row => p row = false) l1.
Proof.
  revert found rest. induction rows as [|row rows IH]; intros found rest; simpl; [done|].
  destruct (p row) eqn:Hp.
  - intros [= <- <-]. split; [done|]. by exists [], rows.
  - destruct (E2eRuntime.remove_first p rows) as [[f tl]|]; [|done]. simpl. intros [= <- <-].
    destruct (IH _ _ eq_refl) as (Hf & l1 & l2 & -> & -> & Hall). split; [done|].
    exists (row :: l1), l2. split_and!; [done|done|by constructor].
Qed.

Lemma remove_first_none p rows :
  E2eRuntime.remove_first p rows = None -> Forall (fun row => p row = false) rows.
Proof.
  induction rows as [|row rows IH]; simpl; [by constructor|]. destruct (p row) eqn:Hp; [done|].
  destruct (E2eRuntime.remove_first p rows) as [[]|]; simpl; [done|]. intros _. by constructor; auto.
Qed.

Lemma filter_keeps_all {V} (p : V -> Prop) `{!forall x, Decision (p x)} l :
  Forall p l -> filter p l = l.
Proof. induction 1 as [|x l Hx _ IH]; [done|]. by rewrite filter_cons_True, IH. Qed.

(** The keys after a take: the one of the message is gone, the others stay. *)
Lemma take_incoming_keys network from_did msgid r :
  NoDup (incoming_key <$> E2eRuntime.incoming r) ->
  incoming_key <$> E2eRuntime.incoming (E2eRuntime.take_incoming network from_did msgid r).1 =
    filter (fun key => key <> (network, from_did, msgid)) (incoming_key <$> E2eRuntime.incoming r).
Proof.
  intros Hd. unfold E2eRuntime.take_incoming.
  set (key := (network, from_did, msgid)).
  assert (forall rows, Forall (fun row => PendingIncoming.matches row network from_did msgid = false)
    rows -> filter (fun k => k <> key) (incoming_key <$> rows) = incoming_key <$> rows) as Hkeep.
  { intros rows Hall. apply filter_keeps_all, Forall_fmap. eapply Forall_impl; [exact Hall|].
    intros row Hm. cbn. intros Hk. apply matches_key in Hk. congruence. }
  destruct (E2eRuntime.remove_first _ _) as [[found rest]|] eqn:Hr; cbn.
  - apply remove_first_spec in Hr as (Hf & l1 & l2 & Hl & -> & Hall).
    apply matches_key in Hf. rewrite Hl in *. rewrite !fmap_app, !fmap_cons in *.
    rewrite filter_app, filter_cons_False by (rewrite Hf; naive_solver).
    rewrite Hkeep by done. f_equal. symmetry. apply filter_keeps_all, Forall_forall.
    intros k Hk ->. apply NoDup_app in Hd as (_ & _ & Hd). apply NoDup_cons in Hd as [Hn _].
    by rewrite Hf in Hn.
  - apply remove_first_none in Hr. by rewrite Hkeep.
Qed.

Lemma take_incoming_nodup network from_did msgid r :
  NoDup (incoming_key <$> E2eRuntime.incoming r) ->
  NoDup (incoming_key <$> E2eRuntime.incoming (E2eRuntime.take_incoming network from_did msgid r).1).
Proof. intros Hd. rewrite take_incoming_keys by done. by apply NoDup_filter. Qed.

(** One message has one progress row, however often its event comes. *)
Lemma incoming_rows_distinct (ops : list incoming_op) r :
  NoDup (incoming_key <$> E2eRuntime.incoming r) ->
  NoDup (incoming_key <$> E2eRuntime.incoming (foldl (fun r op => incoming_step op r) r ops)).
Proof.
  revert r. induction ops as [|op ops IH]; intros r Hd; simpl; [done|]. apply IH.
  destruct op as [event own|event own|network from_did msgid|]; simpl.
  - unfold E2eRuntime.note_incoming. destruct (_ || _) eqn:Hno; [done|]. cbn.
    apply orb_false_iff in Hno as [_ Hno]. rewrite fmap_app. apply NoDup_app. split_and!; [done| |].
    + intros k Hk Hin. apply list_elem_of_singleton in Hin as ->.
      apply list_elem_of_fmap in Hk as (row & Hrow & Hin).
      symmetry in Hrow. apply matches_key in Hrow.
      assert (existsb (fun row => PendingIncoming.matches row (IncomingEvent.network event)
        (IncomingEvent.from_did event) (IncomingEvent.msgid event)) (E2eRuntime.incoming r) = true)
        as Hyes; [|congruence].
      apply existsb_exists. exists row. by rewrite <-list_elem_of_In.
    + apply NoDup_singleton.
  - unfold E2eRuntime.note_incoming_lost. destruct (negb _); [done|]. by apply take_incoming_nodup.
  - by apply take_incoming_nodup.
  - constructor.
Qed.
End Incoming.

(** ** The ciphertext view *)

Section Ciphertext.
Context {C : Crypto} {J : Json} {U : UrlLib} {T : StateText} {A : Aead} {O : Olm}.
Context {H : HistoryText} {X : EngineText} {EC : EciesChannel} {Ch : Chrono}.

(** Another text in each message, and in each history of a session. *)
Definition with_text (f : E2eMessage.t -> string) (m : E2eMessage.t) : E2eMessage.t :=
  E2eMessage.mk (E2eMessage.id m) (E2eMessage.conversation_id m) (E2eMessage.sender_device m)
    (E2eMessage.sent_at m) (f m) (E2eMessage.encrypted m) (E2eMessage.captures m).

Definition history_with_text (f : E2eMessage.t -> string) (h : E2eHistoryStore.t)
    : E2eHistoryStore.t :=
  E2eHistoryStore.mk (E2eHistoryStore.path h) (E2eHistoryStore.key h)
    (with_text f <$> E2eHistoryStore.messages h) (E2eHistoryStore.records h).

Definition held_with_text (f : E2eMessage.t -> string) (h : Held.t) : Held.t :=
  Held.mk (Held.state h)
    (E2eEngine.set_history (history_with_text f (E2eEngine.history (Held.engine h))) (Held.engine h)).

Definition session_with_text (f : E2eMessage.t -> string) (w : WorkerState.t) : WorkerState.t :=
  let r := WorkerState.e2e w in
  WorkerState.set_e2e
    (E2eRuntime.set_histories (history_with_text f <$> E2eRuntime.histories r)
       (E2eRuntime.set_engines (held_with_text f <$> E2eRuntime.engines r) r)) w.

Lemma filter_with_text f (p : E2eMessage.t -> bool) l :
  (forall m, p (with_text f m) = p m) ->
  List.filter p (with_text f <$> l) = with_text f <$> List.filter p l.
Proof.
  intros Hp. induction l as [|m l IH]; [done|]. cbn. rewrite Hp. destruct (p m); cbn; by rewrite IH.
Qed.

Lemma history_of_with_text f r_ network (w : WorkerState.t) :
  r_ = WorkerState.e2e w ->
  E2eRuntime.history_of (WorkerState.e2e (session_with_text f w)) network =
    history_with_text f <$> E2eRuntime.history_of r_ network.
Proof.
  intros ->. unfold E2eRuntime.history_of, session_with_text. cbn. rewrite !lookup_fmap.
  by destruct (E2eRuntime.engines (WorkerState.e2e w) !! network).
Qed.

(** C34. The ciphertext view shows no text. The rows of a locked window that shows
    ciphertext, and what a search in such a view finds, are the same whatever
    the texts of all the messages are. *)
Theorem ciphertext_view_hides (f : E2eMessage.t -> string) (w : WorkerState.t) network nick stamp :
  (E2eRuntime.shows_ciphertext (WorkerState.e2e w) network nick = true ->
     locked_rows (session_with_text f w) network nick stamp = locked_rows w network nick stamp) /\
  (forall h conversation needle,
     E2eMessage.id <$> search_history_in_view (history_with_text f h) conversation needle true =
     E2eMessage.id <$> search_history_in_view h conversation needle true).
Proof.
  split.
  - intros Hview. unfold locked_rows. cbv zeta. f_equal.
    rewrite (history_of_with_text f _ network w eq_refl).
    destruct (E2eRuntime.history_of _ network) as [h|]; cbn; [|done]. f_equal.
    unfold E2eHistoryStore.messages_of. cbn [E2eHistoryStore.messages history_with_text].
    rewrite filter_with_text by done. rewrite <-list_fmap_compose. apply list_fmap_ext.
    intros _ m _. unfold compose, locked_rows_for_view.
    change (E2eRuntime.shows_ciphertext _ network nick) with
      (E2eRuntime.shows_ciphertext (WorkerState.e2e w) network nick) at 1.
    rewrite Hview. cbn. rewrite lookup_fmap.
    by destruct (E2eRuntime.engines (WorkerState.e2e w) !! network).
  - intros h conversation needle. unfold search_history_in_view, E2eHistoryStore.search_captures.
    destruct (is_empty _); [done|]. cbn [E2eHistoryStore.messages history_with_text].
    rewrite filter_with_text by done. rewrite <-list_fmap_compose. by apply list_fmap_ext.
Qed.

(** ** The two windows of a peer *)

(** Two queries have one window only when they are the same, for nicks that do
    not start with the lock. *)
Lemma window_roundtrip network lane nick :
  strip_prefix QUERY_LOCK_LABEL nick = None ->
  LocalQuery.from_window network (LocalQuery.window_name (LocalQuery.new network lane nick)) =
    LocalQuery.new network lane nick.
Proof.
  intros Hn. unfold LocalQuery.from_window, LocalQuery.window_name, route_for_window.
  destruct lane; cbn [LocalQuery.lane LocalQuery.nick].
  - by rewrite Hn.
  - unfold locked_label. by rewrite (proj2 (strip_prefix_Some _ _ nick) eq_refl).
Qed.
End Ciphertext.
