(* ===== verification/SessionFacts.v ===== *)
(** * Handlers of a session and what they keep

    The rules for the handlers of a session: what holds of the session before
    a handler and after each of its parts holds after it. *)

From S2P Require Import Prelude.
From S2P Require Import RustStr.
From S2P Require Import Slash.
From S2P Require Import Interfaces.
From S2P Require Import Isupport.
From S2P Require Import Wire.
From S2P Require Import Files.
From S2P Require Import History.
From S2P Require Import State.
From S2P Require Import Account.
From S2P Require Import IdentityRoutes.
From S2P Require Import DeviceRoutes.
From S2P Require Import Pacing.
From S2P Require Import Protocol.
From S2P Require Import Pairing.
From S2P Require Import PairingFlow.
From S2P Require Import PairingGrant.
From S2P Require Import SendDoor.
From S2P Require Import Effects.
From S2P Require Import Client.
From S2P Require Import EffectsFacts.
From S2P Require Import Provision.
From S2P Require Import EngineTypes.
From S2P Require Import Engine.
From S2P Require Import EngineReceive.
From S2P Require Import EngineSend.
From S2P Require Import EngineCopies.
From S2P Require Import EngineFacts.
From S2P Require Import E2eView.
From S2P Require Import Runtime.
From S2P Require Import Session.
From S2P Require Import SessionViews.
From S2P Require Import SessionEngines.
From stdpp Require Import options.

#[local] Open Scope act_scope.

Section Rules.
Context {J : Json} {U : UrlLib} {EC : EciesChannel} (I : session -> Prop).

(** Whatever the outside does, [m] keeps [I]. *)
Definition holds {A} (m : act A) : Prop := forall o s, I s -> I (m o s).1.

Lemma holds_ret {A} (a : A) : holds (act_ret a).
Proof. by intros o s. Qed.

Lemma holds_bind {A B} (m : act A) (k : A -> act B) :
  holds m -> (forall a, holds (k a)) -> holds (act_bind m k).
Proof.
  intros Hm Hk o s Hs. unfold act_bind. specialize (Hm o s Hs). destruct (m o s) as [s' a].
  by apply Hk.
Qed.

Lemma holds_get_worker : holds get_worker.
Proof. by intros o s. Qed.
Lemma holds_get_e2e : holds get_e2e.
Proof. by intros o s. Qed.

Lemma holds_each {A} (f : A -> act unit) (l : list A) :
  (forall x, holds (f x)) -> holds (act_each f l).
Proof. intros Hf. induction l as [|x l IH]; simpl; [apply holds_ret|]. by apply holds_bind. Qed.

(** An invariant that reads the worker alone. *)
Lemma holds_change_e2e (f : E2eRuntime.t -> E2eRuntime.t) :
  (forall s, I s -> I (mk_session (drive s)
     (WorkerState.set_e2e (f (WorkerState.e2e (worker s))) (worker s)) (shown s) (done s))) ->
  holds (change_e2e f).
Proof. intros Hf o s Hs. by apply Hf. Qed.

Lemma holds_on_e2e {A} (f : E2eRuntime.t -> E2eRuntime.t * A) :
  (forall s, I s -> I (mk_session (drive s)
     (WorkerState.set_e2e (f (WorkerState.e2e (worker s))).1 (worker s)) (shown s) (done s))) ->
  holds (on_e2e f).
Proof.
  intros Hf o s Hs. unfold on_e2e. specialize (Hf s Hs).
  by destruct (f (WorkerState.e2e (worker s))).
Qed.
End Rules.

(** Goals [holds I m] by the structure of [m]. *)
Ltac act_parts :=
  repeat match goal with
  | |- holds _ (act_bind _ _) => apply holds_bind; [|intros ?]
  | |- holds _ (act_ret _) => apply holds_ret
  | |- holds _ get_worker => apply holds_get_worker
  | |- holds _ get_e2e => apply holds_get_e2e
  | |- holds _ (act_each _ _) => apply holds_each; intros ?
  | |- holds _ (match ?x with _ => _ end) => destruct x
  | |- holds _ (let '_ := ?x in _) => destruct x
  | |- forall _, holds _ _ => intros ?
  | H : holds ?I ?m |- holds ?I ?m => exact H
  end.

(** ** Events *)

Section Events.
Context {J : Json} {U : UrlLib} {EC : EciesChannel}.
Context (P : list event -> event -> Prop) (l0 : list event).

(** The session added only events with [P]. *)
Definition adds (s : session) : Prop :=
  exists es, done s = l0 ++ es /\
    forall before e rest, es = before ++ e :: rest -> P (l0 ++ before) e.

Lemma adds_logs {M} (s : session) st (m : M) :
  adds s <-> logs P l0 (mk_world (drive s) st m (done s)).
Proof. done. Qed.

Lemma adds_same (s s' : session) : done s' = done s -> adds s -> adds s'.
Proof. intros Heq (es & Hes & HP). exists es. by rewrite Heq. Qed.

Lemma adds_change_worker f : holds adds (change_worker f).
Proof. intros o s. by apply adds_same. Qed.
Lemma adds_change_e2e f : holds adds (change_e2e f).
Proof. intros o s. by apply adds_same. Qed.
Lemma adds_on_e2e {A} (f : E2eRuntime.t -> E2eRuntime.t * A) : holds adds (on_e2e f).
Proof. intros o s. unfold on_e2e. destruct (f _). by apply adds_same. Qed.
Lemma adds_show e : holds adds (show e).
Proof. intros o s. by apply adds_same. Qed.
Lemma adds_e2e_now : holds adds e2e_now.
Proof. by intros o s. Qed.

Lemma adds_run_step {M E A} st (m0 : M) (m : eff M E A) :
  (forall o, keeps o (logs P l0) m) -> holds adds (run_step st m0 m).
Proof.
  intros Hm o s Hs. unfold run_step. specialize (Hm o (mk_world (drive s) st m0 (done s)) Hs).
  unfold wp in Hm. destruct (m o _) as [w r]. apply Hm.
Qed.

Lemma adds_with_held {E A} h (m : eff E2eEngine.t E A) :
  (forall o, keeps o (logs P l0) m) -> holds adds (with_held h m).
Proof. intros Hm. unfold with_held. act_parts. by apply adds_run_step. Qed.

Lemma adds_with_held_sure {A} h (m : eff E2eEngine.t Empty_set A) :
  (forall o, keeps o (logs P l0) m) -> holds adds (with_held_sure h m).
Proof. intros Hm. unfold with_held_sure. act_parts. by apply adds_with_held. Qed.

Lemma adds_with_state {M E A} h (m0 : M) (m : eff M E A) :
  (forall o, keeps o (logs P l0) m) -> holds adds (with_state h m0 m).
Proof. intros Hm. unfold with_state. act_parts. by apply adds_run_step. Qed.

Lemma adds_call_client {E A} (m : eff unit E A) :
  (forall o, keeps o (logs P l0) m) -> holds adds (call_client m).
Proof. intros Hm. unfold call_client. act_parts. by apply adds_run_step. Qed.

Lemma adds_take_held network : holds adds (take_held network).
Proof. apply adds_on_e2e. Qed.
Lemma adds_put_held network h : holds adds (put_held network h).
Proof. apply adds_change_e2e. Qed.
Lemma adds_held_of network : holds adds (held_of network).
Proof. unfold held_of. act_parts. Qed.
End Events.

(** A step that adds only events with [P] from any log adds only events with a
    weaker [Q]. *)
Lemma logs_weaken `{J : Json, U : UrlLib} {M E A} (o : outside)
    (P Q : list event -> event -> Prop) l0 (m : eff M E A) :
  (forall before e, P before e -> Q before e) ->
  (forall l, keeps o (logs P l) m) -> keeps o (logs Q l0) m.
Proof.
  intros HPQ Hm [d st m0 l] (es & Heq & HQ). cbn in Heq. subst l.
  pose proof (Hm (l0 ++ es) (mk_world d st m0 (l0 ++ es)) (logs_start _ _ _ _ _)) as H.
  unfold wp in *. destruct (m o _) as [w r]. destruct H as [(fs & Hfs & HP) _].
  split; [|done]. exists (es ++ fs). split; [by rewrite Hfs, app_assoc|].
  intros before e rest Heq.
  apply app_eq_app in Heq as [fs' [[-> Hr]|[-> Hr]]].
  - destruct fs' as [|x fs']; simplify_list_eq.
    + specialize (HP [] e rest). rewrite !app_nil_r in *. by apply HPQ, HP.
    + by eapply HQ.
  - specialize (HP fs' e rest Hr). rewrite app_assoc. by apply HPQ.
Qed.

(** The steps that need no more than the kind of their requests. *)
Section Kinds.
Context {J : Json} {U : UrlLib} {M : Type} (o : outside).
Context (P : list event -> event -> Prop) (l0 : list event).

Lemma logs_send {E} (q : request) :
  (forall before a, P before (Sent q a)) -> keeps o (logs P l0) (send (E := E) (M := M) q).
Proof. intros HP w Hw. split; [|done]. apply logs_snoc; [done|]. apply HP. Qed.

Lemma logs_now {E} : keeps o (logs P l0) (now (E := E) (M := M)).
Proof. intros w Hw. by split. Qed.

Lemma logs_on_mem {E A} (f : M -> M * result A E) : keeps o (logs P l0) (on_mem f).
Proof.
  intros w Hw. unfold wp, on_mem. destruct (f (mem w)) as [m r]. split; [by eapply logs_same|done].
Qed.
End Kinds.

Create HintDb sends.
#[export] Hint Resolve adds_change_worker adds_change_e2e adds_on_e2e adds_show adds_e2e_now
  adds_take_held adds_put_held adds_held_of : sends.

(** Handlers by their parts, with the lemmas of the parts. *)
Ltac sends := act_parts; auto with sends.

Section Views.
Context {C : Crypto} {J : Json} {U : UrlLib} {T : StateText} {A : Aead} {O : Olm}.
Context {H : HistoryText} {X : EngineText} {EC : EciesChannel} {Ch : Chrono}.
Context (P : list event -> event -> Prop) (l0 : list event).

(** ** Views *)

Lemma adds_status kind : holds (adds P l0) (status kind).
Proof. apply adds_show. Qed.
Lemma adds_groups : holds (adds P l0) refresh_network_groups.
Proof. apply adds_show. Qed.
Lemma adds_close_key : holds (adds P l0) close_peer_key.
Proof. apply adds_show. Qed.
#[local] Hint Resolve adds_status adds_groups adds_close_key : sends.

Lemma adds_consent : holds (adds P l0) push_open_query_consent.
Proof. unfold push_open_query_consent, now_millis. sends. Qed.
Lemma adds_locked_state : holds (adds P l0) push_open_locked_state.
Proof. unfold push_open_locked_state. sends. Qed.
Lemma adds_read : holds (adds P l0) mark_active_window_read.
Proof. unfold mark_active_window_read. sends. Qed.
Lemma adds_load network nick : holds (adds P l0) (load_locked_rows network nick).
Proof. unfold load_locked_rows, now_stamp. sends. Qed.
#[local] Hint Resolve adds_consent adds_locked_state adds_read adds_load : sends.

Lemma adds_refresh network nick : holds (adds P l0) (refresh_locked_view network nick).
Proof. unfold refresh_locked_view, show_locked_rows. sends. Qed.
Lemma adds_bottom : holds (adds P l0) set_chat_follow_bottom.
Proof. unfold set_chat_follow_bottom. sends. Qed.
Lemma adds_select network label : holds (adds P l0) (handle_select_locked_query network label).
Proof.
  unfold handle_select_locked_query, open_window, show_locked_window, show_locked_rows. sends.
Qed.
Lemma adds_toggle network label : holds (adds P l0) (toggle_ciphertext_view network label).
Proof. unfold toggle_ciphertext_view. sends. all: apply adds_refresh. Qed.
Lemma adds_close_query network label : holds (adds P l0) (close_locked_query network label).
Proof. unfold close_locked_query. sends. Qed.

End Views.
#[export] Hint Resolve adds_status adds_groups adds_close_key adds_consent adds_locked_state adds_read
  adds_load adds_refresh adds_bottom adds_select adds_toggle adds_close_query : sends.

(** ** Opening an engine *)

Section Opening.
Context {C : Crypto} {J : Json} {U : UrlLib} {T : StateText} {A : Aead} {O : Olm}.
Context {H : HistoryText} {X : EngineText} {S : OlmSessions}.
Context {EC : EciesChannel} {P0 : PendingText} {Ch : Chrono}.
Context (opening : list event -> engine_env).
Context (P : list event -> event -> Prop) (l0 : list event).
Context (Hquiet : forall before e, quiet e -> P before e).

Lemma adds_store {M F V} h (m0 : M)
    (op : io_env -> disk -> Store.t -> disk * Store.t * result V F) :
  holds (adds P l0) (with_state h m0 (on_store op)).
Proof using Hquiet. apply adds_with_state. intros o. apply logs_on_store, Hquiet. Qed.
#[local] Hint Resolve adds_store : sends.

Lemma adds_open_files {V} f : holds (adds P l0) (open_files (V := V) opening f).
Proof using Type. intros o s. unfold open_files. destruct (f _ _). by apply adds_same. Qed.
#[local] Hint Resolve adds_open_files : sends.
Lemma adds_open_history network : holds (adds P l0) (open_history_only opening network).
Proof using Type. unfold open_history_only. sends. Qed.
Lemma adds_forget_history network : holds (adds P l0) (forget_history network).
Proof using Type. apply adds_change_e2e. Qed.
Lemma adds_unavailable network : holds (adds P l0) (mark_unavailable network).
Proof using Type. apply adds_change_e2e. Qed.
Lemma adds_available network : holds (adds P l0) (unmark_unavailable network).
Proof using Type. apply adds_change_e2e. Qed.
Lemma adds_install network h : holds (adds P l0) (install_engine network h).
Proof using Hquiet. unfold install_engine, take_stale. sends. Qed.
#[local] Hint Resolve adds_open_history adds_forget_history adds_unavailable adds_available
  adds_install : sends.

Lemma adds_ensure network : holds (adds P l0) (ensure_engine opening network).
Proof using Hquiet. unfold ensure_engine. sends. Qed.
End Opening.
#[export] Hint Resolve adds_open_files adds_open_history adds_forget_history adds_unavailable
  adds_available : sends.
