(* ===== verification/SessionSendFacts.v ===== *)
(** * What a session sends for a locked window

    The requests of the drivers that a session runs: those of the engine carry
    Olm messages alone, and no other one carries a text of a chat. So each
    handler of a session, and any sequence of them, sends the texts of the
    locked windows as Olm messages alone. *)

From S2P Require Import Prelude.
From S2P Require Import RustStr.
From S2P Require Import Interfaces.
From S2P Require Import Isupport.
From S2P Require Import Wire.
From S2P Require Import Device.
From S2P Require Import Manage.
From S2P Require Import Files.
From S2P Require Import History.
From S2P Require Import State.
From S2P Require Import Versions.
From S2P Require Import DeviceRoutes.
From S2P Require Import Pacing.
From S2P Require Import Pairing.
From S2P Require Import PairingFlow.
From S2P Require Import PairingFlowFacts.
From S2P Require Import PairingGrant.
From S2P Require Import Refusal.
From S2P Require Import IdentityRoutes.
From S2P Require Import Account.
From S2P Require Import SendDoor.
From S2P Require Import Effects.
From S2P Require Import Client.
From S2P Require Import Provision.
From S2P Require Import Revoke.
From S2P Require Import PairingDrive.
From S2P Require Import EffectsFacts.
From S2P Require Import EngineTypes.
From S2P Require Import Engine.
From S2P Require Import EngineReceive.
From S2P Require Import EngineSend.
From S2P Require Import EngineCopies.
From S2P Require Import EngineFacts.
From S2P Require Import EngineSendFacts.
From S2P Require Import Slash.
From S2P Require Import E2eView.
From S2P Require Import Runtime.
From S2P Require Import Session.
From S2P Require Import SessionViews.
From S2P Require Import SessionEngines.
From S2P Require Import SessionInbox.
From S2P Require Import SessionPairing.
From S2P Require Import SessionManage.
From S2P Require Import SessionConsent.
From S2P Require Import SessionFrames.
From S2P Require Import SessionFacts.
From stdpp Require Import options.

Section Sends.
Context {C : Crypto} {J : Json} {U : UrlLib} {T : StateText} {A : Aead} {O : Olm}.
Context {H : HistoryText} {X : EngineText} {S : OlmSessions} {K : OlmKeys}.
Context {EC : EciesChannel} {EK : EciesKeys} {W : PairingText} {P : PendingText}.
Context {PA : PairingAnswers} {Ch : Chrono}.

(** A message of a pairing: one of its messages that the channel encrypted, or
    the hello that opens the channel. *)
Definition pairing_sealed (payload : string) : Prop :=
  (exists wire plain channel channel', wire_to_vec wire = Some plain /\
     channel_encrypt channel plain = (channel', payload)) \/
  (exists key their hello channel message,
     wire_to_vec (Message.Hello WIRE_VERSION) = Some hello /\
     establish_outbound key their hello = Some (channel, message) /\
     payload = b64url_encode message).

(** The keys of an account, each with the signature of this account. *)
Definition own_keys (r : KeysUploadRequest.t) : Prop :=
  exists local one_time fallback, KeysUploadRequest.new one_time fallback = Ok r /\
    collect_result (signed_key local) (LocalAccount.unpublished_one_time_keys local) = Ok one_time /\
    forall key, fallback = Some key -> exists text, signed_key local text = Ok key.

Definition own_consent (line : E2eConsentLine.t) : Prop :=
  exists e s, own_consent_line e s = Ok line.

(** The nicks that the user asked to chat with. *)
Context (invited : string -> Prop).

(** What a request that is no message and no copy may carry: keys and
    signatures of the own devices, numbers, the sealed messages of a pairing,
    and the consent line, which the identity of the device fixes. *)
Definition no_text (b : Body.t) : Prop :=
  match b with
  | Body.None | Body.EmptyObject | Body.Ack _ => True
  | Body.Curve curve => exists seed, curve = public_key (ecies_with_info PAIRING_INFO seed)
  | Body.Payload payload => pairing_sealed payload
  | Body.DeviceId r => exists ed25519 curve25519 sig, DeviceIdRequest.new ed25519 curve25519 sig = Ok r
  | Body.List r => exists master list, ListRequest.new master list = Ok r
  | Body.Keys r => own_keys r
  | Body.Claim r => is_did_shape (ClaimRequest.from_did r) = true
  | Body.Consent line => own_consent line
  | Body.Create r => exists peer line, invited peer /\ own_consent line /\
      E2eRequestCreate.new peer line = Ok r
  | Body.Copy _ | Body.Send _ => False
  end.

(** What a session may add after [before]: a message and a copy carry Olm
    messages whose sessions were saved; no other request has a text. *)
Definition sealed_event (before : list event) (ev : event) : Prop :=
  match ev with
  | Sent q _ =>
      match body q with
      | Body.Send r => carries (fun _ => True) before r \/ asks_keys r
      | Body.Copy r => copy_carries before r
      | b => no_text b
      end
  | _ => True
  end.

Lemma allowed_sealed before ev : allowed (fun _ => True) before ev -> sealed_event before ev.
Proof. destruct ev as [q a|d| | | | |]; try done. unfold allowed, sealed_event. by destruct (body q). Qed.

Lemma sealed_quiet before ev : quiet ev -> sealed_event before ev.
Proof. by destruct ev. Qed.

(** An event stays allowed when older events come before it. *)
Lemma sealed_later older before ev : sealed_event before ev -> sealed_event (older ++ before) ev.
Proof.
  assert (forall network key nick did x, saved_in before network key nick did x ->
    saved_in (older ++ before) network key nick did x) as Hsaved.
  { intros network key nick did x (d & Hd & Hx). exists d. split; [|done]. apply elem_of_app. by right. }
  destruct ev as [q a|d| | | | |]; try done. unfold sealed_event. destruct (body q); try done.
  - intros (seed & session & inner & session' & message & own & did & network & key & nick & Hc).
    exists seed, session, inner, session', message, own, did, network, key, nick. naive_solver.
  - intros [(chunk & own & network & key & Hne & Hp & Hall)|Hk]; [left|by right].
    exists chunk, own, network, key. split_and!; [done..|].
    eapply Forall_impl; [exact Hall|]. naive_solver.
Qed.

(** The steps of a pairing that seal a message. *)
Lemma seal_sealed s wire s' out :
  PairingSession.seal s wire = (s', Ok out) -> pairing_sealed (Outgoing.payload out).
Proof using Type.
  destruct (seal_cases s wire) as [[e ->]|(ch & ch' & plain & payload & _ & Hw & He & _ & ->)]; [done|].
  intros [= _ <-]. left. by exists wire, plain, ch, ch'.
Qed.

Lemma marked_sealed s wire mark s' out :
  PairingSession.then_mark (PairingSession.seal s wire) mark = (s', Ok out) ->
  pairing_sealed (Outgoing.payload out).
Proof using Type. intros (s1 & Hs & _)%marked_seal. by eapply seal_sealed. Qed.

Lemma steps_sealed s s' out :
  (exists signature, PairingSession.seal_join s signature = (s', Ok out)) \/
  (exists grant, PairingSession.seal_signed s grant = (s', Ok out)) \/
  (exists reason, PairingSession.seal_refusal s reason = (s', Ok out)) \/
  PairingSession.seal_done s = (s', Ok out) \/
  (exists typed, PairingSession.confirm s typed = (s', Ok (Some out))) ->
  pairing_sealed (Outgoing.payload out).
Proof using Type.
  intros [[? H']|[[? H']|[[? H']|[H'|[typed H']]]]].
  - unfold PairingSession.seal_join in H'. repeat case_match; try done. by eapply marked_sealed.
  - unfold PairingSession.seal_signed in H'. repeat case_match; try done. by eapply seal_sealed.
  - unfold PairingSession.seal_refusal in H'. repeat case_match; try done. by eapply marked_sealed.
  - unfold PairingSession.seal_done in H'. repeat case_match; try done. by eapply seal_sealed.
  - unfold PairingSession.confirm in H'. repeat case_match; simplify_eq; try done.
    match goal with Hr : rmap Some ?r = _ |- _ => destruct r; cbn in Hr; [|done] end.
    simplify_eq. by eapply marked_sealed.
Qed.

Lemma join_any_sealed key link rendezvous network eligible device now s out :
  PairingSession.join_any key link rendezvous network eligible device now = Ok (s, out) ->
  pairing_sealed (Outgoing.payload out).
Proof using Type.
  unfold PairingSession.join_any. destruct (decide _); [done|]. destruct (decide _); [done|].
  intros (their & _ & Hj)%rbind_ok. apply rbind_ok in Hj as (hello & Hh%ok_or_ok & Hj).
  apply rbind_ok in Hj as ([channel message] & Hm%ok_or_ok & Hj).
  destruct (negb _); [done|]. injection Hj as _ <-. right. by exists key, their, hello, channel, message.
Qed.

Notation I l0 := (logs sealed_event l0).

(** A step of the engine. *)
Lemma engine_seals {E V} o l0 (m : eff E2eEngine.t E V) :
  (forall l, keeps o (logs (allowed (fun _ => True)) l) m) -> keeps o (I l0) m.
Proof using Type. apply logs_weaken. apply allowed_sealed. Qed.

(** ** Steps with other requests *)

Ltac other :=
  eng_parts;
  try first [apply logs_modify
            | apply logs_on_mem
            | apply logs_now
            | apply logs_clock; apply sealed_quiet
            | apply logs_draw; apply sealed_quiet
            | apply logs_on_store; apply sealed_quiet
            | apply logs_on_history; apply sealed_quiet
            | assumption].

Section Others.
Context {M : Type} (o : outside) (l0 : list event).
Notation seals m := (keeps (M := M) o (I l0) m).

Lemma seals_call {V} q (read : value -> result V WireError) :
  (forall before a, sealed_event before (Sent q a)) -> seals (GrappaClient.call q read).
Proof using Type.
  intros Hq. unfold GrappaClient.call, GrappaClient.send_e2e_device_request. other.
  by apply logs_send.
Qed.

Lemma seals_call_unit q :
  (forall before a, sealed_event before (Sent q a)) -> seals (GrappaClient.call_unit q).
Proof using Type.
  intros Hq. unfold GrappaClient.call_unit, GrappaClient.send_e2e_device_request. other.
  by apply logs_send.
Qed.

(** A value that a check gave. *)
Lemma seals_checked {V V' E F} (f : F -> E) (r : result V F) (k : V -> eff M E V') :
  (forall x, r = Ok x -> seals (k x)) -> seals (bind (lift (map_err f r)) k).
Proof using Type.
  intros Hk. eapply gives_bind; [apply gives_lift; intros x Hx%map_err_ok; exact Hx|exact Hk].
Qed.

Lemma seals_pairing q :
  (forall before a, sealed_event before (Sent q a)) -> seals (GrappaClient.send_pairing_request q).
Proof using Type.
  intros Hq. unfold GrappaClient.send_pairing_request. other. by apply logs_send.
Qed.
End Others.

Tactic Notation "calls" := first [apply seals_call | apply seals_call_unit | apply seals_pairing];
  intros ? ?; unfold sealed_event; cbn [body no_text]; eauto 6.

(** *** Provisioning *)

Section Provisioning.
Context {M : Type} (o : outside) (l0 : list event).
Context (client : GrappaClient.t) (token network : string) (sp : option N).
Notation seals m := (keeps (M := M) o (I l0) m).

Lemma seals_put r : no_text (Body.List r) -> seals (GrappaClient.put_e2e_list client token network sp r).
Proof using Type. intros Hr. unfold GrappaClient.put_e2e_list. other. calls. Qed.

Lemma seals_register local did ed25519 curve25519 master_key :
  seals (register_device client token network sp local did ed25519 curve25519 master_key).
Proof using Type.
  unfold register_device, routed, wired.
  apply seals_checked. intros r Hr.
  unfold GrappaClient.list_e2e_devices, GrappaClient.register_e2e_device.
  other. all: calls.
Qed.

Lemma seals_publish_list held master_key list :
  seals (publish_own_list client token network sp held master_key list).
Proof using Type.
  unfold publish_own_list, routed, wired, stored.
  apply keeps_bind; [apply keeps_get_data|]. intros data. destruct (_ || _); [|apply keeps_ret].
  apply seals_checked. intros r Hr.
  other. apply seals_put. cbn [no_text]. eauto.
Qed.

Lemma seals_upload local did : seals (upload_keys client token network sp local did).
Proof using Type.
  unfold upload_keys, routed, wired, stored. destruct (_ && _); [apply keeps_ret|].
  apply seals_checked. intros one_time Hone.
  apply seals_checked. intros fallback Hfall.
  apply seals_checked. intros r Hr.
  assert (own_keys r) as Hkeys.
  { exists local, one_time, fallback. split_and!; [done|done|]. intros key ->.
    destruct (LocalAccount.unpublished_fallback_key local) as [text|]; [|done]. exists text.
    by destruct (signed_key local text); inversion Hfall. }
  unfold GrappaClient.publish_e2e_keys. other. calls.
Qed.

Lemma seals_provision : seals (provision_device client token network sp).
Proof using Type.
  unfold provision_device, check_protocol, Provision.own_identity, held_list, own_master, Provision.own_list,
    migrate_list, renew_legacy_list, raise_pending_list, choose_list, own_certificate,
    top_up_keys, read_store, stored, routed, crypto, wired,
    GrappaClient.fetch_e2e_list, GrappaClient.fetch_e2e_keys.
  other. all: first [apply seals_register | apply seals_publish_list | apply seals_upload | calls].
Qed.
End Provisioning.

(** *** Revoke and reset *)

Section Managing.
Context {M : Type} (o : outside) (l0 : list event) (routes : OwnRoutes.t).
Notation seals m := (keeps (M := M) o (I l0) m).

Lemma seals_publish_tries tries master : seals (publish_tries routes tries master).
Proof using Type.
  induction tries as [|tries IH]; cbn [publish_tries]; [apply keeps_raise|].
  unfold publish_try, saved, GrappaClient.fetch_e2e_list.
  apply keeps_bind; [|intros []; [apply keeps_ret|exact IH]].
  do 2 (apply keeps_bind; [other|intros ?]).
  apply seals_checked. intros r Hr.
  other. all: first [apply seals_put; cbn [no_text]; eauto | calls].
Qed.

Lemma seals_finish_revoke pending : seals (finish_revoke routes pending).
Proof using Type.
  unfold finish_revoke, stop_routing, publish_list, needed_master, or_not_found, saved,
    GrappaClient.drop_e2e_device.
  other. all: first [apply seals_publish_tries | calls].
Qed.

Lemma seals_revoke did : seals (revoke_device routes did).
Proof using Type.
  unfold revoke_device, check_routes, needed_master, saved. other.
  all: apply seals_finish_revoke.
Qed.

Lemma seals_pending_revoke : seals (finish_pending_revoke routes).
Proof using Type. unfold finish_pending_revoke. other. apply seals_finish_revoke. Qed.

Lemma seals_complete_reset : seals (complete_reset routes).
Proof using Type.
  unfold complete_reset, or_not_found, saved, GrappaClient.delete_e2e_identity. other. calls.
Qed.

Lemma seals_reset : seals (reset_identity routes).
Proof using Type.
  unfold reset_identity, check_routes, saved. other. apply seals_complete_reset.
Qed.

Lemma seals_resume_reset : seals (resume_reset routes).
Proof using Type. unfold resume_reset, check_routes. other. apply seals_complete_reset. Qed.
End Managing.

(** *** Pairing *)

Section Pairings.
Context (o : outside) (l0 : list event) (ctx : PairingContext.t).

Section Any.
Context {M : Type}.
Notation seals m := (keeps (M := M) o (I l0) m).

Lemma seals_post id out : pairing_sealed (Outgoing.payload out) -> seals (post ctx id out).
Proof using Type.
  intros Hout. unfold post, called, GrappaClient.post_pairing_message. other. calls.
Qed.

Lemma seals_cleanup id closing : seals (cleanup ctx id closing).
Proof using Type. unfold cleanup, close, GrappaClient.close_pairing. other. calls. Qed.

Lemma seals_close id : seals (close ctx id).
Proof using Type. unfold close, GrappaClient.close_pairing. other. calls. Qed.

Lemma seals_device : seals device_from_store.
Proof using Type. unfold device_from_store, flow_op_of. other. Qed.

Lemma seals_start_creator now : seals (start_creator ctx now).
Proof using Type.
  unfold start_creator, called, flowed, flow_op_of, GrappaClient.create_pairing.
  apply keeps_bind; [other|]. intros data. destruct (match StateData.signed_list data with
    | Some l => _ | None => false end); [other|]. apply keeps_bind; [other|]. intros seed.
  destruct (pairing_offer_available _); other. all: first [apply seals_close | calls].
Qed.

Lemma seals_start_joiner text eligible now : seals (start_joiner_any ctx text eligible now).
Proof using Type.
  unfold start_joiner_any, called, flowed, flow_op_of, GrappaClient.join_pairing.
  apply keeps_bind; [other|]. intros link. apply keeps_bind; [apply seals_device|]. intros device.
  apply keeps_bind; [other; calls|]. intros rendezvous. apply keeps_bind; [other|]. intros seed.
  apply seals_checked. intros [s hello] Hr.
  apply join_any_sealed in Hr. other. all: first [apply seals_cleanup | by apply seals_post].
Qed.
End Any.

Notation seals m := (keeps (M := PairingSession.t) o (I l0) m).

Lemma seals_clean closing : seals (clean ctx closing).
Proof using Type. unfold clean. other. apply seals_cleanup. Qed.

Lemma seals_or_abort m : seals m -> seals (or_abort ctx m).
Proof using Type.
  intros Hm. unfold or_abort, abort, change. other. apply seals_clean.
Qed.

(** A step that seals a message, and what may be done with this message. *)
Lemma seals_sealing {V}
    (f : PairingSession.t -> PairingSession.t * result PairingFlow.Outgoing.t FlowError.t)
    (k : PairingFlow.Outgoing.t -> eff PairingSession.t DriveError.t V) :
  (forall s s' out, f s = (s', Ok out) -> pairing_sealed (Outgoing.payload out)) ->
  (forall out, pairing_sealed (Outgoing.payload out) -> seals (k out)) ->
  seals (bind (session_step f) k).
Proof using Type.
  intros Hf Hk. eapply gives_bind with (V := fun out => pairing_sealed (Outgoing.payload out));
    [|exact Hk].
  apply gives_with_err. intros w Hw. unfold wp, on_mem.
  destruct (f (mem w)) as [s' r] eqn:Heq. split; [by eapply logs_same|].
  intros out ->. by eapply Hf.
Qed.

Lemma seals_post_outgoing out : pairing_sealed (Outgoing.payload out) -> seals (post_outgoing ctx out).
Proof using Type.
  intros Hout. unfold post_outgoing. apply keeps_bind; [apply keeps_get_mem|]. intros s.
  by apply seals_post.
Qed.

(** A program up to the end, with the steps that seal a message and what they
    post. *)
Ltac sealing :=
  repeat first
    [ by apply seals_post_outgoing
    | apply seals_clean
    | apply seals_sealing; [intros s s' out Hs; apply (steps_sealed s s' out); eauto 10|intros out Hout]
    | apply keeps_bind; [other|intros ?]
    | match goal with |- keeps _ _ (if ?b then _ else _) => destruct b; [other|] end ].

Lemma seals_send_join : seals (send_join_if_ready ctx).
Proof using Type.
  unfold send_join_if_ready, flowed. sealing.
Qed.

Lemma seals_refuse reason : seals (refuse ctx reason).
Proof using Type.
  unfold refuse. sealing.
Qed.

Lemma seals_grant grant : seals (publish_grant ctx grant).
Proof using Type.
  unfold publish_grant.
  apply seals_checked. intros r Hr.
  apply keeps_bind; [apply keeps_with_err, seals_put; cbn; by eexists _, _|]. intros _.
  sealing.
Qed.

Lemma seals_finish_creator : seals (finish_creator ctx).
Proof using Type.
  unfold finish_creator, flowed. other. all: first [apply seals_refuse | apply seals_grant].
Qed.

Lemma seals_finish_joiner grant : seals (finish_joiner ctx grant).
Proof using Type.
  unfold finish_joiner, take_grant, flowed, change.
  apply keeps_bind; [apply seals_device|]. intros own. apply keeps_bind; [other|]. intros _.
  apply keeps_bind; [apply keeps_with_err, seals_provision|]. intros _. sealing.
Qed.

Lemma seals_take_events events : seals (take_events ctx events).
Proof using Type.
  induction events as [|event events IH]; cbn [take_events]; [apply keeps_ret|].
  unfold take_event, change. other.
  all: first [apply seals_send_join | apply seals_finish_creator | apply seals_finish_joiner
             | apply seals_clean].
Qed.

Lemma seals_pump : seals (pump ctx).
Proof using Type.
  unfold pump. other. apply seals_or_abort.
  unfold pump_inner, called, session_step, GrappaClient.fetch_pairing_messages. other.
  all: first [apply seals_take_events | calls].
Qed.

Lemma seals_bind_joiner : seals (bind_joiner ctx).
Proof using Type.
  unfold bind_joiner. apply seals_or_abort. unfold bind_joiner_inner, change, flow_op_of. other.
  all: apply seals_device || apply seals_send_join.
Qed.

Lemma seals_confirm typed : seals (confirm ctx typed).
Proof using Type.
  unfold confirm. apply keeps_bind; [unfold prepare_holder, flowed, session_step; other|]. intros _.
  eapply gives_bind with (V := fun r => forall out, r = Ok (Some out) ->
    pairing_sealed (Outgoing.payload out)).
  - intros w Hw. apply wp_attempt. unfold session_step. apply wp_with_err.
    unfold wp, on_mem. destruct (PairingSession.confirm (mem w) typed) as [s' r] eqn:Hc.
    split; [by eapply logs_same|]. intros ? [= <-] out Hr. apply map_err_ok in Hr as ->.
    apply (steps_sealed (mem w) s' out). eauto 10.
  - intros [out|[]]; intros Hout; other; try apply seals_clean.
    apply seals_or_abort. unfold confirm_inner. other; [|apply seals_send_join].
    apply seals_post_outgoing. by apply Hout.
Qed.

Lemma seals_on_push push : seals (on_push ctx push).
Proof using Type.
  unfold on_push, change. other. all: apply seals_pump || apply seals_clean.
Qed.

Lemma seals_cancel : seals (cancel ctx).
Proof using Type. unfold cancel, change. other. apply seals_clean. Qed.

Lemma seals_tick now : seals (tick ctx now).
Proof using Type. unfold tick. other. apply seals_clean. Qed.
End Pairings.

(** *** Consent requests *)

Section Requests.
Context {M : Type} (o : outside) (l0 : list event).
Context (client : GrappaClient.t) (token network : string) (sp : option N).
Notation seals m := (keeps (M := M) o (I l0) m).

Lemma seals_fetch : seals (GrappaClient.fetch_e2e_requests client token network sp).
Proof using Type. unfold GrappaClient.fetch_e2e_requests. other. calls. Qed.
Lemma seals_create r :
  no_text (Body.Create r) -> seals (GrappaClient.create_e2e_request client token network sp r).
Proof using Type. intros Hr. unfold GrappaClient.create_e2e_request. other. calls. Qed.
Lemma seals_accept id line :
  own_consent line -> seals (GrappaClient.accept_e2e_request client token network id sp line).
Proof using Type. intros Hline. unfold GrappaClient.accept_e2e_request. other. calls. Qed.
Lemma seals_refusal id : seals (GrappaClient.refuse_e2e_request client token network id sp).
Proof using Type. unfold GrappaClient.refuse_e2e_request. other. calls. Qed.
Lemma seals_dismiss id line :
  (forall l, line = Some l -> own_consent l) ->
  seals (GrappaClient.dismiss_e2e_request client token network id sp line).
Proof using Type.
  intros Hline. unfold GrappaClient.dismiss_e2e_request. destruct line; other. all: calls.
Qed.
Lemma seals_devices : seals (GrappaClient.list_e2e_devices client token network sp).
Proof using Type. unfold GrappaClient.list_e2e_devices. other. calls. Qed.
End Requests.
End Sends.

#[local] Open Scope act_scope.

Section Handlers.
Context {C : Crypto} {J : Json} {U : UrlLib} {T : StateText} {A : Aead} {O : Olm}.
Context {H : HistoryText} {X : EngineText} {S : OlmSessions} {K : OlmKeys}.
Context {EC : EciesChannel} {EK : EciesKeys} {W : PairingText} {P : PendingText}.
Context {PA : PairingAnswers} {Ch : Chrono}.
Context (opening : list event -> engine_env) (turns : nat) (l0 : list event).
Context (invited : string -> Prop).

Notation sealed_event := (sealed_event invited).
Notation seals m := (holds (adds sealed_event l0) m).

(** ** Parts *)

Lemma seals_engine {E V} h (m : eff E2eEngine.t E V) :
  (forall o l, keeps o (logs (allowed (fun _ => True)) l) m) -> seals (with_held h m).
Proof using Type. intros Hm. apply adds_with_held. intros o. by apply engine_seals. Qed.

Lemma seals_engine_sure {V} h (m : eff E2eEngine.t Empty_set V) :
  (forall o l, keeps o (logs (allowed (fun _ => True)) l) m) -> seals (with_held_sure h m).
Proof using Type. intros Hm. apply adds_with_held_sure. intros o. by apply engine_seals. Qed.

(** More events that were allowed with fewer before them. *)
Lemma adds_more more (s s' : session) :
  (forall before e rest, more = before ++ e :: rest -> sealed_event (done s ++ before) e) ->
  adds sealed_event l0 s -> done s' = done s ++ more -> adds sealed_event l0 s'.
Proof using Type.
  intros Hmore (es & Hes & HP) Hd. exists (es ++ more). split.
  { by rewrite Hd, Hes, app_assoc. }
  intros before e rest Heq. apply app_eq_app in Heq as [more' [[-> Hr]|[-> Hr]]].
  - destruct more' as [|x more']; simplify_list_eq.
    + specialize (Hmore [] e rest eq_refl). rewrite app_nil_r, Hes in Hmore. done.
    + by eapply HP.
  - specialize (Hmore more' e rest Hr). by rewrite app_assoc, <-Hes.
Qed.

#[local] Hint Resolve adds_with_state adds_call_client seals_engine seals_engine_sure : sends.
#[local] Hint Resolve logs_modify silent_expire silent_end silent_release silent_no_such_nick
  silent_confirm_sas silent_confirm_key flush_queue_keeps list_messages_keeps
  send_copies_keeps sync_keeps request_keys_keeps drain_keeps handle_event_keeps
  send_or_queue_keeps : sends.
#[local] Hint Resolve seals_provision seals_revoke seals_pending_revoke seals_reset
  seals_resume_reset seals_start_creator seals_start_joiner seals_pump seals_bind_joiner
  seals_confirm seals_on_push seals_cancel seals_tick seals_close seals_fetch seals_create
  seals_accept seals_refusal seals_dismiss seals_devices : sends.

Lemma seals_store {M F V} h (m0 : M)
    (op : io_env -> disk -> Store.t -> disk * Store.t * result V F) :
  seals (with_state h m0 (on_store op)).
Proof using Type. apply adds_store, sealed_quiet. Qed.
Lemma seals_ensure network : seals (ensure_engine opening network).
Proof using Type. apply adds_ensure, sealed_quiet. Qed.
#[local] Hint Resolve seals_store seals_ensure : sends.

Lemma seals_take_list {V} h (get : E2eEngine.t -> V) (put : E2eEngine.t -> E2eEngine.t) :
  seals (with_held_sure h (bind get_mem (fun e => bind (modify put) (fun _ => ret (get e))))).
Proof using Type. apply seals_engine_sure. intros o l. eng_parts. apply logs_modify. Qed.

Lemma seals_changed h : seals (with_held_sure h take_changed_peers).
Proof using Type. apply seals_take_list. Qed.
Lemma seals_wanted h : seals (with_held_sure h take_keys_wanted).
Proof using Type. apply seals_take_list. Qed.
Lemma seals_alarmed h : seals (with_held_sure h take_trust_changed).
Proof using Type. apply seals_take_list. Qed.
#[local] Hint Resolve seals_changed seals_wanted seals_alarmed : sends.

(** ** Engines *)

(** The events of a run that opens the state file itself. *)
Lemma seals_provision_files client token account network protocol :
  seals (provision_files opening client token account network protocol).
Proof using Type.
  intros o s Hs. unfold provision_files, provision_for_network.
  set (o' := after_events (done s) o).
  destruct (storage_part _ _ _) as [part|]; [|by apply (adds_same _ _ s); [apply app_nil_r|exact Hs]].
  destruct (data_dir _) as [dir|]; [|by apply (adds_same _ _ s); [apply app_nil_r|exact Hs]].
  unfold provision_device_at.
  destruct (Store.open _ _ _) as [d [st|e]]; [|by apply (adds_same _ _ s); [apply app_nil_r|exact Hs]].
  pose proof (seals_provision invited o' [] client token network protocol (mk_world d st tt [])
    (logs_start sealed_event [] d st tt)) as Hw.
  unfold wp in Hw. destruct (provision_device _ _ _ _ _ _) as [w r]. destruct Hw as [(es & Hes & HP) _].
  cbn in Hes. apply (adds_more (log w) s); [|exact Hs|done].
  intros before e rest Heq. apply sealed_later. apply (HP before e rest). by rewrite <-Hes.
Qed.
#[local] Hint Resolve seals_provision_files : sends.

(** ** The inbox and the sends *)

Lemma seals_copy_runs runs client token protocol own_nick h :
  seals (copy_runs runs client token protocol own_nick h).
Proof using Type. revert h. induction runs as [|runs IH]; intros h; cbn [copy_runs]; sends. Qed.
#[local] Hint Resolve seals_copy_runs : sends.

Lemma seals_flush network client token h : seals (flush_engine network client token h).
Proof using Type. unfold flush_engine, SessionInbox.send_copies. sends. Qed.

Lemma seals_ask network client token nicks h : seals (ask_keys network client token nicks h).
Proof using Type. revert h. induction nicks as [|nick nicks IH]; intros h; cbn [ask_keys]; sends. Qed.

Lemma seals_add_all network nicks : seals (add_all_locked network nicks).
Proof using Type. induction nicks as [|nick nicks IH]; cbn [add_all_locked]; sends. Qed.
#[local] Hint Resolve seals_flush seals_ask seals_add_all : sends.

Lemma seals_settle network h : seals (settle_engine network h).
Proof using Type. unfold settle_engine. sends. Qed.
#[local] Hint Resolve seals_settle : sends.
Lemma seals_release outcomes h : seals (release_stale outcomes h).
Proof using Type.
  revert h. induction outcomes as [|[id outcome] outcomes IH]; intros h; cbn [release_stale]; sends.
Qed.
#[local] Hint Resolve seals_release : sends.

Lemma seals_drain_runs runs client token protocol h :
  seals (drain_runs turns runs client token protocol h).
Proof using Type. revert h. induction runs as [|runs IH]; intros h; cbn [drain_runs]; sends. Qed.

Lemma seals_row_runs runs client token protocol row h :
  seals (row_runs runs client token protocol row h).
Proof using Type. revert h. induction runs as [|runs IH]; intros h; cbn [row_runs]; sends. Qed.
#[local] Hint Resolve seals_drain_runs seals_row_runs : sends.

Lemma seals_drain network : seals (drain_network turns network).
Proof using Type. unfold drain_network. sends. Qed.
Lemma seals_read_row row : seals (read_e2e_row opening row).
Proof using Type. unfold read_e2e_row. sends. Qed.
#[local] Hint Resolve seals_drain seals_read_row : sends.

Lemma seals_message payload : seals (handle_e2e_message opening payload).
Proof using Type. unfold handle_e2e_message. sends. Qed.
Lemma seals_incoming payload : seals (handle_e2e_incoming payload).
Proof using Type. unfold handle_e2e_incoming, refresh_for. sends. Qed.
Lemma seals_incoming_lost payload : seals (handle_e2e_incoming_lost payload).
Proof using Type. unfold handle_e2e_incoming_lost, refresh_for. sends. Qed.
Lemma seals_send network nick body : seals (handle_send_locked network nick body).
Proof using Type. unfold handle_send_locked. sends. Qed.
#[local] Hint Resolve seals_message seals_incoming seals_incoming_lost seals_send : sends.

Lemma seals_send_action network nick words : seals (handle_send_locked_action network nick words).
Proof using Type. unfold handle_send_locked_action. sends. Qed.
Lemma seals_tick_engine network : seals (tick_e2e_engine network).
Proof using Type. unfold tick_e2e_engine. sends. Qed.
Lemma seals_end_engines networks : seals (end_engines networks).
Proof using Type. induction networks as [|network networks IH]; cbn [end_engines]; sends. Qed.
#[local] Hint Resolve seals_send_action seals_tick_engine seals_end_engines : sends.

Lemma seals_offer_gone : seals offer_gone.
Proof using Type. unfold offer_gone. sends. Qed.
#[local] Hint Resolve seals_offer_gone : sends.

Lemma seals_tick_engines : seals tick_e2e_engines.
Proof using Type. unfold tick_e2e_engines. sends. Qed.
Lemma seals_end_sessions : seals end_e2e_sessions.
Proof using Type. unfold end_e2e_sessions. sends. Qed.
Lemma seals_no_such_nick payload : seals (handle_no_such_nick_push payload).
Proof using Type. unfold handle_no_such_nick_push. sends. Qed.
Lemma seals_sas step : seals (handle_e2e_sas step).
Proof using Type. unfold handle_e2e_sas, end_sas_check. sends. Qed.
Lemma seals_peer_key step network nick key : seals (handle_e2e_peer_key step network nick key).
Proof using Type. unfold handle_e2e_peer_key, verify_peer_key, show_peer_key. sends. Qed.
#[local] Hint Resolve seals_tick_engines seals_end_sessions seals_no_such_nick seals_sas
  seals_peer_key : sends.

(** ** Pairing *)

Lemma seals_take_engine network create : seals (take_pairing_engine opening network create).
Proof using Type. unfold take_pairing_engine, open_pairing_engine. sends. Qed.
Lemma seals_drive {V} active h (m : eff PairingSession.t DriveError.t V) :
  (forall o, keeps o (logs sealed_event l0) m) -> seals (drive_pairing active h m).
Proof using Type. intros Hm. unfold drive_pairing. sends. Qed.
Lemma seals_show_pairing status : seals (show_pairing status).
Proof using Type. unfold show_pairing, show_pairing_kind. sends. Qed.
#[local] Hint Resolve seals_take_engine seals_drive seals_show_pairing : sends.

Ltac pair_parts :=
  unfold show_pairing_kind, clear_pairing_dialog, show_pairing_dialog, set_offer_dialog,
    take_pairing, put_pairing; sends.

Lemma seals_end_pairing : seals (end_active_pairing opening).
Proof using Type. unfold end_active_pairing. pair_parts. Qed.
Lemma seals_follow active r : seals (follow_offered_network opening active r).
Proof using Type. unfold follow_offered_network, rebind_joiner, cancel_first. pair_parts. Qed.
Lemma seals_finish_step active error : seals (finish_pairing_step active error).
Proof using Type. unfold finish_pairing_step. pair_parts. Qed.
#[local] Hint Resolve seals_end_pairing seals_follow seals_finish_step : sends.

Lemma seals_step client token active h m :
  (forall o ctx, keeps o (logs sealed_event l0) (m ctx)) ->
  seals (step_pairing opening client token active h m).
Proof using Type. intros Hm. unfold step_pairing. pair_parts. Qed.
#[local] Hint Resolve seals_step : sends.

Lemma seals_pump_pairing : seals (pump_pairing opening).
Proof using Type. unfold pump_pairing. pair_parts. Qed.
Lemma seals_pairing_push payload : seals (handle_e2e_pairing opening payload).
Proof using Type. unfold handle_e2e_pairing. pair_parts. Qed.
Lemma seals_retire : seals retire_expired_offer.
Proof using Type. unfold retire_expired_offer. pair_parts. Qed.
Lemma seals_offer topic payload : seals (handle_e2e_pairing_offer topic payload).
Proof using Type. unfold handle_e2e_pairing_offer. pair_parts. Qed.
#[local] Hint Resolve seals_pump_pairing seals_pairing_push seals_retire seals_offer : sends.

Lemma seals_tick_pairing : seals (tick_pairing opening).
Proof using Type. unfold tick_pairing. pair_parts. Qed.
Lemma seals_close_stale : seals close_stale_pairings.
Proof using Type.
  unfold close_stale_pairings, close_stale. sends.
Qed.
Lemma seals_start_pairing client token network now :
  seals (start_pairing opening client token network now).
Proof using Type. unfold start_pairing. pair_parts. Qed.
Lemma seals_join_pairing client token network text candidates now :
  seals (join_pairing opening client token network text candidates now).
Proof using Type. unfold join_pairing. pair_parts. Qed.
Lemma seals_type_code client token typed : seals (type_code opening client token typed).
Proof using Type. unfold type_code. pair_parts. Qed.
#[local] Hint Resolve seals_tick_pairing seals_close_stale seals_start_pairing
  seals_join_pairing seals_type_code : sends.

Lemma seals_pair network action : seals (run_e2e_pair opening network action).
Proof using Type.
  unfold run_e2e_pair, accept_offer, replace_pairing, cancel_pairing. pair_parts.
Qed.
#[local] Hint Resolve seals_pair : sends.
(** ** The own identity *)

Lemma seals_settle_reset network h : seals (settle_reset network h).
Proof using Type. unfold settle_reset. sends. Qed.
Lemma seals_manage_kind kind hint message : seals (show_manage_kind kind hint message).
Proof using Type. apply adds_show. Qed.
#[local] Hint Resolve seals_settle_reset seals_manage_kind : sends.

Lemma seals_finished r : seals (show_finished_revoke r).
Proof using Type. unfold show_finished_revoke. sends. Qed.
#[local] Hint Resolve seals_finished : sends.
Lemma seals_resume network : seals (resume_pending_manage network).
Proof using Type. unfold resume_pending_manage. sends. Qed.
Lemma seals_show_devices client token network : seals (show_devices client token network).
Proof using Type. unfold show_devices, show_recovery, read_device_records, not_ready. sends. Qed.
Lemma seals_show_recovery client token network own reason ids :
  seals (show_recovery client token network own reason ids).
Proof using Type. unfold show_recovery, read_device_records. sends. Qed.
#[local] Hint Resolve seals_resume seals_show_devices seals_show_recovery : sends.

Lemma seals_manage_step client token network own_nick asked action :
  seals (manage_step client token network own_nick asked action).
Proof using Type.
  unfold manage_step, run_revoke, confirm_reset, ask_reset, not_ready. sends.
Qed.
Lemma seals_forget network own_nick confirmed :
  seals (run_e2e_forget opening network own_nick confirmed).
Proof using Type. unfold run_e2e_forget. sends. Qed.
#[local] Hint Resolve seals_manage_step seals_forget : sends.
Lemma seals_manage network action : seals (run_e2e_manage opening network action).
Proof using Type. unfold run_e2e_manage, take_questions, not_ready. sends. Qed.
Lemma seals_identity network session : seals (show_e2e_identity opening network session).
Proof using Type. unfold show_e2e_identity. sends. Qed.
#[local] Hint Resolve seals_manage seals_identity : sends.

(** ** Consent *)

(** The consent lines of a session are own ones. *)
Lemma no_line l : None = Some l -> own_consent l.
Proof using Type. done. Qed.

Lemma consent_context_own w network client token protocol line :
  consent_context w network = Some (client, token, protocol, line) -> own_consent line.
Proof using Type.
  unfold consent_context. intros (n & _ & Hc)%bind_Some. destruct (n <? _)%N; [done|].
  apply bind_Some in Hc as ([c t] & _ & Hc). apply bind_Some in Hc as (h & _ & Hc).
  apply bind_Some in Hc as (l & Hl & [= <- <- <- <-]). exists (Held.engine h), (Held.state h).
  by destruct (own_consent_line _ _); simplify_eq/=.
Qed.

Lemma dismiss_line_own w cancelling network request line :
  dismiss_line w cancelling network request = Some line ->
  forall l, line = Some l -> own_consent l.
Proof using Type.
  unfold dismiss_line. destruct (_ && _); [|by intros [= <-] ?].
  intros (h & _ & Hd)%bind_Some. apply bind_Some in Hd as (l & Hl & [= <-]).
  intros ? [= <-]. exists (Held.engine h), (Held.state h).
  by destruct (own_consent_line _ _); simplify_eq/=.
Qed.
#[local] Hint Resolve no_line consent_context_own : sends.

Lemma seals_start_encrypted client token network request :
  seals (start_encrypted client token network request).
Proof using Type. unfold start_encrypted, push_both. sends. Qed.
#[local] Hint Resolve seals_start_encrypted : sends.
Lemma seals_activate network request : seals (activate_accepted_request opening network request).
Proof using Type. unfold activate_accepted_request. sends. Qed.
#[local] Hint Resolve seals_activate : sends.
Lemma seals_take_request network request : seals (take_request opening network request).
Proof using Type. unfold take_request, ensure_plain_query_for_request. sends. Qed.
#[local] Hint Resolve seals_take_request : sends.
Lemma seals_sync network : seals (sync_e2e_requests opening network).
Proof using Type. unfold sync_e2e_requests. sends. Qed.
Lemma seals_request_push payload : seals (handle_e2e_request_push opening payload).
Proof using Type. unfold handle_e2e_request_push. sends. Qed.
Lemma seals_request_gone payload : seals (handle_e2e_request_gone_push payload).
Proof using Type. unfold handle_e2e_request_gone_push. sends. Qed.
#[local] Hint Resolve seals_sync seals_request_push seals_request_gone : sends.

Lemma seals_rekey network peer : seals (handle_e2e_rekey network peer).
Proof using Type. unfold handle_e2e_rekey. sends. Qed.
Lemma seals_create_request client token network peer protocol line :
  invited peer -> own_consent line ->
  seals (create_request opening client token network peer protocol line).
Proof using Type.
  intros Hpeer Hline. unfold create_request, ensure_plain_query_for_request.
  destruct (E2eRequestCreate.new peer line) as [request|err] eqn:Hr; [|sends].
  apply holds_bind; [|intros created; sends]. apply adds_call_client. intros o.
  apply seals_create. cbn. by exists peer, line.
Qed.

Lemma seals_action_start retry network peer id :
  invited peer -> seals (action_start opening retry network peer id).
Proof using Type.
  intros Hpeer. unfold action_start, now_millis. apply holds_bind; [apply holds_get_worker|].
  intros w. destruct (has_locked_entry _ _ _); [sends|].
  destruct (consent_context w network) as [[[[client token] protocol] line]|] eqn:Hc; [|sends].
  apply consent_context_own in Hc. apply holds_bind; [sends|]. intros now.
  destruct (_ && _); [sends|]. by apply seals_create_request.
Qed.
Lemma seals_action_open network peer id : seals (action_open opening network peer id).
Proof using Type. unfold action_open. sends. Qed.
Lemma seals_action_accept network id : seals (action_accept opening network id).
Proof using Type.
  unfold action_accept. apply holds_bind; [apply holds_get_worker|]. intros w.
  destruct (consent_context w network) as [[[[client token] protocol] line]|] eqn:Hc; [|sends].
  apply consent_context_own in Hc. sends.
Qed.
Lemma seals_action_refuse network id : seals (action_refuse network id).
Proof using Type. unfold action_refuse. sends. Qed.
Lemma seals_action_dismiss cancelling network id : seals (action_dismiss cancelling network id).
Proof using Type.
  unfold action_dismiss. apply holds_bind; [apply holds_get_worker|]. intros w.
  destruct (_ !! _) as [request|]; [|sends]. destruct (client_token w) as [[client token]|]; [|sends].
  destruct (WorkerState.server_protocol_version w) as [protocol|]; [|sends].
  destruct (dismiss_line _ _ _ _) as [line|] eqn:Hl; [|sends].
  pose proof (dismiss_line_own _ _ _ _ _ Hl). sends.
Qed.
#[local] Hint Resolve seals_rekey seals_action_start seals_action_open seals_action_accept
  seals_action_refuse seals_action_dismiss : sends.

Lemma seals_request_action action network peer id :
  invited peer -> seals (handle_e2e_request_action opening action network peer id).
Proof using Type. intros Hpeer. unfold handle_e2e_request_action. sends. Qed.

Lemma seals_provision_network network : seals (provision_network opening network).
Proof using Type. unfold provision_network. sends. Qed.
#[local] Hint Resolve seals_provision_network : sends.
Lemma seals_start_engines : seals (start_e2e_engines opening turns).
Proof using Type. unfold start_e2e_engines, start_network. sends. Qed.
#[local] Hint Resolve seals_request_action seals_start_engines : sends.

(** ** Frames and events *)

Lemma seals_frame frame : seals (handle_frame opening frame).
Proof using Type.
  unfold handle_frame, handle_kind, handle_isupport_changed, handle_send_dropped, push_members_update. sends.
  apply seals_engine_sure. intros o l. apply silent_dropped.
Qed.

Lemma seals_event e :
  (forall action network peer id, e = E2eRequestAction action network peer id -> invited peer) ->
  seals (handle_worker_event opening turns e).
Proof using Type.
  intros He. destruct e; unfold handle_worker_event, handle_connected, answer_pairing_offer; sends.
  all: first [apply seals_frame | eapply seals_request_action, He; done].
Qed.
End Handlers.

Section Session.
Context {C : Crypto} {J : Json} {U : UrlLib} {T : StateText} {A : Aead} {O : Olm}.
Context {H : HistoryText} {X : EngineText} {S : OlmSessions} {K : OlmKeys}.
Context {EC : EciesChannel} {EK : EciesKeys} {W : PairingText} {P : PendingText}.
Context {PA : PairingAnswers} {Ch : Chrono}.
Context (opening : list event -> engine_env) (turns : nat).

(** A request to chat with this nick is one of the events. *)
Definition invited_in (events : list worker_event) (peer : string) : Prop :=
  exists action network id, E2eRequestAction action network peer id ∈ events.

End Session.
