(* ===== verification/SessionStateFacts.v ===== *)
(** * What a session does after a reset, with a question and with a frame

    A network whose identity was reset has no engine work; a reset and a forget
    run only when the question of the same network is the step before them; an
    event of an unknown kind changes nothing; and what the state of a locked
    window promises. *)

From S2P Require Import Prelude.
From S2P Require Import RustStr.
From S2P Require Import Interfaces.
From S2P Require Import Isupport.
From S2P Require Import Wire.
From S2P Require Import Device.
From S2P Require Import Manage.
From S2P Require Import Trust.
From S2P Require Import Files.
From S2P Require Import History.
From S2P Require Import State.
From S2P Require Import Versions.
From S2P Require Import DeviceRoutes.
From S2P Require Import Pacing.
From S2P Require Import Pairing.
From S2P Require Import PairingFlow.
From S2P Require Import PairingGrant.
From S2P Require Import Refusal.
From S2P Require Import IdentityRoutes.
From S2P Require Import Account.
From S2P Require Import SendDoor.
From S2P Require Import Effects.
From S2P Require Import Client.
From S2P Require Import Provision.
From S2P Require Import Revoke.
From S2P Require Import PairingDrive.
From S2P Require Import EffectsFacts.
From S2P Require Import EngineTypes.
From S2P Require Import Engine.
From S2P Require Import EngineReceive.
From S2P Require Import EngineSend.
From S2P Require Import EngineCopies.
From S2P Require Import EngineFacts.
From S2P Require Import EngineSendFacts.
From S2P Require Import Slash.
From S2P Require Import E2eView.
From S2P Require Import Runtime.
From S2P Require Import Session.
From S2P Require Import SessionViews.
From S2P Require Import SessionEngines.
From S2P Require Import SessionInbox.
From S2P Require Import SessionPairing.
From S2P Require Import SessionManage.
From S2P Require Import SessionConsent.
From S2P Require Import SessionFrames.
From S2P Require Import SessionFacts.
From stdpp Require Import options.

#[local] Open Scope act_scope.

Section State.
Context {C : Crypto} {J : Json} {U : UrlLib} {T : StateText} {A : Aead} {O : Olm}.
Context {H : HistoryText} {X : EngineText} {S : OlmSessions} {K : OlmKeys}.
Context {EC : EciesChannel} {EK : EciesKeys} {W : PairingText} {P : PendingText}.
Context {PA : PairingAnswers} {Ch : Chrono}.
Context (opening : list event -> engine_env) (turns : nat).
Implicit Types (s : session).

Notation runtime s := (WorkerState.e2e (worker s)).

(** ** Frames *)

Lemma frame_unknown_kind frame o s :
  ClientEventKind.from_payload (PhoenixMessage.payload frame) = None ->
  PhoenixMessage.topic frame <> ADMIN_EVENTS_TOPIC -> PhoenixMessage.event frame <> "phx_reply" ->
  handle_frame opening frame o s = (s, tt).
Proof using Type.
  intros Hk Ht He. unfold handle_frame. rewrite Hk, !bool_decide_false by done. done.
Qed.

(** A pushed pairing offer is of a kind that the table of kinds does not have:
    the frame is dropped before its own branch. *)
Theorem offer_frame_dropped frame o s :
  (v ← json_get (PhoenixMessage.payload frame) "kind"; as_str v) = Some "e2e_pairing_offered" ->
  PhoenixMessage.topic frame <> ADMIN_EVENTS_TOPIC -> PhoenixMessage.event frame <> "phx_reply" ->
  handle_frame opening frame o s = (s, tt).
Proof using Type.
  intros Hk. apply frame_unknown_kind. unfold ClientEventKind.from_payload.
  destruct (json_get _ "kind") as [v|]; simpl in *; [|done]. rewrite Hk. simpl.
  apply ClientEventKind.offer_kind_unknown.
Qed.

(** ** After a reset *)

Definition is_reset (network : string) s : Prop := network ∈ E2eRuntime.reset (runtime s).

Lemma ensure_reset network o s :
  is_reset network s -> ensure_engine opening network o s = (s, false).
Proof using Type.
  intros Hr. unfold ensure_engine, act_bind, get_worker. by rewrite bool_decide_true.
Qed.

Lemma read_row_reset row o s :
  is_reset (InboxRow.network row) s -> read_e2e_row opening row o s = (s, tt).
Proof using Type.
  intros Hr. unfold read_e2e_row, act_bind, get_worker. by rewrite ensure_reset.
Qed.

(** The disk, the log and the engines are as they were. *)
Definition untouched s0 s : Prop :=
  drive s = drive s0 /\ done s = done s0 /\
  E2eRuntime.engines (runtime s) = E2eRuntime.engines (runtime s0).

(** Only something was shown. *)
Definition only_shows s s' : Prop :=
  exists events, s' = mk_session (drive s) (worker s) (shown s ++ events) (done s).

Lemma shows_nothing s : only_shows s s.
Proof using Type. exists []. rewrite app_nil_r. by destruct s. Qed.
Lemma shows_status kind o s : only_shows s (status kind o s).1.
Proof using Type. by eexists. Qed.

Lemma untouched_refresh s0 network nick : holds (untouched s0) (refresh_locked_view network nick).
Proof using Type.
  unfold refresh_locked_view, mark_active_window_read, refresh_network_groups, show_locked_rows,
    load_locked_rows, now_stamp. act_parts; try (intros o t Ht; exact Ht).
Qed.

(** C32. After a reset the engine of a network is left alone. A text and an
    action of its locked window only show a status: the disk, the requests and
    the whole worker are as they were. An inbox row of it sends nothing and
    changes no file and no engine, and a tick of its engine does nothing at
    all. *)
Theorem reset_network_silent network o s :
  is_reset network s ->
  (forall nick body, only_shows s (handle_send_locked network nick body o s).1) /\
  (forall nick words, only_shows s (handle_send_locked_action network nick words o s).1) /\
  (forall payload row, route_e2e_message payload (WorkerState.server_protocol_version (worker s))
       = Some row -> InboxRow.network row = network ->
     untouched s (handle_e2e_message opening payload o s).1) /\
  tick_e2e_engine network o s = (s, tt).
Proof using Type.
  intros Hr.
  assert (forall nick body, only_shows s (handle_send_locked network nick body o s).1) as Hsend.
  { intros nick body. unfold handle_send_locked.
    destruct (is_empty (trim body)); [apply shows_nothing|]. unfold act_bind at 1, get_worker.
    destruct (client_token (worker s)) as [[client token]|]; [|apply shows_status].
    rewrite bool_decide_true by done. apply shows_status. }
  split_and!; [done| | |].
  - intros nick words. unfold handle_send_locked_action.
    destruct (is_empty (trim words)); [apply shows_nothing|apply Hsend].
  - intros payload row Hrow Hn. unfold handle_e2e_message.
    unfold act_bind at 1, get_worker. rewrite Hrow.
    unfold act_bind at 1, on_e2e, E2eRuntime.take_incoming.
    destruct (E2eRuntime.remove_first _ _) as [[found rows]|]; cbv zeta; unfold act_bind;
      (rewrite read_row_reset; [|by rewrite Hn]); [by apply untouched_refresh|by repeat split].
  - unfold tick_e2e_engine, act_bind, get_e2e. by rewrite bool_decide_true.
Qed.

(** No event: the log stays as it is. *)
Lemma adds_none s0 s : adds (fun _ _ => False) (done s0) s -> done s = done s0.
Proof using Type.
  intros (es & Hes & HP). destruct es as [|e es]; [by rewrite app_nil_r in Hes|].
  by destruct (HP [] e es eq_refl).
Qed.

Lemma adds_none_start s : adds (fun _ _ => False) (done s) s.
Proof using Type. exists []. rewrite app_nil_r. split; [done|]. by intros []. Qed.

(** The request for keys by hand is the exception: it goes to the engine that
    the reset left in the map. *)
Lemma rekey_ignores_reset network peer client token h o s :
  is_reset network s ->
  client_token (worker s) = Some (client, token) ->
  E2eRuntime.engines (runtime s) !! network = Some h ->
  done (handle_e2e_rekey network peer o s).1 =
    done (with_held h (request_keys client token peer) o s).1.
Proof using Type.
  intros _ Hc Hh. unfold handle_e2e_rekey.
  unfold act_bind at 1, get_worker. rewrite Hc. unfold held_of, get_e2e, act_bind, act_ret.
  rewrite Hh. destruct (with_held h _ o s) as [s' [h' answer]]. cbn.
  assert (forall m : act unit, (forall l, holds (adds (fun _ _ => False) l) m) ->
    forall t, done (m o t).1 = done t) as Hquiet.
  { intros m Hm t. apply adds_none, Hm, adds_none_start. }
  destruct answer as [[]|error]; cbn; by rewrite Hquiet by (intros l; sends).
Qed.

(** ** The state of a locked window *)

Lemma chat_active_iff signals :
  locked_chat_state signals = ChatState.Active <->
  ChatSignals.reset signals = false /\ ChatSignals.engine signals = true /\
  ChatSignals.trust_alarm signals = false /\ ChatSignals.pairing signals = false /\
  ChatSignals.ready signals = true /\ ChatSignals.last_drop signals = None /\
  (ChatSignals.sas_verified signals = true \/ ChatSignals.key_verified signals = true).
Proof using Type.
  destruct signals as [keys [] [] [] [] revoked [] sas key drop]; cbn;
    try (split; [destruct revoked, drop as [[]|], keys; done|naive_solver]).
  destruct drop as [[]|]; cbn; try (split; [destruct revoked; done|naive_solver]).
  destruct revoked, sas, key; cbn; split; try done; naive_solver.
Qed.

Lemma ready_picks e st nick : is_ready e st nick = true <-> pick_devices e st nick <> [].
Proof using Type.
  unfold is_ready, pick_devices. set (ok := fun entry => _ && _).
  set (l := List.filter ok (entries_of e)).
  trans (l <> []).
  - rewrite existsb_exists. subst l. split.
    + intros (x & Hx & Hok) Hnil. assert (x ∈ List.filter ok (entries_of e)) as Hin.
      { by apply list_elem_of_In, filter_In. }
      rewrite Hnil in Hin. by apply not_elem_of_nil in Hin.
    + destruct (List.filter ok (entries_of e)) as [|x l] eqn:Hl; [done|]. intros _. exists x.
      apply filter_In. rewrite Hl. by left.
  - pose proof (merge_sort_Permutation entry_le l) as Hp.
    assert (0 < N.to_nat MAX_LIST_DEVICES)%nat as Hmax by (by vm_compute; lia).
    destruct (merge_sort entry_le l) as [|x m] eqn:Hm.
    + apply Permutation_nil in Hp as ->. by rewrite take_nil.
    + destruct (N.to_nat MAX_LIST_DEVICES); [lia|]. split; [done|]. intros _ ->.
      by apply Permutation_nil_r in Hp.
Qed.

(** C33. The state [Active] of a locked window is shown exactly when a text can go
    out and the peer was checked: the network is not reset and has an engine, no
    alarm and no pairing is open, the last own text was not dropped, the engine
    has a device of the peer to send to, and the user checked its master by the
    code or by the key. *)
Theorem active_window_exact (w : WorkerState.t) network nick :
  let r := WorkerState.e2e w in
  locked_entry_state w network nick = ChatState.Active <->
  network ∉ E2eRuntime.reset r /\ (network, nick) ∉ E2eRuntime.trust_alarm r /\
  (forall active, E2eRuntime.pairing r = Some active -> ActivePairing.network active <> network) /\
  exists h, E2eRuntime.engines r !! network = Some h /\
    pick_devices (Held.engine h) (Held.state h) nick <> [] /\
    last_own_drop (Held.engine h) network nick = None /\
    let trust := StateData.trust (Store.data (Held.state h)) in
    (PeerTrust.is_sas_verified trust network nick = true \/
     PeerTrust.is_key_verified trust network nick = true).
Proof using Type.
  intros r. unfold locked_entry_state. rewrite chat_active_iff. unfold chat_signals. fold r.
  cbn -[pick_devices]. rewrite bool_decide_eq_false, bool_decide_eq_true, bool_decide_eq_false.
  assert (match E2eRuntime.pairing r with
          | Some active => bool_decide (ActivePairing.network active = network)
          | None => false
          end = false <->
          (forall active, E2eRuntime.pairing r = Some active -> ActivePairing.network active <> network))
    as ->.
  { destruct (E2eRuntime.pairing r) as [active|]; [|by split].
    rewrite bool_decide_eq_false. naive_solver. }
  destruct (E2eRuntime.engines r !! network) as [h|]; cbn -[pick_devices].
  - rewrite ready_picks. naive_solver.
  - split; [by intros (_ & [? ?] & _)|]. by intros (_ & _ & _ & h & ? & _).
Qed.
End State.

#[local] Open Scope act_scope.

Section Questions.
Context {C : Crypto} {J : Json} {U : UrlLib} {T : StateText} {A : Aead} {O : Olm}.
Context {H : HistoryText} {X : EngineText} {S : OlmSessions} {K : OlmKeys}.
Context {EC : EciesChannel} {EK : EciesKeys} {W : PairingText} {P : PendingText}.
Context {PA : PairingAnswers} {Ch : Chrono}.
Context (opening : list event -> engine_env).
Implicit Types (s : session) (r : E2eRuntime.t).

Notation runtime s := (WorkerState.e2e (worker s)).

(** The networks of the two questions that are open. *)
Definition questions r : option string * option string :=
  (E2eRuntime.reset_asked r, E2eRuntime.forget_asked r).
Definition open_questions s : option string * option string := questions (runtime s).

(** ** Handlers that ask nothing *)

Section Same.
Context (v : option string * option string).
Notation same m := (holds (fun s => open_questions s = v) m).

Lemma same_worker f : (forall w, WorkerState.e2e (f w) = WorkerState.e2e w) -> same (change_worker f).
Proof using Type. intros Hf o s <-. unfold open_questions. cbn. by rewrite Hf. Qed.

Lemma same_e2e f : (forall r, questions (f r) = questions r) -> same (change_e2e f).
Proof using Type. intros Hf o s <-. unfold open_questions. cbn. apply Hf. Qed.

Lemma same_on_e2e {V} (f : E2eRuntime.t -> E2eRuntime.t * V) :
  (forall r, questions (f r).1 = questions r) -> same (on_e2e f).
Proof using Type.
  intros Hf o s <-. unfold open_questions, on_e2e. specialize (Hf (runtime s)).
  by destruct (f (runtime s)).
Qed.

Lemma same_show e : same (show e).
Proof using Type. by intros o s. Qed.

Lemma same_run_step {M E V} st (m0 : M) (m : eff M E V) : same (run_step st m0 m).
Proof using Type. intros o s <-. unfold run_step. by destruct (m o _). Qed.

Lemma same_open_files {V} f : same (open_files (V := V) opening f).
Proof using Type. intros o s <-. unfold open_files. by destruct (f _ _). Qed.

Lemma same_peers network peers history r :
  questions (add_history_peers network peers history r) = questions r.
Proof using Type. unfold add_history_peers. by apply foldl_part. Qed.

#[local] Hint Resolve same_show same_run_step same_open_files : same.
#[local] Hint Extern 1 (holds _ (change_worker _)) => (apply same_worker; by intros []) : same.
#[local] Hint Extern 1 (holds _ (change_e2e _)) =>
  (apply same_e2e; intros ?; first [reflexivity | apply same_peers]) : same.
#[local] Hint Extern 1 (holds _ (on_e2e _)) =>
  (apply same_on_e2e; intros ?; by repeat case_match) : same.

Ltac same := act_parts; auto with same.

Lemma same_with_state {M E V} h (m0 : M) (m : eff M E V) : same (with_state h m0 m).
Proof using Type. unfold with_state. same. Qed.
Lemma same_with_held {E V} h (m : eff E2eEngine.t E V) : same (with_held h m).
Proof using Type. unfold with_held. same. Qed.
Lemma same_call {E V} (m : eff unit E V) : same (call_client m).
Proof using Type. unfold call_client. same. Qed.
Lemma same_take network : same (take_held network).
Proof using Type. unfold take_held. same. Qed.
Lemma same_put network h : same (put_held network h).
Proof using Type. unfold put_held. same. Qed.
#[local] Hint Resolve same_with_state same_with_held same_call same_take same_put : same.

Lemma same_sure {V} h (m : eff E2eEngine.t Empty_set V) : same (with_held_sure h m).
Proof using Type. unfold with_held_sure. same. Qed.
Lemma same_held_of network : same (held_of network).
Proof using Type. unfold held_of. same. Qed.
Lemma same_read : same mark_active_window_read.
Proof using Type. unfold mark_active_window_read, refresh_network_groups. same. Qed.
#[local] Hint Resolve same_sure same_held_of same_read : same.
Lemma same_refresh network nick : same (refresh_locked_view network nick).
Proof using Type.
  unfold refresh_locked_view, show_locked_rows, load_locked_rows, now_stamp. same. by intros o s.
Qed.
#[local] Hint Resolve same_refresh : same.
Lemma same_settle network h : same (settle_reset network h).
Proof using Type. unfold settle_reset. same. Qed.
Lemma same_history network : same (open_history_only opening network).
Proof using Type. unfold open_history_only. same. Qed.
Lemma same_install network h : same (install_engine network h).
Proof using Type. unfold install_engine, take_stale. same. Qed.
#[local] Hint Resolve same_settle same_history same_install : same.
Lemma same_ensure network : same (ensure_engine opening network).
Proof using Type. unfold ensure_engine, forget_history, mark_unavailable. same. Qed.
#[local] Hint Resolve same_ensure : same.
Lemma same_take_engine network create : same (take_pairing_engine opening network create).
Proof using Type.
  unfold take_pairing_engine, open_pairing_engine, forget_history, unmark_unavailable. same.
Qed.
#[local] Hint Resolve same_take_engine : same.
Lemma same_recovery client token network own reason ids :
  same (show_recovery client token network own reason ids).
Proof using Type. unfold show_recovery, read_device_records. same. Qed.
#[local] Hint Resolve same_recovery : same.
Lemma same_devices client token network : same (show_devices client token network).
Proof using Type. unfold show_devices, read_device_records, not_ready, show_manage_kind. same. Qed.
Lemma same_revoke client token network own_nick did :
  same (run_revoke client token network own_nick did).
Proof using Type. unfold run_revoke, not_ready, show_manage_kind. same. Qed.

(** A confirmed reset and a confirmed forget. *)
Lemma same_reset client token network own_nick :
  same (confirm_reset client token network own_nick (Some network)).
Proof using Type.
  unfold confirm_reset. rewrite bool_decide_false by naive_solver.
  unfold not_ready, show_manage_kind. same.
Qed.
Lemma same_forget network own_nick : same (run_e2e_forget opening network own_nick true).
Proof using Type. unfold run_e2e_forget, show_manage_kind. simpl negb. same. Qed.
End Same.

(** ** Steps *)

(** The session with both questions closed. *)
Definition closed s : session :=
  mk_session (drive s)
    (WorkerState.set_e2e
       (E2eRuntime.set_forget_asked None (E2eRuntime.set_reset_asked None (runtime s)))
       (worker s)) (shown s) (done s).

(** A step of the user after the questions were closed. *)
Definition answered (asked forget_asked : option string) (network : string)
    (action : E2eManageAction.t) : act unit :=
  let* w := get_worker in
  match client_token w with
  | None => act_ret tt
  | Some (client, token) =>
      match WorkerState.own_nicks w !! network with
      | None => not_ready
      | Some own_nick =>
          match action with
          | E2eManageAction.Forget => run_e2e_forget opening network own_nick false
          | E2eManageAction.ForgetConfirm =>
              run_e2e_forget opening network own_nick (bool_decide (forget_asked = Some network))
          | _ =>
              let* ready :=
                if forgotten_reset_step (WorkerState.e2e w) network action then act_ret true
                else ensure_engine opening network in
              if ready : bool then manage_step client token network own_nick asked action else
              let* r := get_e2e in
              match action, E2eRuntime.recovery r !! network with
              | E2eManageAction.Devices, Some reason =>
                  show_recovery client token network "" reason None
              | _, _ => not_ready
              end
          end
      end
  end.

Lemma manage_answered network action o s :
  run_e2e_manage opening network action o s =
  answered (open_questions s).1 (open_questions s).2 network action o (closed s).
Proof using Type. reflexivity. Qed.

Lemma answered_keeps v network asked forget_asked action :
  action <> E2eManageAction.Reset -> action <> E2eManageAction.Forget ->
  (action = E2eManageAction.ResetConfirm -> asked = Some network) ->
  (action = E2eManageAction.ForgetConfirm -> forget_asked = Some network) ->
  holds (fun s => open_questions s = v) (answered asked forget_asked network action).
Proof using Type.
  intros Hr Hf Hrc Hfc. unfold answered, not_ready, show_manage_kind.
  destruct action; try done; try rewrite bool_decide_true by auto; try rewrite Hrc by done;
    act_parts; try apply same_show; try apply same_ensure; try apply same_forget;
    try apply same_recovery; try apply same_devices; try apply same_revoke; apply same_reset.
Qed.

(** Asking. *)
Lemma answered_ask_reset asked forget_asked network o s :
  open_questions s = (None, None) ->
  open_questions (answered asked forget_asked network E2eManageAction.Reset o s).1
    ∈ [(None, None); (Some network, None)].
Proof using Type.
  intros Hs. unfold answered, not_ready, show_manage_kind.
  unfold act_bind at 1, get_worker. rewrite !list_elem_of_In.
  destruct (client_token (worker s)) as [[client token]|]; [|left; symmetry; exact Hs].
  destruct (_ !! network) as [own_nick|]; [|left; symmetry; exact Hs].
  unfold act_bind at 1.
  assert (open_questions ((if forgotten_reset_step (runtime s) network E2eManageAction.Reset
      then act_ret true else ensure_engine opening network) o s).1 = (None, None)) as Hready.
  { destruct (forgotten_reset_step _ _ _); [done|]. by apply same_ensure. }
  match type of Hready with open_questions (?m o s).1 = _ => destruct (m o s) as [s' [|]] end;
    cbn in *.
  - right. left. unfold open_questions, questions in *. cbn. congruence.
  - left. symmetry. exact Hready.
Qed.

Lemma answered_ask_forget asked forget_asked network o s :
  open_questions s = (None, None) ->
  open_questions (answered asked forget_asked network E2eManageAction.Forget o s).1
    ∈ [(None, None); (None, Some network)].
Proof using Type.
  intros Hs. unfold answered, not_ready, show_manage_kind, run_e2e_forget.
  unfold act_bind, get_worker. rewrite !list_elem_of_In.
  destruct (client_token (worker s)) as [[client token]|]; [|left; symmetry; exact Hs].
  destruct (_ !! network) as [own_nick|]; [|left; symmetry; exact Hs]. unfold get_e2e.
  destruct (bool_decide _); [left; symmetry; exact Hs|]. right. left.
  unfold open_questions, questions in *. cbn. congruence.
Qed.

(** Without its question a confirmed step is the question. *)
Lemma answered_unasked_reset asked forget_asked network o s :
  asked <> Some network ->
  answered asked forget_asked network E2eManageAction.ResetConfirm o s =
  answered asked forget_asked network E2eManageAction.Reset o s.
Proof using Type.
  intros Ha. unfold answered, manage_step, confirm_reset. by rewrite bool_decide_true.
Qed.

Lemma answered_unasked_forget asked forget_asked network o s :
  forget_asked <> Some network ->
  answered asked forget_asked network E2eManageAction.ForgetConfirm o s =
  answered asked forget_asked network E2eManageAction.Forget o s.
Proof using Type. intros Ha. unfold answered. by rewrite bool_decide_false. Qed.

(** Asking sends nothing. *)
Lemma answered_quiet asked forget_asked network action l0 :
  action = E2eManageAction.Reset \/ action = E2eManageAction.Forget ->
  holds (adds (fun _ e => quiet e) l0) (answered asked forget_asked network action).
Proof using Type.
  intros Ha. unfold answered, manage_step, ask_reset, run_e2e_forget, not_ready, show_manage_kind.
  destruct Ha as [-> | ->]; simpl negb; sends; by apply adds_ensure.
Qed.

(** Nothing but the questions changed, and something was shown. *)
Definition asks_only s1 s2 : Prop :=
  drive s2 = drive s1 /\ done s2 = done s1 /\ (exists events, shown s2 = shown s1 ++ events) /\
  exists reset forget, worker s2 =
    WorkerState.set_e2e
      (E2eRuntime.set_forget_asked forget (E2eRuntime.set_reset_asked reset (runtime s1))) (worker s1).

Lemma asks_shown s events :
  asks_only s (mk_session (drive s) (worker s) (shown s ++ events) (done s)).
Proof using Type.
  split_and!; [done|done|by eexists|]. exists (E2eRuntime.reset_asked (runtime s)),
    (E2eRuntime.forget_asked (runtime s)). cbn. by destruct s as [d [] ? ?], e2e.
Qed.

Lemma asks_closed s : asks_only s (closed s).
Proof using Type.
  split_and!; [done|done|exists []; by rewrite app_nil_r|]. by exists None, None.
Qed.

Lemma asks_refl s : asks_only s s.
Proof using Type.
  pose proof (asks_shown s []) as Ha. rewrite app_nil_r in Ha. by destruct s.
Qed.

Lemma asks_trans s1 s2 s3 : asks_only s1 s2 -> asks_only s2 s3 -> asks_only s1 s3.
Proof using Type.
  intros (Hd & Hl & (es & Hs) & reset & forget & Hw) (Hd' & Hl' & (es' & Hs') & reset' & forget' & Hw').
  split_and!; [congruence|congruence|exists (es ++ es'); by rewrite Hs', Hs, app_assoc|].
  exists reset', forget'. rewrite Hw', Hw. done.
Qed.

Lemma forget_asks asked forget_asked network o s :
  asks_only s (answered asked forget_asked network E2eManageAction.Forget o s).1.
Proof using Type.
  unfold answered, not_ready, show_manage_kind, run_e2e_forget. unfold act_bind, get_worker.
  destruct (client_token (worker s)) as [[client token]|]; [|apply asks_refl].
  destruct (_ !! network) as [own_nick|]; [|apply asks_shown]. unfold get_e2e.
  destruct (bool_decide _); [apply asks_shown|]. cbn.
  split_and!; [done|done|by eexists|]. exists (E2eRuntime.reset_asked (runtime s)), (Some network).
  cbn. by destruct s as [d [] ? ?], e2e.
Qed.

(** The question of a reset, after the engine of the network is open. *)
Lemma reset_asks asked forget_asked network o s :
  exists t, (t = s \/ t = (ensure_engine opening network o s).1) /\
    asks_only t (answered asked forget_asked network E2eManageAction.Reset o s).1.
Proof using Type.
  unfold answered, not_ready, show_manage_kind. unfold act_bind at 1, get_worker.
  destruct (client_token (worker s)) as [[client token]|]; [|exists s; split; [by left|apply asks_refl]].
  destruct (_ !! network) as [own_nick|]; [|exists s; split; [by left|apply asks_shown]].
  assert (forall t, asks_only t (manage_step client token network own_nick asked
    E2eManageAction.Reset o t).1) as Hask.
  { intros t. split_and!; [done|done|by eexists|].
    exists (Some network), (E2eRuntime.forget_asked (runtime t)). cbn. by destruct t as [d [] ? ?], e2e. }
  destruct (forgotten_reset_step _ _ _); [exists s; split; [by left|apply Hask]|].
  eexists. split; [by right|]. unfold act_bind at 1.
  destruct (ensure_engine opening network o s) as [t [|]]; [apply Hask|apply asks_shown].
Qed.

(** Opening the engine of a network leaves each engine that is held. *)
Lemma ensure_open network o s :
  is_Some (E2eRuntime.engines (runtime s) !! network) ->
  (ensure_engine opening network o s).1 = s.
Proof using Type.
  intros Hh. unfold ensure_engine, act_bind, get_worker. destruct (bool_decide _); [done|].
  by rewrite bool_decide_true.
Qed.

Lemma ensure_others network net h :
  net <> network ->
  holds (fun s => E2eRuntime.engines (runtime s) !! net = Some h) (ensure_engine opening network).
Proof using Type.
  intros Hne. set (I s := E2eRuntime.engines (runtime s) !! net = Some h).
  assert (forall f, (forall r, E2eRuntime.engines (f r) !! net = E2eRuntime.engines r !! net) ->
    holds I (change_e2e f)) as He2e.
  { intros f Hf. apply holds_change_e2e. intros s Hs. unfold I in *. cbn. by rewrite Hf. }
  assert (forall peers history r,
    E2eRuntime.engines (add_history_peers network peers history r) = E2eRuntime.engines r) as Hpeers.
  { intros peers history r. unfold add_history_peers. apply foldl_part. intros ? ?.
    unfold E2eRuntime.add_locked. by repeat case_match; simplify_eq. }
  assert (forall V f, holds I (open_files (V := V) opening f)) as Hopen.
  { intros V f o t Ht. unfold open_files. by destruct (f _ _). }
  assert (forall M E V st m0 m, holds I (run_step (M := M) (E := E) (A := V) st m0 m)) as Hrun.
  { intros M E V st m0 m o t Ht. unfold run_step. by destruct (m o _). }
  unfold ensure_engine, forget_history, mark_unavailable, open_history_only, install_engine,
    take_stale, with_state. act_parts;
    try first [ apply He2e; intros r; first [done | by rewrite Hpeers | by apply lookup_insert_ne]
              | apply Hopen | apply Hrun | intros o u Hu; exact Hu ].
Qed.

Lemma ensure_held network o s net h :
  E2eRuntime.engines (runtime s) !! net = Some h ->
  E2eRuntime.engines (runtime (ensure_engine opening network o s).1) !! net = Some h.
Proof using Type.
  intros Hh. destruct (decide (net = network)) as [->|Hne].
  - by rewrite ensure_open by eauto.
  - by apply ensure_others.
Qed.

(** C31. A reset of the identity and a removal of its local keys need their question.
    A confirmed step whose question is not the open one for the same network
    only asks it: it is the same step as the question. The question of
    [/e2e forget] changes the two questions and nothing else: no file, no
    request, no engine; so does the one of [/e2e reset] when the engine of the
    network is open, and else it opens this engine first, sends nothing, and
    leaves every engine that is held. Every step of [/e2e devices], [revoke],
    [reset] and [forget] closes both questions, and after it at most the one
    that it asked, for its own network, is open. *)
Theorem reset_needs_question network o s :
  let run action := run_e2e_manage opening network action o s in
  ((open_questions s).1 <> Some network ->
     run E2eManageAction.ResetConfirm = run E2eManageAction.Reset) /\
  ((open_questions s).2 <> Some network ->
     run E2eManageAction.ForgetConfirm = run E2eManageAction.Forget) /\
  asks_only s (run E2eManageAction.Forget).1 /\
  (is_Some (E2eRuntime.engines (runtime s) !! network) -> asks_only s (run E2eManageAction.Reset).1) /\
  (asks_only s (run E2eManageAction.Reset).1 \/
   asks_only (ensure_engine opening network o (closed s)).1 (run E2eManageAction.Reset).1) /\
  (forall net h, E2eRuntime.engines (runtime s) !! net = Some h ->
     E2eRuntime.engines (runtime (run E2eManageAction.Reset).1) !! net = Some h) /\
  (forall action, action = E2eManageAction.Reset \/ action = E2eManageAction.Forget ->
     exists es, done (run action).1 = done s ++ es /\ Forall quiet es) /\
  (forall action, let after := open_questions (run action).1 in
     after = (None, None) \/
     (after = (Some network, None) /\
        action ∈ [E2eManageAction.Reset; E2eManageAction.ResetConfirm]) \/
     (after = (None, Some network) /\
        action ∈ [E2eManageAction.Forget; E2eManageAction.ForgetConfirm])).
Proof using Type.
  intros run. subst run. cbv beta zeta. rewrite !manage_answered.
  pose proof (reset_asks (open_questions s).1 (open_questions s).2 network o (closed s)) as Hreset.
  assert (forall t, asks_only (closed s) t -> asks_only s t) as Hclosed.
  { intros t. apply asks_trans, asks_closed. }
  split_and!.
  - apply answered_unasked_reset.
  - apply answered_unasked_forget.
  - apply Hclosed, forget_asks.
  - intros Hh. apply Hclosed. destruct Hreset as (t & [->| ->] & Ha); [done|].
    by rewrite ensure_open in Ha.
  - destruct Hreset as (t & [->| ->] & Ha); auto.
  - intros net h Hh. destruct Hreset as (t & Ht & _ & _ & _ & reset & forget & ->). cbn.
    destruct Ht as [->| ->]; [done|]. by apply ensure_held.
  - intros action Ha. rewrite manage_answered.
    destruct (answered_quiet (open_questions s).1 (open_questions s).2 network action (done s) Ha o
      (closed s)) as (es & Hes & Hq).
    { apply adds_same with s; [done|]. exists []. rewrite app_nil_r. split; [done|]. by intros []. }
    exists es. split; [exact Hes|]. apply Forall_forall. intros e Hin.
    apply list_elem_of_split in Hin as (l1 & l2 & ->). by eapply Hq.
  - intros action. rewrite manage_answered.
    assert (open_questions (closed s) = (None, None)) as Hc by done.
    pose proof (fun asked forget_asked => answered_ask_reset asked forget_asked network o _ Hc) as Hr.
    pose proof (fun asked forget_asked => answered_ask_forget asked forget_asked network o _ Hc) as Hf.
    destruct (decide (action = E2eManageAction.Reset)) as [->|]; [set_solver|].
    destruct (decide (action = E2eManageAction.Forget)) as [->|]; [set_solver|].
    destruct (decide (action = E2eManageAction.ResetConfirm /\ (open_questions s).1 <> Some network))
      as [[-> Ha]|]; [rewrite answered_unasked_reset by done; set_solver|].
    destruct (decide (action = E2eManageAction.ForgetConfirm /\ (open_questions s).2 <> Some network))
      as [[-> Ha]|]; [rewrite answered_unasked_forget by done; set_solver|].
    left. apply answered_keeps; try done; intros ->; apply dec_stable; intros Hn; auto.
Qed.
End Questions.
