(* ===== verification/SessionEngineFacts.v ===== *)
(** * No event loses an engine

    A handler takes the engine of a network out of the map while it works with
    it. Each way through each handler puts it back. *)

From S2P Require Import Prelude.
From S2P Require Import RustStr.
From S2P Require Import Slash.
From S2P Require Import Interfaces.
From S2P Require Import Isupport.
From S2P Require Import Wire.
From S2P Require Import Trust.
From S2P Require Import Device.
From S2P Require Import Manage.
From S2P Require Import Files.
From S2P Require Import History.
From S2P Require Import State.
From S2P Require Import Account.
From S2P Require Import Versions.
From S2P Require Import IdentityRoutes.
From S2P Require Import DeviceRoutes.
From S2P Require Import Refusal.
From S2P Require Import Pacing.
From S2P Require Import Pairing.
From S2P Require Import PairingFlow.
From S2P Require Import PairingGrant.
From S2P Require Import SendDoor.
From S2P Require Import Effects.
From S2P Require Import EffectsFacts.
From S2P Require Import Client.
From S2P Require Import Provision.
From S2P Require Import Revoke.
From S2P Require Import PairingDrive.
From S2P Require Import EngineTypes.
From S2P Require Import Engine.
From S2P Require Import EngineReceive.
From S2P Require Import EngineSend.
From S2P Require Import EngineCopies.
From S2P Require Import EngineFacts.
From S2P Require Import EngineSendFacts.
From S2P Require Import E2eView.
From S2P Require Import Runtime.
From S2P Require Import Session.
From S2P Require Import SessionViews.
From S2P Require Import SessionEngines.
From S2P Require Import SessionInbox.
From S2P Require Import SessionPairing.
From S2P Require Import SessionManage.
From S2P Require Import SessionConsent.
From S2P Require Import SessionFrames.
From S2P Require Import SessionFacts.
From stdpp Require Import options.

(** The lemmas of the parts have the section's classes as arguments. *)
#[local] Set Default Proof Using "All".

#[local] Open Scope act_scope.

Section Kept.
Context {C : Crypto} {J : Json} {U : UrlLib} {T : StateText} {A : Aead} {O : Olm}.
Context {H : HistoryText} {X : EngineText} {S : OlmSessions} {K : OlmKeys}.
Context {EC : EciesChannel} {EK : EciesKeys} {W : PairingText} {P : PendingText}.
Context {PA : PairingAnswers} {Ch : Chrono}.
Context (opening : list event -> engine_env) (turns : nat) (x : string).
Implicit Types (s : session) (r : E2eRuntime.t).

Notation runtime s := (WorkerState.e2e (worker s)).

(** The network has an open engine. *)
Definition has_engine s : Prop := is_Some (E2eRuntime.engines (runtime s) !! x).

(** It has one, or its identity was reset. *)
Definition kept s : Prop := has_engine s \/ x ∈ E2eRuntime.reset (runtime s).

(** Whatever holds before, the engine is there after [m]. *)
Definition puts {V} (m : act V) : Prop := forall o s, kept (m o s).1.

(** ** Rules *)

(** The engines stay and no reset is taken back. *)
Definition grows r r' : Prop :=
  E2eRuntime.engines r' = E2eRuntime.engines r /\ E2eRuntime.reset r ⊆ E2eRuntime.reset r'.

Lemma grows_trans r1 r2 r3 : grows r1 r2 -> grows r2 r3 -> grows r1 r3.
Proof. intros [H1 H2] [H3 H4]. split; [congruence|set_solver]. Qed.

Lemma grows_foldl {V} (f : E2eRuntime.t -> V -> E2eRuntime.t) l r :
  (forall r v, grows r (f r v)) -> grows r (foldl f r l).
Proof.
  intros Hf. revert r. induction l as [|v l IH]; intros r; cbn; [by split|].
  eapply grows_trans; [apply Hf|apply IH].
Qed.

Lemma kept_grows s s' : grows (runtime s) (runtime s') -> kept s -> kept s'.
Proof. intros [He Hr] [Hs|Hs]; [left|right; set_solver]. unfold has_engine. by rewrite He. Qed.

Lemma kept_same s s' : runtime s' = runtime s -> kept s -> kept s'.
Proof. intros Heq. apply kept_grows. by rewrite Heq. Qed.

Notation safe m := (holds kept m).

Lemma puts_safe {V} (m : act V) : puts m -> safe m.
Proof. intros Hm o s _. apply Hm. Qed.

Lemma safe_e2e f : (forall r, grows r (f r)) -> safe (change_e2e f).
Proof. intros Hf o s. apply kept_grows, Hf. Qed.

Lemma safe_on_e2e {V} (f : E2eRuntime.t -> E2eRuntime.t * V) :
  (forall r, grows r (f r).1) -> safe (on_e2e f).
Proof.
  intros Hf o s Hs. unfold on_e2e. specialize (Hf (runtime s)). destruct (f (runtime s)) as [r a].
  by eapply kept_grows.
Qed.

Lemma safe_worker f : (forall w, WorkerState.e2e (f w) = WorkerState.e2e w) -> safe (change_worker f).
Proof. intros Hf o s. by apply kept_same, Hf. Qed.

Lemma safe_show e : safe (show e).
Proof. intros o s. by apply kept_same. Qed.

Lemma safe_run_step {M E V} st (m0 : M) (m : eff M E V) : safe (run_step st m0 m).
Proof. intros o s Hs. unfold run_step. destruct (m o _). by eapply kept_same. Qed.

Lemma safe_open_files {V} f : safe (open_files (V := V) opening f).
Proof. intros o s Hs. unfold open_files. destruct (f _ _). by eapply kept_same. Qed.

Lemma safe_put network h : safe (put_held network h).
Proof.
  intros o s [Hs|Hs]; [left|by right]. unfold has_engine in *. cbn.
  destruct (decide (network = x)) as [->|]; [by rewrite lookup_insert_eq|by rewrite lookup_insert_ne].
Qed.

Lemma puts_put network h : network = x -> puts (put_held network h).
Proof. intros -> o s. left. unfold has_engine. cbn. by rewrite lookup_insert_eq. Qed.

Lemma puts_here {V Z} (m : act V) (k : V -> act Z) :
  puts m -> (forall a, safe (k a)) -> puts (act_bind m k).
Proof.
  intros Hm Hk o s. unfold act_bind. specialize (Hm o s). destruct (m o s) as [s' a].
  by apply Hk.
Qed.

Lemma puts_later {V Z} (m : act V) (k : V -> act Z) : (forall a, puts (k a)) -> puts (act_bind m k).
Proof. intros Hk o s. unfold act_bind. destruct (m o s) as [s' a]. apply Hk. Qed.

(** A taken engine is put back, or there was none. *)
Lemma safe_take {V} network (k : option Held.t -> act V) :
  safe (k None) -> (forall h, network <> x -> safe (k (Some h))) ->
  (forall h, network = x -> puts (k (Some h))) -> safe (act_bind (take_held network) k).
Proof.
  intros Hnone Hother Hx o s Hs. unfold act_bind, take_held, on_e2e. cbn.
  set (s' := mk_session _ _ _ _).
  destruct (decide (network = x)) as [->|Hn].
  - destruct (E2eRuntime.engines (runtime s) !! x) as [h|] eqn:Hh; [by apply Hx|].
    apply Hnone. destruct Hs as [[h Hs]|Hs]; [congruence|by right].
  - assert (kept s') as Hs'.
    { destruct Hs as [Hs|Hs]; [left|by right]. unfold has_engine in *. cbn.
      by rewrite lookup_delete_ne. }
    destruct (E2eRuntime.engines (runtime s) !! network); [by apply Hother|by apply Hnone].
Qed.

(** The methods of the state that leave the engines alone. *)
Ltac grows_parts :=
  intros ?;
  unfold E2eRuntime.toggle_ciphertext, E2eRuntime.note_incoming, E2eRuntime.note_incoming_lost,
    E2eRuntime.take_incoming, E2eRuntime.clear_incoming, E2eRuntime.note_key_request,
    E2eRuntime.note_engine_error, E2eRuntime.admit_offer, E2eRuntime.take_offer,
    E2eRuntime.expire_offer, push_ends_offer, E2eRuntime.close_offer_of, E2eRuntime.drop_offer_of,
    E2eRuntime.remember_offer;
  repeat case_match; by split.

Lemma grows_peers network peers history r : grows r (add_history_peers network peers history r).
Proof. unfold add_history_peers. apply grows_foldl. intros. by split. Qed.
Lemma grows_alarms network nicks r : grows r (raise_alarms network nicks r).
Proof. unfold raise_alarms. apply grows_foldl. intros. by split. Qed.
Lemma grows_requests network listed r : grows r (E2eRuntime.replace_requests network listed r).
Proof.
  unfold E2eRuntime.replace_requests. eapply grows_trans; [|apply grows_foldl; intros; by split].
  by split.
Qed.
Lemma grows_outgoing network peer m r :
  grows r (E2eRuntime.remove_outgoing_request_for_peer network peer m r).
Proof. unfold E2eRuntime.remove_outgoing_request_for_peer. apply grows_foldl. intros. by split. Qed.
Lemma grows_reset network r : grows r (mark_reset network r).
Proof. split; [done|]. cbn. set_solver. Qed.
#[local] Hint Resolve grows_peers grows_alarms grows_requests grows_outgoing grows_reset : kept.

(** The structure of a handler: what is left are its parts with a lemma. *)
#[local] Hint Resolve safe_show safe_run_step safe_open_files safe_put puts_put puts_safe : kept.
#[local] Hint Extern 1 (holds _ (change_worker _)) => (apply safe_worker; by intros []) : kept.
#[local] Hint Extern 1 (holds _ (change_e2e _)) => (apply safe_e2e; first [solve [eauto with kept] | grows_parts]) : kept.
#[local] Hint Extern 1 (holds _ (on_e2e _)) => (apply safe_on_e2e; grows_parts) : kept.

Ltac keep :=
  repeat match goal with
  | |- holds _ (act_bind (take_held _) _) => apply safe_take; intros; simpl
  | |- holds _ (act_bind _ _) => apply holds_bind; [|intros ?]
  | |- holds _ (act_ret _) => apply holds_ret
  | |- holds _ get_worker => apply holds_get_worker
  | |- holds _ get_e2e => apply holds_get_e2e
  | |- holds _ (act_each _ _) => apply holds_each; intros ?
  | |- holds _ (match ?v with _ => _ end) => destruct v
  | H : holds ?I ?m |- holds ?I ?m => exact H
  end; auto with kept.

Lemma safe_with_state {M E V} h (m0 : M) (m : eff M E V) : safe (with_state h m0 m).
Proof. unfold with_state. keep. Qed.
Lemma safe_with_held {E V} h (m : eff E2eEngine.t E V) : safe (with_held h m).
Proof. unfold with_held. keep. Qed.
Lemma safe_call {E V} (m : eff unit E V) : safe (call_client m).
Proof. unfold call_client. keep. Qed.
Lemma safe_held_of network : safe (held_of network).
Proof. unfold held_of. keep. Qed.
#[local] Hint Resolve safe_with_state safe_with_held safe_call safe_held_of : kept.
Lemma safe_sure {V} h (m : eff E2eEngine.t Empty_set V) : safe (with_held_sure h m).
Proof. unfold with_held_sure. keep. Qed.
#[local] Hint Resolve safe_sure : kept.

(** ** Views *)

Lemma safe_status kind : safe (status kind).
Proof. apply safe_show. Qed.
Lemma safe_groups : safe refresh_network_groups.
Proof. apply safe_show. Qed.
Lemma safe_close_key : safe close_peer_key.
Proof. apply safe_show. Qed.
Lemma safe_now : safe e2e_now.
Proof. by intros o s. Qed.
Lemma safe_millis : safe now_millis.
Proof. by intros o s. Qed.
Lemma safe_stamp : safe now_stamp.
Proof. by intros o s. Qed.
#[local] Hint Resolve safe_status safe_groups safe_close_key safe_now safe_millis safe_stamp : kept.

Lemma safe_consent : safe push_open_query_consent.
Proof. unfold push_open_query_consent. keep. Qed.
Lemma safe_locked_state : safe push_open_locked_state.
Proof. unfold push_open_locked_state. keep. Qed.
Lemma safe_read : safe mark_active_window_read.
Proof. unfold mark_active_window_read. keep. Qed.
#[local] Hint Resolve safe_consent safe_locked_state safe_read : kept.
Lemma safe_refresh network nick : safe (refresh_locked_view network nick).
Proof. unfold refresh_locked_view, show_locked_rows, load_locked_rows. keep. Qed.
#[local] Hint Resolve safe_refresh : kept.
Lemma safe_select network label : safe (handle_select_locked_query network label).
Proof.
  unfold handle_select_locked_query, open_window, load_locked_rows, show_locked_window,
    show_locked_rows. keep.
Qed.
Lemma safe_close_query network label : safe (close_locked_query network label).
Proof. unfold close_locked_query. keep. Qed.
Lemma safe_toggle network label : safe (toggle_ciphertext_view network label).
Proof.
  unfold toggle_ciphertext_view. keep.
Qed.
#[local] Hint Resolve safe_select safe_close_query safe_toggle : kept.

(** ** Engines *)

(** Goals [puts m]: one part of [m] puts the engine back, and the parts after it
    are safe. *)
Ltac put_back :=
  cbv beta;
  lazymatch goal with
  | |- puts (act_bind _ _) =>
      first [apply puts_here; [solve [put_back] | intros ?; keep]
            | apply puts_later; intros ?; put_back]
  | |- puts (match ?x with _ => _ end) => destruct x; put_back
  | |- _ => solve [auto with kept]
  end.

Lemma safe_history network : safe (open_history_only opening network).
Proof. unfold open_history_only. keep. Qed.
Lemma safe_forget_history network : safe (forget_history network).
Proof. unfold forget_history. keep. Qed.
Lemma safe_unavailable network : safe (mark_unavailable network).
Proof. unfold mark_unavailable. keep. Qed.
Lemma safe_available network : safe (unmark_unavailable network).
Proof. unfold unmark_unavailable. keep. Qed.
Lemma safe_stale h network : safe (take_stale h network).
Proof. unfold take_stale. keep. Qed.
#[local] Hint Resolve safe_history safe_forget_history safe_unavailable safe_available safe_stale : kept.
Lemma safe_install network h : safe (install_engine network h).
Proof. unfold install_engine. keep. Qed.
#[local] Hint Resolve safe_install : kept.
Lemma safe_ensure network : safe (ensure_engine opening network).
Proof. unfold ensure_engine. keep. Qed.
Lemma safe_provision_files client token account network protocol :
  safe (provision_files opening client token account network protocol).
Proof.
  intros o s Hs. unfold provision_files. destruct (provision_for_network _ _ _ _ _ _ _ _ _) as [[d es] r].
  by eapply kept_same.
Qed.
#[local] Hint Resolve safe_ensure safe_provision_files : kept.
Lemma safe_provision network : safe (provision_network opening network).
Proof. unfold provision_network. keep. all: put_back. Qed.
#[local] Hint Resolve safe_provision : kept.

(** ** The inbox and the sends *)

Lemma safe_copy_runs runs client token protocol own_nick h :
  safe (copy_runs runs client token protocol own_nick h).
Proof. revert h. induction runs as [|runs IH]; intros h; cbn [copy_runs]; keep. Qed.
#[local] Hint Resolve safe_copy_runs : kept.
Lemma safe_flush network client token h : safe (flush_engine network client token h).
Proof. unfold flush_engine, SessionInbox.send_copies. keep. Qed.
Lemma safe_ask network client token nicks h : safe (ask_keys network client token nicks h).
Proof. revert h. induction nicks as [|nick nicks IH]; intros h; cbn [ask_keys]; keep. Qed.
Lemma safe_add_all network nicks : safe (add_all_locked network nicks).
Proof. induction nicks as [|nick nicks IH]; cbn [add_all_locked]; keep. Qed.
#[local] Hint Resolve safe_flush safe_ask safe_add_all : kept.
Lemma puts_settle network h : network = x -> puts (settle_engine network h).
Proof. intros Hn. unfold settle_engine. put_back. Qed.
Lemma safe_settle network h : safe (settle_engine network h).
Proof. unfold settle_engine. keep. Qed.
#[local] Hint Resolve puts_settle safe_settle : kept.
Lemma safe_release outcomes h : safe (release_stale outcomes h).
Proof.
  revert h. induction outcomes as [|[id outcome] outcomes IH]; intros h; cbn [release_stale]; keep.
Qed.
#[local] Hint Resolve safe_release : kept.
Lemma safe_drain_runs runs client token protocol h :
  safe (drain_runs turns runs client token protocol h).
Proof. revert h. induction runs as [|runs IH]; intros h; cbn [drain_runs]; keep. Qed.
Lemma safe_row_runs runs client token protocol row h :
  safe (row_runs runs client token protocol row h).
Proof. revert h. induction runs as [|runs IH]; intros h; cbn [row_runs]; keep. Qed.
#[local] Hint Resolve safe_drain_runs safe_row_runs : kept.
Lemma safe_drain network : safe (drain_network turns network).
Proof. unfold drain_network. keep. all: put_back. Qed.
Lemma safe_read_row row : safe (read_e2e_row opening row).
Proof. unfold read_e2e_row. keep. all: put_back. Qed.
#[local] Hint Resolve safe_drain safe_read_row : kept.
Lemma safe_message payload : safe (handle_e2e_message opening payload).
Proof. unfold handle_e2e_message. keep. Qed.
Lemma safe_incoming payload : safe (handle_e2e_incoming payload).
Proof. unfold handle_e2e_incoming, refresh_for. keep. Qed.
Lemma safe_incoming_lost payload : safe (handle_e2e_incoming_lost payload).
Proof. unfold handle_e2e_incoming_lost, refresh_for. keep. Qed.
Lemma safe_send network nick body : safe (handle_send_locked network nick body).
Proof. unfold handle_send_locked, set_chat_follow_bottom. keep. all: put_back. Qed.
#[local] Hint Resolve safe_message safe_incoming safe_incoming_lost safe_send : kept.
Lemma safe_send_action network nick words : safe (handle_send_locked_action network nick words).
Proof. unfold handle_send_locked_action. keep. Qed.
Lemma safe_tick_engine network : safe (tick_e2e_engine network).
Proof.
  unfold tick_e2e_engine. keep. all: put_back.
Qed.
#[local] Hint Resolve safe_send_action safe_tick_engine : kept.
Lemma safe_ticks : safe tick_e2e_engines.
Proof. unfold tick_e2e_engines. keep. Qed.
#[local] Hint Resolve safe_ticks : kept.

(** ** The end of a session and the checks of a peer *)

Lemma safe_offer_gone : safe offer_gone.
Proof. unfold offer_gone. keep. Qed.
Lemma safe_end_engines networks : safe (end_engines networks).
Proof. induction networks as [|network networks IH]; cbn [end_engines]; keep. Qed.
#[local] Hint Resolve safe_offer_gone safe_end_engines : kept.
Lemma safe_end_sessions : safe end_e2e_sessions.
Proof. unfold end_e2e_sessions. keep. Qed.
Lemma safe_no_such_nick payload : safe (handle_no_such_nick_push payload).
Proof. unfold handle_no_such_nick_push. keep. Qed.
Lemma safe_sas step : safe (handle_e2e_sas step).
Proof. unfold handle_e2e_sas, end_sas_check. keep. Qed.
Lemma safe_peer_key step network nick key : safe (handle_e2e_peer_key step network nick key).
Proof. unfold handle_e2e_peer_key, show_peer_key, verify_peer_key. keep. Qed.
#[local] Hint Resolve safe_end_sessions safe_no_such_nick safe_sas safe_peer_key : kept.

(** ** Pairings *)

(** What a call that takes the engine of [network] leaves: no engine is lost
    when it leads none, and only the one of [network] is missing when it does. *)
Definition takes (network : string) (m : act (option Held.t)) : Prop := forall o s, kept s ->
  let '(s', held) := m o s in
  match held with Some _ => network <> x -> kept s' | None => kept s' end.

Lemma takes_held network : takes network (take_held network).
Proof.
  intros o s Hs. unfold take_held, on_e2e. cbn. set (s' := mk_session _ _ _ _).
  destruct (E2eRuntime.engines (runtime s) !! network) as [h|] eqn:Hh.
  - intros Hn. destruct Hs as [Hs|Hs]; [left|by right]. unfold has_engine in *. cbn.
    by rewrite lookup_delete_ne.
  - destruct Hs as [Hs|Hs]; [left|by right]. unfold has_engine in *. cbn.
    by rewrite delete_id.
Qed.

Lemma takes_after {V} network (m : act V) k :
  safe m -> (forall a, takes network (k a)) -> takes network (act_bind m k).
Proof.
  intros Hm Hk o s Hs. unfold act_bind. specialize (Hm o s Hs). destruct (m o s) as [s' a].
  by apply Hk.
Qed.

Lemma takes_none network : takes network (act_ret None).
Proof. by intros o s Hs. Qed.

Lemma safe_open_pairing network : safe (open_pairing_engine opening network).
Proof. unfold open_pairing_engine. keep. Qed.
#[local] Hint Resolve safe_open_pairing : kept.

(** An engine that a pairing drops for a new one is of a reset network. *)
Lemma drop_reset network o s :
  network ∈ E2eRuntime.reset (runtime s) -> kept s ->
  kept (act_bind (take_held network) (fun _ => act_ret tt) o s).1.
Proof.
  intros Hr Hs. unfold act_bind. pose proof (takes_held network o s Hs) as Ht.
  assert (x = network -> kept (take_held network o s).1) as Hx.
  { intros Hx. right. by rewrite Hx. }
  destruct (take_held network o s) as [s' [h|]]; simpl in *; [|done].
  destruct (decide (network = x)); naive_solver.
Qed.

Lemma takes_pairing network create : takes network (take_pairing_engine opening network create).
Proof.
  intros o s Hs. unfold take_pairing_engine. unfold act_bind at 1, get_e2e.
  match goal with |- context [act_bind ?f ?r o s] => set (first := f); set (rest := r) end.
  unfold act_bind.
  assert (kept (first o s).1) as Hfirst.
  { subst first. destruct create; [|done]. simpl. case_bool_decide; [by apply drop_reset|done]. }
  destruct (first o s) as [s' u]. simpl in Hfirst. revert o s' Hfirst.
  change (takes network (rest u)). subst rest. cbv beta.
  apply takes_after; [auto with kept|]. intros [h|]; [apply takes_held|].
  apply takes_after; [destruct create; auto with kept|].
  intros []; [apply takes_held|apply takes_none].
Qed.

(** *** Triples *)

Definition leads {V} (pre : session -> Prop) (m : act V) (post : V -> session -> Prop) : Prop :=
  forall o s, pre s -> let '(s', v) := m o s in post v s'.

(** The engine of [network] is taken: no other one is missing. *)
Definition away (network : string) s : Prop := network <> x -> kept s.

Definition put_back_in (network : string) s : Prop := kept s /\ (network = x -> has_engine s).

Lemma leads_bind {V Z} pre (m : act V) mid (k : V -> act Z) post :
  leads pre m mid -> (forall v, leads (mid v) (k v) post) -> leads pre (act_bind m k) post.
Proof.
  intros Hm Hk o s Hs. unfold act_bind. specialize (Hm o s Hs). destruct (m o s) as [s' v].
  by apply Hk.
Qed.

Lemma leads_weaken {V} (pre pre' : session -> Prop) (m : act V) (post post' : V -> session -> Prop) :
  (forall s, pre s -> pre' s) -> (forall v s, post' v s -> post v s) ->
  leads pre' m post' -> leads pre m post.
Proof.
  intros Hpre Hpost Hm o s Hs. specialize (Hm o s (Hpre s Hs)). destruct (m o s) as [s' v].
  by apply Hpost.
Qed.

Lemma leads_safe {V} (m : act V) : safe m -> leads kept m (fun _ => kept).
Proof. intros Hm o s Hs. specialize (Hm o s Hs). by destruct (m o s). Qed.

Lemma safe_gives {V} (m : act V) : leads kept m (fun _ => kept) -> safe m.
Proof. intros Hm o s Hs. specialize (Hm o s Hs). by destruct (m o s). Qed.

Lemma leads_away {V} network (m : act V) :
  safe m -> leads (away network) m (fun _ => away network).
Proof.
  intros Hm o s Hs. specialize (Hm o s). destruct (m o s) as [s' v]. intros Hn. by apply Hm, Hs.
Qed.

Lemma leads_put network h : leads (away network) (put_held network h) (fun _ => put_back_in network).
Proof.
  intros o s Hs. pose proof (puts_put network h) as Hput. specialize (Hs : network <> x -> kept s).
  pose proof (safe_put network h o s) as Hsafe. unfold has_engine in *.
  destruct (put_held network h o s) as [s' []] eqn:Hp. split.
  - destruct (decide (network = x)) as [Hn|Hn]; [|by apply Hsafe, Hs].
    specialize (Hput Hn o s). by rewrite Hp in Hput.
  - intros ->. unfold put_held, change_e2e, change_worker in Hp. injection Hp as <-. cbn.
    unfold has_engine. cbn. by rewrite lookup_insert_eq.
Qed.

Lemma leads_take network create :
  leads kept (take_pairing_engine opening network create)
    (fun held => match held with Some _ => away network | None => kept end).
Proof.
  intros o s Hs. pose proof (takes_pairing network create o s Hs) as Ht.
  by destruct (take_pairing_engine opening network create o s) as [s' [h|]].
Qed.

Lemma put_back_kept network s : put_back_in network s -> kept s.
Proof. by intros []. Qed.

(** A pairing engine that is taken, used and put back. *)
Lemma safe_use {V} network create (k : option Held.t -> act V) :
  safe (k None) -> (forall h, leads (away network) (k (Some h)) (fun _ => kept)) ->
  safe (act_bind (take_pairing_engine opening network create) k).
Proof.
  intros Hnone Hsome. apply safe_gives. eapply leads_bind; [apply leads_take|].
  intros [h|]; cbn; [apply Hsome|by apply leads_safe].
Qed.

(** A step on a taken engine, and the engine put back. *)
Ltac away_then_put :=
  eapply leads_bind; [apply leads_away; solve [keep]|]; intros [];
  eapply leads_bind; [apply leads_put|]; intros [].

Lemma safe_drive {V} active h (m : eff PairingSession.t DriveError.t V) :
  safe (drive_pairing active h m).
Proof. unfold drive_pairing. keep. Qed.
#[local] Hint Resolve safe_drive : kept.

(** *** The steps of a pairing *)

Ltac keep ::=
  repeat match goal with
  | |- holds _ (act_bind (take_held _) _) => apply safe_take; intros; simpl
  | |- holds _ (act_bind (take_pairing_engine _ _ _) _) => apply safe_use; [|intros ?]
  | |- holds _ (act_bind _ _) => apply holds_bind; [|intros ?]
  | |- holds _ (act_ret _) => apply holds_ret
  | |- holds _ get_worker => apply holds_get_worker
  | |- holds _ get_e2e => apply holds_get_e2e
  | |- holds _ (act_each _ _) => apply holds_each; intros ?
  | |- holds _ (match ?v with _ => _ end) => destruct v
  | H : holds ?I ?m |- holds ?I ?m => exact H
  end; auto with kept.

Lemma leads_drive {V} network active h (m : eff PairingSession.t DriveError.t V) :
  leads (away network) (drive_pairing active h m)
    (fun v s => away network s /\ ActivePairing.network v.1.1 = ActivePairing.network active).
Proof.
  intros o s Hs. pose proof (leads_away network _ (safe_drive active h m) o s Hs) as Ha.
  unfold drive_pairing, act_bind in *. destruct (with_state h _ m o s) as [s' [[h' p] r]].
  by split.
Qed.

(** The engine of the network that a step leaves the pairing on is there, or the
    pairing is not done. *)
Definition settled (active : ActivePairing.t) s : Prop :=
  kept s /\ (ActivePairing.network active = x ->
             has_engine s \/ PairingSession.status (ActivePairing.session active) <> StatusDone).

Lemma put_settled active s : put_back_in (ActivePairing.network active) s -> settled active s.
Proof. intros [Hs He]. split; [done|]. intros Hn. left. by apply He. Qed.

Lemma active_not_done (p : PairingSession.t) :
  PairingSession.is_active p = true -> PairingSession.status p <> StatusDone.
Proof.
  unfold PairingSession.is_active, PairingSession.status.
  destruct (PairingSession.stage p); try done.
  intros _. repeat case_match; done.
Qed.

Lemma safe_take_active : safe take_pairing.
Proof. unfold take_pairing. keep. Qed.
Lemma safe_put_active active : safe (put_pairing active).
Proof. unfold put_pairing. keep. Qed.
#[local] Hint Resolve safe_take_active safe_put_active : kept.

Lemma leads_pure {V} (pre : session -> Prop) (fact : Prop) (m : act V) post :
  (fact -> leads pre m post) -> leads (fun s => pre s /\ fact) m post.
Proof. intros Hm o s [Hs Hf]. by apply Hm. Qed.

(** A drive of a taken engine, and the engine put back. *)
Lemma leads_drive_put {V Z} active h (m : eff PairingSession.t DriveError.t V)
    (k : ActivePairing.t -> result V DriveError.t -> act Z) post :
  (forall active' v, ActivePairing.network active' = ActivePairing.network active ->
     leads (put_back_in (ActivePairing.network active')) (k active' v) post) ->
  leads (away (ActivePairing.network active))
    (act_bind (drive_pairing active h m) (fun '(active', h', v) =>
     act_bind (put_held (ActivePairing.network active) h') (fun _ => k active' v))) post.
Proof.
  intros Hk. eapply leads_bind; [apply leads_drive|]. intros [[active' h'] v].
  apply leads_pure. cbn. intros Hn. eapply leads_bind; [apply leads_put|]. intros [].
  rewrite <-Hn. by apply Hk.
Qed.

Lemma safe_end_pairing : safe (end_active_pairing opening).
Proof.
  unfold end_active_pairing. keep.
  eapply leads_bind; [apply leads_away; keep|]. intros [[? ?] ?].
  eapply leads_weaken; [done| |apply leads_put]. intros [] ?. apply put_back_kept.
Qed.
#[local] Hint Resolve safe_end_pairing : kept.

Lemma leads_cancel_first client token active :
  PairingSession.is_active (ActivePairing.session active) = true ->
  leads kept (cancel_first opening client token active) settled.
Proof.
  intros Ha. unfold cancel_first. eapply leads_bind; [apply leads_safe, holds_get_worker|]. intros w.
  eapply leads_bind; [apply leads_take|]. intros [old|]; cbn.
  - eapply leads_bind; [apply leads_drive|]. intros [[active' old'] v] o s [Hs Hn]. simpl in Hn.
    pose proof (leads_put (ActivePairing.network active) old' o s Hs) as Hput.
    unfold act_bind, act_ret. destruct (put_held _ _ _ _) as [s' []]. rewrite <-Hn in Hput.
    by apply put_settled.
  - intros o s Hs. split; [done|]. intros _. right. by apply active_not_done.
Qed.

Lemma leads_worker pre : leads pre get_worker (fun _ => pre).
Proof. by intros o s Hs. Qed.

Lemma leads_pre {V} (pre pre' : session -> Prop) (m : act V) post :
  (forall s, pre s -> pre' s) -> leads pre' m post -> leads pre m post.
Proof. intros Hpre Hm o s Hs. by apply Hm, Hpre. Qed.

Lemma leads_rebind active :
  leads (put_back_in (ActivePairing.network active)) (rebind_joiner opening active)
    (fun v => settled v.1).
Proof.
  unfold rebind_joiner. eapply leads_bind; [apply leads_worker|]. intros w.
  destruct (_ || _) eqn:Hb; [intros o s Hs; by apply put_settled|].
  apply orb_false_iff in Hb as [_ Ha%negb_false_iff].
  destruct (client_token w) as [[client token]|];
    [|intros o s Hs; by apply put_settled].
  eapply leads_pre; [apply put_back_kept|]. eapply leads_bind; [apply leads_take|].
  intros [h|]; cbn.
  - eapply leads_bind; [apply leads_away; keep|]. intros old.
    eapply leads_bind; [apply leads_away; keep|]. intros [].
    eapply leads_bind; [apply leads_drive|]. intros [[active' h'] v].
    apply (leads_pre _ (away (PairingSession.network (ActivePairing.session active))));
      [by intros s []|]. eapply leads_bind; [apply leads_put|]. intros [].
    intros o s Hs. by apply put_settled.
  - eapply leads_bind; [by apply leads_cancel_first|]. intros active' o s Hs. exact Hs.
Qed.

Lemma leads_follow active (r0 : result unit DriveError.t) :
  leads (put_back_in (ActivePairing.network active)) (follow_offered_network opening active r0)
    (fun v => settled v.1).
Proof.
  unfold follow_offered_network. destruct r0 as [[]|error].
  - eapply leads_bind; [apply leads_rebind|]. intros [active' bound] o s Hs. exact Hs.
  - intros o s Hs. by apply put_settled.
Qed.

(** A pairing that is done takes its network out of the reset ones, and then the
    engine is there. *)
Lemma kept_paired network s s' :
  runtime s' = identity_paired network (runtime s) -> kept s ->
  (network = x -> has_engine s) -> kept s'.
Proof.
  intros Hr [Hs|Hs] He; unfold kept, has_engine in *; rewrite Hr; [by left|].
  destruct (decide (network = x)) as [Hn|Hn]; [left; by apply He|right]. cbn. set_solver.
Qed.

Lemma leads_finish active error :
  leads (settled active) (finish_pairing_step active error) (fun _ => kept).
Proof.
  unfold finish_pairing_step. eapply leads_bind.
  { instantiate (1 := fun _ => settled active). unfold show_pairing.
    destruct (pairing_status_key _) as [kind hint]. destruct error; [by intros o s|].
    destruct (ActivePairing.manual_code active),
      (PairingSession.status (ActivePairing.session active)); by intros ? ?. }
  intros []. apply (leads_bind _ _ (fun _ => kept)); [|intros []; apply leads_safe; keep].
  destruct (PairingSession.status _) eqn:Hst; try (intros o s [Hs _]; exact Hs).
  intros o s [Hs He]. apply (kept_paired (ActivePairing.network active) s); [done..|].
  intros Hn. by destruct (He Hn).
Qed.

Lemma leads_step client token active h m :
  leads (away (ActivePairing.network active)) (step_pairing opening client token active h m)
    (fun _ => kept).
Proof.
  unfold step_pairing. eapply leads_bind; [apply leads_worker|]. intros w.
  apply leads_drive_put. intros active' v Hn. eapply leads_bind; [apply leads_follow|].
  intros [active'' error]. apply leads_finish.
Qed.
#[local] Hint Resolve leads_step : kept.

Lemma leads_kept {V} network (m : act V) : safe m -> leads (put_back_in network) m (fun _ => kept).
Proof. intros Hm. eapply leads_pre; [apply put_back_kept|by apply leads_safe]. Qed.

(** What follows a put is safe. *)
Lemma leads_then {V} network h (k : unit -> act V) :
  safe (k tt) -> leads (away network) (act_bind (put_held network h) k) (fun _ => kept).
Proof.
  intros Hk. eapply leads_bind; [apply leads_put|]. intros []. by apply leads_kept.
Qed.

Ltac use :=
  cbv beta;
  lazymatch goal with
  | |- leads _ (step_pairing _ _ _ _ _ _) _ => apply leads_step
  | |- leads _ (act_bind (put_held _ _) _) _ => apply leads_then; keep
  | |- leads _ (put_held _ _) _ =>
      eapply leads_weaken; [done| |apply leads_put]; intros [] ?; apply put_back_kept
  | |- leads _ (act_bind _ _) _ =>
      eapply leads_bind; [apply leads_away; solve [keep]|intros ?; use]
  | |- leads _ (match ?v with _ => _ end) _ => destruct v; use
  end.

Lemma safe_show_pairing st : safe (show_pairing st).
Proof. unfold show_pairing, show_pairing_kind. keep. Qed.
#[local] Hint Resolve safe_show_pairing : kept.

Lemma safe_pump : safe (pump_pairing opening).
Proof. unfold pump_pairing. keep. all: use. Qed.
Lemma safe_pairing payload : safe (handle_e2e_pairing opening payload).
Proof. unfold handle_e2e_pairing. keep. all: use. Qed.
Lemma safe_retire : safe retire_expired_offer.
Proof. unfold retire_expired_offer. keep. Qed.
#[local] Hint Resolve safe_retire : kept.
Lemma safe_offer topic payload : safe (handle_e2e_pairing_offer topic payload).
Proof. unfold handle_e2e_pairing_offer, set_offer_dialog. keep. Qed.
Lemma safe_tick_pairing : safe (tick_pairing opening).
Proof. unfold tick_pairing, clear_pairing_dialog. keep. all: use. Qed.
Lemma safe_close_stale : safe close_stale_pairings.
Proof. unfold close_stale_pairings. keep. Qed.
#[local] Hint Resolve safe_pump safe_pairing safe_offer safe_tick_pairing safe_close_stale : kept.

Lemma safe_replace : safe (replace_pairing opening).
Proof. unfold replace_pairing, set_offer_dialog, clear_pairing_dialog. keep. Qed.
Lemma safe_start_pairing client token network now :
  safe (start_pairing opening client token network now).
Proof. unfold start_pairing, show_pairing_kind, show_pairing_dialog. keep. all: use. Qed.
Lemma safe_join_pairing client token network text candidates now :
  safe (join_pairing opening client token network text candidates now).
Proof. unfold join_pairing, show_pairing_kind. keep. all: use. Qed.
Lemma safe_type_code client token typed : safe (type_code opening client token typed).
Proof.
  unfold type_code, show_pairing_kind. keep. apply leads_drive_put. intros active' v _.
  eapply leads_pre; [apply put_settled|apply leads_finish].
Qed.
#[local] Hint Resolve safe_replace safe_start_pairing safe_join_pairing safe_type_code : kept.
Lemma safe_pair network action : safe (run_e2e_pair opening network action).
Proof.
  unfold run_e2e_pair, accept_offer, set_offer_dialog, show_pairing_kind, cancel_pairing,
    clear_pairing_dialog. keep.
Qed.
#[local] Hint Resolve safe_pair : kept.

(** ** The own identity *)

Lemma puts_settle_reset network h : network = x -> puts (settle_reset network h).
Proof. intros Hn. unfold settle_reset. put_back. Qed.
Lemma safe_settle_reset network h : safe (settle_reset network h).
Proof. unfold settle_reset. keep. Qed.
#[local] Hint Resolve puts_settle_reset safe_settle_reset : kept.

Lemma leads_settle_reset network h :
  leads (away network) (settle_reset network h) (fun _ => kept).
Proof. unfold settle_reset. use. Qed.

Lemma safe_resume network : safe (resume_pending_manage network).
Proof.
  unfold resume_pending_manage, show_finished_revoke, show_manage_kind. keep. all: put_back.
Qed.
Lemma safe_records w client token network : safe (read_device_records w client token network).
Proof. unfold read_device_records. keep. Qed.
#[local] Hint Resolve safe_resume safe_records : kept.
Lemma safe_recovery client token network own reason ids :
  safe (show_recovery client token network own reason ids).
Proof. unfold show_recovery. keep. Qed.
#[local] Hint Resolve safe_recovery : kept.
Lemma safe_devices client token network : safe (show_devices client token network).
Proof. unfold show_devices, not_ready, show_manage_kind. keep. Qed.
Lemma safe_revoke client token network own_nick did :
  safe (run_revoke client token network own_nick did).
Proof. unfold run_revoke, not_ready, show_manage_kind. keep. all: put_back. Qed.
Lemma safe_ask_reset network : safe (ask_reset network).
Proof. unfold ask_reset, show_manage_kind. keep. Qed.
#[local] Hint Resolve safe_devices safe_revoke safe_ask_reset : kept.
Lemma safe_confirm_reset client token network own_nick asked :
  safe (confirm_reset client token network own_nick asked).
Proof. unfold confirm_reset, not_ready, show_manage_kind. keep. all: put_back. Qed.
Lemma safe_forget network own_nick confirmed :
  safe (run_e2e_forget opening network own_nick confirmed).
Proof.
  unfold run_e2e_forget, show_manage_kind. keep.
  eapply leads_bind; [apply leads_away; keep|]. intros [[h' u] [[]|e]]; [|use].
  eapply leads_bind; [apply leads_settle_reset|]. intros []. apply leads_safe. keep.
Qed.
#[local] Hint Resolve safe_confirm_reset safe_forget : kept.
Lemma safe_manage network action : safe (run_e2e_manage opening network action).
Proof.
  unfold run_e2e_manage, take_questions, manage_step, not_ready, show_manage_kind. keep.
Qed.
Lemma safe_identity network requested : safe (show_e2e_identity opening network requested).
Proof. unfold show_e2e_identity. keep. Qed.
#[local] Hint Resolve safe_manage safe_identity : kept.

(** ** Consent *)

Lemma safe_query network peer : safe (ensure_plain_query_for_request network peer).
Proof. unfold ensure_plain_query_for_request. keep. Qed.
Lemma safe_push_both : safe push_both.
Proof. unfold push_both. keep. Qed.
#[local] Hint Resolve safe_query safe_push_both : kept.
Lemma safe_start_encrypted client token network request :
  safe (start_encrypted client token network request).
Proof. unfold start_encrypted. keep. Qed.
#[local] Hint Resolve safe_start_encrypted : kept.
Lemma safe_activate network request : safe (activate_accepted_request opening network request).
Proof. unfold activate_accepted_request. keep. Qed.
#[local] Hint Resolve safe_activate : kept.
Lemma safe_take_request network request : safe (take_request opening network request).
Proof. unfold take_request. keep. Qed.
#[local] Hint Resolve safe_take_request : kept.
Lemma safe_sync network : safe (sync_e2e_requests opening network).
Proof. unfold sync_e2e_requests. keep. Qed.
Lemma safe_request_push payload : safe (handle_e2e_request_push opening payload).
Proof. unfold handle_e2e_request_push. keep. Qed.
Lemma safe_request_gone payload : safe (handle_e2e_request_gone_push payload).
Proof. unfold handle_e2e_request_gone_push. keep. Qed.
Lemma safe_rekey network peer : safe (handle_e2e_rekey network peer).
Proof. unfold handle_e2e_rekey. keep. Qed.
Lemma safe_create client token network peer protocol line :
  safe (create_request opening client token network peer protocol line).
Proof. unfold create_request. keep. Qed.
#[local] Hint Resolve safe_sync safe_request_push safe_request_gone safe_rekey safe_create : kept.
Lemma safe_request_action action network peer id :
  safe (handle_e2e_request_action opening action network peer id).
Proof.
  unfold handle_e2e_request_action, action_open, action_start, action_accept, action_refuse,
    action_dismiss. keep.
Qed.
Lemma safe_start : safe (start_e2e_engines opening turns).
Proof. unfold start_e2e_engines, start_network. keep. Qed.
#[local] Hint Resolve safe_request_action safe_start : kept.

(** ** Events *)

Lemma safe_frame frame : safe (handle_frame opening frame).
Proof.
  unfold handle_frame, handle_kind, handle_isupport_changed, handle_send_dropped,
    push_members_update. keep.
Qed.
#[local] Hint Resolve safe_frame : kept.

Lemma safe_event e : e <> SignedOut -> safe (handle_worker_event opening turns e).
Proof.
  destruct e; try done; intros _; unfold handle_worker_event, handle_connected,
    answer_pairing_offer; keep.
Qed.
End Kept.

Section Session.
Context {C : Crypto} {J : Json} {U : UrlLib} {T : StateText} {A : Aead} {O : Olm}.
Context {H : HistoryText} {X : EngineText} {S : OlmSessions} {K : OlmKeys}.
Context {EC : EciesChannel} {EK : EciesKeys} {W : PairingText} {P : PendingText}.
Context {PA : PairingAnswers} {Ch : Chrono}.
Context (opening : list event -> engine_env) (turns : nat).

(** C4. No event loses an engine. Most handlers take the engine of a network out of
    the session while they wait for the server. Whatever events and commands
    come until the sign-out, in any order, on any state, and whatever the server
    answers and the disk fails: a network that has an engine keeps one, with
    its state store, unless its identity was reset. *)
Theorem engines_kept network (events : list worker_event) o s :
  SignedOut ∉ events -> kept network s ->
  kept network (run_worker opening turns events o s).1.
Proof.
  intros Hout Hs. revert s Hs. induction events as [|e events IH]; intros s Hs; [done|].
  unfold run_worker. cbn [act_each]. unfold act_bind.
  assert (kept network (handle_worker_event opening turns e o s).1) as He.
  { apply safe_event; [set_solver|done]. }
  destruct (handle_worker_event opening turns e o s) as [s' []]. apply IH; [set_solver|done].
Qed.
End Session.
