(* ===== verification/SessionExamples.v ===== *)
(** * Concrete sessions

    A session with an open engine and one with a reset network, with concrete
    instances of the outside components, for the theorems that have
    hypotheses. *)

From S2P Require Import Prelude.
From S2P Require Import RustStr.
From S2P Require Import Slash.
From S2P Require Import Interfaces.
From S2P Require Import Concrete.
From S2P Require Import Isupport.
From S2P Require Import Wire.
From S2P Require Import Device.
From S2P Require Import Trust.
From S2P Require Import Files.
From S2P Require Import History.
From S2P Require Import HistoryFacts.
From S2P Require Import State.
From S2P Require Import StateFacts.
From S2P Require Import DeviceRoutes.
From S2P Require Import Pacing.
From S2P Require Import Pairing.
From S2P Require Import PairingGrantFacts.
From S2P Require Import SendDoor.
From S2P Require Import Effects.
From S2P Require Import Client.
From S2P Require Import EffectsExamples.
From S2P Require Import EngineTypes.
From S2P Require Import Engine.
From S2P Require Import EngineReceive.
From S2P Require Import EngineSend.
From S2P Require Import EngineCopies.
From S2P Require Import EngineExamples.
From S2P Require Import E2eView.
From S2P Require Import Runtime.
From S2P Require Import Session.
From S2P Require Import SessionViews.
From S2P Require Import SessionInbox.
From S2P Require Import SessionFrames.
From S2P Require Import Compose.
From S2P Require Import RuntimeFacts.
From S2P Require Import SessionStateFacts.
From S2P Require Import SessionEngineFacts.
From stdpp Require Import options.

(** ** Instances *)

#[local] Existing Instance EngineExamples.engine_json.
#[local] Existing Instance EngineExamples.any_state_text.
#[local] Existing Instance EngineExamples.any_history_text.
#[local] Existing Instance EngineExamples.engine_text.
#[local] Existing Instance EngineExamples.engine_sessions.
#[local] Existing Instance PairingGrantFacts.concrete_channel.
#[local] Existing Instance PairingGrantFacts.concrete_pairing_text.
#[local] Existing Instance PairingGrantFacts.concrete_pending_text.
#[local] Existing Instance EffectsExamples.concrete_keys.
#[local] Existing Instance EffectsExamples.concrete_ecies_keys.

#[local] Instance no_answers : PairingAnswers := {|
  rendezvous_envelope _ := None;
  message_envelope _ := None;
  messages_envelope _ := None;
|}.

#[local] Instance concrete_chrono : Chrono := {|
  activity_time raw := Some raw;
  clock_text _ := Some "12:00:00";
  rfc3339_millis _ := None;
|}.

(** ** Sessions *)

(** The engine that read the keys of the peer. *)
Definition keyed : world E2eEngine.t := (accept_keys "luna" "{}" engine_outside fresh_world).1.
Definition luna_engine : Held.t := Held.mk (store keyed) (mem keyed).

Definition session_of (r : E2eRuntime.t) : session :=
  mk_session ∅
    (WorkerState.mk (Some (GrappaClient.mk "https://irc.example")) (Some "token") (Some "me") false
       (Some 60%N) {["azzurra" := "own"]} {["azzurra" := 1%Z]} ∅
       (Some ("azzurra", locked_label "luna")) true true true true SendBook.new [] [] ∅ None ∅ r)
    [] [].

Definition open_session : session :=
  session_of (E2eRuntime.set_locked {[("azzurra", "luna")]}
    (E2eRuntime.set_engines {["azzurra" := luna_engine]} E2eRuntime.new)).

Definition sample_files : engine_env := {|
  data_dir := None;
  state_stat := None;
  history_stat := None;
  state_env := sample_opening;
  history_env := history_opening;
  fresh_account := own_account;
  account_write := sample_env WriteOk;
|}.

Definition worked (events : list worker_event) (s : session) : session :=
  (run_worker (fun _ => sample_files) 9 events engine_outside s).1.

(** The identity of the network was reset; the engine is still open. *)
Definition reset_session : session :=
  session_of (E2eRuntime.set_reset {["azzurra"]} (WorkerState.e2e (worker open_session))).

(** ** Runs *)

(** The peer was not checked, and a line without a command goes to the engine. *)
Example open_window_state :
  locked_entry_state (worker open_session) "azzurra" "luna" = ChatState.SasPending.
Proof. by_vm. Qed.

Example typed_line :
  route_message (worker open_session) [] (Err ("", "")) "ciao" =
  ComposeRoute.Encrypted "azzurra" "luna" "ciao".
Proof. by_vm. Qed.

Example reset_line :
  shown (worked [SendLocked "azzurra" "luna" "ciao"] reset_session) =
  [UiEvent.Status "e2e-not-ready" "" ""].
Proof. by_vm. Qed.

(** ** Witnesses *)

Lemma engines_kept_witness :
  kept "azzurra" open_session /\
  kept "azzurra" (worked [SendLocked "azzurra" "luna" "ciao"; E2eTick] open_session).
Proof.
  assert (kept "azzurra" open_session) as Hs by (left; eexists; reflexivity).
  split; [exact Hs|].
  apply (engines_kept (fun _ => sample_files) 9 "azzurra" _ engine_outside open_session);
    [set_solver|exact Hs].
Defined.

Lemma reset_network_silent_witness :
  is_reset "azzurra" reset_session /\
  tick_e2e_engine "azzurra" engine_outside reset_session = (reset_session, tt).
Proof.
  assert (is_reset "azzurra" reset_session) as Hr by (by apply elem_of_singleton).
  split; [exact Hr|].
  apply (reset_network_silent (fun _ => sample_files) "azzurra" engine_outside reset_session Hr).
Defined.

Lemma locked_line_sealed_witness :
  open_locked_window (worker open_session) = Some ("azzurra", "luna") /\
  route_message (worker open_session) [] (Err ("", "")) "ciao" =
    ComposeRoute.Encrypted "azzurra" "luna" "ciao".
Proof.
  assert (open_locked_window (worker open_session) = Some ("azzurra", "luna")) as Ho
    by (vm_compute; reflexivity).
  split; [exact Ho|].
  apply (locked_line_sealed (worker open_session) "azzurra" "luna" [] (Err ("", "")) "ciao" Ho).
  vm_compute; reflexivity.
Defined.

(** An offer that the user accepts twice. *)
Definition sample_offer : PairingOffer.t := PairingOffer.mk (PairingLink.mk "id" "key") 100.
Definition offer_ops : list offer_op :=
  [Admit sample_offer ["azzurra"] (Some 60%N) 10; Take ["azzurra"] 20; Take ["azzurra"] 30].
Definition unpaired : E2eRuntime.t := E2eRuntime.set_needs_pairing {["azzurra"]} E2eRuntime.new.

Example offer_taken :
  (offer_run offer_ops unpaired).2 = [Shown sample_offer; Taken ["azzurra"] "id.key"].
Proof. by_vm. Qed.

Lemma offers_taken_once_witness :
  seen_ok unpaired /\ last_shown None unpaired /\
  let '(r', events) := offer_run offer_ops unpaired in
  seen_ok r' /\ taken_once None events /\ last_shown (waiting None events) r'.
Proof.
  assert (seen_ok unpaired) as Hok by (split; [constructor|cbn; lia]).
  assert (last_shown None unpaired) as Hw by (intros o; discriminate).
  split; [exact Hok|]. split; [exact Hw|].
  apply (offers_taken_once offer_ops unpaired None Hok Hw).
Defined.
